(* ===== verification/_CoqProject ===== *)
-Q . S2P
Prelude.v
GoStrings.v
Types.v
Crypto.v
DatabaseSpec.v
DatabaseInmem.v
DatabaseInmemTree.v
DatabaseInmemProofs.v
DatabaseInmemDisconnect.v
DatabaseInmemTheorems.v
DatabaseInmemUsers.v
DatabaseInmemInterface.v
DatabaseBolt.v
DatabaseBoltStore.v
DatabaseBoltProofs.v
DatabaseBoltSetFile.v
DatabaseBoltHolds.v
DatabaseBoltQueries.v
DatabaseBoltTheorems.v
DatabaseSqlite.v
DatabaseSqliteProofs.v
DatabaseSqliteCache.v
DatabaseSqliteTheorems.v
DatabaseEquivalence.v
Master.v
MasterTheorems.v
MasterIsolation.v
MasterRun.v
MasterRunTheorems.v
CryptoTheorems.v
Fetcher.v
FetcherBlocks.v
FetcherProofs.v
FetcherRuns.v
FetcherTheorems.v
Server.v
ServerTheorems.v
Scanner.v
ScannerTheorems.v
ScannerRun.v
ScannerRunTheorems.v
Publisher.v
PublisherTheorems.v
RpcLog.v
RpcLogTheorems.v
Frontend.v
FrontendTheorems.v
FrontendCalls.v
FrontendCallsTheorems.v
FrontendModules.v
FrontendModulesTheorems.v
FrontendRun.v
FrontendRunTheorems.v
Client.v
ClientTheorems.v
Rpc.v
Session.v
SessionTheorems.v
Startup.v
StartupTheorems.v
Process.v
ProcessTheorems.v
Exports.v
ExportsTheorems.v
System.v
SystemTheorems.v
Sharing.v
SharingTheorems.v
