(* ===== verification/Prelude.v ===== *)
(** * A verification development for RUFS

RUFS is a peer-to-peer file system: a master keeps the list of the files its
peers publish, peers serve the blocks of their files to each other, and a FUSE
mount or an FTP server shows everybody's files as one tree.

** The program and its model

- Process. [main.go] builds the modules its flags ask for, sets them up, runs
  each in a goroutine and waits for them. [Process.v] has [main] up to the
  goroutines as a function over the modules, and the goroutines, the channel,
  the signals and the exit code as a step relation. [Startup.v] is what the
  modules do before they run: [genMasterKeys], [newMaster] and the [Setup] of
  the master ([master.go]) and of the file server ([server.go]).
- Master. [master.go] answers the RPCs of signed-in peers from a [Database].
  [Master.v] has the handlers on the state of one connection ([Peer], [Conn]),
  and the master as a step relation over its connections; the database is any
  instance of the class [DatabaseOps] of [DatabaseSpec.v]. [MasterRun.v] is the
  accept loop of [Run] with its handshakes. The certificates and
  tokens of [crypto.go] are in [Crypto.v], with an executable SHA-1; [X509] is
  the class of what the code takes from the cryptographic packages.
- Database. [DatabaseSpec.v] is the abstract table of published files, the laws
  every database keeps ([DatabaseLaws]) and those not all of them keep
  ([DatabaseComplete]). A build tag selects one of three implementations.
  [DatabaseInmem.v] ([database_inmem.go], the default) has a tree of directories
  and owner counters; [DatabaseInmemTree.v], [DatabaseInmemProofs.v] and
  [DatabaseInmemDisconnect.v] carry its invariant and the refinement,
  [DatabaseInmemUsers.v] an invariant for users with several identities, and
  [DatabaseInmemInterface.v] makes it an instance of both classes.
  [DatabaseBolt.v] ([database_bolt.go]) works in transactions on the nested
  buckets of a key-value store, a class [BoltStore] with its laws [BoltLaws];
  [DatabaseBoltStore.v] is a concrete store, [DatabaseBoltProofs.v],
  [DatabaseBoltSetFile.v], [DatabaseBoltHolds.v] and [DatabaseBoltQueries.v] the
  invariant, update and queries. [DatabaseSqlite.v] ([database_sqlite.go]) issues
  statements to an engine, a class [SqlEngine] with its laws, and keeps a cache
  of directories; [DatabaseSqliteProofs.v] and [DatabaseSqliteCache.v] are about
  the rows and the cache.
- Scanner. [filescanner/filescanner.go] finds the files of a share and tells
  its listeners of changes. [Scanner.v] has the walk over a directory tree, the
  cache, [set] with its listeners, the fast and the normal pass, and the cache
  file; [ScannerRun.v] the saves in the middle of a pass and [Run].
- File server. [server.go] keeps the index from hashes to paths, tells the
  master of every change, and serves blocks. [Server.v] has [newServer],
  [SetFile], [Read] and [getCertificates], and [getPath] of [main.go].
  [Exports.v] has [Run]: the export of every share and the callback that renews
  it after a reconnection, and [set] interleaved with [ContinuousExport].
  [Publisher.v] is the channel and the goroutines between the scanner and the
  master, as a step relation in which requests hold pointers into a store.
- RPC clients. [types.go] reconnects to the master and signs in again.
  [Client.v] has [Call] as a function over a world that answers, and, for
  several callers, a step relation over the client they share. [Rpc.v] has the
  requests and replies, the methods that make the calls, and the client of a
  peer. [Session.v] puts the master's client and the master together: a world
  with the master's state and the connections that are alive, in which
  connections break and the master notices later.
- Fetcher. [fetch.go] reads the blocks of remote files through a cache that
  readers and fetching goroutines share. [Fetcher.v] splits it where the mutex
  is released ([begin_read], [complete], [finish_read]) and has the
  interleavings as a step relation; [FetcherBlocks.v] is the arithmetic of
  blocks, [FetcherProofs.v] the invariant of the shared state, [FetcherRuns.v]
  runs of readers.
- Frontends. [felib.go], [fuse.go] and [ftp.go] list and open files.
  [Frontend.v] has the directory cache with its purger, the FUSE nodes and the
  FTP driver; handles are the fetcher's. [FrontendModules.v] is how the two are
  made from the flags, the copies [fuse.go] has of the cache's operations, and
  the operations that are refused. [FrontendCalls.v] splits [GetDirCached] where
  it releases the mutex, [FrontendRun.v] is [Setup] and [Run] with their
  goroutines: the mount, its end, and the FTP server.
- Log. [common.go] reports calls that take long; [RpcLog.v] has its goroutine
  and timers.
- The whole. [System.v] puts the frontends on the client of the master, its
  handlers, the fetcher and the file servers of the peers.
- Shares. [Sharing.v] follows a share from its scanner over the callback of
  [Server.Run] and the goroutines of [startSetFileThreads] to the master.
- [GoStrings.v] is what the program uses of [strings], [strconv],
  [path/filepath] and [net]; [Types.v] the records peers exchange.

The parts meet in theorems: the scanner's calls keep the server's index
([ScannerTheorems.passes_keep_index]); what the server answers is what the
fetcher assumes of peers ([ServerTheorems.servers_are_honest]); the master's
theorems hold for every database with the laws, which all three are proved to
have; the calls of a peer, reconnections included, are steps of the master
([SessionTheorems.life_is_steps_of_master]); keys, tokens and certificates fit
from the master's first start to the peer's second
([StartupTheorems.registration_end_to_end]).

** What the theorems show

- [DatabaseInmemTheorems.v], [DatabaseBoltTheorems.v] and
  [DatabaseSqliteTheorems.v]: each database implements the table of published
  files and lists its directories, and what a disconnection takes away; with
  what goes wrong in each: deletions that panic, owners that stay or go too
  early, listings that miss a directory. [DatabaseEquivalence.v]: the in-memory
  database and the one on Bolt list alike after the same calls, but for the
  directories that were emptied.
- [MasterTheorems.v]: who may sign in and publish what, in every reachable
  state; a published file is listed to the others. [MasterIsolation.v]: with the
  in-memory database the files of a user are out of reach of other users, from
  however many addresses they sign in.
- [CryptoTheorems.v] and [StartupTheorems.v]: creating the master's vault is all
  or nothing; what [Register] certifies, and to whom; registration from end to
  end; what [Setup] leaves behind on every branch.
- [ProcessTheorems.v]: which modules [main] launches, the exit code, and that [main]
  comes to exit.
- [FetcherTheorems.v]: in every interleaving a finished read has the right bytes
  or none; fetches always finish and wake their readers; sequential reads and
  streams give the file; and where reads fail: past the last block, at the end
  of a file of whole blocks, after a failed fetch.
- [ServerTheorems.v]: the index is the inverse of the published files; reads
  serve the right bytes; shares and paths of flags; registration.
- [ScannerTheorems.v] and [ScannerRunTheorems.v]: what a pass makes of the cache
  and whom it tells, that a second pass is quiet, that saving is atomic and does
  not disturb a pass, and that a restart resumes.
- [ExportsTheorems.v]: after a reconnection the whole cache and every later
  change is told once; a race that loses the listener.
- [PublisherTheorems.v]: the changes and exports of any number of scanners are
  put to the master once each, changes unmixed but not in order, and what it
  refuses is only logged; an initial export may mix infos up.
- [ClientTheorems.v] and [SessionTheorems.v]: a call returns, with a reply of
  its type, and restores the callback; the methods of the client reach the
  handlers of their names; a publication survives a reconnection;
  one caller at a time stays signed in, two can lose the sign-in for good, a
  refused sign-in sticks, and a late [Disconnected] of the old connection takes
  back what was published through the new one.
- [MasterRunTheorems.v]: the accept loop runs the steps of [Master.v], and ends.
- [FrontendTheorems.v], [FrontendCallsTheorems.v], [FrontendModulesTheorems.v] and
  [FrontendRunTheorems.v]: how old a cached directory can be, alone and with
  calls interleaved; that the views of a directory and the two frontends agree;
  FTP listings; who may open files and reach the mount; and when the mount stops.
- [RpcLogTheorems.v]: when and how often a running call is reported, that its end
  is logged once, and that the goroutine ends.
- [SystemTheorems.v]: a file that a file server announces can be read, byte for
  byte, through the mount and the FTP server of every other signed-in peer; and
  a deleted one disappears from the mounts of others with the third tick of
  their purgers, whatever calls are on their way.
- [SharingTheorems.v]: a pass over a shared directory brings its files, however
  the goroutines interleave, to the master's table and nothing else of it out of
  place; and what scanner, index and table agree on everybody can read.

** Conventions

A Go call returns, panics, or (in the model only) runs out of fuel: the type
[outcome] below. Errors are values of [error], in which the error variables of
packages, that the code compares by identity, are told from errors that read the
same; a function with an error result answers a sum or a pair as the code does. [int] and [int64] are [Z] with
wrap-around ([i64]) where the code computes with numbers of a request; [int] has
64 bits. Indexing and slicing check bounds as Go does. The order in which Go
ranges over a map is a parameter ([MapRange]) of every definition that does so,
and the theorems hold for all orders. Maps are [gmap]; a map that may be nil is
one where the code only reads it. Times are numbers of nanoseconds. What a
package outside the repository does is an argument or a class ([X509],
[BoltStore], [JSON], [SqlEngine], [OS]); its laws are the documented behaviour
the code relies on, and a concrete instance shows that they can hold.

Fuel: loops of the code that are not structural get fuel from their caller, in
the model the length of what they run over, and a theorem shows that it is
enough ([set_tells_live_listeners] for the listeners, [Call_returns] for calls in
callbacks, which go two levels deep,
[PeerDisconnected_correct] for the tree, [getPath_terminates] for paths, whose
recursion really can be endless). [block_loop] counts down from the number of
blocks between its bounds.

** What is not modelled

Sockets and TLS handshakes; what flag packages and signals do beyond when they
happen; what the FUSE and FTP packages do inside the calls that [FrontendRun.v]
has as steps; the gob and gzip encodings (arguments); [Close] of databases and
clients. [Session.v] has the connections of one peer; [Master.v] has those of
all. [use_mount] and [use_ftp] of [System.v] are a program and an FTP client at
work, one request after the other. A failed allocation for an absurd block size
is not told apart from a served request. *)

From stdpp Require Export base tactics numbers option list gmap strings fin_maps fin_sets sorting.
From Stdlib Require Export Ascii ZArith Lia.

(** ** Results of Go code

A Go call ends in one of three ways that the development tells apart: it
returns (with its results, an [error] among them where the code has one), it
panics, or, only in the model, the fuel given to a loop runs out. *)

Inductive outcome (A : Type) : Type :=
  | Done (a : A)
  | Panic (why : string)
  | NoFuel.
Arguments Done {A} a.
Arguments Panic {A} why.
Arguments NoFuel {A}.

#[global] Instance outcome_ret : MRet outcome := fun A a => Done a.
#[global] Instance outcome_bind : MBind outcome := fun A B k m =>
  match m with
  | Done a => k a
  | Panic why => Panic why
  | NoFuel => NoFuel
  end.

#[global] Instance outcome_eq_dec `{EqDecision A} : EqDecision (outcome A).
Proof. solve_decision. Defined.

(** An [error] value: a fixed text ([errors.New], or [fmt.Errorf] without
verbs), or a format with the operands it is applied to, or the value of a
variable that is compared by identity, as [io.EOF], with its text. Rendering the
verbs is left to the reader of the message. *)
Inductive error : Type :=
  | errors_New (text : string)
  | Errorf (format : string) (operands : list error)
  | error_var (text : string).

(** [err.Error() == text], for a [text] that is no instance of a format with
verbs. *)
Definition error_is (e : error) (text : string) : bool :=
  match e with
  | errors_New s | error_var s => bool_decide (s = text)
  | Errorf _ _ => false
  end.

(** [err == v] for a variable [v] with this text; the texts of those that the
program compares with differ. *)
Definition error_same (e v : error) : bool :=
  match e, v with
  | error_var s, error_var t => bool_decide (s = t)
  | _, _ => false
  end.

(** [io.EOF] *)
Definition io_EOF : error := error_var "EOF".

Definition index_out_of_range : string := "runtime error: index out of range".
Definition slice_out_of_range : string := "runtime error: slice bounds out of range".
Definition nil_map_assignment : string := "assignment to entry in nil map".
Definition nil_dereference : string :=
  "runtime error: invalid memory address or nil pointer dereference".

(** ** Machine integers

[int64] (and [int], on the 64-bit platforms the program targets) as [Z] with
its wrap-around. *)

Definition i64 (z : Z) : Z := (z + 2 ^ 63) `mod` 2 ^ 64 - 2 ^ 63.

Definition in_i64 (z : Z) : Prop := (- 2 ^ 63 <= z < 2 ^ 63)%Z.

Lemma i64_id (z : Z) : in_i64 z -> i64 z = z.
Proof. unfold i64, in_i64. intros H. rewrite Z.mod_small; lia. Qed.

Lemma i64_range (z : Z) : in_i64 (i64 z).
Proof.
  unfold i64, in_i64.
  pose proof (Z.mod_pos_bound (z + 2 ^ 63) (2 ^ 64) ltac:(lia)). lia.
Qed.

(** Takes apart a hypothesis that a sequence of calls returned. *)
Ltac outcome_inv :=
  repeat match goal with
  | H : mbind _ ?m = Done _ |- _ =>
      let E := fresh "E" in destruct m eqn:E; simpl in H; try discriminate H
  | H : Done _ = Done _ |- _ => injection H as H
  | H : Panic _ = Done _ |- _ => discriminate H
  | H : NoFuel = Done _ |- _ => discriminate H
  end.

(** ** Indexing with Go's bounds checks *)

Section indexing.
Context {A : Type}.
Implicit Types (l : list A) (i : Z).

(** [len(l)] *)
Definition len l : Z := Z.of_nat (length l).

(** [l[i]] *)
Definition go_index l i : outcome A :=
  if decide (0 <= i)%Z then
    match l !! Z.to_nat i with
    | Some x => Done x
    | None => Panic index_out_of_range
    end
  else Panic index_out_of_range.

(** [l[i] = x] *)
Definition go_store l i (x : A) : outcome (list A) :=
  if decide (0 <= i < len l)%Z then Done (<[Z.to_nat i := x]> l)
  else Panic index_out_of_range.

(** [l[lo:hi]], for a slice whose capacity is its length. *)
Definition go_slice l (lo hi : Z) : outcome (list A) :=
  if decide (0 <= lo <= hi /\ hi <= len l)%Z
  then Done (take (Z.to_nat (hi - lo)) (drop (Z.to_nat lo) l))
  else Panic slice_out_of_range.

Lemma len_nonneg l : (0 <= len l)%Z.
Proof. unfold len. lia. Qed.

Lemma go_index_Done l i x :
  go_index l i = Done x <-> (0 <= i)%Z /\ l !! Z.to_nat i = Some x.
Proof.
  unfold go_index. case_decide; [|naive_solver].
  destruct (l !! Z.to_nat i) eqn:E; naive_solver.
Qed.

Lemma go_index_lookup l (n : nat) x : l !! n = Some x -> go_index l (Z.of_nat n) = Done x.
Proof. intros H. apply go_index_Done. rewrite Nat2Z.id. split; [lia|done]. Qed.

Lemma go_index_neg l i : (i < 0)%Z -> go_index l i = Panic index_out_of_range.
Proof. intros H. unfold go_index. case_decide; [lia|done]. Qed.

Lemma go_index_ge l i : (len l <= i)%Z -> go_index l i = Panic index_out_of_range.
Proof.
  intros H. unfold go_index, len in *. case_decide; [|done].
  rewrite lookup_ge_None_2; [done|lia].
Qed.

Lemma go_index_total l i :
  (0 <= i < len l)%Z -> exists x, go_index l i = Done x /\ l !! Z.to_nat i = Some x.
Proof.
  intros [H1 H2]. unfold len in H2.
  destruct (lookup_lt_is_Some_2 l (Z.to_nat i)) as [x Hx]; [lia|].
  exists x. split; [apply go_index_Done|]; auto.
Qed.

Lemma go_index_last l x : go_index (l ++ [x]) (len (l ++ [x]) - 1) = Done x.
Proof.
  apply go_index_Done. unfold len. rewrite length_app. simpl.
  split; [lia|]. replace (Z.to_nat _) with (length l) by lia.
  apply list_lookup_middle. done.
Qed.

Lemma go_store_Done l i x :
  (0 <= i < len l)%Z -> go_store l i x = Done (<[Z.to_nat i := x]> l).
Proof. intros H. unfold go_store. by case_decide. Qed.

Lemma len_insert l (n : nat) x : len (<[n := x]> l) = len l.
Proof. unfold len. by rewrite length_insert. Qed.

Lemma go_slice_Done l lo hi :
  (0 <= lo <= hi)%Z -> (hi <= len l)%Z ->
  go_slice l lo hi = Done (take (Z.to_nat (hi - lo)) (drop (Z.to_nat lo) l)).
Proof. intros H1 H2. unfold go_slice. case_decide; [done|lia]. Qed.
End indexing.

(** ** Ranging over a Go map

[for k, v := range m] visits every entry once, in an order the language leaves
open. A [MapRange] is one choice of orders; every theorem of the development
holds for each. *)
Class MapRange := {
  range_map : forall {V : Type}, gmap string V -> list (string * V);
  range_map_perm : forall {V : Type} (m : gmap string V), range_map m ≡ₚ map_to_list m;
}.

(** The order of stdpp's [map_to_list]: an instance for concrete runs. *)
Definition std_range : MapRange :=
  {| range_map := fun V m => map_to_list m; range_map_perm := fun V m => reflexivity _ |}.

Section map_range.
Context `{MapRange} {V : Type}.
Implicit Types (m : gmap string V).

Lemma elem_of_range_map m k v : (k, v) ∈ range_map m <-> m !! k = Some v.
Proof. rewrite range_map_perm. apply elem_of_map_to_list. Qed.

Lemma NoDup_range_map m : NoDup (range_map m).*1.
Proof. rewrite range_map_perm. apply NoDup_fst_map_to_list. Qed.

Lemma elem_of_range_keys m k : k ∈ (range_map m).*1 <-> is_Some (m !! k).
Proof.
  rewrite list_elem_of_fmap. split.
  - intros [[k' v] [-> Hin]]. exists v. by apply elem_of_range_map.
  - intros [v Hv]. exists (k, v). split; [done|]. by apply elem_of_range_map.
Qed.
End map_range.

(** ** Loops and counting *)

(** A loop over a list whose body may panic. *)
Fixpoint foldM {A B : Type} (body : B -> A -> outcome B) (acc : B) (l : list A) : outcome B :=
  match l with
  | [] => Done acc
  | x :: l' => acc' ← body acc x; foldM body acc' l'
  end.

(** An invariant of a step relation holds in every state that it reaches. *)
Lemma rtc_inv {A : Type} (R : A -> A -> Prop) (I : A -> Prop) x y :
  I x -> (forall y z, R y z -> I y -> I z) -> rtc R x y -> I y.
Proof. intros Hx Hstep. induction 1 as [|x y z Hxy _ IH]; [done|]. by eapply IH, Hstep. Qed.

(** What holds before the loop and is kept by each pass holds after it. *)
Lemma foldM_inv {A B : Type} (body : B -> A -> outcome B) (I : list A -> B -> Prop) acc l r :
  foldM body acc l = Done r ->
  I [] acc ->
  (forall done x todo b b', l = done ++ x :: todo -> I done b -> body b x = Done b' ->
     I (done ++ [x]) b') ->
  I l r.
Proof.
  intros Hrun H0 Hstep.
  enough (Hgen : forall todo done b, l = done ++ todo -> I done b ->
            foldM body b todo = Done r -> I l r) by (by apply (Hgen l [] acc)).
  induction todo as [|x todo IH]; intros done b Hl Hb Hr; simpl in Hr.
  - outcome_inv. subst. by rewrite app_nil_r in *.
  - outcome_inv. eapply (IH (done ++ [x])); [|by eapply Hstep|done].
    by rewrite <-app_assoc.
Qed.

(** A loop whose passes all return returns. *)
Lemma foldM_total {A B : Type} (body : B -> A -> outcome B) (I : list A -> B -> Prop) acc l :
  I [] acc ->
  (forall done x todo b, l = done ++ x :: todo -> I done b ->
     exists b', body b x = Done b' /\ I (done ++ [x]) b') ->
  exists r, foldM body acc l = Done r /\ I l r.
Proof.
  intros H0 Hstep.
  enough (Hgen : forall todo done b, l = done ++ todo -> I done b ->
            exists r, foldM body b todo = Done r /\ I l r) by (by apply (Hgen l [] acc)).
  induction todo as [|x todo IH]; intros done b Hl Hb; simpl.
  - exists b. subst. by rewrite app_nil_r in *.
  - destruct (Hstep done x todo b Hl Hb) as (b' & Hb' & HI). rewrite Hb'. simpl.
    apply (IH (done ++ [x])); [|done]. by rewrite <-app_assoc.
Qed.

(** The same where the body may panic, for a reason [P]. *)
Lemma foldM_or_panic {A B : Type} (body : B -> A -> outcome B) (I : list A -> B -> Prop) why (P : Prop) acc l :
  I [] acc ->
  (forall done x todo b, l = done ++ x :: todo -> I done b ->
     (exists b', body b x = Done b' /\ I (done ++ [x]) b') \/ (body b x = Panic why /\ P)) ->
  (exists r, foldM body acc l = Done r /\ I l r) \/ (foldM body acc l = Panic why /\ P).
Proof.
  intros H0 Hstep.
  enough (Hgen : forall todo done b, l = done ++ todo -> I done b ->
            (exists r, foldM body b todo = Done r /\ I l r) \/ (foldM body b todo = Panic why /\ P))
    by (by apply (Hgen l [] acc)).
  induction todo as [|x todo IH]; intros done b Hl Hb; simpl.
  - left. exists b. subst. by rewrite app_nil_r in *.
  - destruct (Hstep done x todo b Hl Hb) as [(b' & -> & HI)|[-> HP]]; [|by right].
    apply (IH (done ++ [x])); [|done]. by rewrite <-app_assoc.
Qed.

Section counting.
Context `{Countable K} {A : Type} (P : K * A -> Prop) `{forall x, Decision (P x)}.
Implicit Types (m : gmap K A).

(** How many entries of a map satisfy [P]. *)
Definition count_map m : nat := size (filter P m).

(** The contribution of one entry. *)
Definition weight (k : K) (o : option A) : nat :=
  match o with
  | Some x => if decide (P (k, x)) then 1 else 0
  | None => 0
  end.

Lemma count_map_delete m k : count_map m = count_map (delete k m) + weight k (m !! k).
Proof.
  unfold count_map, weight. destruct (m !! k) as [x|] eqn:E.
  - rewrite <-(insert_delete_id m k x E) at 1. case_decide.
    + rewrite map_filter_insert_True by done.
      rewrite map_size_insert_None; [lia|].
      apply map_lookup_filter_None_2. left. apply lookup_delete_eq.
    + rewrite map_filter_insert_False by done. rewrite delete_delete_eq. lia.
  - rewrite delete_id by done. lia.
Qed.

Lemma count_map_insert m k x : count_map (<[k := x]> m) = count_map (delete k m) + weight k (Some x).
Proof.
  rewrite (count_map_delete _ k), delete_insert_eq, lookup_insert_eq. done.
Qed.

Lemma count_map_positive m k x : m !! k = Some x -> P (k, x) -> 0 < count_map m.
Proof.
  intros Hk HP. rewrite (count_map_delete m k), Hk. simpl. case_decide; [lia|done].
Qed.

Lemma count_map_zero m : count_map m = 0 <-> forall k x, m !! k = Some x -> ~ P (k, x).
Proof.
  split.
  - intros Hz k x Hk HP. pose proof (count_map_positive m k x Hk HP). lia.
  - intros Hno. unfold count_map. apply map_size_empty_iff, map_empty.
    intros k. apply map_lookup_filter_None. right. eauto.
Qed.
End counting.

(** ** Tactics and hints *)

Create HintDb rufs discriminated.
#[export] Hint Resolve len_nonneg i64_range : rufs.
Create Rewrite HintDb rufs.
#[export] Hint Rewrite @len_insert : rufs.
