(* ===== verification/GoStrings.v ===== *)
(** * Strings and slash-separated paths of the Go standard library

What the program uses of [strings] and [path/filepath], on byte strings, with
the round trips between splitting and joining that the components rely on. *)

From S2P Require Import Prelude.

Module strings.

(** The bytes of [s] up to a separator, with the rest: [skip] is what is left
of a separator that is being passed over. *)
Fixpoint Split_from (sep : string) (skip : nat) (s : string) : list string :=
  match s with
  | EmptyString => [EmptyString]
  | String a s' =>
      match skip with
      | S k => Split_from sep k s'
      | O =>
          if String.prefix sep s then EmptyString :: Split_from sep (String.length sep - 1) s'
          else match Split_from sep 0 s' with
               | p :: ps => String a p :: ps
               | [] => [String a EmptyString]
               end
      end
  end.

(** [strings.Split(s, sep)], for a separator that is not empty. *)
Definition Split (s sep : string) : list string := Split_from sep 0 s.

(** [strings.Join(parts, sep)] *)
Definition Join (parts : list string) (sep : string) : string := String.concat sep parts.

(** [strings.HasPrefix(s, p)] *)
Definition HasPrefix (s p : string) : bool := String.prefix p s.

(** [s[n:]] for [n] at most the length of [s]. *)
Fixpoint drop (n : nat) (s : string) : string :=
  match n, s with
  | S n', String _ s' => drop n' s'
  | _, _ => s
  end.

(** [strings.TrimLeft(s, c)] and [strings.TrimRight(s, c)] for one byte [c]. *)
Fixpoint TrimLeft (s : string) (c : ascii) : string :=
  match s with
  | EmptyString => EmptyString
  | String a s' => if decide (a = c) then TrimLeft s' c else s
  end.

Fixpoint TrimRight (s : string) (c : ascii) : string :=
  match s with
  | EmptyString => EmptyString
  | String a s' =>
      match TrimRight s' c with
      | EmptyString => if decide (a = c) then EmptyString else String a EmptyString
      | r => String a r
      end
  end.

(** [strings.Trim(s, c)] for a cutset of one byte [c]. *)
Definition Trim (s : string) (c : ascii) : string := TrimRight (TrimLeft s c) c.

(** [strings.SplitN(s, sep, 2)] *)
Fixpoint SplitN2 (s : string) (c : ascii) : list string :=
  match s with
  | EmptyString => [EmptyString]
  | String a s' =>
      if decide (a = c) then [EmptyString; s']
      else match SplitN2 s' c with
           | p :: ps => String a p :: ps
           | [] => [String a EmptyString]
           end
  end.

(** Whether byte [c] occurs in [s]. *)
Fixpoint Contains (s : string) (c : ascii) : bool :=
  match s with
  | EmptyString => false
  | String a s' => bool_decide (a = c) || Contains s' c
  end.

(** [strings.IndexByte(s, c)] and [strings.LastIndexByte(s, c)]; [None] is -1. *)
Fixpoint IndexByte (s : string) (c : ascii) : option nat :=
  match s with
  | EmptyString => None
  | String a s' => if decide (a = c) then Some 0 else S <$> IndexByte s' c
  end.

Fixpoint LastIndexByte (s : string) (c : ascii) : option nat :=
  match s with
  | EmptyString => None
  | String a s' =>
      match LastIndexByte s' c with
      | Some n => Some (S n)
      | None => if decide (a = c) then Some 0 else None
      end
  end.

(** [s[:n]] for [n] at most the length of [s]. *)
Definition take (n : nat) (s : string) : string := String.substring 0 n s.

End strings.

Definition slash : ascii := "/"%char.
Definition NUL : ascii := Ascii.zero.

(** The string of one byte. *)
Definition str1 (c : ascii) : string := String c EmptyString.

(** ** Splitting and joining at one byte *)

Section split_char.
Context (c : ascii).
Abbreviation no_sep p := (strings.Contains p c = false).

Lemma prefix_char a s : String.prefix (str1 c) (String a s) = bool_decide (a = c).
Proof.
  simpl. destruct (Ascii.ascii_dec c a) as [->|Hne].
  - destruct s; simpl; by rewrite bool_decide_eq_true_2.
  - rewrite bool_decide_eq_false_2; [done|congruence].
Qed.

Lemma Split_char_cons a s :
  strings.Split (String a s) (str1 c) =
    if decide (a = c) then EmptyString :: strings.Split s (str1 c)
    else match strings.Split s (str1 c) with
         | p :: ps => String a p :: ps
         | [] => [String a EmptyString]
         end.
Proof.
  unfold strings.Split. cbn [strings.Split_from].
  rewrite prefix_char. case_decide.
  - by rewrite bool_decide_eq_true_2.
  - by rewrite bool_decide_eq_false_2.
Qed.

Lemma Split_not_nil s : strings.Split s (str1 c) <> [].
Proof.
  destruct s; [done|]. rewrite Split_char_cons.
  case_decide; [done|]. by destruct (strings.Split _ _).
Qed.

(** Joining the parts of a string gives it back. *)
Lemma Join_Split s : strings.Join (strings.Split s (str1 c)) (str1 c) = s.
Proof.
  unfold strings.Join. induction s as [|a s IH]; [done|].
  rewrite Split_char_cons. pose proof (Split_not_nil s) as Hn.
  destruct (strings.Split s (str1 c)) as [|p ps]; [done|].
  case_decide as Ha.
  - transitivity (String c (String.concat (str1 c) (p :: ps))); [done|]. by rewrite IH, Ha.
  - transitivity (String a (String.concat (str1 c) (p :: ps))); [by destruct ps|]. by rewrite IH.
Qed.

(** No part of a split string holds the separator. *)
Lemma Split_no_sep s : Forall (fun p => no_sep p) (strings.Split s (str1 c)).
Proof.
  induction s as [|a s IH]; [by repeat constructor|].
  rewrite Split_char_cons. case_decide; [by constructor|].
  destruct (strings.Split s (str1 c)) as [|p ps].
  - repeat constructor. simpl. by rewrite bool_decide_eq_false_2.
  - apply Forall_cons in IH as [Hp Hps]. constructor; [|done].
    simpl. by rewrite bool_decide_eq_false_2.
Qed.

Lemma Split_single p : no_sep p -> strings.Split p (str1 c) = [p].
Proof.
  induction p as [|a p IH]; [done|]. simpl. intros H.
  apply orb_false_iff in H as [Ha Hp]. apply bool_decide_eq_false in Ha.
  rewrite Split_char_cons. case_decide; [done|]. by rewrite IH.
Qed.

Lemma Split_app p s :
  no_sep p ->
  strings.Split (p ++ str1 c ++ s)%string (str1 c) = p :: strings.Split s (str1 c).
Proof.
  induction p as [|a p IH]; intros H.
  - change ("" ++ str1 c ++ s)%string with (String c s).
    rewrite Split_char_cons. by case_decide.
  - simpl in H. change (String a p ++ str1 c ++ s)%string with (String a (p ++ str1 c ++ s)).
    apply orb_false_iff in H as [Ha Hp]. apply bool_decide_eq_false in Ha.
    rewrite Split_char_cons. case_decide; [done|]. by rewrite (IH Hp).
Qed.

(** Splitting what was joined gives the parts back. *)
Lemma Split_Join ps :
  ps <> [] -> Forall (fun p => no_sep p) ps ->
  strings.Split (strings.Join ps (str1 c)) (str1 c) = ps.
Proof.
  intros Hne Hps. induction Hps as [|p ps Hp Hps IH]; [done|].
  destruct ps as [|q ps].
  - by apply Split_single.
  - change (strings.Join (p :: q :: ps) (str1 c))
      with (p ++ str1 c ++ strings.Join (q :: ps) (str1 c))%string.
    rewrite Split_app by done. by rewrite IH.
Qed.

(** A string with one more part. *)
Lemma Split_snoc s p :
  no_sep p ->
  strings.Split (s ++ str1 c ++ p)%string (str1 c) = strings.Split s (str1 c) ++ [p].
Proof.
  intros Hp. induction s as [|a s IH].
  - rewrite Split_app by done. by rewrite Split_single.
  - change (String a s ++ str1 c ++ p)%string with (String a (s ++ str1 c ++ p)).
    rewrite !Split_char_cons, IH. case_decide; [done|].
    pose proof (Split_not_nil s). by destruct (strings.Split s (str1 c)).
Qed.
End split_char.

Lemma Contains_app s t c : strings.Contains (s ++ t)%string c = strings.Contains s c || strings.Contains t c.
Proof.
  induction s as [|a s IH]; [done|]. change (String a s ++ t)%string with (String a (s ++ t)).
  simpl. by rewrite IH, orb_assoc.
Qed.

(** The bytes of a joined string. *)
Lemma Contains_Join ps sep c :
  Forall (fun p => strings.Contains p c = false) ps -> strings.Contains sep c = false ->
  strings.Contains (strings.Join ps sep) c = false.
Proof.
  intros Hps Hsep. induction Hps as [|p ps Hp Hps IH]; [done|]. destruct ps as [|q ps]; [done|].
  change (strings.Join (p :: q :: ps) sep) with (p ++ sep ++ strings.Join (q :: ps) sep)%string.
  by rewrite !Contains_app, Hp, Hsep, IH.
Qed.

(** Two parts or more have a separator between them. *)
Lemma Contains_Join_sep ps c : 2 <= length ps -> strings.Contains (strings.Join ps (str1 c)) c = true.
Proof.
  destruct ps as [|p [|q ps]]; simpl; [lia..|]. intros _.
  change (strings.Contains (p ++ str1 c ++ strings.Join (q :: ps) (str1 c)) c = true).
  rewrite !Contains_app. simpl. rewrite bool_decide_eq_true_2 by done. by rewrite orb_true_r.
Qed.

(** ** Trimming *)

Section trim.
Context (c : ascii).

Lemma TrimRight_last s a : a <> c -> strings.TrimRight (s ++ str1 a)%string c = (s ++ str1 a)%string.
Proof.
  intros Ha. induction s as [|b s IH]; simpl.
  - by rewrite decide_False.
  - rewrite IH. by destruct s.
Qed.

Lemma TrimRight_no_sep s : strings.Contains s c = false -> strings.TrimRight s c = s.
Proof.
  induction s as [|b s IH]; simpl; [done|]. intros [Hb Hs]%orb_false_iff.
  apply bool_decide_eq_false in Hb. rewrite (IH Hs).
  destruct s; [by rewrite decide_False|done].
Qed.

Lemma TrimRight_app s1 s2 :
  strings.TrimRight s2 c = s2 -> s2 <> "" ->
  strings.TrimRight (s1 ++ s2)%string c = (s1 ++ s2)%string.
Proof.
  intros H2 Hne. induction s1 as [|b s1 IH]; simpl; [done|].
  rewrite IH. destruct s1; simpl; [by destruct s2|done].
Qed.

(** Joined parts that are not empty have nothing to trim. *)
Lemma Trim_Join ps :
  Forall (fun p => p <> "" /\ strings.Contains p c = false) ps ->
  strings.Trim (strings.Join ps (str1 c)) c = strings.Join ps (str1 c).
Proof.
  intros Hps. unfold strings.Trim.
  assert (Hr : strings.TrimRight (strings.Join ps (str1 c)) c = strings.Join ps (str1 c)).
  { induction Hps as [|p ps [Hne Hp] Hps IH]; [done|].
    destruct ps as [|q ps]; [by apply TrimRight_no_sep|].
    change (strings.Join (p :: q :: ps) (str1 c))
      with (p ++ str1 c ++ strings.Join (q :: ps) (str1 c))%string.
    assert (strings.Join (q :: ps) (str1 c) <> "") as Hj.
    { apply Forall_cons in Hps as [[Hq _] _]. destruct q; [done|]. by destruct ps. }
    apply TrimRight_app; [|by destruct p].
    apply TrimRight_app; [exact IH|exact Hj]. }
  rewrite <-Hr at 2. f_equal.
  destruct Hps as [|p ps [Hne Hp] _]; [done|].
  destruct p as [|a p]; [done|]. simpl in Hp. apply orb_false_iff in Hp as [Ha _].
  apply bool_decide_eq_false in Ha.
  assert (exists s, strings.Join (String a p :: ps) (str1 c) = String a s) as [s ->].
  { destruct ps; simpl; eauto. }
  simpl. by rewrite decide_False.
Qed.
End trim.

(** ** Paths *)

Module filepath.

(** [filepath.Split(path)]: the part up to and with the last slash, and what
follows it. *)
Fixpoint Split (path : string) : string * string :=
  match path with
  | EmptyString => (EmptyString, EmptyString)
  | String a s =>
      let '(dir, file) := Split s in
      if decide (a = slash) then (String a dir, file)
      else match dir with
           | EmptyString => (EmptyString, String a file)
           | _ => (String a dir, file)
           end
  end.

(** One component of the path pushed on the reversed list of those kept, as
the loop of [filepath.Clean] does. *)
Definition push (rooted : bool) (acc : list string) (p : string) : list string :=
  if decide (p = "" \/ p = ".") then acc
  else if decide (p = "..") then
    match acc with
    | [] => if rooted then [] else [p]
    | q :: acc' => if decide (q = "..") then p :: acc else acc'
    end
  else p :: acc.

(** [filepath.Clean(path)] *)
Definition Clean (path : string) : string :=
  if decide (path = "") then "."
  else
    let rooted := strings.HasPrefix path "/" in
    let kept := rev (fold_left (push rooted) (strings.Split path "/") []) in
    let body := strings.Join kept "/" in
    if rooted then String slash body
    else if decide (body = "") then "." else body.

(** [filepath.Join(elem...)] *)
Fixpoint Join (elem : list string) : string :=
  match elem with
  | [] => ""
  | e :: rest => if decide (e = "") then Join rest else Clean (strings.Join elem "/")
  end.

(** [path.Base(path)] *)
Definition Base (path : string) : string :=
  if decide (path = "") then "."
  else let file := (Split (strings.TrimRight path slash)).2 in
       if decide (file = "") then "/" else file.

End filepath.

Example Base_dir : filepath.Base "/srv/media/" = "media".
Proof. reflexivity. Qed.

Example Clean_dots : filepath.Clean "a//b/./../c/" = "a/c".
Proof. reflexivity. Qed.

Example Join_share : filepath.Join [""; "x/y"] = "x/y".
Proof. reflexivity. Qed.

(** [filepath.Split] cuts its argument in two, and the file part has no slash. *)
Lemma filepath_Split_app path :
  let '(dir, file) := filepath.Split path in path = (dir ++ file)%string.
Proof.
  induction path as [|a s IH]; [done|]. simpl.
  destruct (filepath.Split s) as [dir file]. subst s.
  case_decide; [done|]. by destruct dir.
Qed.

Lemma filepath_Split_file path : strings.Contains (filepath.Split path).2 slash = false.
Proof.
  induction path as [|a s IH]; [done|]. simpl.
  destruct (filepath.Split s) as [dir file]. simpl in IH.
  case_decide; [done|]. destruct dir; [|done].
  simpl. by rewrite bool_decide_eq_false_2.
Qed.

(** *** Paths of good parts *)

(** A part that [filepath.Clean] keeps. *)
Definition plain_part (p : string) : Prop :=
  p <> "" /\ p <> "." /\ p <> ".." /\ strings.Contains p slash = false.

Lemma push_plain rooted ps acc :
  Forall plain_part ps -> fold_left (filepath.push rooted) ps acc = rev ps ++ acc.
Proof.
  intros Hps. revert acc. induction Hps as [|p ps (H1 & H2 & H3 & _) _ IH]; intros acc; [done|].
  simpl. rewrite IH. unfold filepath.push. rewrite decide_False by naive_solver.
  rewrite decide_False by done. by rewrite <-(assoc_L (++)).
Qed.

Lemma Join_parts_not_empty ps :
  ps <> [] -> Forall plain_part ps -> strings.Join ps "/" <> "".
Proof.
  intros Hne Hps. destruct Hps as [|p ps (Hp & _) _]; [done|].
  destruct p; [done|]. by destruct ps.
Qed.

Lemma Join_parts_prefix ps :
  Forall plain_part ps -> strings.HasPrefix (strings.Join ps "/") "/" = false.
Proof.
  intros Hps. destruct Hps as [|p ps (Hp & _ & _ & Hc) _]; [done|].
  destruct p as [|a p]; [done|]. simpl in Hc. apply orb_false_iff in Hc as [Ha _].
  apply bool_decide_eq_false in Ha.
  assert (strings.HasPrefix (String a (p ++ match ps with [] => "" | _ => "/" ++ strings.Join ps "/" end)) "/" = false)
    as Hpre; [|destruct ps; [|exact Hpre]].
  - unfold strings.HasPrefix. change "/"%string with (str1 slash). rewrite prefix_char.
    by rewrite bool_decide_eq_false_2.
  - unfold strings.HasPrefix, strings.Join. simpl String.concat. change "/"%string with (str1 slash).
    rewrite prefix_char. by rewrite bool_decide_eq_false_2.
Qed.

(** Cleaning a path of such parts changes nothing. *)
Lemma Clean_parts ps :
  ps <> [] -> Forall plain_part ps -> filepath.Clean (strings.Join ps "/") = strings.Join ps "/".
Proof.
  intros Hne Hps. pose proof (Join_parts_not_empty ps Hne Hps) as Hj.
  unfold filepath.Clean. rewrite decide_False by done.
  rewrite (Join_parts_prefix ps Hps).
  assert (strings.Split (strings.Join ps "/") "/" = ps) as ->.
  { apply (Split_Join slash); [done|]. eapply Forall_impl; [exact Hps|]. by intros p (_ & _ & _ & ?). }
  rewrite push_plain by done. rewrite app_nil_r, rev_involutive. by rewrite decide_False.
Qed.

(** Joining two such paths joins their parts. *)
Lemma Join_app ps qs :
  ps <> [] -> qs <> [] ->
  strings.Join [strings.Join ps "/"; strings.Join qs "/"] "/" = strings.Join (ps ++ qs) "/".
Proof.
  intros Hp Hq. induction ps as [|p ps IH]; [done|]. destruct ps as [|p' ps].
  - simpl. destruct qs; [done|]. done.
  - assert (Happ : forall a b c : string, ((a ++ b) ++ c = a ++ (b ++ c))%string).
    { induction a as [|x a IHa]; intros b c; [done|].
      change (String x ((a ++ b) ++ c) = String x (a ++ (b ++ c)))%string. by rewrite IHa. }
    specialize (IH ltac:(done)). unfold strings.Join in *.
    change ((p ++ "/" ++ String.concat "/" (p' :: ps)) ++ "/" ++ String.concat "/" qs =
      p ++ "/" ++ String.concat "/" ((p' :: ps) ++ qs))%string.
    rewrite <-IH. rewrite !Happ. done.
Qed.

Lemma filepath_Join_parts ps qs :
  qs <> [] -> Forall plain_part ps -> Forall plain_part qs ->
  filepath.Join [strings.Join ps "/"; strings.Join qs "/"] = strings.Join (ps ++ qs) "/".
Proof.
  intros Hq Hps Hqs. pose proof (Join_parts_not_empty qs Hq Hqs) as Hjq.
  destruct (decide (ps = [])) as [->|Hp].
  - simpl. rewrite decide_False by done. by apply Clean_parts.
  - cbn [filepath.Join]. rewrite decide_False by (by apply Join_parts_not_empty).
    rewrite Join_app by done. apply Clean_parts; [by destruct ps|]. by apply Forall_app.
Qed.

(** ** [strconv] *)

Module strconv.

(** The value of a decimal digit. *)
Definition digit (c : ascii) : option Z :=
  let n := Z.of_nat (nat_of_ascii c) in
  if decide (48 <= n <= 57)%Z then Some (n - 48)%Z else None.

(** The digits of a number, most significant first; none if there is another
character. *)
Fixpoint digits (acc : Z) (s : string) : option Z :=
  match s with
  | EmptyString => Some acc
  | String c s' =>
      match digit c with
      | Some d => digits (10 * acc + d) s'
      | None => None
      end
  end.

(** [ParseUint(s, 10, 32)]: the value, and whether there is an error; a value
that is out of range is the greatest one, one that does not parse is 0. *)
Definition ParseUint32 (s : string) : Z * bool :=
  match s with
  | EmptyString => (0, true)%Z
  | _ =>
      match digits 0 s with
      | None => (0, true)%Z
      | Some n => if decide (n < 2 ^ 32)%Z then (n, false) else (2 ^ 32 - 1, true)%Z
      end
  end.
End strconv.

(** ** Addresses *)

Module net.

(** [net.SplitHostPort(hostport)]: host and port, or [None] for an error (with
which the function answers empty strings). *)
Definition SplitHostPort (hostport : string) : option (string * string) :=
  i ← strings.LastIndexByte hostport ":";
  '(host, j, k) ←
    (if strings.HasPrefix hostport "[" then
       e ← strings.IndexByte hostport "]";
       if decide (e + 1 = i)
       then Some (strings.take (e - 1) (strings.drop 1 hostport), 1, e + 1) else None
     else
       let host := strings.take i hostport in
       if strings.Contains host ":" then None else Some (host, 0, 0));
  if strings.Contains (strings.drop j hostport) "[" then None
  else if strings.Contains (strings.drop k hostport) "]" then None
  else Some (host, strings.drop (i + 1) hostport).

(** [net.JoinHostPort(host, port)] *)
Definition JoinHostPort (host port : string) : string :=
  if strings.Contains host ":" then ("[" ++ host ++ "]:" ++ port)%string
  else (host ++ ":" ++ port)%string.

End net.

Example SplitHostPort_v4 : net.SplitHostPort "10.0.0.1:80" = Some ("10.0.0.1", "80").
Proof. reflexivity. Qed.

Example SplitHostPort_v6 : net.SplitHostPort "[::1]:80" = Some ("::1", "80").
Proof. reflexivity. Qed.

Example SplitHostPort_bad : net.SplitHostPort "::1:80" = None.
Proof. reflexivity. Qed.
