(* ===== verification/Types.v ===== *)
(** * Data exchanged between the components

[common/types.go] and the request and reply types of [types.go]. *)

From S2P Require Import Prelude GoStrings.

(** [common.FileInfo]; [Mtime] is the instant, in nanoseconds since the epoch. *)
Record FileInfo := mkFileInfo {
  Size : Z;
  Hash : string;
  Mtime : Z;
}.

#[global] Instance FileInfo_eq_dec : EqDecision FileInfo.
Proof. solve_decision. Defined.

Record RegisterRequest := {
  Register_User : string;
  Register_Token : string;
  Register_PublicKey : string;
}.

Record SigninRequest := {
  Signin_ProtocolVersion : Z;
  Signin_User : string;
  Signin_Address : string;
}.

(** [SetFileRequest]; a nil [Info] asks for a deletion. *)
Record SetFileRequest := {
  SetFile_Path : string;
  SetFile_Info : option FileInfo;
}.

Record GetDirRequest := { GetDir_Path : string }.

Record GetDirReply := mkGetDirReply {
  Dirs : list string;
  Files : gmap string FileInfo;
}.

Record GetOwnersRequest := { GetOwners_Hash : string }.

Record ReadRequest := {
  Read_Hash : string;
  Read_Offset : Z;
  Read_Size : Z;
}.

(** The parts of a path that [Master.SetFile] and [Database.GetDir] refuse:
[len(p) == 0 || p[0] == '.']. *)
Definition bad_part (p : string) : bool :=
  match p with
  | EmptyString => true
  | String c _ => bool_decide (c = "."%char)
  end.

Definition err_bad_part (p : string) : error :=
  Errorf "Invalid part in filename: %q" [errors_New p].

(** A part that they accept and that splitting at slashes can produce. *)
Definition good_part (p : string) : Prop :=
  bad_part p = false /\ strings.Contains p slash = false.

#[export] Instance good_part_dec p : Decision (good_part p).
Proof. unfold good_part. apply _. Defined.

(** Names that joining with slashes keeps apart. *)
Definition sep_name (x : string) : Prop := x <> "" /\ strings.Contains x slash = false.

Lemma good_sep_name p : good_part p -> sep_name p.
Proof. intros [Hp Hs]. split; [by intros ->|done]. Qed.

Lemma Join_sep_not_empty dn :
  dn <> [] -> Forall sep_name dn -> strings.Join dn "/" <> "".
Proof.
  intros Hne Hdn Hj. destruct dn as [|p dn]; [done|].
  apply Forall_cons in Hdn as [[Hp _] _]. destruct p as [|c p]; [done|]. by destruct dn.
Qed.

(** The parts of the name of a directory, as [GetDir] splits it, are those it
was joined of. *)
Lemma sep_parts dn :
  Forall sep_name dn ->
  (if decide (strings.Join dn "/" = "") then [] else strings.Split (strings.Join dn "/") "/") = dn.
Proof.
  intros Hdn. destruct (decide (dn = [])) as [->|Hne]; [done|].
  rewrite decide_False by (by apply Join_sep_not_empty).
  apply (Split_Join slash); [done|]. eapply Forall_impl; [exact Hdn|]. by intros p [_ Hp].
Qed.

Lemma dir_parts dn :
  Forall good_part dn ->
  (if decide (strings.Join dn "/" = "") then [] else strings.Split (strings.Join dn "/") "/") = dn.
Proof. intros Hdn. apply sep_parts. eapply Forall_impl; [exact Hdn|apply good_sep_name]. Qed.

Lemma Join_sep_inj dn dn' :
  Forall sep_name dn -> Forall sep_name dn' ->
  strings.Join dn "/" = strings.Join dn' "/" -> dn = dn'.
Proof. intros H H' Heq. rewrite <-(sep_parts dn H), <-(sep_parts dn' H'). by rewrite Heq. Qed.
