(* ===== verification/Crypto.v ===== *)
(** * Tokens, certificates and TLS configurations ([crypto.go])

Bytes are the characters of a [string]. SHA-1 is executable, so tokens are
computed; the encodings of keys and the signing of certificates belong to
[crypto/x509] and [encoding/pem] and are parameters of the definitions that use
them. *)

From S2P Require Import Prelude GoStrings Types.

(** ** [crypto/sha1] *)

Module sha1.
Local Open Scope Z_scope.

Definition w32 (x : Z) : Z := x mod 2 ^ 32.
Definition rotl (n x : Z) : Z := w32 (Z.lor (Z.shiftl x n) (Z.shiftr x (32 - n))).

Definition byte_of (a : ascii) : Z := Z.of_N (N_of_ascii a).

Fixpoint bytes_of (s : string) : list Z :=
  match s with
  | EmptyString => []
  | String a s' => byte_of a :: bytes_of s'
  end.

(** The [n] low bytes of [x], the most significant first. *)
Fixpoint big_endian (n : nat) (x : Z) : list Z :=
  match n with
  | O => []
  | S n' => Z.land (Z.shiftr x (8 * Z.of_nat n')) 255 :: big_endian n' x
  end.

(** The message, a one bit, zeros and the bit length, in whole blocks. *)
Definition pad (m : list Z) : list Z :=
  let l := Z.of_nat (length m) in
  m ++ 128 :: repeat 0 (Z.to_nat ((55 - l) mod 64)) ++ big_endian 8 (8 * l).

Fixpoint words (m : list Z) : list Z :=
  match m with
  | a :: b :: c :: d :: m' =>
      Z.lor (Z.shiftl a 24) (Z.lor (Z.shiftl b 16) (Z.lor (Z.shiftl c 8) d)) :: words m'
  | _ => []
  end.

(** The message schedule, the latest word first. *)
Fixpoint schedule (n : nat) (w : list Z) : list Z :=
  match n with
  | O => w
  | S n' =>
      let at' i := nth i w 0 in
      schedule n'
        (rotl 1 (Z.lxor (at' 2%nat) (Z.lxor (at' 7%nat) (Z.lxor (at' 13%nat) (at' 15%nat)))) :: w)
  end.

Definition chain := (Z * Z * Z * Z * Z)%type.

Definition mix (t : nat) (b c d : Z) : Z * Z :=
  if (t <? 20)%nat then (Z.lor (Z.land b c) (Z.land (Z.lxor b (2 ^ 32 - 1)) d), 0x5A827999)
  else if (t <? 40)%nat then (Z.lxor b (Z.lxor c d), 0x6ED9EBA1)
  else if (t <? 60)%nat
    then (Z.lor (Z.land b c) (Z.lor (Z.land b d) (Z.land c d)), 0x8F1BBCDC)
  else (Z.lxor b (Z.lxor c d), 0xCA62C1D6).

Fixpoint rounds (t : nat) (ws : list Z) (st : chain) : chain :=
  match ws with
  | [] => st
  | w :: ws' =>
      let '(a, b, c, d, e) := st in
      let '(f, k) := mix t b c d in
      rounds (S t) ws' (w32 (rotl 5 a + f + e + k + w), a, rotl 30 b, c, d)
  end.

Definition block (st : chain) (ws : list Z) : chain :=
  let '(a, b, c, d, e) := st in
  let '(a', b', c', d', e') := rounds 0 (rev (schedule 64 (rev ws))) st in
  (w32 (a + a'), w32 (b + b'), w32 (c + c'), w32 (d + d'), w32 (e + e')).

Fixpoint blocks (fuel : nat) (ws : list Z) (st : chain) : chain :=
  match fuel, ws with
  | S fuel', _ :: _ => blocks fuel' (drop 16 ws) (block st (take 16 ws))
  | _, _ => st
  end.

Definition init : chain := (0x67452301, 0xEFCDAB89, 0x98BADCFE, 0x10325476, 0xC3D2E1F0).

(** [h.Sum(nil)] after the bytes [m] were written. *)
Definition Sum (m : list Z) : list Z :=
  let ws := words (pad m) in
  let '(a, b, c, d, e) := blocks (length ws) ws init in
  big_endian 4 a ++ big_endian 4 b ++ big_endian 4 c ++ big_endian 4 d ++ big_endian 4 e.
End sha1.

(** [fmt.Sprintf("%x", b)] *)
Definition hex_digit (n : Z) : ascii :=
  nth (Z.to_nat n) (String.list_ascii_of_string "0123456789abcdef") "0"%char.

Fixpoint hex (b : list Z) : string :=
  match b with
  | [] => ""
  | x :: b' => String (hex_digit (Z.shiftr x 4)) (String (hex_digit (Z.land x 15)) (hex b'))
  end.

Example sha1_abc :
  hex (sha1.Sum (sha1.bytes_of "abc")) = "a9993e364706816aba3e25717850c26c9cd0d89d".
Proof. vm_compute. reflexivity. Qed.

Example sha1_empty : hex (sha1.Sum []) = "da39a3ee5e6b4b0d3255bfef95601890afd80709".
Proof. vm_compute. reflexivity. Qed.

Example sha1_two_blocks :
  hex (sha1.Sum (sha1.bytes_of "abcdbcdecdefdefgefghfghighijhijkijkljklmklmnlmnomnopnopq")) =
    "84983e441c3bd26ebaae4aa1f95129e5e54670f1".
Proof. vm_compute. reflexivity. Qed.

(** ** Certificates *)

Module Crypto.

(** The [x509.ExtKeyUsage] and [x509.KeyUsage] values of the code. *)
Inductive ExtKeyUsage := ExtKeyUsageServerAuth | ExtKeyUsageClientAuth.

Definition KeyUsageDigitalSignature : Z := 1.
Definition KeyUsageKeyEncipherment : Z := 4.
Definition KeyUsageCertSign : Z := 32.

(** The fields of [x509.Certificate] that the code sets or reads. *)
Record Certificate := {
  SerialNumber : Z;
  CommonName : string;
  Organization : list string;
  NotBefore : Z;
  NotAfter : Z;
  ExtKeyUsages : list ExtKeyUsage;
  KeyUsage : Z;
  BasicConstraintsValid : bool;
  IsCA : bool;
  Raw : string;
}.

(** What the code takes from [crypto/rsa], [crypto/x509], [encoding/pem] and
[time]. Randomness is an argument of the calls that read it. *)
Class X509 := {
  PrivateKey : Type;
  PublicKey : Type;
  Public : PrivateKey -> PublicKey;
  AddDate : Z -> Z -> Z -> Z -> Z;
  GenerateKey : Z -> error + PrivateKey;
  MarshalPKCS1PrivateKey : PrivateKey -> string;
  ParsePKCS1PrivateKey : string -> error + PrivateKey;
  MarshalPKIXPublicKey : PublicKey -> error + string;
  ParsePKIXPublicKey : string -> error + PublicKey;
  CreateCertificate : Z -> Certificate -> Certificate -> PublicKey -> PrivateKey -> error + string;
  ParseCertificate : string -> error + Certificate;
  pem_Encode : string -> string -> string;
  pem_Decode : string -> option (string * string);
}.

Section crypto.
Context `{X509}.

Record MasterVault := { ca : Certificate; priv : PrivateKey }.

(** [createCertTemplate]: [serial] is the answer of [rand.Int], [now] and
[now'] those of the two calls of [time.Now]. *)
Definition createCertTemplate (serial : error + Z) (now now' : Z) (isCA : bool) (name : string)
    : outcome Certificate :=
  match serial with
  | inl _ => Panic "failed to generate serial number: %s"
  | inr serialNumber =>
      let usage := Z.lor KeyUsageKeyEncipherment KeyUsageDigitalSignature in
      Done {|
        SerialNumber := serialNumber;
        CommonName := name;
        Organization := ["RUFS"];
        NotBefore := now;
        NotAfter := AddDate now' 10 0 0;
        ExtKeyUsages := [ExtKeyUsageServerAuth; ExtKeyUsageClientAuth];
        KeyUsage := if isCA then Z.lor usage KeyUsageCertSign else usage;
        BasicConstraintsValid := true;
        IsCA := isCA;
        Raw := "";
      |}
  end.

(** [signClient]; [rnd] is what the signing reads from [rand.Reader]. *)
Definition signClient (rnd : Z) (serial : error + Z) (now now' : Z) (mv : MasterVault)
    (pub name : string) : outcome (string * option error) :=
  match ParsePKIXPublicKey pub with
  | inl err => Done ("", Some err)
  | inr pk =>
      t ← createCertTemplate serial now now' false name;
      match CreateCertificate rnd t (ca mv) pk (priv mv) with
      | inl err => Done ("", Some err)
      | inr cert => Done (pem_Encode "CERTIFICATE" cert, None)
      end
  end.

(** What [createAuthToken] hashes: the user, a zero byte and the key. *)
Definition token_message (mv : MasterVault) (user : string) : list Z :=
  sha1.bytes_of user ++ [0%Z] ++ sha1.bytes_of (MarshalPKCS1PrivateKey (priv mv)).

Definition createAuthToken (mv : MasterVault) (user : string) : string :=
  hex (sha1.Sum (token_message mv user)).

(** ** PEM files

A file system is a map from names to contents; [OpenFile] with [O_EXCL] fails
on a name that is taken. The writes may fail: [wr] is the error of
[pem.Encode], [cl] that of [Close]. *)
Abbreviation fs := (gmap string string).

Record io_faults := { open_err : option error; write_err : option error; close_err : option error }.

Definition pemToFile (io : io_faults) (disk : fs) (fn pemType data : string) : fs * option error :=
  match open_err io, disk !! fn with
  | Some err, _ => (disk, Some err)
  | None, Some _ => (disk, Some (Errorf "open %s: file exists" [errors_New fn]))
  | None, None =>
      let created := <[fn := ""]> disk in
      match write_err io with
      | Some err => (delete fn created, Some err)
      | None =>
          let written := <[fn := pem_Encode pemType data]> created in
          match close_err io with
          | Some err => (delete fn written, Some err)
          | None => (written, None)
          end
      end
  end.

Definition pemFromFile (disk : fs) (fn pemType : string) : error + string :=
  match disk !! fn with
  | None => inl (Errorf "error when reading %q: %v" [errors_New fn; errors_New "no such file"])
  | Some data =>
      match pem_Decode data with
      | None => inl (Errorf "error when reading %q: no PEM block found" [errors_New fn])
      | Some (ty, bytes) =>
          if decide (ty = pemType) then inr bytes
          else inl (Errorf "error when reading %q: expected PEM type %q, found %q"
                      [errors_New fn; errors_New pemType; errors_New ty])
      end
  end.

(** [createKeyPair]; [rnd] is read by [rsa.GenerateKey]. *)
Definition createKeyPair (io : io_faults) (rnd : Z) (disk : fs) (fn : string)
    : fs * (error + PrivateKey) :=
  match GenerateKey rnd with
  | inl err => (disk, inl err)
  | inr key =>
      match pemToFile io disk fn "RSA PRIVATE KEY" (MarshalPKCS1PrivateKey key) with
      | (disk, Some err) => (disk, inl err)
      | (disk, None) => (disk, inr key)
      end
  end.

Definition serializePubKey (key : PrivateKey) : error + string :=
  MarshalPKIXPublicKey (Public key).

(** [createCA]; the faults are those of writing the key and the certificate. *)
Definition createCA (io_key io_crt : io_faults) (rnd rnd' : Z) (serial : error + Z)
    (now now' : Z) (disk : fs) (dir name : string) : outcome (fs * option error) :=
  let keyfn := filepath.Join [dir; "ca.key"] in
  t ← createCertTemplate serial now now' true name;
  match createKeyPair io_key rnd disk keyfn with
  | (disk, inl err) => Done (disk, Some err)
  | (disk, inr key) =>
      match CreateCertificate rnd' t t (Public key) key with
      | inl err => Done (delete keyfn disk, Some err)
      | inr cert =>
          match pemToFile io_crt disk (filepath.Join [dir; "ca.crt"]) "CERTIFICATE" cert with
          | (disk, Some err) => Done (delete keyfn disk, Some err)
          | (disk, None) => Done (disk, None)
          end
      end
  end.

Definition loadCertificate (disk : fs) (fn : string) : error + Certificate :=
  match pemFromFile disk fn "CERTIFICATE" with
  | inl err => inl err
  | inr raw => ParseCertificate raw
  end.

Definition loadMasterVault (disk : fs) (dir : string) : error + MasterVault :=
  match loadCertificate disk (filepath.Join [dir; "ca.crt"]) with
  | inl err => inl err
  | inr crt =>
      match pemFromFile disk (filepath.Join [dir; "ca.key"]) "RSA PRIVATE KEY" with
      | inl err => inl err
      | inr der =>
          match ParsePKCS1PrivateKey der with
          | inl err => inl err
          | inr key => inr {| ca := crt; priv := key |}
          end
      end
  end.

(** ** TLS configurations *)

(** [tls.Certificate] as [getTlsCert] builds it. *)
Record tlsCertificate := { tls_Certificate : list string; tls_PrivateKey : PrivateKey }.

Definition getTlsCert (mv : MasterVault) : tlsCertificate :=
  {| tls_Certificate := [Raw (ca mv)]; tls_PrivateKey := priv mv |}.

Inductive tlsConfigType :=
  | TlsConfigMaster | TlsConfigMasterClient | TlsConfigServer | TlsConfigServerClient.

Inductive ClientAuthType := NoClientCert | VerifyClientCertIfGiven | RequireAndVerifyClientCert.

Record tlsConfig := {
  RootCAs : list Certificate;
  ClientCAs : list Certificate;
  ServerName : string;
  Certificates : list tlsCertificate;
  ClientAuth : ClientAuthType;
  PreferServerCipherSuites : bool;
}.

Definition getTlsConfig (mode : tlsConfigType) (ca : Certificate) (cert : option tlsCertificate)
    (serverName : string) : tlsConfig :=
  let cfg auth prefer := {|
    RootCAs := [ca];
    ClientCAs := [ca];
    ServerName := serverName;
    Certificates := match cert with Some c => [c] | None => [] end;
    ClientAuth := auth;
    PreferServerCipherSuites := prefer;
  |} in
  match mode with
  | TlsConfigMaster | TlsConfigMasterClient => cfg VerifyClientCertIfGiven true
  | TlsConfigServer | TlsConfigServerClient => cfg RequireAndVerifyClientCert false
  end.

End crypto.
End Crypto.
