(* ===== verification/DatabaseSpec.v ===== *)
(** * What a database of the master promises

The abstract state of the three [Database] implementations: the published
files by path, with an owner for every path. [represents]-style relations of
the implementations are stated against it. *)

From S2P Require Import Prelude GoStrings Types.

Module FileTable.

(** A file is named by its directory and its base name. *)
Abbreviation path := (list string * string)%type.
Abbreviation table := (gmap (list string * string) FileInfo).

(** [fnEx] as the master passes it: the directory, then the base name. *)
Definition fnEx (p : path) : list string := p.1 ++ [p.2].

(** [SetFile]: publication, or deletion when there is no info. *)
Definition set (S : table) (p : path) (fi : option FileInfo) : table :=
  match fi with
  | Some f => <[p := f]> S
  | None => delete p S
  end.

Section owner.
(** The peer that publishes each path. *)
Context (owner_of : path -> string).

(** [o] publishes a file with hash [h]. *)
Definition owns (S : table) (h o : string) : Prop :=
  exists p f, S !! p = Some f /\ Hash f = h /\ owner_of p = o.

(** How many files with hash [h] [o] publishes. *)
Definition owned (h o : string) (e : path * FileInfo) : Prop :=
  Hash e.2 = h /\ owner_of e.1 = o.

#[export] Instance owned_dec h o e : Decision (owned h o e).
Proof. unfold owned. apply _. Defined.

Definition owned_count (S : table) (h o : string) : nat := count_map (owned h o) S.

Lemma owned_count_pos S h o : owned_count S h o <> 0 <-> owns S h o.
Proof.
  unfold owned_count, owns. split.
  - intros Hnz. destruct (decide (Exists (owned h o) (map_to_list S))) as [HE|HE].
    + apply Exists_exists in HE as ([p f] & Hin & Ho).
      apply elem_of_map_to_list in Hin. by exists p, f.
    + destruct Hnz. apply count_map_zero. intros p f Hp Ho. apply HE, Exists_exists.
      exists (p, f). by rewrite elem_of_map_to_list.
  - intros (p & f & Hp & Ho). pose proof (count_map_positive (owned h o) S p f Hp Ho). lia.
Qed.

Lemma weight_owned h o p f :
  weight (owned h o) p (Some f) = if decide (h = Hash f /\ o = owner_of p) then 1 else 0.
Proof. unfold weight, owned. simpl. repeat case_decide; naive_solver. Qed.

(** Setting a file takes the old info out of the counts and the new one in. *)
Lemma owned_count_set S p fi h o :
  owned_count (set S p fi) h o + weight (owned h o) p (S !! p) =
  owned_count S h o + weight (owned h o) p fi.
Proof.
  unfold owned_count, set. rewrite (count_map_delete _ S p).
  destruct fi as [f|]; [rewrite count_map_insert; lia|simpl; lia].
Qed.

(** The files left when [o] has gone. *)
Definition without (S : table) (o : string) : table :=
  filter (fun e => owner_of e.1 <> o) S.
End owner.

(** [files] lists the directory [dn] of [S]. *)
Definition lists (S : table) (dn : list string) (files : gmap string FileInfo) : Prop :=
  forall fn, files !! fn = S !! (dn, fn).

(** Some file is in the directory [q] or below it. *)
Definition below (S : table) (q : list string) : Prop :=
  exists p, is_Some (S !! p) /\ q `prefix_of` p.1.

Lemma below_prefix S q q' : q `prefix_of` q' -> below S q' -> below S q.
Proof. intros Hq (p & Hp & Hq'). exists p. split; [done|]. by etrans. Qed.

Lemma below_file S dn fn f q : S !! (dn, fn) = Some f -> q `prefix_of` dn -> below S q.
Proof. intros Hf Hq. exists (dn, fn). split; [by eexists|done]. Qed.

Lemma below_insert S dn fn f q :
  below (<[(dn, fn) := f]> S) q <-> below S q \/ q `prefix_of` dn.
Proof.
  unfold below. split.
  - intros (p & Hp & Hq). destruct (decide (p = (dn, fn))) as [->|Hne]; [by right|].
    rewrite lookup_insert_ne in Hp by done. left. eauto.
  - intros [(p & Hp & Hq)|Hq].
    + exists p. split; [|done]. destruct (decide (p = (dn, fn))) as [->|Hne].
      * rewrite lookup_insert_eq. by eexists.
      * by rewrite lookup_insert_ne.
    + exists (dn, fn). rewrite lookup_insert_eq. split; [by eexists|done].
Qed.

Lemma lookup_set S p q fi :
  set S p fi !! q = if decide (q = p) then fi else S !! q.
Proof.
  unfold set. destruct fi as [f|]; case_decide; subst.
  - by rewrite lookup_insert_eq.
  - by rewrite lookup_insert_ne.
  - by rewrite lookup_delete_eq.
  - by rewrite lookup_delete_ne.
Qed.

End FileTable.

(** ** The interface of the build-tag-selected [Database]

The master is built with one of three implementations. It calls them through
[DatabaseOps]; [DatabaseLaws] is what a client of the interface may rely on,
whichever was built in, and [DatabaseComplete] what not all of them keep. *)

Class DatabaseOps := {
  db : Type;
  db_SetFile : db -> list string -> option FileInfo -> string -> outcome (db * option error);
  db_PeerDisconnected : db -> string -> outcome (db * option error);
  db_GetOwners : db -> string -> outcome (list string * option error);
  (** Listing a directory may fill a cache of the database. *)
  db_GetDir : db -> string ->
    outcome (db * option (gmap string FileInfo * list string) * option error);
}.

Class DatabaseLaws (ops : DatabaseOps) := {
  (** The database holds the files of a table, whose paths have these owners. *)
  db_holds : (FileTable.path -> string) -> db -> FileTable.table -> Prop;

  (** The parts of paths that the database keeps apart. *)
  db_name_ok : string -> Prop;
  db_good_ok p : good_part p -> db_name_ok p;

  (** What the database keeps of an info. *)
  db_stored : FileInfo -> FileInfo;

  (** A call that answers nil has done its work, one that answers an error none. *)
  db_set owner_of d S p fi d' e :
    db_holds owner_of d S -> Forall db_name_ok (FileTable.fnEx p) ->
    db_SetFile d (FileTable.fnEx p) fi (owner_of p) = Done (d', e) ->
    db_holds owner_of d' (if e is Some _ then S else FileTable.set S p (db_stored <$> fi));

  db_listing owner_of d S dn :
    db_holds owner_of d S -> Forall good_part dn ->
    exists d' r e, db_GetDir d (strings.Join dn "/") = Done (d', r, e) /\
      db_holds owner_of d' S /\
      ((exists fs ds, r = Some (fs, ds) /\ e = None /\ FileTable.lists S dn fs) \/
       (r = None /\ e <> None /\ forall fn, S !! (dn, fn) = None));

  db_listing_keeps owner_of d S dir d' r e :
    db_holds owner_of d S -> db_GetDir d dir = Done (d', r, e) -> db_holds owner_of d' S;

  (** A disconnection takes away only files of the peer that left. *)
  db_disconnect owner_of d S owner d' e :
    db_holds owner_of d S -> db_PeerDisconnected d owner = Done (d', e) ->
    exists S', db_holds owner_of d' S' /\ S' ⊆ S /\
      forall p, owner_of p <> owner -> S' !! p = S !! p;
}.

(** A database that takes every publication and every deletion, but for files in
the own directory of a user, and knows every publisher. *)
Class DatabaseComplete (ops : DatabaseOps) (laws : DatabaseLaws ops) := {
  db_publish owner_of d S p f :
    db_holds owner_of d S -> Forall db_name_ok (FileTable.fnEx p) ->
    exists d', db_SetFile d (FileTable.fnEx p) (Some f) (owner_of p) = Done (d', None);

  (** A deletion below a subdirectory of a user. *)
  db_unpublish owner_of d S p :
    db_holds owner_of d S -> Forall db_name_ok (FileTable.fnEx p) -> 2 <= length p.1 ->
    exists d', db_SetFile d (FileTable.fnEx p) None (owner_of p) = Done (d', None);

  db_owners owner_of d S h :
    db_holds owner_of d S ->
    exists os, db_GetOwners d h = Done (os, None) /\
      forall o, o ∈ os <-> FileTable.owns owner_of S h o;
}.
