(* ===== verification/DatabaseInmem.v ===== *)
(** * The in-memory database of the master ([database_inmem.go])

A [*directory] is the path of the node in the tree: every directory hangs from
exactly one parent, is created where it hangs and is never moved, so the path
identifies the object and a store through the pointer is [alter_at] on the
path. [map[string]map[string]int] is a [gmap] of [gmap]s; the inner integers
count files and are unbounded here. *)

From S2P Require Import Prelude GoStrings Types.

Module Inmem.

Inductive directory := mkDirectory {
  dirs : gmap string directory;
  files : gmap string FileInfo;
  refs : Z;
}.

(** [&directory{map[string]*directory{}, map[string]FileInfo{}, 0}] *)
Definition new_directory : directory := mkDirectory ∅ ∅ 0.

Record Database := mkDatabase {
  fileTree : directory;
  owners : gmap string (gmap string Z);
}.

Definition newDatabase : Database := mkDatabase new_directory ∅.

(** A pointer to a directory. *)
Abbreviation pointer := (list string).

(** ** Reading and writing through a pointer *)

Fixpoint node_at (tree : directory) (t : pointer) : option directory :=
  match t with
  | [] => Some tree
  | x :: t' => match dirs tree !! x with
               | Some sd => node_at sd t'
               | None => None
               end
  end.

Definition deref (tree : directory) (t : pointer) : outcome directory :=
  match node_at tree t with
  | Some n => Done n
  | None => Panic nil_dereference
  end.

Fixpoint alter_at (f : directory -> directory) (tree : directory) (t : pointer) : directory :=
  match t with
  | [] => f tree
  | x :: t' =>
      match dirs tree !! x with
      | Some sd => mkDirectory (<[x := alter_at f sd t']> (dirs tree)) (files tree) (refs tree)
      | None => tree
      end
  end.

Definition with_dirs (g : gmap string directory -> gmap string directory) (n : directory) :=
  mkDirectory (g (dirs n)) (files n) (refs n).
Definition with_files (g : gmap string FileInfo -> gmap string FileInfo) (n : directory) :=
  mkDirectory (dirs n) (g (files n)) (refs n).
Definition add_refs (k : Z) (n : directory) := mkDirectory (dirs n) (files n) (refs n + k).

(** [d.owners[h][owner]--], and the deletion of the counter at zero. *)
Definition dec_owner (ow : gmap string (gmap string Z)) (h owner : string)
    : outcome (gmap string (gmap string Z)) :=
  match ow !! h with
  | None => Panic nil_map_assignment
  | Some m =>
      let c := (default 0 (m !! owner) - 1)%Z in
      let m' := <[owner := c]> m in
      Done (<[h := if decide (c = 0%Z) then delete owner m' else m']> ow)
  end.

(** [d.owners[h] = map[string]int{}] unless it is there, then
[d.owners[h][owner]++]. *)
Definition inc_owner (ow : gmap string (gmap string Z)) (h owner : string)
    : gmap string (gmap string Z) :=
  let m := default ∅ (ow !! h) in
  <[h := <[owner := (default 0 (m !! owner) + 1)%Z]> m]> ow.

(** ** setFileLocked *)

(** The loop that walks down [ex] but its last part: [None] is the early return
of a deletion; otherwise the tree, the directory reached and the trace. *)
Fixpoint descend (deletion : bool) (rest : list string) (tree : directory) (t : pointer)
    (trace : list pointer) : outcome (option (directory * pointer * list pointer)) :=
  match rest with
  | [] => Done (Some (tree, t, trace))
  | p :: rest' =>
      node ← deref tree t;
      match dirs node !! p with
      | Some _ => descend deletion rest' tree (t ++ [p]) (trace ++ [t ++ [p]])
      | None =>
          if deletion then Done None
          else
            let tree := alter_at (add_refs 1) tree t in
            let tree := alter_at (with_dirs <[p := new_directory]>) tree t in
            descend deletion rest' tree (t ++ [p]) (trace ++ [t ++ [p]])
      end
  end.

(** [for i := len(trace) - 1; 0 >= i; i++ { ... }] *)
Fixpoint unwind (fuel : nat) (i : Z) (ex : list string) (trace : list pointer)
    (tree : directory) : outcome directory :=
  match fuel with
  | O => NoFuel
  | S fuel' =>
      if decide (0 >= i)%Z then
        tr ← go_index trace i;
        let tree := alter_at (add_refs (-1)) tree tr in
        node ← deref tree tr;
        if decide (refs node > 0 \/ i = 1)%Z then Done tree
        else
          parent ← go_index trace (i - 1);
          name ← go_index ex i;
          unwind fuel' (i + 1) ex trace (alter_at (with_dirs (delete name)) tree parent)
      else Done tree
  end.

Definition setFileLocked (d : Database) (ex : list string) (fi : option FileInfo)
    (owner : string) : outcome (Database * option error) :=
  let deletion := bool_decide (fi = None) in
  walk ← descend deletion (removelast ex) (fileTree d) [] [];
  match walk with
  | None => Done (d, None)
  | Some (tree, t, trace) =>
      basename ← go_index ex (len ex - 1);
      node ← deref tree t;
      ow ← match files node !! basename with
           | Some f => dec_owner (owners d) (Hash f) owner
           | None => Done (owners d)
           end;
      match fi with
      | None =>
          match files node !! basename with
          | Some _ =>
              let tree := alter_at (with_files (delete basename)) tree t in
              tree ← unwind (S (length trace)) (len trace - 1) ex trace tree;
              Done (mkDatabase tree ow, None)
          | None => Done (mkDatabase tree ow, None)
          end
      | Some fi =>
          let tree := match files node !! basename with
                      | Some _ => tree
                      | None => alter_at (add_refs 1) tree t
                      end in
          let tree := alter_at (with_files <[basename := fi]>) tree t in
          Done (mkDatabase tree (inc_owner ow (Hash fi) owner), None)
      end
  end.

Definition SetFile (d : Database) (fnEx : list string) (fi : option FileInfo) (owner : string)
    : outcome (Database * option error) := setFileLocked d fnEx fi owner.

(** ** PeerDisconnected *)

Section range.
Context `{MapRange}.

(** [dir] is the pointer the call is given and [parents] its path; [append]
writes into an array that no other call reads, so it is [++]. *)
Fixpoint searchAndDestroy (fuel : nat) (d : Database) (dir : pointer) (victims : gset string)
    (parents : list string) (owner : string) : outcome (Database * option error) :=
  match fuel with
  | O => NoFuel
  | S fuel' =>
      node ← deref (fileTree d) dir;
      '(d, lastErr) ← foldM (fun '(d, lastErr) '(fn, fi) =>
           if decide (Hash fi ∈ victims) then
             '(d, err) ← setFileLocked d (parents ++ [fn]) None owner;
             match err with
             | None => Done (d, lastErr)
             | Some e =>
                 match lastErr with
                 | None => Done (d, Some e)
                 | Some l => Done (d, Some (Errorf "%v; %v" [l; e]))
                 end
             end
           else Done (d, lastErr))
        (d, None) (range_map (files node));
      node ← deref (fileTree d) dir;
      d ← foldM (fun d '(dn, _) =>
           '(d, _) ← searchAndDestroy fuel' d (dir ++ [dn]) victims (parents ++ [dn]) owner;
           Done d)
        d (range_map (dirs node));
      Done (d, lastErr)
  end.

(** The nesting depth of a tree: fuel enough to visit it. *)
Fixpoint depth (t : directory) : nat :=
  match t with
  | mkDirectory ds _ _ => S (map_fold (fun _ sd n => depth sd `max` n)%nat 0 ds)
  end.

(** The hashes that [owner] is the only owner of. *)
Definition sole_hashes (ow : gmap string (gmap string Z)) (owner : string) : gset string :=
  dom (filter (fun hm : string * gmap string Z => is_Some (hm.2 !! owner) /\ size hm.2 = 1) ow).

Definition PeerDisconnected (d : Database) (owner : string)
    : outcome (Database * option error) :=
  let todo := sole_hashes (owners d) owner in
  searchAndDestroy (depth (fileTree d)) d [] todo [] owner.

(** ** Queries *)

(** [for p := range d.owners[hash]]: a missing hash ranges over a nil map. *)
Definition GetOwners (d : Database) (hash : string) : list string * option error :=
  ((range_map (default ∅ (owners d !! hash))).*1, None).

(** The loop of [GetDir]: the directory reached, or the error returned. *)
Fixpoint walk_dir (t : directory) (ex : list string) : error + directory :=
  match ex with
  | [] => inr t
  | p :: ex' =>
      if bad_part p then inl (err_bad_part p)
      else match dirs t !! p with
           | Some sd => walk_dir sd ex'
           | None => inl (errors_New "ENOENT")
           end
  end.

Definition GetDir (d : Database) (dir : string)
    : option (gmap string FileInfo * list string) * option error :=
  let ex := if decide (dir = "") then [] else strings.Split dir "/" in
  match walk_dir (fileTree d) ex with
  | inl e => (None, Some e)
  | inr t => (Some (files t, (range_map (dirs t)).*1), None)
  end.
End range.

End Inmem.
