(* ===== verification/DatabaseInmemTree.v ===== *)
(** * The directory tree of the in-memory database

What reading and writing through a pointer do to the files of the tree, and
the effect of each step of [setFileLocked]: the walk down, the walk back up and
the owner counters. *)

From S2P Require Import Prelude GoStrings Types DatabaseInmem.
Import Inmem.

Module InmemTree.

(** The file [fn] of the directory at [dn]. *)
Definition lookup_file (tree : directory) (dn : list string) (fn : string) : option FileInfo :=
  n ← node_at tree dn; files n !! fn.

(** [d.owners[h][o]], if there is such a counter. *)
Definition own_lookup (ow : gmap string (gmap string Z)) (h o : string) : option Z :=
  m ← ow !! h; m !! o.

(** ** Pointers *)

Lemma node_at_app tree p q : node_at tree (p ++ q) = (n ← node_at tree p; node_at n q).
Proof.
  revert tree. induction p as [|x p IH]; intros tree; simpl; [done|].
  destruct (dirs tree !! x); [apply IH|done].
Qed.

Lemma node_at_prefix tree p q : is_Some (node_at tree (p ++ q)) -> is_Some (node_at tree p).
Proof. rewrite node_at_app. destruct (node_at tree p); [eauto|by intros [? ?]]. Qed.

Lemma deref_Done tree t n : node_at tree t = Some n -> deref tree t = Done n.
Proof. unfold deref. by intros ->. Qed.

Lemma deref_inv tree t n : deref tree t = Done n -> node_at tree t = Some n.
Proof. unfold deref. destruct (node_at tree t); naive_solver. Qed.

Lemma node_at_alter_at f tree t : node_at (alter_at f tree t) t = f <$> node_at tree t.
Proof.
  revert tree. induction t as [|x t IH]; intros tree; simpl; [done|].
  destruct (dirs tree !! x) as [sd|] eqn:E; simpl; [by rewrite lookup_insert_eq|by rewrite E].
Qed.

(** A store through a pointer that keeps the files below the node keeps all
files of the tree. *)
Lemma lookup_file_alter_ext f tree t :
  (forall n q fn, node_at tree t = Some n -> lookup_file (f n) q fn = lookup_file n q fn) ->
  forall q fn, lookup_file (alter_at f tree t) q fn = lookup_file tree q fn.
Proof.
  revert tree. induction t as [|x t IH]; intros tree Hf q fn; simpl; [by apply Hf|].
  destruct (dirs tree !! x) as [sd|] eqn:E; [|done].
  destruct q as [|y q]; [done|]. unfold lookup_file in *. simpl.
  destruct (decide (x = y)) as [->|Hne].
  - rewrite lookup_insert_eq, E. apply IH. intros n q' fn' Hn. apply Hf. simpl. by rewrite E.
  - by rewrite lookup_insert_ne.
Qed.

Section keep_dirs.
Context (f : directory -> directory) (Hdirs : forall n, dirs (f n) = dirs n).

(** A store that keeps the subdirectories changes the files of that one
directory, *)
Lemma lookup_file_alter_files tree t q fn :
  lookup_file (alter_at f tree t) q fn =
    if decide (q = t) then (n ← node_at tree t; files (f n) !! fn) else lookup_file tree q fn.
Proof.
  revert tree q. induction t as [|x t IH]; intros tree q; simpl.
  - destruct q as [|y q]; [done|]. unfold lookup_file. simpl. by rewrite Hdirs.
  - destruct (dirs tree !! x) as [sd|] eqn:E.
    + destruct q as [|y q]; [done|].
      assert (lookup_file (mkDirectory (<[x:=alter_at f sd t]> (dirs tree)) (files tree)
                (refs tree)) (y :: q) fn =
              match <[x:=alter_at f sd t]> (dirs tree) !! y with
              | Some s => lookup_file s q fn | None => None end) as ->.
      { unfold lookup_file. simpl. by case_match. }
      destruct (decide (x = y)) as [->|Hne].
      * rewrite lookup_insert_eq, IH.
        destruct (decide (q = t)) as [->|]; case_decide; simplify_eq; try done.
        unfold lookup_file. simpl. by rewrite E.
      * rewrite lookup_insert_ne by done. case_decide; [congruence|].
        unfold lookup_file. simpl. by case_match.
    + case_decide as Hq; [|done]. subst q. unfold lookup_file. simpl. by rewrite E.
Qed.

(** and the directories of the tree stay. *)
Lemma node_at_alter_shape tree t q :
  is_Some (node_at (alter_at f tree t) q) <-> is_Some (node_at tree q).
Proof.
  revert tree q. induction t as [|x t IH]; intros tree q; simpl.
  - destruct q; simpl; [by split; eauto|]. by rewrite Hdirs.
  - destruct (dirs tree !! x) as [sd|] eqn:E; [|done].
    destruct q as [|y q]; simpl; [by split; eauto|].
    destruct (decide (x = y)) as [->|Hne].
    + rewrite lookup_insert_eq, E. apply IH.
    + by rewrite lookup_insert_ne.
Qed.
End keep_dirs.

(** Hanging a new, empty directory where there was none. *)
Lemma lookup_file_new_dir n p q fn :
  dirs n !! p = None ->
  lookup_file (with_dirs <[p := new_directory]> n) q fn = lookup_file n q fn.
Proof.
  intros Hp. destruct q as [|y q]; [done|]. unfold lookup_file. simpl.
  destruct (decide (p = y)) as [->|Hne].
  - rewrite lookup_insert_eq, Hp. destruct q; [done|]. simpl. by rewrite lookup_empty.
  - by rewrite lookup_insert_ne.
Qed.

Lemma node_at_new_dir tree t n p q :
  node_at tree t = Some n -> dirs n !! p = None ->
  is_Some (node_at (alter_at (with_dirs <[p := new_directory]>) tree t) q) <->
  is_Some (node_at tree q) \/ q = t ++ [p].
Proof.
  revert tree q. induction t as [|x t IH]; intros tree q Hn Hp; simpl in *.
  - injection Hn as ->. destruct q as [|y q]; simpl; [naive_solver|].
    destruct (decide (p = y)) as [->|Hne].
    + rewrite lookup_insert_eq, Hp. destruct q; simpl; [by split; eauto|].
      rewrite lookup_empty. split; [by intros [? ?]|intros [[? ?]|?]; by simplify_eq].
    + rewrite lookup_insert_ne by done. split; [by left|]. intros [?|?]; [done|congruence].
  - destruct (dirs tree !! x) as [sd|] eqn:E; [|done].
    destruct q as [|y q]; simpl; [naive_solver|].
    destruct (decide (x = y)) as [->|Hne].
    + rewrite lookup_insert_eq, E. rewrite (IH sd q Hn Hp). naive_solver.
    + rewrite lookup_insert_ne by done. naive_solver.
Qed.

(** ** The walk down *)

(** The pointers that walking [rest] from [t] passes. *)
Fixpoint prefixes (t : pointer) (rest : list string) : list pointer :=
  match rest with
  | [] => []
  | p :: rest' => (t ++ [p]) :: prefixes (t ++ [p]) rest'
  end.

Lemma length_prefixes t rest : length (prefixes t rest) = length rest.
Proof. revert t. induction rest; intros t; simpl; auto. Qed.

(** Publishing creates the directories that are missing, and no file changes. *)
Lemma descend_create rest tree t trace :
  is_Some (node_at tree t) ->
  exists tree',
    descend false rest tree t trace = Done (Some (tree', t ++ rest, trace ++ prefixes t rest)) /\
    (forall q, is_Some (node_at tree' q) <-> is_Some (node_at tree q) \/ q ∈ prefixes t rest) /\
    is_Some (node_at tree' (t ++ rest)) /\
    (forall q fn, lookup_file tree' q fn = lookup_file tree q fn).
Proof.
  revert tree t trace. induction rest as [|p rest IH]; intros tree t trace [n Hn]; simpl.
  { exists tree. rewrite !app_nil_r. split; [done|]. split; [|eauto].
    intros q. rewrite elem_of_nil. naive_solver. }
  rewrite (deref_Done _ _ _ Hn). simpl.
  destruct (dirs n !! p) as [sd|] eqn:Hp.
  - assert (Hsome : is_Some (node_at tree (t ++ [p]))).
    { rewrite node_at_app, Hn. simpl. rewrite Hp. eauto. }
    destruct (IH tree (t ++ [p]) (trace ++ [t ++ [p]]) Hsome) as (tree' & -> & Hq & Ht & Hf).
    exists tree'. rewrite <-!app_assoc in *. split; [done|]. split; [|done].
    intros q. rewrite Hq, elem_of_cons. naive_solver.
  - set (tree1 := alter_at (add_refs 1) tree t).
    set (tree2 := alter_at (with_dirs <[p := new_directory]>) tree1 t).
    assert (Hn1 : node_at tree1 t = Some (add_refs 1 n)).
    { subst tree1. by rewrite node_at_alter_at, Hn. }
    assert (Hq2 : forall q, is_Some (node_at tree2 q) <-> is_Some (node_at tree q) \/ q = t ++ [p]).
    { intros q. subst tree2. rewrite (node_at_new_dir _ _ _ _ _ Hn1) by done.
      subst tree1. by rewrite node_at_alter_shape. }
    destruct (IH tree2 (t ++ [p]) (trace ++ [t ++ [p]])) as (tree' & -> & Hq & Ht & Hf).
    { apply Hq2. by right. }
    exists tree'. rewrite <-!app_assoc in *. split; [done|]. split; [|split; [done|]].
    + intros q. rewrite Hq, Hq2, elem_of_cons. naive_solver.
    + intros q fn. rewrite Hf. subst tree2. rewrite lookup_file_alter_ext.
      * subst tree1. apply lookup_file_alter_ext. intros m q' fn' _. by destruct q'.
      * intros m q' fn' Hm. apply lookup_file_new_dir. rewrite Hn1 in Hm.
        injection Hm as <-. done.
Qed.

(** A deletion walks to the directory, or finds that it is not there. *)
Lemma descend_delete rest tree t trace :
  is_Some (node_at tree t) ->
  descend true rest tree t trace =
    match node_at tree (t ++ rest) with
    | Some _ => Done (Some (tree, t ++ rest, trace ++ prefixes t rest))
    | None => Done None
    end.
Proof.
  revert t trace. induction rest as [|p rest IH]; intros t trace [n Hn]; simpl.
  { by rewrite !app_nil_r, Hn. }
  rewrite (deref_Done _ _ _ Hn). simpl.
  assert (Hp : node_at tree (t ++ [p]) = dirs n !! p).
  { rewrite node_at_app, Hn. simpl. by case_match. }
  destruct (dirs n !! p) as [sd|] eqn:E.
  - rewrite IH by eauto. by rewrite <-!app_assoc.
  - change (p :: rest) with ([p] ++ rest). rewrite app_assoc, node_at_app, Hp. done.
Qed.

(** ** The walk back up *)

(** With two directories or more on the path the loop does not run. *)
Lemma unwind_deep fuel ex trace tree :
  2 <= length trace -> unwind (S fuel) (len trace - 1) ex trace tree = Done tree.
Proof. intros H. unfold len. simpl. case_decide; [lia|done]. Qed.

(** With one directory it drops a reference to it, and when that was the last
one it indexes the trace below its start. *)
Lemma unwind_top fuel ex t tree n :
  node_at tree t = Some n ->
  unwind (S fuel) (len [t] - 1) ex [t] tree =
    if decide (refs n - 1 > 0)%Z then Done (alter_at (add_refs (-1)) tree t)
    else Panic index_out_of_range.
Proof.
  intros Hn. change (len [t] - 1)%Z with 0%Z. cbn [unwind]. rewrite decide_True by lia.
  change (go_index [t] 0) with (Done t : outcome pointer). simpl.
  rewrite (deref_Done _ _ (add_refs (-1) n)) by (by rewrite node_at_alter_at, Hn). simpl.
  repeat case_decide; try lia; done.
Qed.

Lemma unwind_root fuel ex tree :
  unwind (S fuel) (len ([] : list pointer) - 1) ex [] tree = Panic index_out_of_range.
Proof. done. Qed.

(** ** The owner counters *)

Lemma own_lookup_insert ow h h' (m : gmap string Z) o :
  own_lookup (<[h := m]> ow) h' o = if decide (h = h') then m !! o else own_lookup ow h' o.
Proof.
  unfold own_lookup. case_decide as Hh.
  - subst. by rewrite lookup_insert_eq.
  - by rewrite lookup_insert_ne.
Qed.

Lemma dec_owner_Done ow h owner :
  is_Some (ow !! h) ->
  exists ow', dec_owner ow h owner = Done ow' /\
    (forall k, is_Some (ow' !! k) <-> is_Some (ow !! k)) /\
    (forall k, k <> h -> ow' !! k = ow !! k) /\
    (forall k o, own_lookup ow' k o =
       if decide (k = h /\ o = owner) then
         let c := (default 0 (own_lookup ow h owner) - 1)%Z in
         if decide (c = 0%Z) then None else Some c
       else own_lookup ow k o).
Proof.
  intros [m Hm]. unfold dec_owner. rewrite Hm. eexists. split; [done|].
  split; [|split].
  - intros k. rewrite lookup_insert_is_Some. destruct (decide (h = k)); naive_solver.
  - intros k Hk. by rewrite lookup_insert_ne.
  - intros k o. rewrite own_lookup_insert.
    assert (Hown : own_lookup ow h = fun o => m !! o).
    { unfold own_lookup. by rewrite Hm. }
    destruct (decide (h = k)) as [<-|Hk]; [|case_decide; naive_solver].
    rewrite Hown. destruct (decide (owner = o)) as [<-|Ho].
    + rewrite (decide_True _ _ (conj eq_refl eq_refl)). simpl.
      case_decide; [by rewrite lookup_delete_eq|by rewrite lookup_insert_eq].
    + rewrite (decide_False (P := _ /\ _)) by naive_solver.
      case_decide; [rewrite lookup_delete_ne by done|]; by rewrite lookup_insert_ne.
Qed.

Lemma inc_owner_lookup ow h owner k o :
  own_lookup (inc_owner ow h owner) k o =
    if decide (k = h /\ o = owner) then Some (default 0 (own_lookup ow h owner) + 1)%Z
    else own_lookup ow k o.
Proof.
  unfold inc_owner. rewrite own_lookup_insert.
  assert (Hown : forall o, own_lookup ow h o = default ∅ (ow !! h) !! o).
  { intros o'. unfold own_lookup. destruct (ow !! h); [done|]. simpl. by rewrite lookup_empty. }
  destruct (decide (h = k)) as [<-|Hk]; [|case_decide; naive_solver].
  destruct (decide (owner = o)) as [<-|Ho].
  - rewrite (decide_True _ _ (conj eq_refl eq_refl)). by rewrite lookup_insert_eq, Hown.
  - rewrite (decide_False (P := _ /\ _)) by naive_solver. by rewrite lookup_insert_ne, Hown.
Qed.

Lemma inc_owner_dom ow h owner k :
  is_Some (inc_owner ow h owner !! k) <-> k = h \/ is_Some (ow !! k).
Proof. unfold inc_owner. rewrite lookup_insert_is_Some. destruct (decide (h = k)); naive_solver. Qed.

End InmemTree.
