(* ===== verification/DatabaseInmemProofs.v ===== *)
(** * Correctness of the in-memory database

[setFileLocked] on every branch, its refinement of [FileTable], and what
[PeerDisconnected] does. *)

From S2P Require Import Prelude GoStrings Types DatabaseSpec DatabaseInmem DatabaseInmemTree.
Import Inmem InmemTree.

Module InmemProofs.

#[local] Arguments unwind : simpl never.
#[local] Arguments alter_at : simpl never.

(** Every published hash has an owner table: what keeps [SetFile] from writing
to a nil map. *)
Definition wf (d : Database) : Prop :=
  forall dn fn f, lookup_file (fileTree d) dn fn = Some f -> is_Some (owners d !! Hash f).

Definition files_in (d : Database) (dn : list string) (fn : string) : option FileInfo :=
  lookup_file (fileTree d) dn fn.

(** The counters once the old info of the file is accounted for. *)
Definition forget (d : Database) (old : option FileInfo) (owner : string) :=
  match old with
  | Some f => dec_owner (owners d) (Hash f) owner
  | None => Done (owners d)
  end.

Lemma removelast_snoc {A} (l : list A) x : removelast (l ++ [x]) = l.
Proof. rewrite removelast_app by done. by rewrite app_nil_r. Qed.

Lemma node_files tree dn n fn : node_at tree dn = Some n -> files n !! fn = lookup_file tree dn fn.
Proof. unfold lookup_file. by intros ->. Qed.

Lemma forget_Done d old owner :
  (forall f, old = Some f -> is_Some (owners d !! Hash f)) ->
  exists ow, forget d old owner = Done ow /\
    (forall k, is_Some (ow !! k) <-> is_Some (owners d !! k)).
Proof.
  intros H. destruct old as [f|]; simpl; [|eauto].
  destruct (dec_owner_Done (owners d) (Hash f) owner) as (ow & -> & Hk & _); eauto.
Qed.

(** ** setFileLocked, branch by branch *)

Lemma publish_run d dn fn fi owner ow :
  forget d (files_in d dn fn) owner = Done ow ->
  exists tree',
    setFileLocked d (dn ++ [fn]) (Some fi) owner =
      Done (mkDatabase tree' (inc_owner ow (Hash fi) owner), None) /\
    (forall q fn', lookup_file tree' q fn' =
       if decide (q = dn /\ fn' = fn) then Some fi else files_in d q fn') /\
    (forall q, is_Some (node_at tree' q) <->
       is_Some (node_at (fileTree d) q) \/ q ∈ prefixes [] dn).
Proof.
  intros How. unfold setFileLocked. rewrite bool_decide_eq_false_2 by done.
  rewrite removelast_snoc.
  destruct (descend_create dn (fileTree d) [] []) as (tree1 & -> & Hq & [n Hn] & Hf); [by eexists|].
  simpl in Hn |- *. rewrite go_index_last. simpl. rewrite (deref_Done _ _ _ Hn). simpl.
  rewrite (node_files _ _ _ fn Hn), Hf. unfold forget, files_in in How.
  rewrite How. simpl. eexists. split; [done|]. split.
  - intros q fn'. rewrite lookup_file_alter_files by done.
    set (tree2 := match lookup_file _ _ _ with Some _ => _ | None => _ end).
    assert (Hl2 : forall q fn, lookup_file tree2 q fn = files_in d q fn).
    { intros q' fn''. subst tree2. unfold files_in. rewrite <-(Hf q' fn''). case_match; [done|].
      apply lookup_file_alter_ext. intros m r g _. by destruct r. }
    assert (Hn2 : exists n2, node_at tree2 dn = Some n2).
    { subst tree2. case_match; [by eexists|]. rewrite node_at_alter_at, Hn. by eexists. }
    destruct Hn2 as [n2 Hn2]. rewrite Hn2. simpl.
    destruct (decide (q = dn)) as [->|Hne]; [|rewrite decide_False by naive_solver; apply Hl2].
    destruct (decide (fn' = fn)) as [->|Hne].
    + rewrite decide_True by done. by rewrite lookup_insert_eq.
    + rewrite decide_False by naive_solver. rewrite lookup_insert_ne by done.
      rewrite <-Hl2. by apply node_files.
  - intros q. rewrite node_at_alter_shape by done. case_match; [apply Hq|].
    rewrite node_at_alter_shape by done. apply Hq.
Qed.

Lemma unpublish_missing d dn fn owner :
  files_in d dn fn = None -> setFileLocked d (dn ++ [fn]) None owner = Done (d, None).
Proof.
  intros Hmiss. unfold setFileLocked. rewrite bool_decide_eq_true_2 by done.
  rewrite removelast_snoc, descend_delete by (by eexists). simpl.
  destruct (node_at (fileTree d) dn) as [n|] eqn:Hn; [|done]. simpl.
  rewrite go_index_last. simpl. rewrite (deref_Done _ _ _ Hn). simpl.
  rewrite (node_files _ _ _ fn Hn). unfold files_in in Hmiss. rewrite Hmiss. simpl.
  by destruct d.
Qed.

(** What the deletion of a published file makes of the tree. *)
Definition unpublished (d : Database) (dn : list string) (fn : string)
    (ow : gmap string (gmap string Z)) : outcome (Database * option error) :=
  let tree := alter_at (with_files (delete fn)) (fileTree d) dn in
  match dn with
  | [] => Panic index_out_of_range
  | [u] =>
      n ← deref (fileTree d) dn;
      if decide (refs n - 1 > 0)%Z
      then Done (mkDatabase (alter_at (add_refs (-1)) tree dn) ow, None)
      else Panic index_out_of_range
  | _ => Done (mkDatabase tree ow, None)
  end.

Lemma unpublish_run d dn fn owner f ow :
  files_in d dn fn = Some f -> forget d (Some f) owner = Done ow ->
  setFileLocked d (dn ++ [fn]) None owner = unpublished d dn fn ow.
Proof.
  intros Hf How. unfold setFileLocked. rewrite bool_decide_eq_true_2 by done.
  rewrite removelast_snoc, descend_delete by (by eexists). simpl.
  unfold files_in, lookup_file in Hf.
  destruct (node_at (fileTree d) dn) as [n|] eqn:Hn; [|done]. simpl in Hf |- *.
  rewrite go_index_last. simpl. rewrite (deref_Done _ _ _ Hn). simpl. rewrite Hf.
  simpl in How. rewrite How. cbn [mbind outcome_bind]. unfold unpublished.
  destruct dn as [|u [|v dn]].
  - done.
  - change (prefixes [] [u]) with [[u]].
    rewrite (deref_Done _ _ _ Hn), (unwind_top _ _ _ _ (with_files (delete fn) n))
      by (by rewrite node_at_alter_at, Hn).
    cbn. by case_decide.
  - rewrite unwind_deep by (rewrite length_prefixes; simpl; lia). done.
Qed.

(** The directories are the same after a deletion, and so are the other files. *)
Lemma unpublished_Done d dn fn ow d' e :
  unpublished d dn fn ow = Done (d', e) ->
  e = None /\ owners d' = ow /\
  (forall q, is_Some (node_at (fileTree d') q) <-> is_Some (node_at (fileTree d) q)) /\
  (forall q fn', files_in d' q fn' =
     if decide (q = dn /\ fn' = fn) then None else files_in d q fn').
Proof.
  assert (Hfiles : forall q fn', lookup_file (alter_at (with_files (delete fn)) (fileTree d) dn) q fn'
            = if decide (q = dn /\ fn' = fn) then None else files_in d q fn').
  { intros q fn'. rewrite lookup_file_alter_files by done. unfold files_in, lookup_file.
    destruct (decide (q = dn)) as [->|]; [|by rewrite decide_False by naive_solver].
    destruct (node_at (fileTree d) dn); simpl; [|by case_decide].
    case_decide as Hd; [destruct Hd as [_ ->]; by rewrite lookup_delete_eq|].
    rewrite lookup_delete_ne; [done|naive_solver]. }
  unfold unpublished. intros H. destruct dn as [|u [|v dn]]; [done| |].
  - destruct (deref (fileTree d) [u]) as [n| |]; cbn [mbind outcome_bind] in H; try done.
    case_decide; [|done]. simplify_eq. cbn [fileTree owners].
    split; [done|]. split; [done|]. split.
    + intros q. etrans; [by apply node_at_alter_shape|]. by apply node_at_alter_shape.
    + intros q fn'. rewrite <-Hfiles. unfold files_in. cbn [fileTree]. apply lookup_file_alter_ext. intros m r g _. by destruct r.
  - simplify_eq. cbn [fileTree owners]. split; [done|]. split; [done|]. split; [|exact Hfiles].
    intros q. by rewrite node_at_alter_shape.
Qed.

(** ** Refinement of the table of published files *)

(** A counter is absent when it counts nothing. *)
Definition positive (n : nat) : option Z := if decide (n = 0) then None else Some (Z.of_nat n).

Lemma positive_is_Some n : is_Some (positive n) <-> n <> 0.
Proof. unfold positive. by case_decide. Qed.

Lemma positive_dec n :
  (let c := (default 0 (positive (S n)) - 1)%Z in if decide (c = 0%Z) then None else Some c)
  = positive n.
Proof. unfold positive. simpl. repeat case_decide; try lia; try done. f_equal. lia. Qed.

Lemma positive_inc n : Some (default 0 (positive n) + 1)%Z = positive (S n).
Proof. unfold positive. simpl. case_decide; simpl; f_equal; lia. Qed.

Section refinement.
Context (owner_of : FileTable.path -> string).

(** The database holds the files of [S], and its counters count them. *)
Record represents (d : Database) (S : FileTable.table) : Prop := {
  rep_files : forall dn fn, files_in d dn fn = S !! (dn, fn);
  rep_owners : forall h o,
    own_lookup (owners d) h o = positive (FileTable.owned_count owner_of S h o);
}.

Lemma represents_new : represents newDatabase ∅.
Proof.
  split.
  - intros [|x dn] fn; unfold files_in, lookup_file; simpl; by rewrite ?lookup_empty.
  - intros h o. unfold own_lookup, FileTable.owned_count, count_map. simpl.
    by rewrite lookup_empty.
Qed.

Lemma represents_unique d S1 S2 : represents d S1 -> represents d S2 -> S1 = S2.
Proof.
  intros [H1 _] [H2 _]. apply map_eq. intros [dn fn]. by rewrite <-H1, <-H2.
Qed.

Lemma represents_owned d S p f :
  represents d S -> S !! p = Some f -> exists m, owners d !! Hash f = Some m /\ is_Some (m !! owner_of p).
Proof.
  intros [_ Hown] Hp. specialize (Hown (Hash f) (owner_of p)).
  assert (is_Some (own_lookup (owners d) (Hash f) (owner_of p))) as [c Hc].
  { rewrite Hown. apply positive_is_Some, FileTable.owned_count_pos. by exists p, f. }
  unfold own_lookup in Hc. destruct (owners d !! Hash f) as [m|]; [|done]. eauto.
Qed.

Lemma represents_wf d S : represents d S -> wf d.
Proof.
  intros HR dn fn f Hf. pose proof HR as [Hfiles _].
  change (files_in d dn fn = Some f) in Hf. rewrite Hfiles in Hf.
  destruct (represents_owned d S _ f HR Hf) as (m & -> & _). eauto.
Qed.

(** Taking the old info of a path out of the counters, *)
Lemma forget_counts d S p :
  represents d S ->
  exists ow, forget d (S !! p) (owner_of p) = Done ow /\
    forall h o, own_lookup ow h o =
      positive (FileTable.owned_count owner_of (FileTable.set S p None) h o).
Proof.
  intros HR. pose proof HR as [_ Hown]. destruct (S !! p) as [f|] eqn:Hp; simpl.
  - destruct (represents_owned d S p f HR Hp) as (m & Hm & _).
    destruct (dec_owner_Done (owners d) (Hash f) (owner_of p)) as (ow & -> & _ & _ & How); [eauto|].
    exists ow. split; [done|]. intros h o. rewrite How.
    pose proof (FileTable.owned_count_set owner_of S p None h o) as Hc.
    rewrite Hp, FileTable.weight_owned in Hc. simpl in Hc |- *.
    case_decide as Hd.
    + destruct Hd as [-> ->]. rewrite Hown.
      replace (FileTable.owned_count owner_of S (Hash f) (owner_of p))
        with (Datatypes.S (FileTable.owned_count owner_of (delete p S) (Hash f) (owner_of p))) by lia.
      apply positive_dec.
    + rewrite Hown. f_equal. lia.
  - exists (owners d). split; [done|]. intros h o. rewrite Hown. f_equal.
    simpl. by rewrite delete_id.
Qed.

(** and the new info into them. *)
Lemma inc_counts ow S p fi h o :
  (forall h o, own_lookup ow h o =
     positive (FileTable.owned_count owner_of (FileTable.set S p None) h o)) ->
  own_lookup (inc_owner ow (Hash fi) (owner_of p)) h o =
    positive (FileTable.owned_count owner_of (FileTable.set S p (Some fi)) h o).
Proof.
  intros How. rewrite inc_owner_lookup, !How.
  pose proof (FileTable.owned_count_set owner_of (delete p S) p (Some fi) h o) as Hc.
  rewrite lookup_delete_eq, FileTable.weight_owned in Hc. simpl in Hc |- *.
  rewrite insert_delete_eq in Hc.
  case_decide as Hd.
  - destruct Hd as [-> ->]. rewrite positive_inc. f_equal. lia.
  - f_equal. lia.
Qed.

Lemma publish_refines d S p fi :
  represents d S ->
  exists d', setFileLocked d (FileTable.fnEx p) (Some fi) (owner_of p) = Done (d', None) /\
    represents d' (FileTable.set S p (Some fi)) /\
    (forall q, is_Some (node_at (fileTree d') q) <->
       is_Some (node_at (fileTree d) q) \/ q ∈ prefixes [] p.1).
Proof.
  intros HR. pose proof HR as [Hfiles _]. destruct (forget_counts d S p HR) as (ow & How & Hc).
  destruct p as [dn fn]. rewrite <-Hfiles in How.
  destruct (publish_run d dn fn fi (owner_of (dn, fn)) ow How) as (tree' & Hrun & Hf & Hq).
  eexists. split; [exact Hrun|]. split; [|exact Hq]. split; simpl.
  - intros dn' fn'. unfold files_in. simpl. rewrite Hf, Hfiles.
    change (<[(dn, fn) := fi]> S) with (FileTable.set S (dn, fn) (Some fi)).
    rewrite FileTable.lookup_set. repeat case_decide; naive_solver.
  - intros h o. by apply (inc_counts ow S (dn, fn) fi h o).
Qed.

Lemma unpublish_refines d S p d' e :
  represents d S ->
  setFileLocked d (FileTable.fnEx p) None (owner_of p) = Done (d', e) ->
  e = None /\ represents d' (FileTable.set S p None) /\
  (forall q, is_Some (node_at (fileTree d') q) <-> is_Some (node_at (fileTree d) q)).
Proof.
  intros HR Hrun. pose proof HR as [Hfiles _]. destruct p as [dn fn].
  unfold FileTable.fnEx in Hrun. simpl in Hrun.
  destruct (S !! (dn, fn)) as [f|] eqn:Hp.
  - destruct (forget_counts d S (dn, fn) HR) as (ow & How & Hc).
    rewrite Hp in How. rewrite <-Hfiles in Hp.
    rewrite (unpublish_run d dn fn _ f ow Hp How) in Hrun.
    apply unpublished_Done in Hrun as (-> & <- & Hshape & Hf).
    split; [done|]. split; [|done]. split; [|done].
    intros dn' fn'. rewrite Hf, Hfiles, FileTable.lookup_set. repeat case_decide; naive_solver.
  - rewrite (unpublish_missing d dn fn) in Hrun by (by rewrite Hfiles).
    injection Hrun as <- <-. split; [done|]. split; [|done]. simpl.
    by rewrite delete_id.
Qed.
End refinement.

End InmemProofs.
