(* ===== verification/DatabaseInmemDisconnect.v ===== *)
(** * Disconnection in the in-memory database

[searchAndDestroy] visits every directory and deletes the files whose hash is
a victim: its effect on the files, that the fuel [depth] is enough, and when it
returns. *)

From S2P Require Import Prelude GoStrings Types DatabaseSpec.
From S2P Require Import DatabaseInmem DatabaseInmemTree DatabaseInmemProofs.
Import Inmem InmemTree InmemProofs.

Module InmemDisconnect.

(** ** Depth *)

Lemma depth_child (t sd : directory) x : dirs t !! x = Some sd -> depth sd < depth t.
Proof.
  destruct t as [ds fs r]. simpl. revert x sd.
  apply (map_fold_weak_ind (fun (acc : nat) (m : gmap string directory) =>
    forall x sd, m !! x = Some sd -> depth sd < S acc)).
  - intros x sd Hx. by rewrite lookup_empty in Hx.
  - intros i y m acc Hi IH x sd Hx. destruct (decide (i = x)) as [->|Hne].
    + rewrite lookup_insert_eq in Hx. injection Hx as ->. lia.
    + rewrite lookup_insert_ne in Hx by done. specialize (IH x sd Hx). lia.
Qed.

Lemma node_at_depth q t : is_Some (node_at t q) -> length q < depth t.
Proof.
  revert t. induction q as [|x q IH]; intros t.
  - intros _. destruct t. simpl. lia.
  - simpl. destruct (dirs t !! x) as [sd|] eqn:E; [|by intros [? ?]].
    intros Hq. apply IH in Hq. apply depth_child in E. lia.
Qed.

Lemma node_at_child t dir n x :
  node_at t dir = Some n -> node_at t (dir ++ [x]) = dirs n !! x.
Proof. intros Hn. rewrite node_at_app, Hn. simpl. by case_match. Qed.

(** ** The effect of the traversal *)

Section search.
Context `{MapRange} (victims : gset string) (owner : string).

(** What is left of a file. *)
Definition kill (o : option FileInfo) : option FileInfo :=
  f ← o; if decide (Hash f ∈ victims) then None else Some f.

Lemma kill_kill o : kill (kill o) = kill o.
Proof. unfold kill. destruct o; simpl; [|done]. case_decide; simpl; [done|]. by case_decide. Qed.

(** A property of the database that deleting a victim keeps. *)
Definition kept (I : Database -> Prop) : Prop :=
  forall d dn fn f d' e,
    I d -> files_in d dn fn = Some f -> Hash f ∈ victims ->
    setFileLocked d (dn ++ [fn]) None owner = Done (d', e) -> I d'.

Definition same_dirs (d d' : Database) : Prop :=
  forall q, is_Some (node_at (fileTree d') q) <-> is_Some (node_at (fileTree d) q).

#[export] Instance same_dirs_preorder : PreOrder same_dirs.
Proof.
  split; [by intros d q|]. intros d1 d2 d3 H12 H23 q. by rewrite (H23 q), (H12 q).
Qed.

(** Deleting one victim. *)
Lemma delete_step d dn fn f d' e :
  files_in d dn fn = Some f ->
  setFileLocked d (dn ++ [fn]) None owner = Done (d', e) ->
  e = None /\ same_dirs d d' /\
  (forall q fn', files_in d' q fn' = if decide (q = dn /\ fn' = fn) then None else files_in d q fn').
Proof.
  intros Hf Hrun.
  destruct (forget d (Some f) owner) as [ow|why|] eqn:How.
  - rewrite (unpublish_run d dn fn owner f ow Hf How) in Hrun.
    apply unpublished_Done in Hrun as (-> & _ & Hs & Hfs). done.
  - exfalso. revert Hrun. unfold setFileLocked. rewrite bool_decide_eq_true_2 by done.
    rewrite removelast_snoc, descend_delete by (by eexists). simpl.
    unfold files_in, lookup_file in Hf. destruct (node_at (fileTree d) dn) eqn:Hn; [|done].
    simpl in Hf |- *. rewrite go_index_last. simpl. rewrite (deref_Done _ _ _ Hn). simpl.
    rewrite Hf. simpl in How. by rewrite How.
  - simpl in How. unfold dec_owner in How. by case_match.
Qed.

(** The body of the loop over the files of a directory. *)
Definition file_body (parents : list string) : Database * option error -> string * FileInfo ->
    outcome (Database * option error) :=
  fun '(d, lastErr) '(fn, fi) =>
    if decide (Hash fi ∈ victims) then
      '(d, err) ← setFileLocked d (parents ++ [fn]) None owner;
      match err with
      | None => Done (d, lastErr)
      | Some e =>
          match lastErr with
          | None => Done (d, Some e)
          | Some l => Done (d, Some (Errorf "%v; %v" [l; e]))
          end
      end
    else Done (d, lastErr).

(** The invariant of that loop: the files seen so far are dealt with. *)
Definition files_inv (I : Database -> Prop) (d0 : Database) (dir : pointer)
    (seen : list (string * FileInfo)) (st : Database * option error) : Prop :=
  st.2 = None /\ I st.1 /\ same_dirs d0 st.1 /\
  forall q fn, files_in st.1 q fn =
    if decide (q = dir /\ fn ∈ seen.*1) then kill (files_in d0 q fn) else files_in d0 q fn.

Lemma seen_ext {A} (q : pointer) (x y : A) (l l' : list string) fn :
  (fn ∈ l <-> fn ∈ l') ->
  (if decide (q = q /\ fn ∈ l) then x else y) = (if decide (q = q /\ fn ∈ l') then x else y).
Proof. intros Hl. repeat case_decide; naive_solver. Qed.

Lemma file_body_inv I d0 dir n seen fn fi todo st st' :
  kept I -> node_at (fileTree d0) dir = Some n ->
  range_map (files n) = seen ++ (fn, fi) :: todo ->
  files_inv I d0 dir seen st -> file_body dir st (fn, fi) = Done st' ->
  files_inv I d0 dir (seen ++ [(fn, fi)]) st'.
Proof.
  intros Hkept Hn Hl (He & HI & Hs & Hfs) Hrun. destruct st as [d lastErr]. simpl in *. subst lastErr.
  assert (Hfi : files_in d0 dir fn = Some fi).
  { unfold files_in. rewrite <-(node_files _ _ _ _ Hn). apply elem_of_range_map.
    rewrite Hl. set_solver. }
  assert (Hnew : fn ∉ seen.*1).
  { pose proof (NoDup_range_map (files n)) as Hnd. rewrite Hl, fmap_app in Hnd.
    apply NoDup_app in Hnd as (_ & Hd & _). intros Hin. apply (Hd fn Hin). set_solver. }
  assert (Hcur : files_in d dir fn = Some fi).
  { rewrite Hfs. by rewrite decide_False by naive_solver. }
  assert (Hseen : forall fn', fn' ∈ (seen ++ [(fn, fi)]).*1 <-> fn' ∈ seen.*1 \/ fn' = fn).
  { intros fn'. rewrite fmap_app. set_solver. }
  unfold files_inv. case_decide as Hv.
  - destruct (setFileLocked _ _ _ _) as [[d' err]| |] eqn:Hset; simpl in Hrun; try done.
    destruct (delete_step _ _ _ _ _ _ Hcur Hset) as (-> & Hs' & Hfs').
    injection Hrun as <-. simpl. split; [done|]. split; [by eapply Hkept|]. split.
    { by etrans. }
    intros q fn'. rewrite Hfs', Hfs.
    destruct (decide (q = dir)) as [->|Hq]; [|by rewrite !decide_False by (by intros [? _])].
    destruct (decide (fn' = fn)) as [->|Hfn].
    + rewrite decide_True by done. rewrite decide_True by (split; [done|]; apply Hseen; by right).
      rewrite Hfi. simpl. by rewrite decide_True.
    + rewrite decide_False by (by intros [_ ?]). apply seen_ext. rewrite Hseen. naive_solver.
  - injection Hrun as <-. simpl. split; [done|]. split; [done|]. split; [done|].
    intros q fn'. simpl. rewrite Hfs.
    destruct (decide (q = dir)) as [->|Hq]; [|by rewrite !decide_False by (by intros [? _])].
    destruct (decide (fn' = fn)) as [->|Hfn].
    + rewrite decide_False by (by intros [_ ?]).
      rewrite decide_True by (split; [done|]; apply Hseen; by right).
      rewrite Hfi. simpl. by rewrite decide_False.
    + apply seen_ext. rewrite Hseen. naive_solver.
Qed.

(** After the loop every file of the directory is dealt with. *)
Lemma files_inv_all I d0 dir n st :
  node_at (fileTree d0) dir = Some n -> files_inv I d0 dir (range_map (files n)) st ->
  forall q fn, files_in st.1 q fn =
    if decide (q = dir) then kill (files_in d0 q fn) else files_in d0 q fn.
Proof.
  intros Hn (_ & _ & _ & Hfs) q fn. rewrite Hfs.
  destruct (decide (q = dir)) as [->|]; [|by rewrite decide_False by naive_solver].
  case_decide as Hd; [done|]. unfold files_in. rewrite <-(node_files _ _ _ _ Hn).
  destruct (files n !! fn) eqn:E; [|done]. exfalso. apply Hd. split; [done|].
  apply elem_of_range_keys. eauto.
Qed.

(** The result of visiting the directory [dir]. *)
Definition visited (I : Database -> Prop) (dir : pointer) (d d' : Database) : Prop :=
  I d' /\ same_dirs d d' /\
  forall q fn, files_in d' q fn =
    if decide (dir `prefix_of` q) then kill (files_in d q fn) else files_in d q fn.

(** The invariant of the loop over the subdirectories. *)
Definition dirs_inv (I : Database -> Prop) (d1 : Database) (dir : pointer)
    (seen : list (string * directory)) (d : Database) : Prop :=
  I d /\ same_dirs d1 d /\
  forall q fn, files_in d q fn =
    if decide (Exists (fun x => (dir ++ [x]) `prefix_of` q) seen.*1)
    then kill (files_in d1 q fn) else files_in d1 q fn.

Lemma dirs_inv_step I d1 dir seen x (sd : directory) d d' :
  dirs_inv I d1 dir seen d -> visited I (dir ++ [x]) d d' ->
  dirs_inv I d1 dir (seen ++ [(x, sd)]) d'.
Proof.
  intros (HI & Hs & Hfs) (HI' & Hs' & Hfs'). split; [done|]. split.
  { by etrans. }
  intros q fn. rewrite Hfs', Hfs.
  assert (Hex : Exists (fun y => (dir ++ [y]) `prefix_of` q) (seen ++ [(x, sd)]).*1 <->
    Exists (fun y => (dir ++ [y]) `prefix_of` q) seen.*1 \/ (dir ++ [x]) `prefix_of` q).
  { rewrite fmap_app, Exists_app. simpl. rewrite Exists_cons, Exists_nil. naive_solver. }
  repeat case_decide; try apply kill_kill; naive_solver.
Qed.

(** Both loops together visit the directory. *)
Lemma visited_all I d dir n st n' d' :
  node_at (fileTree d) dir = Some n -> files_inv I d dir (range_map (files n)) st ->
  node_at (fileTree st.1) dir = Some n' -> dirs_inv I st.1 dir (range_map (dirs n')) d' ->
  visited I dir d d'.
Proof.
  intros Hn Hfi Hn' (HI & Hs & Hfs). pose proof (files_inv_all _ _ _ _ _ Hn Hfi) as Hall.
  destruct Hfi as (_ & _ & Hs1 & _). split; [done|]. split.
  { by etrans. }
  intros q fn. rewrite Hfs, Hall.
  case_decide as HE.
  - assert (dir `prefix_of` q) as Hp.
    { apply Exists_exists in HE as (x & _ & r & ->). exists ([x] ++ r). by rewrite (assoc_L (++)). }
    rewrite (decide_True _ _ Hp). case_decide; [apply kill_kill|done].
  - destruct (decide (q = dir)) as [->|Hne]; [by rewrite decide_True|].
    case_decide as Hp; [|done]. destruct Hp as [[|x r] ->]; [by rewrite app_nil_r in Hne|].
    destruct (files_in d (dir ++ x :: r) fn) as [f|] eqn:Hf; [|done]. exfalso.
    apply HE, Exists_exists. exists x. split; [|exists r; by rewrite <-(assoc_L (++))].
    apply elem_of_range_keys. rewrite <-(node_at_child _ _ _ _ Hn').
    apply Hs1, (node_at_prefix _ _ r). rewrite <-(assoc_L (++)). simpl.
    unfold files_in, lookup_file in Hf. destruct (node_at (fileTree d) (dir ++ x :: r)); [eauto|done].
Qed.

(** Any run of the traversal that returns visits its directory. *)
Lemma search_run I fuel d dir d' e :
  kept I -> I d -> searchAndDestroy fuel d dir victims dir owner = Done (d', e) ->
  e = None /\ visited I dir d d'.
Proof.
  intros Hkept. revert d dir d' e. induction fuel as [|fuel IH]; intros d dir d' e HI Hrun; [done|].
  simpl in Hrun. destruct (deref (fileTree d) dir) as [n| |] eqn:Hn; simpl in Hrun; try done.
  apply deref_inv in Hn.
  destruct (foldM _ (d, None) _) as [st| |] eqn:E1; simpl in Hrun; try done.
  assert (Hst : files_inv I d dir (range_map (files n)) st).
  { eapply (foldM_inv (file_body dir) (files_inv I d dir)); [exact E1| |].
    - split; [done|]. split; [done|]. split; [done|]. intros q fn.
      rewrite decide_False; [done|]. simpl. set_solver.
    - intros seen [fn fi] todo st1 st2 Hl Hinv Hb. by eapply file_body_inv. }
  destruct st as [d1 lastErr].
  destruct (deref (fileTree d1) dir) as [n1| |] eqn:Hn1; simpl in Hrun; try done.
  apply deref_inv in Hn1.
  destruct (foldM _ d1 _) as [d2| |] eqn:E2; simpl in Hrun; try done.
  injection Hrun as <- <-. split; [apply Hst|].
  apply (visited_all I d dir n (d1, lastErr) n1 d2 Hn Hst Hn1).
  eapply (foldM_inv _ (dirs_inv I d1 dir)); [exact E2| |].
  - split; [apply Hst|]. split; [done|]. intros q fn.
    rewrite decide_False; [done|]. by intros ?%Exists_nil.
  - intros seen [x sd] todo d3 d4 Hl Hinv Hb.
    destruct (searchAndDestroy fuel d3 (dir ++ [x]) victims (dir ++ [x]) owner) as [[d5 e5]| |] eqn:E3;
      simpl in Hb; try done.
    injection Hb as <-. eapply dirs_inv_step; [done|]. eapply (IH d3); [apply Hinv|done].
Qed.

Lemma kept_wf : kept wf.
Proof.
  intros d dn fn f d' e Hwf Hf _ Hrun q fn' g Hg.
  destruct (delete_step _ _ _ _ _ _ Hf Hrun) as (_ & _ & Hfs).
  change (files_in d' q fn' = Some g) in Hg. rewrite Hfs in Hg. case_decide; [done|].
  destruct (forget_Done d (Some f) owner) as (ow & How & Hk).
  { intros g' [= <-]. by eapply Hwf. }
  rewrite (unpublish_run d dn fn owner f ow Hf How) in Hrun.
  apply unpublished_Done in Hrun as (_ & -> & _). apply Hk. by eapply Hwf.
Qed.

(** A victim that lies directly in the directory of a user (or in the root). *)
Definition shallow_victim (d : Database) : Prop :=
  exists q fn f, files_in d q fn = Some f /\ Hash f ∈ victims /\ length q < 2.

Lemma kill_Some o f : kill o = Some f -> o = Some f.
Proof. unfold kill. destruct o; simpl; [|done]. by case_decide. Qed.

Lemma file_body_outcome d0 dir n seen fn fi todo st :
  node_at (fileTree d0) dir = Some n ->
  range_map (files n) = seen ++ (fn, fi) :: todo -> files_inv wf d0 dir seen st ->
  (exists st', file_body dir st (fn, fi) = Done st' /\ files_inv wf d0 dir (seen ++ [(fn, fi)]) st') \/
  (file_body dir st (fn, fi) = Panic index_out_of_range /\ shallow_victim d0).
Proof.
  intros Hn Hl Hinv.
  enough ((exists st', file_body dir st (fn, fi) = Done st') \/
    (file_body dir st (fn, fi) = Panic index_out_of_range /\ shallow_victim d0)) as [[st' Hst']|?]; [|by right|].
  { left. exists st'. split; [done|]. eapply file_body_inv; eauto using kept_wf. }
  destruct Hinv as (He & Hwf & _ & Hfs). destruct st as [d lastErr]. simpl in *. subst.
  case_decide as Hv; [|left; by eexists].
  assert (Hfi : files_in d0 dir fn = Some fi).
  { unfold files_in. rewrite <-(node_files _ _ _ _ Hn). apply elem_of_range_map.
    rewrite Hl. set_solver. }
  assert (Hnew : fn ∉ seen.*1).
  { pose proof (NoDup_range_map (files n)) as Hnd. rewrite Hl, fmap_app in Hnd.
    apply NoDup_app in Hnd as (_ & Hd & _). intros Hin. apply (Hd fn Hin). set_solver. }
  assert (Hcur : files_in d dir fn = Some fi).
  { rewrite Hfs. by rewrite decide_False by naive_solver. }
  destruct (forget_Done d (Some fi) owner) as (ow & How & _).
  { intros g [= <-]. by eapply Hwf. }
  rewrite (unpublish_run d dir fn owner fi ow Hcur How). unfold unpublished.
  assert (length dir < 2 -> shallow_victim d0) as Hshallow by (intros ?; by exists dir, fn, fi).
  destruct dir as [|u [|v dir]]; simpl in Hshallow |- *; [right; split; [done|apply Hshallow; lia]| |left; by eexists].
  unfold files_in, lookup_file in Hcur. destruct (node_at (fileTree d) [u]) as [nd|] eqn:Hnd; [|done].
  change (dirs (fileTree d) !! u) with (dirs (fileTree d) !! u). rewrite (deref_Done _ _ _ Hnd). simpl.
  case_decide; [left; by eexists|right; split; [done|apply Hshallow; lia]].
Qed.

(** With the depth of the directory as fuel the traversal returns, or it panics
at a victim that is not deep enough. *)
Lemma search_outcome fuel d dir :
  wf d -> is_Some (node_at (fileTree d) dir) ->
  (forall q, is_Some (node_at (fileTree d) (dir ++ q)) -> length q < fuel) ->
  (exists d', searchAndDestroy fuel d dir victims dir owner = Done (d', None)) \/
  (searchAndDestroy fuel d dir victims dir owner = Panic index_out_of_range /\ shallow_victim d).
Proof.
  revert d dir. induction fuel as [|fuel IH]; intros d dir Hwf [n Hn] Hfuel.
  { specialize (Hfuel []). rewrite app_nil_r in Hfuel. specialize (Hfuel ltac:(eauto)). lia. }
  simpl. rewrite (deref_Done _ _ _ Hn). simpl.
  change (foldM _ (d, None) _) with (foldM (file_body dir) (d, None) (range_map (files n))).
  destruct (foldM_or_panic (file_body dir) (files_inv wf d dir) index_out_of_range (shallow_victim d)
    (d, None) (range_map (files n))) as [([d1 lastErr] & -> & Hst)|[-> Hsv]]; [..|by right].
  { split; [done|]. split; [done|]. split; [done|]. intros q fn.
    rewrite decide_False; [done|]. simpl. set_solver. }
  { intros seen [fn fi] todo st Hl Hinv. by eapply file_body_outcome. }
  simpl. pose proof (files_inv_all _ _ _ _ _ Hn Hst) as Hfs1. simpl in Hfs1.
  destruct Hst as (He & Hwf1 & Hs1 & _). simpl in He, Hwf1, Hs1. subst lastErr.
  assert (is_Some (node_at (fileTree d1) dir)) as [n1 Hn1] by (apply Hs1; eauto).
  rewrite (deref_Done _ _ _ Hn1). simpl.
  match goal with |- context [foldM ?b d1 _] =>
    destruct (foldM_or_panic b (dirs_inv wf d1 dir) index_out_of_range (shallow_victim d) d1 (range_map (dirs n1)))
      as [(d2 & -> & _)|[-> Hsv]]; [| |left; by eexists|by right]
  end.
  - split; [done|]. split; [done|]. intros q fn.
    rewrite decide_False; [done|]. by intros ?%Exists_nil.
  - intros seen [x sd] todo d2 Hl Hinv. pose proof Hinv as (Hwf2 & Hs2 & Hfs2).
    assert (Hx : is_Some (node_at (fileTree d1) (dir ++ [x]))).
    { rewrite (node_at_child _ _ _ _ Hn1). exists sd. apply elem_of_range_map. rewrite Hl. set_solver. }
    destruct (IH d2 (dir ++ [x])) as [[d3 Hrun3]|[Hrun3 (q & fn & f & Hf & Hv & Hlen)]].
    + done.
    + by apply Hs2.
    + intros q Hq. rewrite <-(assoc_L (++)) in Hq. apply Hs2, Hs1, Hfuel in Hq. simpl in Hq. lia.
    + left. rewrite Hrun3. simpl. exists d3. split; [done|].
      eapply dirs_inv_step; [done|]. eapply search_run; eauto using kept_wf.
    + right. rewrite Hrun3. split; [done|]. exists q, fn, f. split; [|done]. rewrite Hfs2 in Hf.
      assert (files_in d1 q fn = Some f) as Hf1 by (case_decide; eauto using kill_Some).
      rewrite Hfs1 in Hf1. case_decide; eauto using kill_Some.
Qed.

End search.

End InmemDisconnect.
