(* ===== verification/DatabaseInmemTheorems.v ===== *)
(** * Properties of the in-memory database

The operations of [database_inmem.go] against [FileTable], and the runs in
which they part from it. *)

From S2P Require Import Prelude GoStrings Types DatabaseSpec.
From S2P Require Import DatabaseInmem DatabaseInmemTree DatabaseInmemProofs DatabaseInmemDisconnect.
Import Inmem InmemTree InmemProofs InmemDisconnect.

Module InmemTheorems.

(** ** Queries *)

Lemma walk_dir_spec t dn :
  Forall good_part dn ->
  walk_dir t dn = match node_at t dn with
                  | Some n => inr n
                  | None => inl (errors_New "ENOENT")
                  end.
Proof.
  revert t. induction dn as [|p dn IH]; intros t Hgood; simpl; [done|].
  apply Forall_cons in Hgood as [[Hp _] Hdn]. rewrite Hp.
  destruct (dirs t !! p); [by apply IH|done].
Qed.

Section queries.
Context `{MapRange}.

Lemma GetDir_run d dn :
  Forall good_part dn ->
  GetDir d (strings.Join dn "/") =
    match node_at (fileTree d) dn with
    | Some n => (Some (files n, (range_map (dirs n)).*1), None)
    | None => (None, Some (errors_New "ENOENT"))
    end.
Proof.
  intros Hgood. unfold GetDir.
  rewrite (dir_parts dn Hgood).
  rewrite (walk_dir_spec _ _ Hgood). by destruct (node_at (fileTree d) dn).
Qed.

Lemma mem_GetOwners d h o :
  o ∈ (GetOwners d h).1 <-> is_Some (own_lookup (owners d) h o).
Proof.
  unfold GetOwners, own_lookup. simpl. rewrite elem_of_range_keys.
  destruct (owners d !! h); [done|]. simpl. rewrite lookup_empty. done.
Qed.

Lemma mem_GetOwners_represents owner_of d S h o :
  represents owner_of d S -> o ∈ (GetOwners d h).1 <-> FileTable.owns owner_of S h o.
Proof.
  intros [_ Hown]. by rewrite mem_GetOwners, Hown, positive_is_Some, FileTable.owned_count_pos.
Qed.
End queries.

(** ** The hashes of one owner *)

Lemma size_one_unique {V} (m : gmap string V) k :
  (is_Some (m !! k) /\ size m = 1) <-> is_Some (m !! k) /\ (forall j, is_Some (m !! j) -> j = k).
Proof.
  split; intros [Hk Hm]; (split; [done|]).
  - intros j Hj. apply elem_of_dom in Hk, Hj. rewrite <-size_dom in Hm.
    by apply (size_singleton_inv (dom m)).
  - destruct Hk as [v Hv]. assert (m = {[k := v]}) as ->; [|by rewrite map_size_singleton].
    apply map_eq. intros j. destruct (decide (k = j)) as [->|Hne].
    + by rewrite lookup_singleton_eq.
    + rewrite lookup_singleton_ne by done. destruct (m !! j) eqn:E; [|done].
      exfalso. apply Hne. symmetry. apply Hm. eauto.
Qed.

Lemma mem_sole_hashes owner_of d S h owner :
  represents owner_of d S ->
  h ∈ sole_hashes (owners d) owner <->
    FileTable.owns owner_of S h owner /\ forall o, FileTable.owns owner_of S h o -> o = owner.
Proof.
  intros [_ Hown].
  assert (Howns : forall o, is_Some (own_lookup (owners d) h o) <-> FileTable.owns owner_of S h o).
  { intros o. by rewrite Hown, positive_is_Some, FileTable.owned_count_pos. }
  setoid_rewrite <-Howns. unfold sole_hashes, own_lookup. rewrite elem_of_dom.
  destruct (owners d !! h) as [m|] eqn:E; simpl.
  - rewrite <-size_one_unique. split.
    + intros [m' [Hm' HP]%map_lookup_filter_Some]. by simplify_eq.
    + intros HP. exists m. by apply map_lookup_filter_Some.
  - split.
    + intros [m' [Hm' HP]%map_lookup_filter_Some]. by simplify_eq.
    + intros [[? ?] _]. done.
Qed.

(** ** Disconnection *)

(** The files [PeerDisconnected owner] takes away: those with a hash that no
other peer publishes. *)
Definition sole_owner (owner_of : FileTable.path -> string) (S : FileTable.table)
    (owner : string) (f : FileInfo) : Prop :=
  FileTable.owns owner_of S (Hash f) owner /\
  forall o, FileTable.owns owner_of S (Hash f) o -> o = owner.

Section disconnect.
Context `{MapRange} (owner_of : FileTable.path -> string).

(** Deleting a victim keeps the counters in step with the files that are left. *)
Lemma kept_represents S owner victims :
  (forall p f, S !! p = Some f -> Hash f ∈ victims -> owner_of p = owner) ->
  kept victims owner (fun d => exists S', represents owner_of d S' /\ S' ⊆ S).
Proof.
  intros Hv d dn fn f d' e (S' & HR & Hsub) Hf Hvf Hrun.
  pose proof HR as [Hfiles _]. rewrite Hfiles in Hf.
  rewrite <-(Hv (dn, fn) f) in Hrun by (done || by eapply lookup_weaken).
  apply (unpublish_refines owner_of d S' (dn, fn)) in Hrun as (_ & HR' & _); [|done].
  eexists. split; [exact HR'|]. etrans; [apply delete_subseteq|done].
Qed.

Lemma disconnect_effect d S owner d' e :
  represents owner_of d S -> PeerDisconnected d owner = Done (d', e) ->
  exists S', represents owner_of d' S' /\
    forall p, S' !! p =
      (f ← S !! p; if decide (Hash f ∈ sole_hashes (owners d) owner) then None else Some f).
Proof.
  intros HR Hrun. unfold PeerDisconnected in Hrun.
  eapply (search_run _ owner (fun d => exists S', represents owner_of d S' /\ S' ⊆ S))
    in Hrun as (_ & (S' & HR' & _) & _ & Hfs).
  - exists S'. split; [done|]. intros [dn fn].
    destruct HR as [Hfiles _], HR' as [Hfiles' _].
    rewrite <-Hfiles', <-Hfiles, Hfs. by rewrite decide_True by apply prefix_nil.
  - apply kept_represents. intros p f Hp Hv.
    apply (mem_sole_hashes owner_of d S) in Hv as [_ Hv]; [|done].
    apply Hv. by exists p, f.
  - by exists S.
Qed.

Lemma disconnect_outcome d S owner :
  represents owner_of d S ->
  (exists d' S', PeerDisconnected d owner = Done (d', None) /\ represents owner_of d' S' /\
     forall p f, S' !! p = Some f <-> S !! p = Some f /\ ~ sole_owner owner_of S owner f) \/
  (PeerDisconnected d owner = Panic index_out_of_range /\
   exists p f, S !! p = Some f /\ sole_owner owner_of S owner f /\ length p.1 < 2).
Proof.
  intros HR. pose proof (fun h => mem_sole_hashes owner_of d S h owner HR) as Hsole.
  destruct (search_outcome (sole_hashes (owners d) owner) owner (depth (fileTree d)) d [])
    as [[d' Hrun]|[Hrun (q & fn & f & Hf & Hv & Hlen)]].
  - by eapply represents_wf.
  - by eexists.
  - intros q. apply node_at_depth.
  - left. destruct (disconnect_effect d S owner d' None HR Hrun) as (S' & HR' & HS').
    exists d', S'. split; [done|]. split; [done|]. intros p f. rewrite HS'.
    unfold sole_owner. destruct (S !! p) as [g|]; simpl; [|naive_solver].
    setoid_rewrite <-Hsole. case_decide; naive_solver.
  - right. split; [exact Hrun|]. exists (q, fn), f. rewrite <-(rep_files _ _ _ HR). split; [exact Hf|].
    split; [by apply Hsole|exact Hlen].
Qed.

Lemma disconnect_total d S owner :
  represents owner_of d S ->
  (forall p f, S !! p = Some f -> sole_owner owner_of S owner f -> 2 <= length p.1) ->
  exists d' S', PeerDisconnected d owner = Done (d', None) /\ represents owner_of d' S' /\
    (forall p f, S' !! p = Some f <-> S !! p = Some f /\ ~ sole_owner owner_of S owner f).
Proof.
  intros HR Hdeep. destruct (disconnect_outcome d S owner HR) as [?|[_ (p & f & Hp & Hf & Hlen)]]; [done|].
  specialize (Hdeep p f Hp Hf). lia.
Qed.
End disconnect.

(** ** A concrete database: two peers share a hash, and [a@1] has one file more *)

Definition info (h : string) : FileInfo := mkFileInfo 3 h 0.

Definition demo_owner (p : FileTable.path) : string :=
  match p.1 with
  | u :: _ => if decide (u = "a") then "a@1" else "b@2"
  | [] => "b@2"
  end.

Definition demo_table : FileTable.table :=
  {[(["a"; "x"], "f") := info "h"; (["a"; "x"], "g") := info "k"; (["b"; "y"], "f") := info "h"]}.

Definition run_ok (r : outcome (Database * option error)) (d : Database) : Database :=
  match r with Done (d', None) => d' | _ => d end.

Definition demo_step (d : Database) (p : FileTable.path) (f : FileInfo) : Database :=
  run_ok (SetFile d (FileTable.fnEx p) (Some f) (demo_owner p)) d.

Definition demo_db : Database :=
  demo_step (demo_step (demo_step newDatabase (["b"; "y"], "f") (info "h"))
    (["a"; "x"], "g") (info "k")) (["a"; "x"], "f") (info "h").

Lemma demo_step_represents d S p f :
  represents demo_owner d S ->
  represents demo_owner (demo_step d p f) (FileTable.set S p (Some f)).
Proof.
  intros HR. destruct (publish_refines demo_owner d S p f HR) as (d' & Hrun & HR' & _).
  unfold demo_step, SetFile. rewrite Hrun. done.
Qed.

Lemma demo_represents : represents demo_owner demo_db demo_table.
Proof. unfold demo_table. by repeat apply demo_step_represents; apply represents_new. Qed.

(** The database in which [u] has published one file directly in its
directory. *)
Lemma publish_top_level d u fn f owner :
  node_at (fileTree d) [u] = None ->
  SetFile d [u; fn] (Some f) owner =
    Done (mkDatabase
      (alter_at (with_files <[fn := f]>)
        (alter_at (add_refs 1)
          (alter_at (with_dirs <[u := new_directory]>) (alter_at (add_refs 1) (fileTree d) []) [])
          [u]) [u])
      (inc_owner (owners d) (Hash f) owner), None).
Proof.
  intros Hnone. simpl in Hnone. unfold SetFile, setFileLocked. simpl.
  destruct (dirs (fileTree d) !! u) eqn:E; [done|]. simpl.
  unfold deref. simpl. rewrite lookup_insert_eq. simpl. by rewrite lookup_empty.
Qed.

(** A deletion below a subdirectory of a user always returns. *)
Lemma unpublish_deep owner_of d S p :
  represents owner_of d S -> 2 <= length p.1 ->
  exists d', setFileLocked d (FileTable.fnEx p) None (owner_of p) = Done (d', None).
Proof.
  intros HR Hdeep. pose proof (represents_wf _ _ _ HR) as Hwf.
  destruct p as [dn fn]. unfold FileTable.fnEx. simpl in *.
  destruct (files_in d dn fn) as [f|] eqn:Hf; [|exists d; by apply unpublish_missing].
  destruct (forget_Done d (Some f) (owner_of (dn, fn))) as (ow & How & _).
  { intros g [= <-]. by eapply Hwf. }
  rewrite (unpublish_run _ _ _ _ _ _ Hf How). unfold unpublished.
  destruct dn as [|u [|v dn]]; simpl in Hdeep; try lia. eauto.
Qed.

(** ** Claims *)

(** C3: [SetFile] refines the table of published files, for paths that are always
published under the same identity: publishing any path, or deleting one that lies
below a subdirectory of its user, returns without error in a database that holds
the updated table, its owner counters included. *)
Theorem SetFile_refines owner_of d S p fi :
  represents owner_of d S -> (fi = None -> 2 <= length p.1) ->
  exists d', SetFile d (FileTable.fnEx p) fi (owner_of p) = Done (d', None) /\
    represents owner_of d' (FileTable.set S p fi).
Proof.
  intros HR Hdeep. unfold SetFile. destruct fi as [f|].
  - destruct (publish_refines owner_of d S p f HR) as (d' & ? & ? & _). eauto.
  - destruct (unpublish_deep owner_of d S p HR (Hdeep eq_refl)) as (d' & Hrun).
    exists d'. split; [exact Hrun|]. by eapply unpublish_refines.
Qed.

Lemma SetFile_refines_witness :
  exists d', SetFile demo_db (FileTable.fnEx (["a"; "x"], "f")) None (demo_owner (["a"; "x"], "f"))
    = Done (d', None) /\
    represents demo_owner d' (FileTable.set demo_table (["a"; "x"], "f") None).
Proof. apply SetFile_refines; [apply demo_represents|simpl; lia]. Defined.

(** C37: every outcome of [SetFile] on a well-formed database: it returns
without error in a well-formed database, or it panics, and that only for the
deletion of a published file whose directory is a user's own one and holds the
last reference to it (or is the root). It never writes to a nil map. *)
Theorem SetFile_outcomes d dn fn fi owner :
  wf d ->
  (exists d', SetFile d (dn ++ [fn]) fi owner = Done (d', None) /\ wf d') \/
  (SetFile d (dn ++ [fn]) fi owner = Panic index_out_of_range /\
   fi = None /\ is_Some (files_in d dn fn) /\
   (dn = [] \/ exists u n, dn = [u] /\ node_at (fileTree d) [u] = Some n /\ (refs n <= 1)%Z)).
Proof.
  intros Hwf. unfold SetFile.
  destruct (forget_Done d (files_in d dn fn) owner) as (ow & How & Hk).
  { intros f Hf. by eapply Hwf. }
  destruct fi as [f|].
  { left. destruct (publish_run d dn fn f owner ow How) as (tree & Hrun & Hf & _).
    eexists. split; [exact Hrun|]. intros q fn' g Hg. simpl in Hg |- *. rewrite Hf in Hg.
    apply inc_owner_dom. rewrite Hk. case_decide; [naive_solver|]. right. by eapply Hwf. }
  destruct (files_in d dn fn) as [f|] eqn:Hf.
  2: { left. exists d. split; [by apply unpublish_missing|done]. }
  rewrite (unpublish_run _ _ _ _ _ _ Hf How).
  destruct (unpublished d dn fn ow) as [[d' e]|why|] eqn:Hun.
  - left. apply unpublished_Done in Hun as (-> & How' & _ & Hfs).
    exists d'. split; [done|]. intros q fn' g Hg. change (files_in d' q fn' = Some g) in Hg.
    rewrite Hfs in Hg. rewrite How', Hk. case_decide; [done|]. by eapply Hwf.
  - right. unfold unpublished in Hun. destruct dn as [|u [|v dn]]; [naive_solver| |done].
    destruct (node_at (fileTree d) [u]) as [n|] eqn:Hn.
    + rewrite (deref_Done _ _ _ Hn) in Hun. cbn [mbind outcome_bind] in Hun.
      case_decide; [done|]. injection Hun as <-. repeat split; eauto.
      right. exists u, n. repeat split; eauto. lia.
    + unfold files_in, lookup_file in Hf. by rewrite Hn in Hf.
  - exfalso. unfold unpublished in Hun. destruct dn as [|u [|v dn]]; try done.
    unfold deref in Hun. destruct (node_at (fileTree d) [u]); [|done].
    cbn [mbind outcome_bind] in Hun. by case_decide.
Qed.

Lemma SetFile_outcomes_witness :
  (exists d', SetFile demo_db (["a"; "x"] ++ ["f"]) None "a@1" = Done (d', None) /\ wf d') \/
  (SetFile demo_db (["a"; "x"] ++ ["f"]) None "a@1" = Panic index_out_of_range /\
   None = (None : option FileInfo) /\ is_Some (files_in demo_db ["a"; "x"] "f") /\
   (["a"; "x"] = [] \/ exists u n, ["a"; "x"] = [u] /\
      node_at (fileTree demo_db) [u] = Some n /\ (refs n <= 1)%Z)).
Proof. apply SetFile_outcomes. eapply represents_wf, demo_represents. Defined.

(** in any database without a directory for [u], publishing one file
directly in [u]'s directory returns, and deleting that file again panics: the
loop that should drop empty directories indexes the trace at -1. *)
Theorem unpublish_only_file_panics d u fn f owner :
  node_at (fileTree d) [u] = None ->
  exists d', SetFile d [u; fn] (Some f) owner = Done (d', None) /\
    SetFile d' [u; fn] None owner = Panic index_out_of_range.
Proof.
  intros Hnone. rewrite (publish_top_level d u fn f owner Hnone).
  eexists. split; [done|]. set (d' := mkDatabase _ _).
  assert (Hnode : node_at (fileTree d') [u] = Some (mkDirectory ∅ {[fn := f]} 1)).
  { subst d'. simpl. by repeat (rewrite lookup_insert_eq; simpl). }
  assert (Hf : files_in d' [u] fn = Some f).
  { unfold files_in, lookup_file. rewrite Hnode. simpl. apply lookup_singleton_eq. }
  destruct (forget_Done d' (Some f) owner) as (ow & How & _).
  { intros g [= <-]. subst d'. simpl. apply inc_owner_dom. by left. }
  unfold SetFile. change [u; fn] with ([u] ++ [fn]).
  rewrite (unpublish_run _ _ _ _ _ _ Hf How). unfold unpublished.
  by rewrite (deref_Done _ _ _ Hnode).
Qed.

Lemma unpublish_only_file_panics_witness :
  exists d', SetFile newDatabase ["u"; "f"] (Some (info "h")) "u@1" = Done (d', None) /\
    SetFile d' ["u"; "f"] None "u@1" = Panic index_out_of_range.
Proof. apply unpublish_only_file_panics. reflexivity. Defined.

(** deleting a file removes that file and nothing else, and no directory
ever goes: every directory of the tree is still there, however empty. *)
Theorem unpublish_keeps_directories d dn fn owner d' e :
  wf d -> SetFile d (dn ++ [fn]) None owner = Done (d', e) ->
  (forall q, is_Some (node_at (fileTree d') q) <-> is_Some (node_at (fileTree d) q)) /\
  (forall q fn', files_in d' q fn' =
     if decide (q = dn /\ fn' = fn) then None else files_in d q fn').
Proof.
  unfold SetFile. intros Hwf Hrun. destruct (files_in d dn fn) as [f|] eqn:Hf.
  - by apply (delete_step _ _ _ _ _ _ _ Hf) in Hrun as (_ & ? & ?).
  - rewrite (unpublish_missing _ _ _ _ Hf) in Hrun. injection Hrun as <- <-.
    split; [done|]. intros q fn'. case_decide; naive_solver.
Qed.

Lemma unpublish_keeps_directories_witness :
  exists d', SetFile demo_db (["a"; "x"] ++ ["f"]) None "a@1" = Done (d', None) /\
  (forall q, is_Some (node_at (fileTree d') q) <-> is_Some (node_at (fileTree demo_db) q)) /\
  (forall q fn', files_in d' q fn' =
     if decide (q = ["a"; "x"] /\ fn' = "f") then None else files_in demo_db q fn').
Proof.
  eexists. split; [vm_compute; reflexivity|].
  eapply (unpublish_keeps_directories demo_db ["a"; "x"] "f" "a@1").
  - eapply represents_wf, demo_represents.
  - vm_compute. reflexivity.
Defined.

Section range_claims.
Context {R : MapRange}.

(** a published file is listed: after [SetFile], [GetDir] of its directory
succeeds, and what it returns are exactly the files of the updated table in
that directory, with this file's info; [GetOwners] of its hash has the
publisher. *)
Theorem publish_then_query owner_of d S p f :
  represents owner_of d S -> Forall good_part p.1 ->
  exists d' fs ds,
    SetFile d (FileTable.fnEx p) (Some f) (owner_of p) = Done (d', None) /\
    GetDir d' (strings.Join p.1 "/") = (Some (fs, ds), None) /\
    FileTable.lists (FileTable.set S p (Some f)) p.1 fs /\ fs !! p.2 = Some f /\
    owner_of p ∈ (GetOwners d' (Hash f)).1.
Proof.
  intros HR Hgood. destruct (publish_refines owner_of d S p f HR) as (d' & Hrun & HR' & Hq).
  pose proof HR' as [Hfiles _].
  assert (Hp : FileTable.set S p (Some f) !! p = Some f).
  { rewrite FileTable.lookup_set. by rewrite decide_True. }
  destruct p as [dn fn]. simpl in *. specialize (Hfiles dn) as Hdn.
  assert (is_Some (node_at (fileTree d') dn)) as [n Hn].
  { specialize (Hdn fn). rewrite Hp in Hdn. unfold files_in, lookup_file in Hdn.
    destruct (node_at (fileTree d') dn); [eauto|done]. }
  exists d', (files n), (range_map (dirs n)).*1.
  assert (Hlist : forall g, files n !! g = FileTable.set S (dn, fn) (Some f) !! (dn, g)).
  { intros g. rewrite <-Hdn. unfold files_in. by apply node_files. }
  split; [exact Hrun|]. split; [by rewrite (GetDir_run d' dn Hgood), Hn|].
  split; [exact Hlist|]. split; [by rewrite Hlist|].
  apply (mem_GetOwners_represents owner_of d' _ _ _ HR'). by exists (dn, fn), f.
Qed.

(** [GetOwners] answers, without repetition, exactly the peers that
publish a file with the hash. *)
Theorem GetOwners_correct owner_of d S h :
  represents owner_of d S ->
  NoDup (GetOwners d h).1 /\ (GetOwners d h).2 = None /\
  (forall o, o ∈ (GetOwners d h).1 <-> FileTable.owns owner_of S h o).
Proof.
  intros HR. split; [apply NoDup_range_map|]. split; [done|].
  intros o. by apply mem_GetOwners_represents.
Qed.

(** [GetDir] of a path with acceptable parts either lists the files the
table has in that directory and the names of its subdirectories, each once, or
answers ENOENT when the table has no file there. *)
Theorem GetDir_correct owner_of d S dn :
  represents owner_of d S -> Forall good_part dn ->
  (exists fs ds, GetDir d (strings.Join dn "/") = (Some (fs, ds), None) /\
     FileTable.lists S dn fs /\ NoDup ds /\
     (forall x, x ∈ ds <-> is_Some (node_at (fileTree d) (dn ++ [x])))) \/
  (GetDir d (strings.Join dn "/") = (None, Some (errors_New "ENOENT")) /\
   forall fn, S !! (dn, fn) = None).
Proof.
  intros [Hfiles _] Hgood. rewrite (GetDir_run d dn Hgood).
  destruct (node_at (fileTree d) dn) as [n|] eqn:Hn.
  - left. eexists _, _. split; [done|]. split; [|split; [apply NoDup_range_map|]].
    + intros fn. rewrite <-Hfiles. by apply node_files.
    + intros x. by rewrite elem_of_range_keys, (node_at_child _ _ _ _ Hn).
  - right. split; [done|]. intros fn. rewrite <-Hfiles. unfold files_in, lookup_file.
    by rewrite Hn.
Qed.

(** C17: [PeerDisconnected] comes to an end, for every order of the maps it
ranges over. Either it returns without error, and the database then holds exactly
the files whose hash some other peer publishes too, or that the peer never had; or
it panics at an index out of range, and that only when a file that only this peer
publishes lies directly in the directory of its user, as the files of an unnamed
share do. *)
Theorem PeerDisconnected_correct owner_of d S owner :
  represents owner_of d S ->
  (exists d' S', PeerDisconnected d owner = Done (d', None) /\ represents owner_of d' S' /\
     forall p f, S' !! p = Some f <-> S !! p = Some f /\ ~ sole_owner owner_of S owner f) \/
  (PeerDisconnected d owner = Panic index_out_of_range /\
   exists p f, S !! p = Some f /\ sole_owner owner_of S owner f /\ length p.1 < 2).
Proof. apply disconnect_outcome. Qed.

(** a hash that another peer publishes too keeps its owners through
[PeerDisconnected]: the peer that has gone is still among the owners that
[GetOwners] answers. *)
Theorem PeerDisconnected_keeps_owner owner_of d S owner other h d' e :
  represents owner_of d S ->
  FileTable.owns owner_of S h owner -> FileTable.owns owner_of S h other -> owner <> other ->
  PeerDisconnected d owner = Done (d', e) ->
  owner ∈ (GetOwners d' h).1.
Proof.
  intros HR Ho Ho' Hne Hrun.
  destruct (disconnect_effect owner_of d S owner d' e HR Hrun) as (S' & HR' & HS').
  apply (mem_GetOwners_represents owner_of d' S' h owner HR').
  destruct Ho as (p & f & Hp & <- & <-). exists p, f. split; [|done].
  rewrite HS', Hp. simpl. rewrite decide_False; [done|].
  intros [_ Hsole]%(mem_sole_hashes owner_of d S); [|done].
  apply Hne. symmetry. by apply Hsole.
Qed.
End range_claims.

Lemma publish_then_query_witness :
  exists d' fs ds,
    SetFile demo_db (FileTable.fnEx (["a"; "z"], "n")) (Some (info "m")) (demo_owner (["a"; "z"], "n"))
      = Done (d', None) /\
    @GetDir std_range d' (strings.Join ["a"; "z"] "/") = (Some (fs, ds), None) /\
    FileTable.lists (FileTable.set demo_table (["a"; "z"], "n") (Some (info "m"))) ["a"; "z"] fs /\
    fs !! "n" = Some (info "m") /\
    demo_owner (["a"; "z"], "n") ∈ (@GetOwners std_range d' "m").1.
Proof.
  apply (@publish_then_query std_range demo_owner demo_db demo_table (["a"; "z"], "n") (info "m")).
  - apply demo_represents.
  - repeat constructor.
Defined.

Lemma GetOwners_correct_witness :
  NoDup (@GetOwners std_range demo_db "h").1 /\ (@GetOwners std_range demo_db "h").2 = None /\
  (forall o, o ∈ (@GetOwners std_range demo_db "h").1 <-> FileTable.owns demo_owner demo_table "h" o).
Proof. apply (@GetOwners_correct std_range). apply demo_represents. Defined.

Lemma GetDir_correct_witness :
  (exists fs ds, @GetDir std_range demo_db (strings.Join ["a"] "/") = (Some (fs, ds), None) /\
     FileTable.lists demo_table ["a"] fs /\ NoDup ds /\
     (forall x, x ∈ ds <-> is_Some (node_at (fileTree demo_db) (["a"] ++ [x])))) \/
  (@GetDir std_range demo_db (strings.Join ["a"] "/") = (None, Some (errors_New "ENOENT")) /\
   forall fn, demo_table !! (["a"], fn) = None).
Proof.
  apply (@GetDir_correct std_range demo_owner); [apply demo_represents|repeat constructor].
Defined.

(** Every file of the demo lies below a subdirectory. *)
Lemma demo_deep p f : demo_table !! p = Some f -> 2 <= length p.1.
Proof.
  intros Hp.
  assert (map_Forall (fun (p : FileTable.path) (_ : FileInfo) => 2 <= length p.1) demo_table) as H.
  { apply map_Forall_to_list. vm_compute. repeat constructor. }
  by apply (H p f).
Qed.

Lemma PeerDisconnected_correct_witness :
  exists d' S', @PeerDisconnected std_range demo_db "a@1" = Done (d', None) /\
    represents demo_owner d' S' /\
    (forall p f, S' !! p = Some f <->
       demo_table !! p = Some f /\ ~ sole_owner demo_owner demo_table "a@1" f).
Proof.
  destruct (@PeerDisconnected_correct std_range demo_owner demo_db demo_table "a@1") as [?|[_ (p & f & Hp & _ & Hlen)]];
    [apply demo_represents|done|].
  apply demo_deep in Hp. lia.
Defined.

Lemma PeerDisconnected_keeps_owner_witness :
  exists d', @PeerDisconnected std_range demo_db "a@1" = Done (d', None) /\
    "a@1" ∈ (@GetOwners std_range d' "h").1.
Proof.
  eexists. split; [vm_compute; reflexivity|].
  eapply (@PeerDisconnected_keeps_owner std_range demo_owner demo_db demo_table "a@1" "b@2" "h").
  - apply demo_represents.
  - exists (["a"; "x"], "f"), (info "h"). repeat split.
  - exists (["b"; "y"], "f"), (info "h"). repeat split.
  - discriminate.
  - vm_compute. reflexivity.
Defined.

End InmemTheorems.
