(* ===== verification/DatabaseInmemUsers.v ===== *)
(** * The in-memory database and the users of the master

A user may sign in from several addresses, and the counters of the database are
by user and address: they are not the counts of any one owner
([database_inmem.go:61] counts down the one who overwrites). What stays true is
that the counters of all addresses of a user add up to its files. *)

From S2P Require Import Prelude GoStrings Types DatabaseSpec DatabaseInmem.
From S2P Require Import DatabaseInmemTree DatabaseInmemProofs DatabaseInmemDisconnect DatabaseInmemTheorems.
Import Inmem InmemTree InmemProofs InmemDisconnect InmemTheorems.

Module InmemUsers.

(** The user of an identity user\@address. *)
Definition user_of (o : string) : string := hd "" (strings.Split o "@").

Lemma user_of_ident v addr : strings.Contains v "@"%char = false -> user_of (v ++ "@" ++ addr)%string = v.
Proof. intros Hv. unfold user_of. change "@"%string with (str1 "@"%char). by rewrite Split_app. Qed.

(** The user in whose directory a path is. *)
Definition dir_user (p : FileTable.path) : string := hd "" p.1.

(** ** The sum of a user's counters *)

Definition user_count (v : string) (m : gmap string Z) : Z :=
  map_fold (fun o c sum => if decide (user_of o = v) then (c + sum)%Z else sum) 0%Z m.

Lemma user_count_insert v m o c :
  m !! o = None ->
  user_count v (<[o := c]> m) = ((if decide (user_of o = v) then c else 0) + user_count v m)%Z.
Proof.
  intros Ho. unfold user_count. rewrite map_fold_insert_L; [by case_decide| |done].
  intros j1 j2 z1 z2 y _ _ _. repeat case_decide; lia.
Qed.

Lemma user_count_delete v m o :
  user_count v m = ((if decide (user_of o = v) then default 0 (m !! o) else 0) + user_count v (delete o m))%Z.
Proof.
  destruct (m !! o) as [c|] eqn:Ho; simpl.
  - rewrite <-(insert_delete_id m o c Ho) at 1. apply user_count_insert, lookup_delete_eq.
  - rewrite delete_id by done. by case_decide.
Qed.

Lemma user_count_set v m o c :
  user_count v (<[o := c]> m) =
  ((if decide (user_of o = v) then c - default 0 (m !! o) else 0) + user_count v m)%Z.
Proof.
  rewrite (user_count_delete v m o), <-insert_delete_eq, user_count_insert by apply lookup_delete_eq.
  case_decide; lia.
Qed.

Definition counted (ow : gmap string (gmap string Z)) (h v : string) : Z :=
  user_count v (default ∅ (ow !! h)).

Lemma counted_dec ow h o ow' h' v :
  dec_owner ow h o = Done ow' ->
  counted ow' h' v = (counted ow h' v - if decide (h' = h /\ v = user_of o) then 1 else 0)%Z.
Proof.
  unfold dec_owner. destruct (ow !! h) as [m|] eqn:Hm; [|done]. intros [= <-].
  unfold counted. destruct (decide (h' = h)) as [->|Hne].
  - rewrite lookup_insert_eq, Hm. simpl. case_decide as Hz.
    + rewrite delete_insert_eq, (user_count_delete v m o). repeat case_decide; naive_solver lia.
    + rewrite user_count_set. repeat case_decide; naive_solver lia.
  - rewrite lookup_insert_ne by done. rewrite decide_False by naive_solver. lia.
Qed.

Lemma counted_inc ow h o h' v :
  counted (inc_owner ow h o) h' v = (counted ow h' v + if decide (h' = h /\ v = user_of o) then 1 else 0)%Z.
Proof.
  unfold counted, inc_owner. destruct (decide (h' = h)) as [->|Hne].
  - rewrite lookup_insert_eq. simpl. rewrite user_count_set. repeat case_decide; naive_solver lia.
  - rewrite lookup_insert_ne by done. rewrite decide_False by naive_solver. lia.
Qed.

(** ** The invariant *)

Record by_user (d : Database) (S : FileTable.table) : Prop := {
  by_user_files : forall dn fn, files_in d dn fn = S !! (dn, fn);
  by_user_counts : forall h v,
    counted (owners d) h v = Z.of_nat (FileTable.owned_count dir_user S h v);
}.

Lemma by_user_new : by_user newDatabase ∅.
Proof.
  split.
  - intros [|x dn] fn; unfold files_in, lookup_file; simpl; by rewrite ?lookup_empty.
  - intros h v. done.
Qed.

Lemma by_user_row d S p f :
  by_user d S -> S !! p = Some f ->
  exists m, owners d !! Hash f = Some m /\ (0 < user_count (dir_user p) m)%Z.
Proof.
  intros [_ Hc] Hp. specialize (Hc (Hash f) (dir_user p)). unfold counted in Hc.
  assert (FileTable.owned_count dir_user S (Hash f) (dir_user p) <> 0) as Hnz.
  { apply FileTable.owned_count_pos. by exists p, f. }
  destruct (owners d !! Hash f) as [m|]; simpl in Hc.
  - exists m. split; [done|lia].
  - exfalso. apply Hnz. apply Nat2Z.inj. by rewrite <-Hc.
Qed.

Lemma forget_by_user d S p o :
  by_user d S -> dir_user p = user_of o ->
  exists ow, forget d (S !! p) o = Done ow /\
    forall h v, counted ow h v = Z.of_nat (FileTable.owned_count dir_user (FileTable.set S p None) h v).
Proof.
  intros HI Ho. pose proof HI as [_ Hc]. destruct (S !! p) as [f|] eqn:Hp; simpl.
  - destruct (by_user_row d S p f HI Hp) as (m & Hm & _).
    destruct (dec_owner_Done (owners d) (Hash f) o) as (ow & How & _ & _); [eauto|].
    exists ow. split; [done|]. intros h v. rewrite (counted_dec _ _ _ _ h v How), Hc, <-Ho.
    pose proof (FileTable.owned_count_set dir_user S p None h v) as Hs.
    rewrite Hp, FileTable.weight_owned in Hs. simpl in Hs. repeat case_decide; lia.
  - exists (owners d). split; [done|]. intros h v. rewrite Hc. f_equal. by rewrite delete_id.
Qed.

(** What an owner does in the directory of its own user keeps the sums. *)
Lemma publish_by_user d S p fi o :
  by_user d S -> dir_user p = user_of o ->
  exists d', setFileLocked d (FileTable.fnEx p) (Some fi) o = Done (d', None) /\
    by_user d' (FileTable.set S p (Some fi)).
Proof.
  intros HI Ho. pose proof HI as [Hfiles _]. destruct (forget_by_user d S p o HI Ho) as (ow & How & Hc).
  destruct p as [dn fn]. rewrite <-Hfiles in How.
  destruct (publish_run d dn fn fi o ow How) as (tree' & Hrun & Hf & _).
  eexists. split; [exact Hrun|]. split; simpl.
  - intros dn' fn'. unfold files_in. simpl. rewrite Hf, Hfiles.
    change (<[(dn, fn) := fi]> S) with (FileTable.set S (dn, fn) (Some fi)).
    rewrite FileTable.lookup_set. repeat case_decide; naive_solver.
  - intros h v. rewrite counted_inc, Hc, <-Ho.
    pose proof (FileTable.owned_count_set dir_user (delete (dn, fn) S) (dn, fn) (Some fi) h v) as Hs.
    rewrite lookup_delete_eq, FileTable.weight_owned in Hs. simpl in Hs. rewrite insert_delete_eq in Hs.
    repeat case_decide; simpl; lia.
Qed.

Lemma unpublish_by_user d S p o d' e :
  by_user d S -> dir_user p = user_of o ->
  setFileLocked d (FileTable.fnEx p) None o = Done (d', e) -> by_user d' (FileTable.set S p None).
Proof.
  intros HI Ho Hrun. pose proof HI as [Hfiles _]. destruct p as [dn fn]. unfold FileTable.fnEx in Hrun. simpl in Hrun.
  destruct (S !! (dn, fn)) as [f|] eqn:Hp.
  - destruct (forget_by_user d S (dn, fn) o HI Ho) as (ow & How & Hc).
    rewrite Hp in How. rewrite <-Hfiles in Hp.
    rewrite (unpublish_run d dn fn o f ow Hp How) in Hrun.
    apply unpublished_Done in Hrun as (-> & <- & _ & Hf). split; [|exact Hc].
    intros dn' fn'. rewrite Hf, Hfiles, FileTable.lookup_set. repeat case_decide; naive_solver.
  - rewrite (unpublish_missing d dn fn) in Hrun by (by rewrite Hfiles).
    injection Hrun as <- <-. simpl. by rewrite delete_id.
Qed.

Section disconnect.
Context `{MapRange}.

(** What only one identity has is only its user's. *)
Lemma victims_by_user d S o p f :
  by_user d S -> S !! p = Some f -> Hash f ∈ sole_hashes (owners d) o -> dir_user p = user_of o.
Proof.
  intros HI Hp Hv. destruct (by_user_row d S p f HI Hp) as (m & Hm & Hpos).
  unfold sole_hashes in Hv. apply elem_of_dom in Hv as [m' Hm'].
  apply map_lookup_filter_Some in Hm' as [Hm' [[c Hc] Hsize]]. simpl in Hc, Hsize.
  rewrite Hm in Hm'. injection Hm' as <-.
  rewrite (user_count_delete _ m o), Hc in Hpos.
  assert (delete o m = ∅) as Hd.
  { apply map_size_empty_inv. rewrite map_size_delete_Some by (by eexists). lia. }
  rewrite Hd in Hpos. change (user_count (dir_user p) ∅) with 0%Z in Hpos. case_decide; [done|lia].
Qed.

Lemma disconnect_by_user d S o d' e :
  by_user d S -> PeerDisconnected d o = Done (d', e) ->
  exists S', by_user d' S' /\ forall p, dir_user p <> user_of o -> S' !! p = S !! p.
Proof.
  intros HI Hrun. set (victims := sole_hashes (owners d) o).
  set (I := fun d1 => exists S1, by_user d1 S1 /\ S1 ⊆ S).
  destruct (search_run victims o I (depth (fileTree d)) d [] d' e) as [_ ((S' & HI' & Hsub) & _ & Hfs)].
  - intros d1 dn fn f d2 e2 (S1 & HI1 & Hsub) Hf Hv Hset. exists (FileTable.set S1 (dn, fn) None). split.
    + eapply unpublish_by_user; [exact HI1| |exact Hset].
      apply (victims_by_user d S o (dn, fn) f HI); [|exact Hv].
      eapply lookup_weaken; [|exact Hsub]. by rewrite <-(by_user_files d1 S1 HI1).
    + simpl. etrans; [apply delete_subseteq|exact Hsub].
  - by exists S.
  - exact Hrun.
  - exists S'. split; [exact HI'|]. intros [dn fn] Hp.
    rewrite <-(by_user_files d' S' HI'), Hfs, decide_True by apply prefix_nil.
    rewrite (by_user_files d S HI). destruct (S !! (dn, fn)) as [f|] eqn:E; [|done]. simpl.
    rewrite decide_False; [done|]. intros Hv. by apply Hp, (victims_by_user d S o _ f HI).
Qed.
End disconnect.

End InmemUsers.
