(* ===== verification/DatabaseInmemInterface.v ===== *)
(** * The in-memory database behind the interface of the master *)

From S2P Require Import Prelude GoStrings Types DatabaseSpec DatabaseInmem DatabaseInmemTree.
From S2P Require Import DatabaseInmemProofs DatabaseInmemDisconnect DatabaseInmemTheorems.
Import Inmem InmemTree InmemProofs InmemDisconnect InmemTheorems.

Module InmemInterface.
Section instance.
Context `{MapRange}.

#[export] Instance inmem_ops : DatabaseOps := {|
  db := Database;
  db_SetFile := SetFile;
  db_PeerDisconnected := PeerDisconnected;
  db_GetOwners := fun d h => Done (GetOwners d h);
  db_GetDir := fun d dir => let '(r, e) := GetDir d dir in Done (d, r, e);
|}.

(** The in-memory database keeps all names apart and infos as they are. *)
#[export, refine] Instance inmem_laws : DatabaseLaws inmem_ops := {|
  db_holds := represents;
  db_name_ok := fun _ => True;
  db_stored := fun f => f;
|}.
Proof.
  - done.
  - intros owner_of d S p fi d' e HR _ Hrun. rewrite option_fmap_id.
    change (SetFile d (FileTable.fnEx p) fi (owner_of p) = Done (d', e)) in Hrun.
    destruct fi as [f|].
    + destruct (publish_refines owner_of d S p f HR) as (d2 & Hrun2 & HR2 & _).
      unfold SetFile in Hrun. rewrite Hrun in Hrun2. by injection Hrun2 as -> ->.
    + by destruct (unpublish_refines owner_of d S p d' e HR Hrun) as (-> & ? & _).
  - intros owner_of d S dn HR Hgood. pose proof HR as [Hfiles _].
    simpl. rewrite (GetDir_run d dn Hgood).
    destruct (node_at (fileTree d) dn) as [n|] eqn:Hn.
    + eexists _, _, _. split; [done|]. split; [done|]. left. eexists _, _. split; [done|].
      split; [done|]. intros fn. rewrite <-Hfiles. by apply node_files.
    + eexists _, _, _. split; [done|]. split; [done|]. right. split; [done|]. split; [done|].
      intros fn. rewrite <-Hfiles. unfold files_in, lookup_file. by rewrite Hn.
  - intros owner_of d S dir d' r e HR Hrun. simpl in Hrun.
    destruct (GetDir d dir). by injection Hrun as <- _ _.
  - intros owner_of d S owner d' e HR Hrun.
    destruct (disconnect_effect owner_of d S owner d' e HR Hrun) as (S' & HR' & HS').
    exists S'. split; [done|]. split.
    + apply map_subseteq_spec. intros p f. rewrite HS'. destruct (S !! p); simpl; [|done].
      by case_decide.
    + intros p Hp. rewrite HS'. destruct (S !! p) as [f|] eqn:E; simpl; [|done].
      rewrite decide_False; [done|].
      intros [_ Hsole]%(mem_sole_hashes owner_of d S); [|done].
      apply Hp, Hsole. by exists p, f.
Defined.

#[export] Instance inmem_complete : DatabaseComplete inmem_ops inmem_laws.
Proof.
  split.
  - intros owner_of d S p f HR _.
    destruct (publish_refines owner_of d S p f HR) as (d' & ? & _). eauto.
  - intros owner_of d S p HR _ Hdeep. exact (unpublish_deep owner_of d S p HR Hdeep).
  - intros owner_of d S h HR. eexists _. split; [done|]. intros o.
    by apply (mem_GetOwners_represents owner_of d S).
Qed.
End instance.
End InmemInterface.
