(* ===== verification/DatabaseBolt.v ===== *)
(** * The Bolt database of the master ([database_bolt.go], build tag bolt)

The store of [github.com/boltdb/bolt] and [encoding/json] are parameters: the
classes [BoltStore] and [JSON] have the calls that the code makes, and
[BoltLaws] and [JSONLaws] their documented behaviour. A [*bolt.Bucket] is the
path of names that leads to it from the transaction, the empty one for the
[*bolt.Tx] itself; a bucket that may be nil is an [option]. *)

From S2P Require Import Prelude GoStrings Types.

Module Bolt.

(** A handle on a bucket: the names of the buckets that lead to it. *)
Abbreviation bucket := (list string).

Class BoltStore := {
  store : Type;
  (** [b.Bucket(name) != nil] *)
  has_Bucket : store -> bucket -> string -> bool;
  CreateBucket : store -> bucket -> string -> error + store;
  DeleteBucket : store -> bucket -> string -> error + store;
  (** [None] is a nil slice. *)
  Get : store -> bucket -> string -> option string;
  Put : store -> bucket -> string -> string -> error + store;
  Delete : store -> bucket -> string -> error + store;
  (** What [First] and [Next] of [b.Cursor()] give until the key is nil; the
      value of a nested bucket is nil. *)
  cursor : store -> bucket -> list (string * option string);
  (** Starting a transaction, and committing the second store over the first. *)
  begin_tx : store -> option error;
  commit_tx : store -> store -> option error;
}.

(** [json.Marshal] of a [*FileInfo] and [json.Unmarshal] into one. *)
Class JSON := {
  Marshal : FileInfo -> error + string;
  Unmarshal : string -> error + FileInfo;
}.

(** ** What the packages document *)

(** What a key of a bucket holds. *)
Inductive item :=
  | Value (v : string)
  | Nested.

#[export] Instance item_eq_dec : EqDecision item.
Proof. solve_decision. Defined.

Definition MaxKeySize : Z := 32768.
Definition MaxValueSize : Z := 2 ^ 31 - 2.

Class BoltLaws (B : BoltStore) := {
  (** What a path of keys leads to. *)
  item_at : store -> list string -> option item;
  item_at_root s : item_at s [] = Some Nested;
  item_at_parent s b k : is_Some (item_at s (b ++ [k])) -> item_at s b = Some Nested;

  has_Bucket_item s b k : has_Bucket s b k = bool_decide (item_at s (b ++ [k]) = Some Nested);
  Get_item s b k :
    Get s b k = match item_at s (b ++ [k]) with Some (Value v) => Some v | _ => None end;
  cursor_item s b k o :
    (k, o) ∈ cursor s b <->
    item_at s (b ++ [k]) = Some (match o with Some v => Value v | None => Nested end);
  cursor_sorted s b : StronglySorted String.le (cursor s b).*1;
  cursor_NoDup s b : NoDup (cursor s b).*1;

  (** The calls that write: what a success means, and what is enough for one. *)
  CreateBucket_item s b k s' :
    item_at s b = Some Nested -> CreateBucket s b k = inr s' ->
    item_at s (b ++ [k]) = None /\
    forall q, item_at s' q = if decide (q = b ++ [k]) then Some Nested else item_at s q;
  CreateBucket_ok s b k :
    item_at s b = Some Nested -> item_at s (b ++ [k]) = None ->
    k <> "" -> (Z.of_nat (String.length k) <= MaxKeySize)%Z -> exists s', CreateBucket s b k = inr s';

  DeleteBucket_item s b k s' :
    item_at s b = Some Nested -> DeleteBucket s b k = inr s' ->
    forall q, item_at s' q = if decide (b ++ [k] `prefix_of` q) then None else item_at s q;
  DeleteBucket_ok s b k :
    item_at s b = Some Nested -> item_at s (b ++ [k]) = Some Nested ->
    exists s', DeleteBucket s b k = inr s';

  Put_item s b k v s' :
    item_at s b = Some Nested -> Put s b k v = inr s' ->
    item_at s (b ++ [k]) <> Some Nested /\
    forall q, item_at s' q = if decide (q = b ++ [k]) then Some (Value v) else item_at s q;
  Put_size s b k v s' :
    Put s b k v = inr s' ->
    k <> "" /\ (Z.of_nat (String.length k) <= MaxKeySize)%Z /\ (Z.of_nat (String.length v) <= MaxValueSize)%Z;
  Put_ok s b k v :
    item_at s b = Some Nested -> item_at s (b ++ [k]) <> Some Nested ->
    k <> "" -> (Z.of_nat (String.length k) <= MaxKeySize)%Z -> (Z.of_nat (String.length v) <= MaxValueSize)%Z ->
    exists s', Put s b k v = inr s';

  Delete_item s b k s' :
    item_at s b = Some Nested -> Delete s b k = inr s' ->
    item_at s (b ++ [k]) <> Some Nested /\
    forall q, item_at s' q = if decide (q = b ++ [k]) then None else item_at s q;
  Delete_ok s b k :
    item_at s b = Some Nested -> item_at s (b ++ [k]) <> Some Nested ->
    exists s', Delete s b k = inr s';
}.

(** JSON keeps an info up to what UTF-8 and RFC 3339 can say; no input is no
JSON. *)
Class JSONLaws (J : JSON) := {
  json_kept : FileInfo -> FileInfo;
  Unmarshal_Marshal f b : Marshal f = inr b -> Unmarshal b = inr (json_kept f);
  Unmarshal_nil : exists e, Unmarshal "" = inl e;
}.

Section database.
Context {B : BoltStore} {J : JSON}.

(** ** Transactions

The function given to [Update] or [View]: it may panic, return an error, or
change the store it works on and go on. *)
Definition tx (A : Type) : Type := store -> outcome (error + store * A).

#[export] Instance tx_ret : MRet tx := fun A a s => Done (inr (s, a)).
#[export] Instance tx_bind : MBind tx := fun A A' k m s =>
  match m s with
  | Done (inr (s', a)) => k a s'
  | Done (inl e) => Done (inl e)
  | Panic why => Panic why
  | NoFuel => NoFuel
  end.

(** [return err] *)
Definition tx_fail {A} (e : error) : tx A := fun s => Done (inl e).
(** Go code that does not touch the store. *)
Definition tx_lift {A} (m : outcome A) : tx A := fun s =>
  match m with
  | Done a => Done (inr (s, a))
  | Panic why => Panic why
  | NoFuel => NoFuel
  end.
(** [if err := b.Call(...); err != nil { return err }] *)
Definition tx_call (f : store -> error + store) : tx unit := fun s =>
  match f s with
  | inl e => Done (inl e)
  | inr s' => Done (inr (s', ()))
  end.
Definition tx_ask {A} (f : store -> A) : tx A := fun s => Done (inr (s, f s)).

(** [b.Bucket(name)], nil when there is none. *)
Definition tx_Bucket (b : bucket) (name : string) : tx (option bucket) :=
  tx_ask (fun s => if has_Bucket s b name then Some (b ++ [name]) else None).
(** A method call on a bucket that may be nil. *)
Definition not_nil (b : option bucket) : tx bucket :=
  tx_lift match b with Some b => Done b | None => Panic nil_dereference end.
Definition tx_CreateBucket (b : bucket) (name : string) : tx bucket :=
  tx_call (fun s => CreateBucket s b name) ≫= fun _ => mret (b ++ [name]).
(** The key that [b.Cursor().First()] gives, nil for an empty bucket. *)
Definition tx_First (b : bucket) : tx (option string) :=
  tx_ask (fun s => fst <$> head (cursor s b)).

(** [db.Update]: the error of the function rolls the transaction back. *)
Definition Update (s : store) (f : tx unit) : outcome (store * option error) :=
  match begin_tx s with
  | Some e => Done (s, Some e)
  | None =>
      r ← f s;
      match r with
      | inl e => Done (s, Some e)
      | inr (s', _) =>
          match commit_tx s s' with
          | Some e => Done (s, Some e)
          | None => Done (s', None)
          end
      end
  end.

(** [db.View], with what the function assigns. *)
Definition View {A} (s : store) (f : tx A) : outcome (error + A) :=
  match begin_tx s with
  | Some e => Done (inl e)
  | None =>
      r ← f s;
      Done match r with inl e => inl e | inr (_, a) => inr a end
  end.

(** ** The database *)

Record Database := mkDatabase { db : store }.

(** The function that [newDatabase] gives to [Update]. *)
Definition create_buckets : tx unit :=
  let create name : tx bucket := fun s =>
    match CreateBucket s [] name with
    | inl e => Done (inl (Errorf "create bucket: %s" [e]))
    | inr s' => Done (inr (s', [name]))
    end in
  create "files" ≫= fun _ => create "byHash" ≫= fun _ => create "byOwner" ≫= fun _ => mret ().

(** [newDatabase] once the old file is removed: [opened] is the answer of
[bolt.Open]. The error of [Update] is assigned and dropped. *)
Definition newDatabase (opened : error + store) : outcome (error + Database) :=
  match opened with
  | inl e => Done (inl e)
  | inr s => '(s, _) ← Update s create_buckets; Done (inr (mkDatabase s))
  end.

Definition encodeFileInfo (fi : FileInfo) : outcome string :=
  match Marshal fi with
  | inl _ => Panic "json.Marshal"
  | inr b => Done b
  end.

(** [buf] may be nil, which is no input for [json.Unmarshal]. *)
Definition decodeFileInfo (buf : option string) : outcome FileInfo :=
  match Unmarshal (default "" buf) with
  | inl _ => Panic "json.Unmarshal"
  | inr fi => Done fi
  end.

(** *** SetFile *)

(** Update byOwner bucket. *)
Definition set_byOwner (fnEx : list string) (fi : option FileInfo) (owner : string) : tx unit :=
  b ← tx_Bucket [] "byOwner";
  b ← not_nil b;
  ob ← tx_Bucket b owner;
  ob ← (match ob, fi with
        | None, Some _ => ob ← tx_CreateBucket b owner; mret (Some ob)
        | _, _ => mret ob
        end : tx (option bucket));
  match fi, ob with
  | Some _, _ =>
      ob ← not_nil ob;
      tx_call (fun s => Put s ob (strings.Join fnEx "/") "")
  | None, Some ob => tx_call (fun s => Delete s ob (strings.Join fnEx "/"))
  | None, None => mret ()
  end.

(** The loop over [dirs]: the bucket of the last one, and [parents] with the
innermost first. *)
Fixpoint dive (dirs : list string) (b : bucket) (parents : list bucket)
    : tx (bucket * list bucket) :=
  match dirs with
  | [] => mret (b, parents)
  | dn :: dirs' =>
      sb ← tx_Bucket b dn;
      sb ← (match sb with
            | Some sb => mret sb
            | None => tx_CreateBucket b dn
            end : tx bucket);
      dive dirs' sb (b :: parents)
  end.

(** Delete all buckets upwards that are now empty. *)
Fixpoint ascend (dirs : list string) (b : bucket) (parents : list bucket) : tx unit :=
  match parents with
  | [] => mret ()
  | pb :: parents' =>
      k ← tx_First b;
      match k with
      | Some _ => mret ()
      | None =>
          bname ← tx_lift (go_index dirs (len parents - 1));
          tx_call (fun s => DeleteBucket s pb bname) ≫= fun _ => ascend dirs pb parents'
      end
  end.

(** Update files (sub)buckets: the hash that the info has, or had. *)
Definition set_files (fnEx : list string) (fi : option FileInfo) : tx string :=
  b ← tx_Bucket [] "files";
  dirs ← tx_lift (go_slice fnEx 0 (len fnEx - 1));
  fn ← tx_lift (go_index fnEx (len fnEx - 1));
  (* [b] is used by the loop, or by [Get] and [Put] when there is none *)
  b ← not_nil b;
  '(b, parents) ← dive dirs b [];
  match fi with
  | None =>
      v ← tx_ask (fun s => Get s b fn);
      oldFi ← tx_lift (decodeFileInfo v);
      tx_call (fun s => Delete s b fn) ≫= fun _ =>
      ascend dirs b parents ≫= fun _ => mret (Hash oldFi)
  | Some fi =>
      v ← tx_lift (encodeFileInfo fi);
      tx_call (fun s => Put s b fn v) ≫= fun _ => mret (Hash fi)
  end.

(** The list of owners of a hash, with [owner] added or taken out. *)
Definition new_owners (owners : string) (publish : bool) (owner : string) : string :=
  if publish then
    if decide (owners = "") then owner else (owners ++ str1 NUL ++ owner)%string
  else if decide (owners = "") then ""
  else strings.Join (filter (fun o => o <> owner) (strings.Split owners (str1 NUL))) (str1 NUL).

(** Update byHash bucket. *)
Definition set_byHash (hash : string) (publish : bool) (owner : string) : tx unit :=
  b ← tx_Bucket [] "byHash";
  b ← not_nil b;
  owners ← tx_ask (fun s => default "" (Get s b hash));
  let owners := new_owners owners publish owner in
  if decide (owners = "") then tx_call (fun s => Delete s b hash)
  else tx_call (fun s => Put s b hash owners).

Definition set_tx (fnEx : list string) (fi : option FileInfo) (owner : string) : tx unit :=
  set_byOwner fnEx fi owner ≫= fun _ =>
  hash ← set_files fnEx fi;
  set_byHash hash (bool_decide (fi <> None)) owner.

Definition SetFile (d : Database) (fnEx : list string) (fi : option FileInfo) (owner : string)
    : outcome (Database * option error) :=
  '(s, e) ← Update (db d) (set_tx fnEx fi owner); Done (mkDatabase s, e).

(** *** PeerDisconnected *)

(** The keys of the owner's bucket. *)
Definition owned_files (owner : string) : tx (list string) :=
  b ← tx_Bucket [] "byOwner";
  b ← not_nil b;
  ob ← tx_Bucket b owner;
  match ob with
  | None => mret []
  | Some ob => tx_ask (fun s => (cursor s ob).*1)
  end.

Definition PeerDisconnected (d : Database) (owner : string)
    : outcome (Database * option error) :=
  r ← View (db d) (owned_files owner);
  match r with
  | inl e => Done (d, Some e)
  | inr files =>
      foldM (fun '(d, lastErr) fn =>
          '(d, err) ← SetFile d (strings.Split fn "/") None owner;
          Done (d, match err with Some e => Some e | None => lastErr end))
        (d, None) files
  end.

(** *** Queries *)

(** The owners are split at slashes. *)
Definition GetOwners (d : Database) (hash : string) : outcome (list string * option error) :=
  r ← View (db d)
    (b ← tx_Bucket [] "byHash";
     b ← not_nil b;
     v ← tx_ask (fun s => default "" (Get s b hash));
     if decide (v = "") then tx_fail (Errorf "hash %q not found" [errors_New hash])
     else mret (strings.Split v "/"));
  Done match r with inl e => ([], Some e) | inr owners => (owners, None) end.

(** The loop of [GetDir] down the parts of the path. *)
Fixpoint walk_buckets (fnEx : list string) (b : option bucket) : tx (option bucket) :=
  match fnEx with
  | [] => mret b
  | dn :: fnEx' =>
      b ← not_nil b;
      sb ← tx_Bucket b dn;
      match sb with
      | None => tx_fail (errors_New "ENOENT")
      | Some sb => walk_buckets fnEx' (Some sb)
      end
  end.

(** One entry of the directory: a subdirectory or a file. *)
Definition list_entry (acc : gmap string FileInfo * list string) (kv : string * option string)
    : outcome (gmap string FileInfo * list string) :=
  match kv.2 with
  | None => Done (acc.1, acc.2 ++ [kv.1])
  | Some v => fi ← decodeFileInfo (Some v); Done (<[kv.1 := fi]> acc.1, acc.2)
  end.

Definition GetDir (d : Database) (dir : string)
    : outcome (option (gmap string FileInfo * list string) * option error) :=
  let fnEx := if decide (dir = "") then [] else strings.Split dir "/" in
  r ← View (db d)
    (b ← tx_Bucket [] "files";
     b ← walk_buckets fnEx b;
     b ← not_nil b;
     entries ← tx_ask (fun s => cursor s b);
     tx_lift (foldM list_entry (∅, []) entries));
  Done match r with inl e => (None, Some e) | inr fd => (Some fd, None) end.

End database.
End Bolt.
