(* ===== verification/DatabaseBoltStore.v ===== *)
(** * A store with the documented behaviour of Bolt

Buckets as a tree of maps: it shows that [BoltLaws] can hold, and gives the
theorems on the Bolt database concrete runs. [bits_json] does the same for
[JSONLaws], with infos written as the bits of a number. *)

From S2P Require Import Prelude GoStrings Types DatabaseBolt.
Import Bolt.

Module BoltTree.

Inductive node :=
  | Leaf (v : string)
  | Branch (m : gmap string node).

Definition kind (n : node) : item :=
  match n with Leaf v => Value v | Branch _ => Nested end.

Fixpoint find (n : node) (q : list string) : option node :=
  match q with
  | [] => Some n
  | k :: q' =>
      match n with
      | Leaf _ => None
      | Branch m => match m !! k with Some n' => find n' q' | None => None end
      end
  end.

(** The tree with [o] for the key [k] of the bucket [b]. *)
Fixpoint update (n : node) (b : list string) (k : string) (o : option node) : node :=
  match n with
  | Leaf _ => n
  | Branch m =>
      match b with
      | [] => Branch (partial_alter (fun _ => o) k m)
      | x :: b' =>
          match m !! x with
          | Some n' => Branch (<[x := update n' b' k o]> m)
          | None => n
          end
      end
  end.

Definition item_in (n : node) (q : list string) : option item := kind <$> find n q.

Lemma find_app n b q : find n (b ++ q) = find n b ≫= fun n' => find n' q.
Proof.
  revert n. induction b as [|x b IH]; intros n; [done|]. simpl.
  destruct n as [v|m]; [done|]. by destruct (m !! x).
Qed.

Lemma prefix_cons_ne (x y : string) (l q : list string) : x <> y -> ~ (x :: l) `prefix_of` (y :: q).
Proof. intros Hne [r Hr]. simpl in Hr. congruence. Qed.

(** What an update changes: what lies below its key. *)
Lemma item_update n b k o q :
  item_in n b = Some Nested ->
  item_in (update n b k o) q =
    if decide (b ++ [k] `prefix_of` q)
    then o ≫= fun n' => item_in n' (drop (length (b ++ [k])) q)
    else item_in n q.
Proof.
  unfold item_in. revert n q. induction b as [|x b IH]; intros [v|m] q; simpl; try done; intros Hb.
  - destruct q as [|y q]; [by rewrite decide_False by (intros [? ?]; done)|].
    simpl. destruct (decide (y = k)) as [->|Hne].
    + rewrite decide_True by (exists q; done).
      rewrite lookup_partial_alter_eq. rewrite drop_0. by destruct o.
    + rewrite decide_False by (by apply prefix_cons_ne). by rewrite lookup_partial_alter_ne.
  - destruct (m !! x) as [n'|] eqn:Hx; [|done].
    destruct q as [|y q]; [by rewrite decide_False by (intros [? ?]; done)|].
    simpl. destruct (decide (y = x)) as [->|Hne].
    + rewrite lookup_insert_eq, Hx, (IH n' q Hb).
      destruct (decide (b ++ [k] `prefix_of` q)) as [Hp|Hp].
      * by rewrite decide_True by (by apply prefix_cons).
      * by rewrite decide_False by (by intros ?%prefix_cons_inv_2).
    + rewrite decide_False by (by apply prefix_cons_ne). by rewrite lookup_insert_ne.
Qed.

(** Below a value, or a key that is not there, is nothing. *)
Lemma item_below n q r : item_in n q <> Some Nested -> r <> [] -> item_in n (q ++ r) = None.
Proof.
  unfold item_in. rewrite find_app. destruct (find n q) as [[v|m]|]; simpl; try done.
  by destruct r.
Qed.

(** A leaf or an empty bucket for a key that is no bucket. *)
Lemma item_update_flat n b k n' q :
  item_in n b = Some Nested -> item_in n (b ++ [k]) <> Some Nested ->
  (forall r, r <> [] -> item_in n' r = None) ->
  item_in (update n b k (Some n')) q =
    if decide (q = b ++ [k]) then Some (kind n') else item_in n q.
Proof.
  intros Hb Hk Hflat. rewrite item_update by done. simpl.
  destruct (decide (b ++ [k] `prefix_of` q)) as [[r ->]|Hp].
  - rewrite drop_app_length. destruct r as [|x r].
    + rewrite app_nil_r. by rewrite decide_True.
    + rewrite Hflat by done. rewrite decide_False; [by rewrite item_below|].
      intros Heq%(f_equal length). rewrite !length_app in Heq. simpl in Heq. lia.
  - rewrite decide_False; [done|]. intros ->. by apply Hp.
Qed.

(** ** The store *)

Abbreviation root s := (Branch s).

Definition entries (s : gmap string node) (b : bucket) : gmap string node :=
  match find (root s) b with Some (Branch m) => m | _ => ∅ end.

Definition set_key (s : gmap string node) (b : bucket) (k : string) (o : option node) : gmap string node :=
  match update (root s) b k o with Branch s' => s' | Leaf _ => s end.

Definition err_incompatible : error := errors_New "incompatible value".

Definition value_of (o : option node) : option string :=
  match o with Some (Leaf v) => Some v | _ => None end.

#[export] Instance tree_store : BoltStore := {|
  store := gmap string node;
  has_Bucket := fun s b k => bool_decide (item_in (root s) (b ++ [k]) = Some Nested);
  CreateBucket := fun s b k =>
    if decide (k = "") then inl (errors_New "bucket name required")
    else if decide (MaxKeySize < Z.of_nat (String.length k))%Z then inl (errors_New "key too large")
    else match item_in (root s) (b ++ [k]) with
         | Some Nested => inl (errors_New "bucket already exists")
         | Some (Value _) => inl err_incompatible
         | None => inr (set_key s b k (Some (Branch ∅)))
         end;
  DeleteBucket := fun s b k =>
    match item_in (root s) (b ++ [k]) with
    | Some Nested => inr (set_key s b k None)
    | Some (Value _) => inl err_incompatible
    | None => inl (errors_New "bucket not found")
    end;
  Get := fun s b k =>
    match item_in (root s) (b ++ [k]) with Some (Value v) => Some v | _ => None end;
  Put := fun s b k v =>
    if decide (k = "") then inl (errors_New "key required")
    else if decide (MaxKeySize < Z.of_nat (String.length k))%Z then inl (errors_New "key too large")
    else if decide (MaxValueSize < Z.of_nat (String.length v))%Z then inl (errors_New "value too large")
    else match item_in (root s) (b ++ [k]) with
         | Some Nested => inl err_incompatible
         | _ => inr (set_key s b k (Some (Leaf v)))
         end;
  Delete := fun s b k =>
    match item_in (root s) (b ++ [k]) with
    | Some Nested => inl err_incompatible
    | _ => inr (set_key s b k None)
    end;
  cursor := fun s b =>
    (fun k => (k, value_of (entries s b !! k))) <$> merge_sort String.le (map_to_list (entries s b)).*1;
  begin_tx := fun _ => None;
  commit_tx := fun _ _ => None;
|}.

Lemma root_set_key s b k o : root (set_key s b k o) = update (root s) b k o.
Proof. unfold set_key. destruct b; simpl; [done|]. by destruct (s !! _). Qed.

Lemma entries_item (s : gmap string node) b k : entries s b !! k = find (root s) (b ++ [k]).
Proof.
  unfold entries. rewrite find_app. destruct (find (root s) b) as [[v|m]|]; simpl; try done.
  by destruct (m !! k).
Qed.

Lemma cursor_keys (s : gmap string node) b :
  (cursor s b).*1 = merge_sort String.le (map_to_list (entries s b)).*1.
Proof. simpl. rewrite <-list_fmap_compose. apply list_fmap_id. Qed.

Lemma item_of_entry (s : gmap string node) b k : item_in (root s) (b ++ [k]) = kind <$> entries s b !! k.
Proof. by rewrite entries_item. Qed.

#[export, refine] Instance tree_laws : BoltLaws tree_store := {|
  item_at := fun s q => item_in (root s) q;
|}.
Proof.
  - done.
  - intros s b k. unfold item_in. rewrite find_app.
    destruct (find (root s) b) as [[v|m]|]; simpl; [|done|]; by intros [].
  - done.
  - done.
  - intros s b k o. rewrite item_of_entry. simpl. rewrite list_elem_of_fmap. split.
    + intros (k' & [= <- ->] & Hin). rewrite merge_sort_Permutation in Hin.
      apply list_elem_of_fmap in Hin as ([k' n] & -> & Hin). simpl.
      apply elem_of_map_to_list in Hin. rewrite Hin. by destruct n.
    + intros Hk. exists k. destruct (entries s b !! k) as [n|] eqn:E; [|done].
      split; [destruct n, o; cbn in Hk; try discriminate Hk; [by injection Hk as ->|done]|].
      rewrite merge_sort_Permutation. apply list_elem_of_fmap. exists (k, n).
      split; [done|]. by apply elem_of_map_to_list.
  - intros s b. rewrite cursor_keys. apply (StronglySorted_merge_sort String.le).
  - intros s b. rewrite cursor_keys. rewrite merge_sort_Permutation. apply NoDup_fst_map_to_list.
  - intros s b k s' Hb. simpl. repeat case_decide; try done.
    destruct (item_in (root s) (b ++ [k])) as [[]|] eqn:Hk; try done. intros [= <-].
    split; [done|]. intros q. rewrite root_set_key. apply item_update_flat; [done|congruence|].
    intros [|x r] Hr; [done|]. unfold item_in. simpl. by rewrite lookup_empty.
  - intros s b k Hb Hk Hne Hlen. simpl. rewrite decide_False by done.
    rewrite decide_False by lia. rewrite Hk. eauto.
  - intros s b k s' Hb. simpl.
    destruct (item_in (root s) (b ++ [k])) as [[]|] eqn:Hk; try done. intros [= <-] q.
    rewrite root_set_key. by apply item_update.
  - intros s b k Hb Hk. simpl. rewrite Hk. eauto.
  - intros s b k v s' Hb. simpl. repeat case_decide; try done. intros Hput.
    assert (Hk : item_in (root s) (b ++ [k]) <> Some Nested) by (intros Heq; by rewrite Heq in Hput).
    split; [done|]. assert (s' = set_key s b k (Some (Leaf v))) as -> by (repeat case_match; congruence).
    intros q. rewrite root_set_key. apply item_update_flat; [done|done|]. by intros [].
  - intros s b k v s'. simpl. repeat case_decide; try done. intros _. split; [done|lia].
  - intros s b k v Hb Hk Hne Hlen Hv. simpl. rewrite decide_False by done.
    rewrite decide_False by lia. rewrite decide_False by lia. case_match; [|eauto]. by case_match; eauto.
  - intros s b k s' Hb. simpl. intros Hdel.
    assert (Hk : item_in (root s) (b ++ [k]) <> Some Nested) by (intros Heq; by rewrite Heq in Hdel).
    split; [done|]. assert (s' = set_key s b k None) as -> by (repeat case_match; congruence).
    intros q. rewrite root_set_key, item_update by done. simpl.
    destruct (decide (b ++ [k] `prefix_of` q)) as [[r ->]|Hp].
    + destruct r as [|x r]; [by rewrite app_nil_r, decide_True|].
      case_decide; [done|]. by rewrite item_below.
    + rewrite decide_False; [done|]. intros ->. by apply Hp.
  - intros s b k Hb Hk. simpl. case_match; [|eauto]. case_match; [eauto|done].
Defined.

(** ** An encoding of infos that loses nothing *)

Fixpoint bits (p : positive) : string :=
  match p with
  | xH => ""
  | xO p => String "0" (bits p)
  | xI p => String "1" (bits p)
  end.

Fixpoint of_bits (s : string) : option positive :=
  match s with
  | EmptyString => Some xH
  | String c s =>
      p ← of_bits s;
      if decide (c = "0"%char) then Some (xO p)
      else if decide (c = "1"%char) then Some (xI p) else None
  end.

Lemma of_bits_bits p : of_bits (bits p) = Some p.
Proof. induction p as [p IH|p IH|]; simpl; [by rewrite IH|by rewrite IH|done]. Qed.

Definition info_code (f : FileInfo) : positive := encode (Size f, Hash f, Mtime f).
Definition info_of (p : positive) : option FileInfo :=
  '(s, h, m) ← decode p; Some (mkFileInfo s h m).

#[export] Instance bits_json : JSON := {|
  Marshal := fun f => inr (String "{" (bits (info_code f)));
  Unmarshal := fun b =>
    match b with
    | String _ s =>
        match of_bits s ≫= info_of with
        | Some f => inr f
        | None => inl (errors_New "invalid character")
        end
    | EmptyString => inl (errors_New "unexpected end of JSON input")
    end;
|}.

#[export, refine] Instance bits_laws : JSONLaws bits_json := {| json_kept := fun f => f |}.
Proof.
  - intros f b [= <-]. simpl. rewrite of_bits_bits. simpl. unfold info_of, info_code.
    rewrite decode_encode. by destruct f.
  - by eexists.
Defined.
End BoltTree.
