(* ===== verification/DatabaseBoltSetFile.v ===== *)
(** * [SetFile] of the Bolt database implements the table of files *)

From S2P Require Import Prelude GoStrings Types DatabaseSpec DatabaseBolt DatabaseBoltProofs.
Import Bolt BoltProofs.

Module BoltSetFile.

(** Names that joining paths with slashes keeps apart. *)
Definition name_ok (x : string) : Prop := strings.Contains x slash = false.

(** The key of a path in the bucket of its owner. *)
Definition key_of (p : FileTable.path) : string := strings.Join (FileTable.fnEx p) "/".

Lemma Split_key p :
  Forall name_ok (FileTable.fnEx p) -> strings.Split (key_of p) "/" = FileTable.fnEx p.
Proof. intros Hp. apply (Split_Join slash); [|done]. unfold FileTable.fnEx. by destruct p.1. Qed.

Lemma fnEx_inj p p' : FileTable.fnEx p = FileTable.fnEx p' -> p = p'.
Proof.
  unfold FileTable.fnEx. intros [H1 H2]%app_inj_tail. destruct p, p'. simpl in *. congruence.
Qed.

Lemma Bolt_key_of_inj p p' :
  Forall name_ok (FileTable.fnEx p) -> Forall name_ok (FileTable.fnEx p') ->
  key_of p = key_of p' -> p = p'.
Proof.
  intros Hp Hp' Hk. apply fnEx_inj. rewrite <-(Split_key p Hp), <-(Split_key p' Hp'). by rewrite Hk.
Qed.

Lemma Bolt_fnEx_parts p :
  go_slice (FileTable.fnEx p) 0 (len (FileTable.fnEx p) - 1) = Done p.1 /\
  go_index (FileTable.fnEx p) (len (FileTable.fnEx p) - 1) = Done p.2.
Proof.
  unfold FileTable.fnEx. split; [|apply go_index_last].
  rewrite go_slice_Done; unfold len; rewrite length_app; simpl; [|lia|lia].
  f_equal. rewrite drop_0. replace (Z.to_nat _) with (length p.1) by lia. apply take_app_length.
Qed.

Section setfile.
Context {B : BoltStore} {BL : BoltLaws B} {J : JSON} {JL : JSONLaws J}.
Implicit Types (s : store) (S : FileTable.table) (q dn : list string) (p : FileTable.path).

(** ** The files *)

Lemma set_files_unfold s p fi extra S :
  files_ok extra s S ->
  set_files (FileTable.fnEx p) fi s =
    ('(b, parents) ← dive p.1 ["files"] [];
     match fi with
     | None =>
         v ← tx_ask (fun s => Get s b p.2);
         oldFi ← tx_lift (decodeFileInfo v);
         tx_call (fun s => Delete s b p.2) ≫= fun _ =>
         ascend p.1 b parents ≫= fun _ => mret (Hash oldFi)
     | Some fi =>
         v ← tx_lift (encodeFileInfo fi);
         tx_call (fun s => Put s b p.2 v) ≫= fun _ => mret (Hash fi)
     end) s.
Proof.
  intros HF. destruct (Bolt_fnEx_parts p) as [Hd Hn]. unfold set_files.
  assert (Hroot : item_at s ([] ++ ["files"]) = Some Nested) by (apply (fo_bucket _ _ _ HF); by left).
  rewrite (tx_bind_Done _ _ _ _ _ (tx_Bucket_there s [] "files" Hroot)).
  rewrite (tx_bind_Done _ _ s s p.1) by (unfold tx_lift; by rewrite Hd).
  rewrite (tx_bind_Done _ _ s s p.2) by (unfold tx_lift; by rewrite Hn).
  by rewrite (tx_bind_Done _ _ s s ["files"]).
Qed.

(** The loop down leaves the files as they are and only adds directories. *)
Lemma files_ok_dive s s' S dn r :
  files_exact s S -> dive dn ["files"] [] s = Done (inr (s', r)) ->
  r = ("files" :: dn, chain ["files"] dn []) /\
  files_ok (fun q => q `prefix_of` dn) s' S /\ (forall r, r <> "files" -> same_at r s s').
Proof.
  intros HF (-> & HN & HV & HO)%dive_create; [|by apply (fo_bucket _ _ _ HF); left].
  split; [done|]. split; [split|].
  - intros d x v. rewrite HV. apply (fo_value _ _ _ HF).
  - intros d x f Hf. destruct (fo_file _ _ _ HF _ _ _ Hf) as [v Hv]. exists v. by apply HV.
  - intros q. rewrite HN, (fo_bucket _ _ _ HF). split.
    + intros [[?|[?|[]]]|(d & Hd & Hp & [= ->])]; [by left|by right; left|by right; right].
    + intros [?|[?|Hp]]; [by left; left|by left; right; left|].
      destruct (decide (q = [])) as [->|Hq]; [by left; left|]. right. by exists q.
  - intros x Hx q. apply HO. intros [l Hl]. simpl in Hl. congruence.
Qed.

Lemma set_files_publish s s' S p f h :
  files_exact s S -> set_files (FileTable.fnEx p) (Some f) s = Done (inr (s', h)) ->
  h = Hash f /\ files_exact s' (FileTable.set S p (Some (json_kept f))) /\
  (forall r, r <> "files" -> same_at r s s').
Proof.
  intros HF. rewrite (set_files_unfold _ _ _ _ _ HF). destruct p as [dn fn]. simpl.
  intros (s1 & r & Hdive & Hrest)%tx_bind_inv.
  apply (files_ok_dive _ _ _ _ _ HF) in Hdive as (-> & HF1 & Hsame1).
  apply tx_bind_inv in Hrest as (s2 & v & [Henc ->]%tx_lift_inv & Hrest).
  apply tx_bind_inv in Hrest as (s3 & u & Hput%tx_call_inv & Hret).
  unfold mret, tx_ret in Hret. injection Hret as <- <-. split; [done|].
  unfold encodeFileInfo in Henc. destruct (Marshal f) as [|b] eqn:Hm; [done|]. injection Henc as ->.
  split.
  - eapply files_ok_Put; [exact HF1| |exact Hput]. by apply Unmarshal_Marshal.
  - intros r Hr q. rewrite <-(Hsame1 r Hr q).
    assert (Hdn : item_at s1 ("files" :: dn) = Some Nested) by (apply (fo_bucket _ _ _ HF1); by right; right).
    apply Put_item in Hput as [_ Hq]; [|done]. rewrite Hq, decide_False; [done|]. simpl. congruence.
Qed.

(** Deleting a file that is there returns, and removes the directories that
have become empty. *)
Lemma set_files_delete s S p f :
  files_exact s S -> S !! p = Some f ->
  exists s', set_files (FileTable.fnEx p) None s = Done (inr (s', Hash f)) /\
    files_exact s' (FileTable.set S p None) /\ (forall r, r <> "files" -> same_at r s s').
Proof.
  intros HF Hf. rewrite (set_files_unfold _ _ _ _ _ HF). destruct p as [dn fn]. simpl.
  assert (Hdn : item_at s ("files" :: dn) = Some Nested).
  { apply (fo_bucket _ _ _ HF). right. left. by eapply FileTable.below_file. }
  rewrite (tx_bind_Done _ _ _ _ _ (dive_existing dn ["files"] [] s Hdn)).
  destruct (fo_read _ _ _ _ _ _ HF Hf) as (v & Hv & Hun).
  change (["files"] ++ dn) with ("files" :: dn).
  rewrite (tx_bind_Done _ _ s s (Some v)) by (unfold tx_ask; rewrite Get_item; simpl; by rewrite Hv).
  rewrite (tx_bind_Done _ _ s s f) by (unfold tx_lift, decodeFileInfo; simpl; by rewrite Hun).
  destruct (Delete_ok s ("files" :: dn) fn) as [s1 Hdel]; [done|simpl; by rewrite Hv|].
  rewrite (tx_bind_Done _ _ s s1 ()) by (by apply tx_call_Done).
  destruct (ascend_run dn dn [] s1 (delete (dn, fn) S)) as (s' & Hrun & HF' & Hsame).
  { by rewrite app_nil_r. }
  { by eapply files_ok_Delete. }
  rewrite (tx_bind_Done _ _ _ _ _ Hrun). exists s'. split; [done|]. split; [done|].
  intros r Hr q. rewrite (Hsame r Hr q).
  apply Delete_item in Hdel as [_ Hq]; [|done]. rewrite Hq, decide_False; [done|]. simpl. congruence.
Qed.

(** Deleting one that is not there does not get so far. *)
Lemma set_files_missing s S p r :
  files_exact s S -> set_files (FileTable.fnEx p) None s = Done (inr r) -> is_Some (S !! p).
Proof.
  intros HF. rewrite (set_files_unfold _ _ _ _ _ HF). destruct p as [dn fn]. simpl.
  destruct r as [s' h]. intros (s1 & b & Hdive & Hrest)%tx_bind_inv.
  apply (files_ok_dive _ _ _ _ _ HF) in Hdive as (-> & HF1 & _).
  apply tx_bind_inv in Hrest as (s2 & v & Hget & Hrest). unfold tx_ask in Hget. injection Hget as <- <-.
  apply tx_bind_inv in Hrest as (s3 & f & [Hdec ->]%tx_lift_inv & _).
  rewrite Get_item in Hdec. simpl in Hdec.
  destruct (item_at s1 ("files" :: dn ++ [fn])) as [[v|]|] eqn:Hit.
  - apply (fo_value _ _ _ HF1) in Hit as (g & _ & Hg). by eexists.
  - unfold decodeFileInfo in Hdec. simpl in Hdec. destruct Unmarshal_nil as [e He]. by rewrite He in Hdec.
  - unfold decodeFileInfo in Hdec. simpl in Hdec. destruct Unmarshal_nil as [e He]. by rewrite He in Hdec.
Qed.

(** ** The keys of the owners *)

Record owners_ok (owner_of : FileTable.path -> string) s S : Prop := {
  oo_root : item_at s ["byOwner"] = Some Nested;
  oo_value o : forall v, item_at s ["byOwner"; o] <> Some (Value v);
  oo_flat o k : item_at s ["byOwner"; o; k] <> Some Nested;
  oo_key o k :
    is_Some (item_at s ["byOwner"; o; k]) <->
    exists p, is_Some (S !! p) /\ owner_of p = o /\ k = key_of p;
}.

Lemma owners_ok_same owner_of s s' S S' :
  same_at "byOwner" s s' -> (forall p, is_Some (S' !! p) <-> is_Some (S !! p)) ->
  owners_ok owner_of s S -> owners_ok owner_of s' S'.
Proof.
  intros Hsame HS [H1 H2 H3 H4]. split.
  - by rewrite Hsame.
  - intros o. rewrite Hsame. apply H2.
  - intros o k. rewrite Hsame. apply H3.
  - intros o k. rewrite Hsame, H4. by setoid_rewrite HS.
Qed.

Definition names_ok S : Prop := forall p, is_Some (S !! p) -> Forall name_ok (FileTable.fnEx p).

Lemma names_ok_set S p fi :
  names_ok S -> Forall name_ok (FileTable.fnEx p) -> names_ok (FileTable.set S p fi).
Proof.
  intros HS Hp q. rewrite FileTable.lookup_set. case_decide as Hq; [by subst q|]. apply HS.
Qed.

(** Entering the key of a path. *)
Lemma owners_ok_Put owner_of s s' S p f v :
  owners_ok owner_of s S -> names_ok S -> Forall name_ok (FileTable.fnEx p) ->
  item_at s ["byOwner"; owner_of p] = Some Nested ->
  Put s ["byOwner"; owner_of p] (key_of p) v = inr s' ->
  owners_ok owner_of s' (FileTable.set S p (Some f)).
Proof.
  intros [H1 H2 H3 H4] HS Hp Hob Hput. apply Put_item in Hput as [_ Hq]; [|done]. simpl in Hq. split.
  - by rewrite Hq, decide_False.
  - intros o. by rewrite Hq, decide_False.
  - intros o k. rewrite Hq. case_decide; [done|apply H3].
  - intros o k. rewrite Hq. case_decide as Heq.
    + injection Heq as -> ->. split; [intros _|by eexists]. exists p.
      rewrite FileTable.lookup_set, decide_True by done. split; [by eexists|done].
    + rewrite H4. split; intros (x & Hx & <- & ->).
      * exists x. rewrite FileTable.lookup_set. case_decide as Hxp; [by subst x|done].
      * rewrite FileTable.lookup_set in Hx. case_decide as Hxp; [by subst x; destruct Heq|]. by exists x.
Qed.

Lemma owners_ok_Delete owner_of s s' S p :
  owners_ok owner_of s S -> names_ok S -> Forall name_ok (FileTable.fnEx p) ->
  item_at s ["byOwner"; owner_of p] = Some Nested ->
  Delete s ["byOwner"; owner_of p] (key_of p) = inr s' ->
  owners_ok owner_of s' (FileTable.set S p None).
Proof.
  intros [H1 H2 H3 H4] HS Hp Hob Hdel. apply Delete_item in Hdel as [_ Hq]; [|done]. simpl in Hq. split.
  - by rewrite Hq, decide_False.
  - intros o. by rewrite Hq, decide_False.
  - intros o k. rewrite Hq. case_decide; [done|apply H3].
  - intros o k. rewrite Hq. case_decide as Heq.
    + injection Heq as -> ->. split; [by intros []|]. intros (x & Hx & Ho & Hk).
      rewrite FileTable.lookup_set in Hx. case_decide as Hxp; [by destruct Hx|].
      destruct Hxp. symmetry. by apply Bolt_key_of_inj; [|apply HS|].
    + rewrite H4. split; intros (x & Hx & <- & ->).
      * exists x. rewrite FileTable.lookup_set. case_decide as Hxp; [by subst x; destruct Heq|done].
      * rewrite FileTable.lookup_set in Hx. case_decide as Hxp; [by destruct Hx|]. by exists x.
Qed.

(** A path whose owner has no bucket is not in the table. *)
Lemma owners_ok_absent owner_of s S p :
  owners_ok owner_of s S -> item_at s ["byOwner"; owner_of p] <> Some Nested -> S !! p = None.
Proof.
  intros HO Hob. apply eq_None_not_Some. intros Hp. apply Hob.
  assert (Hk : is_Some (item_at s (["byOwner"; owner_of p] ++ [key_of p]))).
  { apply (oo_key _ _ _ HO). by exists p. }
  by apply item_at_parent in Hk.
Qed.

Lemma set_byOwner_unfold owner_of s S fnEx fi owner :
  owners_ok owner_of s S ->
  set_byOwner fnEx fi owner s =
    (ob ← (match (if decide (item_at s ["byOwner"; owner] = Some Nested)
                  then Some ["byOwner"; owner] else None), fi with
           | None, Some _ => ob ← tx_CreateBucket ["byOwner"] owner; mret (Some ob)
           | ob, _ => mret ob
           end : tx (option bucket));
     match fi, ob with
     | Some _, _ =>
         ob ← not_nil ob;
         tx_call (fun s => Put s ob (strings.Join fnEx "/") "")
     | None, Some ob => tx_call (fun s => Delete s ob (strings.Join fnEx "/"))
     | None, None => mret ()
     end) s.
Proof.
  intros HO. unfold set_byOwner.
  rewrite (tx_bind_Done _ _ _ _ _ (tx_Bucket_there s [] "byOwner" (oo_root _ _ _ HO))).
  rewrite (tx_bind_Done _ _ s s ["byOwner"]) by done.
  rewrite (tx_bind_Done _ _ _ _ _ (tx_Bucket_run s ["byOwner"] owner)). simpl app.
  case_decide; by destruct fi.
Qed.

Lemma set_byOwner_run owner_of s s' S p fi u fi' :
  owners_ok owner_of s S -> names_ok S -> Forall name_ok (FileTable.fnEx p) ->
  (fi' = None <-> fi = None) ->
  set_byOwner (FileTable.fnEx p) fi (owner_of p) s = Done (inr (s', u)) ->
  owners_ok owner_of s' (FileTable.set S p fi') /\ (forall r, r <> "byOwner" -> same_at r s s').
Proof.
  intros HO HS Hp Hfi. rewrite (set_byOwner_unfold _ _ _ _ _ _ HO).
  intros (s1 & ob & Hob & Hrest)%tx_bind_inv.
  destruct fi as [f|].
  - destruct fi' as [f'|]; [|by destruct Hfi as [Hfi _]; discriminate Hfi].
    assert (ob = Some ["byOwner"; owner_of p] /\ item_at s1 ["byOwner"; owner_of p] = Some Nested /\
            owners_ok owner_of s1 S /\ (forall r, r <> "byOwner" -> same_at r s s1))
      as (-> & Hit & HO1 & Hsame).
    { case_decide as Hb; [unfold mret, tx_ret in Hob; injection Hob as <- <-; done|].
      apply tx_bind_inv in Hob as (s2 & b & [Hc ->]%tx_CreateBucket_inv & Hret).
      unfold mret, tx_ret in Hret. injection Hret as <- <-. split; [done|].
      apply CreateBucket_item in Hc as [Hnone Hq]; [|apply HO]. simpl in Hnone, Hq.
      split; [by rewrite Hq, decide_True|]. split; [|intros r Hr q; rewrite Hq, decide_False; congruence].
      destruct HO as [H1 H2 H3 H4]. split.
      - by rewrite Hq, decide_False.
      - intros o v. rewrite Hq. case_decide; [done|apply H2].
      - intros o k. by rewrite Hq, decide_False.
      - intros o k. by rewrite Hq, decide_False. }
    rewrite (tx_bind_Done _ _ s1 s1 ["byOwner"; owner_of p]) in Hrest by done.
    apply tx_call_inv in Hrest. split; [by eapply owners_ok_Put|].
    intros r Hr q. rewrite <-(Hsame r Hr q). apply Put_item in Hrest as [_ Hq]; [|done].
    rewrite Hq, decide_False; [done|]. simpl. congruence.
  - destruct fi' as [f'|]; [by destruct Hfi as [_ Hfi]; discriminate Hfi|].
    case_decide as Hb; unfold mret, tx_ret in Hob; injection Hob as <- <-; simpl in Hrest.
    + apply tx_call_inv in Hrest. split; [by eapply owners_ok_Delete|].
      intros r Hr q. apply Delete_item in Hrest as [_ Hq]; [|done].
      rewrite Hq, decide_False; [done|]. simpl. congruence.
    + unfold mret, tx_ret in Hrest. injection Hrest as <- _. split; [|done].
      pose proof (owners_ok_absent _ _ _ _ HO Hb) as Hno.
      eapply owners_ok_same; [done| |exact HO]. intros q. simpl.
      by rewrite delete_id.
Qed.

(** Forgetting a key always works. *)
Lemma set_byOwner_delete owner_of s S fnEx owner :
  owners_ok owner_of s S -> exists s', set_byOwner fnEx None owner s = Done (inr (s', ())).
Proof.
  intros HO. rewrite (set_byOwner_unfold _ _ _ _ _ _ HO). case_decide as Hob; rewrite tx_bind_ret; [|by eexists].
  destruct (Delete_ok s ["byOwner"; owner] (strings.Join fnEx "/")) as [s' Hs']; [done|apply HO|].
  exists s'. by apply tx_call_Done.
Qed.

End setfile.
End BoltSetFile.
