(* ===== verification/DatabaseBoltHolds.v ===== *)
(** * The Bolt database and the table of published files

[holds]: the store has the files of a table and the keys of their owners. It is
kept by [SetFile] and [PeerDisconnected] and answers [GetDir]. [owners_of] is
the list of owners that the bucket "byHash" has for a hash. *)

From S2P Require Import Prelude GoStrings Types DatabaseSpec.
From S2P Require Import DatabaseBolt DatabaseBoltProofs DatabaseBoltSetFile.
Import Bolt BoltProofs BoltSetFile.

Module BoltHolds.

(** Joining fewer of the parts makes no longer string. *)
Lemma length_append (a b : string) : String.length (a ++ b)%string = String.length a + String.length b.
Proof. induction a as [|c a IH]; [done|]. change (String c a ++ b)%string with (String c (a ++ b)). simpl. lia. Qed.

Lemma length_Join_sublist (l l' : list string) sep :
  l `sublist_of` l' -> String.length (strings.Join l sep) <= String.length (strings.Join l' sep).
Proof.
  unfold strings.Join.
  assert (Hcons : forall x l, String.length (String.concat sep (x :: l)) =
    String.length x + (if l is [] then 0 else String.length sep + String.length (String.concat sep l))).
  { intros x [|y m]; [simpl; lia|].
    change (String.concat sep (x :: y :: m)) with (x ++ sep ++ String.concat sep (y :: m))%string.
    by rewrite !length_append. }
  induction 1 as [|x l l' Hl IH|x l l' Hl IH]; [done| |].
  - rewrite !Hcons. destruct l as [|y l]; [lia|]. destruct l' as [|y' l']; [by apply sublist_nil_r in Hl|].
    lia.
  - rewrite Hcons. destruct l' as [|y' l']; [|lia]. apply sublist_nil_r in Hl as ->. simpl. lia.
Qed.

Section holds.
Context {B : BoltStore} {BL : BoltLaws B} {J : JSON} {JL : JSONLaws J}.
Implicit Types (s : store) (S : FileTable.table) (p : FileTable.path) (d : Database).

(** ** The owners of hashes *)

(** What the bucket "byHash" has for a hash. *)
Definition owner_list s (h : string) : string :=
  match item_at s ["byHash"; h] with Some (Value v) => v | _ => "" end.

Definition owners_of s (h : string) : list string :=
  if decide (owner_list s h = "") then [] else strings.Split (owner_list s h) (str1 NUL).

Record hash_ok s : Prop := {
  ho_root : item_at s ["byHash"] = Some Nested;
  ho_flat h : item_at s ["byHash"; h] <> Some Nested;
  ho_size h v :
    item_at s ["byHash"; h] = Some (Value v) ->
    h <> "" /\ (Z.of_nat (String.length h) <= MaxKeySize)%Z /\ (Z.of_nat (String.length v) <= MaxValueSize)%Z;
}.

Lemma hash_ok_same s s' : same_at "byHash" s s' -> hash_ok s -> hash_ok s'.
Proof.
  intros Hs [H1 H2 H3]. split; [by rewrite Hs|intros h; by rewrite Hs|].
  intros h v. rewrite Hs. apply H3.
Qed.

Lemma owner_list_same s s' h : same_at "byHash" s s' -> owner_list s' h = owner_list s h.
Proof. intros Hs. unfold owner_list. by rewrite Hs. Qed.

Lemma set_byHash_unfold s hash publish owner :
  hash_ok s ->
  set_byHash hash publish owner s =
    let v := new_owners (owner_list s hash) publish owner in
    if decide (v = "") then tx_call (fun s => Delete s ["byHash"] hash) s
    else tx_call (fun s => Put s ["byHash"] hash v) s.
Proof.
  intros HH. unfold set_byHash.
  rewrite (tx_bind_Done _ _ _ _ _ (tx_Bucket_there s [] "byHash" (ho_root _ HH))).
  rewrite (tx_bind_Done _ _ s s ["byHash"]) by done.
  rewrite (tx_bind_Done _ _ s s (owner_list s hash)).
  - cbv zeta. by case_decide.
  - unfold tx_ask, owner_list. rewrite Get_item. simpl.
    by destruct (item_at s ["byHash"; hash]) as [[]|].
Qed.

Lemma set_byHash_run s s' hash publish owner u :
  hash_ok s -> set_byHash hash publish owner s = Done (inr (s', u)) ->
  hash_ok s' /\ (forall r, r <> "byHash" -> same_at r s s') /\
  (forall h, owner_list s' h =
     if decide (h = hash) then new_owners (owner_list s hash) publish owner else owner_list s h).
Proof.
  intros HH. rewrite (set_byHash_unfold _ _ _ _ HH). cbv zeta. set (v := new_owners _ _ _).
  assert (Hr : item_at s ["byHash"] = Some Nested) by apply HH.
  case_decide as Hv; intros Hrun%tx_call_inv.
  - apply Delete_item in Hrun as [_ Hq]; [|done]. simpl in Hq. split; [split|split].
    + by rewrite Hq, decide_False.
    + intros h. rewrite Hq. case_decide; [done|apply HH].
    + intros h w. rewrite Hq. case_decide; [done|apply HH].
    + intros r Hne q. rewrite Hq, decide_False; [done|]. congruence.
    + intros h. unfold owner_list. rewrite Hq. destruct (decide (h = hash)) as [->|Hne].
      * by rewrite decide_True, Hv.
      * by rewrite decide_False by congruence.
  - pose proof (Put_size _ _ _ _ _ Hrun) as Hsize.
    apply Put_item in Hrun as [_ Hq]; [|done]. simpl in Hq. split; [split|split].
    + by rewrite Hq, decide_False.
    + intros h. rewrite Hq. case_decide; [done|apply HH].
    + intros h w. rewrite Hq. case_decide as Heq; [|apply HH]. by injection Heq as ->; intros [= <-].
    + intros r Hne q. rewrite Hq, decide_False; [done|]. congruence.
    + intros h. unfold owner_list. rewrite Hq. destruct (decide (h = hash)) as [->|Hne].
      * by rewrite decide_True.
      * by rewrite decide_False by congruence.
Qed.

(** Taking an owner out of a list always works. *)
Lemma set_byHash_delete s hash owner :
  hash_ok s -> exists s', set_byHash hash false owner s = Done (inr (s', ())).
Proof.
  intros HH. rewrite (set_byHash_unfold _ _ _ _ HH). cbv zeta.
  assert (Hr : item_at s ["byHash"] = Some Nested) by apply HH.
  case_decide as Hv.
  - destruct (Delete_ok s ["byHash"] hash) as [s' Hs']; [done|apply HH|].
    exists s'. by apply tx_call_Done.
  - unfold new_owners in Hv |- *. case_decide as Hl; [done|].
    assert (exists w, item_at s ["byHash"; hash] = Some (Value w) /\ owner_list s hash = w) as (w & Hw & Hlw).
    { unfold owner_list in Hl |- *. destruct (item_at s ["byHash"; hash]) as [[w|]|]; try done. eauto. }
    destruct (ho_size _ HH _ _ Hw) as (H1 & H2 & H3).
    destruct (Put_ok s ["byHash"] hash
      (strings.Join (filter (fun o => o <> owner) (strings.Split (owner_list s hash) (str1 NUL))) (str1 NUL)))
      as [s' Hs']; [done|apply HH|done|done| |].
    + etrans; [|exact H3]. apply inj_le. rewrite <-(Join_Split NUL w), Hlw.
      apply length_Join_sublist, sublist_filter.
    + exists s'. by apply tx_call_Done.
Qed.

(** ** The invariant *)

Record store_holds (owner : FileTable.path -> string) s S : Prop := {
  sh_files : files_exact s S;
  sh_owners : owners_ok owner s S;
  sh_hash : hash_ok s;
  sh_names : names_ok S;
}.

Definition holds (owner : FileTable.path -> string) d S : Prop := store_holds owner (db d) S.

(** A function given to [Update] that keeps what it finds, step by step. *)
Lemma set_tx_run owner s s' S p fi u :
  store_holds owner s S -> Forall name_ok (FileTable.fnEx p) ->
  set_tx (FileTable.fnEx p) fi (owner p) s = Done (inr (s', u)) ->
  store_holds owner s' (FileTable.set S p (json_kept <$> fi)) /\
  exists hash, (match fi with Some f => hash = Hash f | None => exists f, S !! p = Some f /\ hash = Hash f end) /\
    forall h, owner_list s' h =
      if decide (h = hash) then new_owners (owner_list s hash) (bool_decide (fi <> None)) (owner p)
      else owner_list s h.
Proof.
  intros [HF HO HH HN] Hp. unfold set_tx.
  intros (s1 & u1 & H1 & Hrest)%tx_bind_inv. apply tx_bind_inv in Hrest as (s2 & hash & H2 & H3).
  apply (set_byOwner_run owner s s1 S p fi u1 (json_kept <$> fi)) in H1 as [HO1 Hs1];
    [|done..|by destruct fi].
  pose proof (files_ok_same _ _ _ _ (Hs1 "files" ltac:(done)) HF) as HF1.
  assert (Hset : files_exact s2 (FileTable.set S p (json_kept <$> fi)) /\
    (forall r, r <> "files" -> same_at r s1 s2) /\
    match fi with Some f => hash = Hash f | None => exists f, S !! p = Some f /\ hash = Hash f end).
  { destruct fi as [f|]; simpl.
    - by apply (set_files_publish _ _ _ _ _ _ HF1) in H2 as (-> & ? & ?).
    - pose proof (set_files_missing _ _ _ _ HF1 H2) as [f Hf].
      destruct (set_files_delete _ _ _ _ HF1 Hf) as (s2' & Hrun & ? & ?).
      rewrite H2 in Hrun. injection Hrun as <- ->. eauto. }
  destruct Hset as (HF2 & Hs2 & Hhash).
  assert (HH2 : hash_ok s2).
  { eapply hash_ok_same; [|exact HH]. eapply same_at_trans; [by apply Hs1|by apply Hs2]. }
  apply (set_byHash_run _ _ _ _ _ _ HH2) in H3 as (HH3 & Hs3 & Hl3).
  split; [split|].
  - eapply files_ok_same; [|exact HF2]. by apply Hs3.
  - eapply owners_ok_same; [|done|exact HO1].
    eapply same_at_trans; [by apply Hs2|by apply Hs3].
  - done.
  - by apply names_ok_set.
  - exists hash. split; [done|]. intros h. rewrite Hl3.
    assert (forall h, owner_list s2 h = owner_list s h) as Hsame.
    { intros k. apply owner_list_same. eapply same_at_trans; [by apply Hs1|by apply Hs2]. }
    by rewrite !Hsame.
Qed.

Lemma Update_inv s f s' e :
  Update s f = Done (s', e) ->
  (e <> None /\ s' = s) \/
  (e = None /\ begin_tx s = None /\ f s = Done (inr (s', ())) /\ commit_tx s s' = None).
Proof.
  unfold Update. destruct (begin_tx s) eqn:Hb; [intros [= <- <-]; by left|].
  destruct (f s) as [[er|[s1 []]]| |] eqn:Hf; simpl; try done.
  - intros [= <- <-]. by left.
  - destruct (commit_tx s s1) eqn:Hc; intros [= <- <-]; [by left|]. right. done.
Qed.

(** Every call of [SetFile] that returns keeps the table. *)
Lemma SetFile_holds owner d S p fi d' e :
  holds owner d S -> Forall name_ok (FileTable.fnEx p) ->
  SetFile d (FileTable.fnEx p) fi (owner p) = Done (d', e) ->
  (e <> None /\ d' = d) \/
  (e = None /\ holds owner d' (FileTable.set S p (json_kept <$> fi)) /\
   exists hash, (match fi with Some f => hash = Hash f | None => exists f, S !! p = Some f /\ hash = Hash f end) /\
     forall h, owner_list (db d') h =
       if decide (h = hash) then new_owners (owner_list (db d) hash) (bool_decide (fi <> None)) (owner p)
       else owner_list (db d) h).
Proof.
  intros HR Hp. unfold SetFile. destruct (Update _ _) as [[s' e']| |] eqn:HU; simpl; try done.
  intros [= <- <-]. apply Update_inv in HU as [[He ->]|(-> & _ & Hrun & _)].
  - left. by destruct d.
  - right. split; [done|]. by apply (set_tx_run owner (db d) s' S p fi ()).
Qed.

(** The deletion of a published file returns; it fails only when the store
fails to start or to commit the transaction. *)
Lemma SetFile_delete_run owner d S p f :
  holds owner d S -> S !! p = Some f ->
  exists d' e, SetFile d (FileTable.fnEx p) None (owner p) = Done (d', e) /\
    ((e <> None /\ d' = d /\ (begin_tx (db d) <> None \/ exists s', commit_tx (db d) s' <> None)) \/
     (e = None /\ holds owner d' (FileTable.set S p None))).
Proof.
  intros HR Hf. pose proof HR as [HF HO HH HN].
  assert (Hp : Forall name_ok (FileTable.fnEx p)) by (apply HN; by eexists).
  assert (exists s', set_tx (FileTable.fnEx p) None (owner p) (db d) = Done (inr (s', ()))) as [s3 Hrun].
  { unfold set_tx.
    destruct (set_byOwner_delete owner (db d) S (FileTable.fnEx p) (owner p) HO) as [s1 H1].
    rewrite (tx_bind_Done _ _ _ _ _ H1).
    apply (set_byOwner_run owner _ _ S p None _ None) in H1 as [_ Hs1]; [|done..].
    pose proof (files_ok_same _ _ _ _ (Hs1 "files" ltac:(done)) HF) as HF1.
    destruct (set_files_delete _ _ _ _ HF1 Hf) as (s2 & H2 & _ & Hs2).
    rewrite (tx_bind_Done _ _ _ _ _ H2). apply set_byHash_delete.
    eapply hash_ok_same; [|exact HH]. eapply same_at_trans; [by apply Hs1|by apply Hs2]. }
  unfold SetFile, Update. destruct (begin_tx (db d)) as [e|] eqn:Hb; cbn [mbind outcome_bind].
  - eexists _, _. split; [done|]. left. split; [done|]. split; [by destruct d|]. by left.
  - rewrite Hrun. cbn [mbind outcome_bind]. destruct (commit_tx (db d) s3) as [e|] eqn:Hc; cbn [mbind outcome_bind].
    + eexists _, _. split; [done|]. left. split; [done|]. split; [by destruct d|]. right. by exists s3; rewrite Hc.
    + eexists _, _. split; [done|]. right. split; [done|].
      by apply (set_tx_run owner (db d) s3 S p None ()) in Hrun as [? _].
Qed.

End holds.
End BoltHolds.
