(* ===== verification/DatabaseBoltQueries.v ===== *)
(** * Listing, disconnecting and publishing on a Bolt database that holds a table *)

From S2P Require Import Prelude GoStrings Types DatabaseSpec.
From S2P Require Import DatabaseBolt DatabaseBoltProofs DatabaseBoltSetFile DatabaseBoltHolds.
Import Bolt BoltProofs BoltSetFile BoltHolds.

Module BoltQueries.

Lemma StronglySorted_sublist {A} (R : relation A) (l l' : list A) :
  StronglySorted R l' -> l `sublist_of` l' -> StronglySorted R l.
Proof.
  intros Hs Hl. revert Hs. induction Hl as [|x l l' Hl IH|x l l' Hl IH]; intros Hs; [done| |];
    apply StronglySorted_inv in Hs as [Hs Hx]; [|by apply IH].
  constructor; [by apply IH|]. rewrite Forall_forall in *. intros y Hy. apply Hx.
  eapply elem_of_submseteq; [exact Hy|by apply sublist_submseteq].
Qed.

Section queries.
Context {B : BoltStore} {BL : BoltLaws B} {J : JSON} {JL : JSONLaws J}.
Implicit Types (s : store) (S : FileTable.table) (p : FileTable.path) (d : Database).

(** ** GetDir *)

Lemma walk_buckets_run s dn b :
  item_at s b = Some Nested ->
  walk_buckets dn (Some b) s =
    if decide (item_at s (b ++ dn) = Some Nested) then Done (inr (s, Some (b ++ dn)))
    else Done (inl (errors_New "ENOENT")).
Proof.
  revert b. induction dn as [|x dn IH]; intros b Hb; simpl.
  - rewrite app_nil_r. by rewrite decide_True.
  - rewrite (tx_bind_Done _ _ s s b) by done.
    rewrite (tx_bind_Done _ _ _ _ _ (tx_Bucket_run s b x)). case_decide as Hx.
    + rewrite (IH (b ++ [x]) Hx), <-app_assoc. done.
    + rewrite decide_False; [done|]. intros Hdn. apply Hx.
      destruct (decide (dn = [])) as [->|Hne]; [done|].
      apply (item_at_prefix s _ dn); [done|]. rewrite <-app_assoc. simpl. rewrite Hdn. by eexists.
Qed.

Lemma list_entry_file acc k v f :
  Unmarshal v = inr f -> list_entry acc (k, Some v) = Done (<[k := f]> acc.1, acc.2).
Proof. intros Hf. unfold list_entry, decodeFileInfo. simpl. by rewrite Hf. Qed.

Lemma tx_bind_err {A A'} (m : tx A) (k : A -> tx A') s e :
  m s = Done (inl e) -> (m ≫= k) s = Done (inl e).
Proof. intros Hm. unfold mbind, tx_bind. by rewrite Hm. Qed.

(** The listing of the entries of a directory. *)
Lemma list_entries_run entries :
  (forall k v, (k, Some v) ∈ entries -> exists f, Unmarshal v = inr f) ->
  NoDup entries.*1 ->
  exists fs, foldM list_entry (∅, []) entries =
      Done (fs, (filter (fun kv : string * option string => kv.2 = None) entries).*1) /\
    (forall k f, fs !! k = Some f <-> exists v, (k, Some v) ∈ entries /\ Unmarshal v = inr f).
Proof.
  intros Hdec Hnd.
  enough (forall todo done fs, entries = done ++ todo ->
    (forall k f, fs !! k = Some f <-> exists v, (k, Some v) ∈ done /\ Unmarshal v = inr f) ->
    exists fs', foldM list_entry
        (fs, (filter (fun kv : string * option string => kv.2 = None) done).*1) todo =
      Done (fs', (filter (fun kv : string * option string => kv.2 = None) entries).*1) /\
    (forall k f, fs' !! k = Some f <-> exists v, (k, Some v) ∈ entries /\ Unmarshal v = inr f))
    as Hgen.
  { apply (Hgen entries [] ∅); [done|]. intros k f. rewrite lookup_empty. split; [done|].
    intros (v & Hv & _). by apply not_elem_of_nil in Hv. }
  induction todo as [|[k o] todo IH]; intros pre fs Heq Hfs; cbn [foldM].
  - exists fs. rewrite app_nil_r in Heq. by subst pre.
  - assert (Heq' : entries = (pre ++ [(k, o)]) ++ todo) by (by rewrite <-app_assoc).
    assert (Hin : (k, o) ∈ entries) by (rewrite Heq; set_solver).
    destruct o as [v|].
    + destruct (Hdec k v Hin) as [f Hf]. rewrite (list_entry_file _ _ _ _ Hf). simpl.
      destruct (IH (pre ++ [(k, Some v)]) (<[k := f]> fs) Heq') as (fs' & Hrun & Hfs').
      * intros k' f'. destruct (decide (k = k')) as [<-|Hne].
        -- rewrite lookup_insert_eq. split.
           ++ intros [= <-]. exists v. split; [set_solver|done].
           ++ intros (v' & Hv' & Hf'). f_equal.
              apply elem_of_app in Hv' as [Hv'|Hv'].
              ** exfalso. rewrite Heq, fmap_app in Hnd. apply NoDup_app in Hnd as (_ & Hdis & _).
                 apply (Hdis k); [by apply (list_elem_of_fmap_2 fst _ (k, Some v'))|by left].
              ** apply list_elem_of_singleton in Hv' as [= ->]. congruence.
        -- rewrite lookup_insert_ne by done. rewrite Hfs. split.
           ++ intros (w & Hw & ?). exists w. split; [set_solver|done].
           ++ intros (w & Hw & ?). exists w. split; [|done].
              apply elem_of_app in Hw as [Hw|Hw]; [done|].
              apply list_elem_of_singleton in Hw as [= -> _]. done.
      * exists fs'. split; [|done]. rewrite <-Hrun. rewrite filter_app, filter_cons_False by done.
        by rewrite filter_nil, app_nil_r.
    + destruct (IH (pre ++ [(k, None)]) fs Heq') as (fs' & Hrun & Hfs').
      * intros k' f'. rewrite Hfs. split; intros (w & Hw & ?); exists w; (split; [|done]).
        -- set_solver.
        -- apply elem_of_app in Hw as [Hw|Hw]; [done|]. by apply list_elem_of_singleton in Hw.
      * exists fs'. split; [|done]. rewrite <-Hrun.
        by rewrite filter_app, filter_cons_True, filter_nil, fmap_app by done.
Qed.

(** The subdirectories of a directory: the names on the way to a file. *)
Definition subdirs S dn (x : string) : Prop := FileTable.below S (dn ++ [x]).

Lemma Bolt_GetDir_run owner d S dn :
  holds owner d S -> Forall good_part dn -> begin_tx (db d) = None ->
  (exists fs ds, GetDir d (strings.Join dn "/") = Done (Some (fs, ds), None) /\
     (dn = [] \/ FileTable.below S dn) /\ FileTable.lists S dn fs /\
     (forall x, x ∈ ds <-> subdirs S dn x) /\ NoDup ds /\ StronglySorted String.le ds) \/
  (GetDir d (strings.Join dn "/") = Done (None, Some (errors_New "ENOENT")) /\
   dn <> [] /\ ~ FileTable.below S dn).
Proof.
  intros [HF HO HH HN] Hgood Hbegin. unfold GetDir. rewrite (dir_parts dn Hgood).
  unfold View. rewrite Hbegin.
  assert (Hroot : item_at (db d) ([] ++ ["files"]) = Some Nested) by (apply (fo_bucket _ _ _ HF); by left).
  rewrite (tx_bind_Done _ _ _ _ _ (tx_Bucket_there (db d) [] "files" Hroot)).
  set (k := fun b : option bucket => _).
  pose proof (walk_buckets_run (db d) dn ["files"] Hroot) as Hwalk.
  case_decide as Hdn.
  - rewrite (tx_bind_Done _ _ _ _ _ Hwalk). unfold k.
    rewrite (tx_bind_Done _ _ (db d) (db d) ("files" :: dn)) by done.
    rewrite (tx_bind_Done _ _ (db d) (db d) (cursor (db d) ("files" :: dn))) by done.
    destruct (list_entries_run (cursor (db d) ("files" :: dn))) as (fs & Hrun & Hfs).
    { intros x v Hin. apply cursor_item in Hin. simpl in Hin.
      apply (fo_value _ _ _ HF) in Hin as (f & Hf & _). eauto. }
    { apply cursor_NoDup. }
    unfold tx_lift. rewrite Hrun. cbn [mbind outcome_bind]. left. eexists _, _. split; [done|].
    split; [apply (fo_bucket _ _ _ HF) in Hdn as [?|[?|[]]]; auto|].
    split; [|split; [|split]].
    + intros fn. apply option_eq. intros f. rewrite Hfs. split.
      * intros (v & Hin & Hun). apply cursor_item in Hin.
        apply (fo_value _ _ _ HF) in Hin as (f' & Hun' & Hf'). congruence.
      * intros Hf. destruct (fo_read _ _ _ _ _ _ HF Hf) as (v & Hv & Hun). exists v.
        split; [|done]. by apply cursor_item.
    + intros x. rewrite list_elem_of_fmap. split.
      * intros ([y o] & -> & Hin). apply list_elem_of_filter in Hin as [Ho Hin]. simpl in Ho. subst o.
        apply cursor_item in Hin. simpl in Hin.
        apply (fo_bucket _ _ _ HF) in Hin as [Hn|[Hb|[]]]; [by destruct dn|done].
      * intros Hb. exists (x, None). split; [done|]. apply list_elem_of_filter. split; [done|].
        apply cursor_item. simpl. apply (fo_bucket _ _ _ HF). by right; left.
    + eapply sublist_NoDup; [apply (cursor_NoDup (db d) ("files" :: dn))|].
      apply fmap_sublist, sublist_filter.
    + eapply StronglySorted_sublist; [apply (cursor_sorted (db d) ("files" :: dn))|].
      apply fmap_sublist, sublist_filter.
  - right. split.
    + by rewrite (tx_bind_err _ _ _ _ Hwalk).
    + split; intros Hx; apply Hdn, (fo_bucket _ _ _ HF); auto.
Qed.

(** ** PeerDisconnected *)

(** The store starts and commits every transaction. *)
Definition reliable : Prop :=
  (forall s, begin_tx s = None) /\ (forall s s', commit_tx s s' = None).

Lemma owned_files_run owner d S o :
  holds owner d S ->
  exists ks, owned_files o (db d) = Done (inr (db d, ks)) /\ NoDup ks /\
    forall k, k ∈ ks <-> exists p, is_Some (S !! p) /\ owner p = o /\ k = key_of p.
Proof.
  intros [HF HO HH HN]. unfold owned_files.
  rewrite (tx_bind_Done _ _ _ _ _ (tx_Bucket_there (db d) [] "byOwner" (oo_root _ _ _ HO))).
  rewrite (tx_bind_Done _ _ (db d) (db d) ["byOwner"]) by done.
  rewrite (tx_bind_Done _ _ _ _ _ (tx_Bucket_run (db d) ["byOwner"] o)). case_decide as Ho.
  - exists (cursor (db d) ["byOwner"; o]).*1. split; [done|]. split; [apply cursor_NoDup|].
    intros k. rewrite <-(oo_key _ _ _ HO). rewrite list_elem_of_fmap. split.
    + intros ([y v] & -> & Hin). apply cursor_item in Hin. by eexists.
    + intros Hk. apply (in_cursor (db d) ["byOwner"; o]) in Hk as [v Hk]. by exists (k, v).
  - exists []. split; [done|]. split; [constructor|]. intros k. split; [by intros ?%not_elem_of_nil|].
    intros (p & [f Hp] & <- & _). pose proof (owners_ok_absent _ _ _ _ HO Ho). congruence.
Qed.

Lemma delete_loop owner o d S ks e0 :
  holds owner d S -> NoDup ks ->
  (forall k, k ∈ ks -> exists p, is_Some (S !! p) /\ owner p = o /\ k = key_of p) ->
  exists d' e S',
    foldM (fun '(d, lastErr) fn =>
        '(d, err) ← SetFile d (strings.Split fn "/") None o;
        Done (d, match err with Some e => Some e | None => lastErr end)) (d, e0) ks = Done (d', e) /\
    holds owner d' S' /\ S' ⊆ S /\ (forall p, owner p <> o -> S' !! p = S !! p) /\
    (reliable -> e = e0) /\
    (e = None -> e0 = None /\ forall p, owner p = o -> key_of p ∈ ks -> S' !! p = None).
Proof.
  revert d S e0. induction ks as [|k ks IH]; intros d S e0 HR Hnd Hks; cbn [foldM].
  - exists d, e0, S. split; [done|]. split; [done|]. split; [done|]. split; [done|]. split; [done|].
    intros ->. split; [done|]. by intros p _ ?%not_elem_of_nil.
  - apply NoDup_cons in Hnd as [Hk Hnd].
    destruct (Hks k) as (p & [f Hf] & Ho & ->); [by left|].
    assert (Hp : Forall name_ok (FileTable.fnEx p)) by (apply (sh_names _ _ _ HR); by eexists).
    destruct (SetFile_delete_run owner d S p f HR Hf) as (d1 & e1 & Hrun & Hcase).
    rewrite Ho in Hrun. rewrite (Split_key p Hp), Hrun. cbn [mbind outcome_bind].
    set (S1 := if e1 is Some _ then S else FileTable.set S p None).
    assert (HR1 : holds owner d1 S1).
    { destruct Hcase as [(He & -> & _)|(-> & HR1)]; [|done]. subst S1. by destruct e1. }
    assert (Hrest : forall p', owner p' = o -> key_of p' ∈ ks -> S1 !! p' = S !! p').
    { intros p' _ Hin. subst S1. destruct e1; [done|]. rewrite FileTable.lookup_set.
      rewrite decide_False; [done|]. by intros ->. }
    assert (Hsub : S1 ⊆ S) by (subst S1; destruct e1; [done|apply delete_subseteq]).
    destruct (IH d1 S1 (match e1 with Some e => Some e | None => e0 end) HR1 Hnd)
      as (d' & e & S' & Hrun' & HR' & HS' & Hne' & Hrel' & Hdone').
    { intros k' Hk'. destruct (Hks k') as (p' & Hp' & Ho' & ->); [by right|].
      exists p'. by rewrite Hrest. }
    exists d', e, S'. split; [exact Hrun'|]. split; [done|]. split; [by etrans|]. split; [|split].
    + intros p' Hp'. rewrite Hne' by done. subst S1. destruct e1; [done|].
      rewrite FileTable.lookup_set, decide_False; [done|]. congruence.
    + intros Hrel. rewrite (Hrel' Hrel). destruct Hcase as [(_ & _ & Hfail)|(-> & _)]; [|done].
      destruct Hrel as [Hb Hc]. destruct Hfail as [Hfail|[s' Hfail]]; by destruct Hfail.
    + intros He. destruct (Hdone' He) as [He1 Hgone]. destruct e1 as [|]; [done|]. split; [done|].
      intros p' Hp' [Hkk|Hin]%elem_of_cons; [|by apply Hgone].
      apply eq_None_not_Some. intros [g Hg].
      pose proof (lookup_weaken _ _ _ _ Hg HS') as Hg1.
      pose proof (lookup_weaken _ _ _ _ Hg1 Hsub) as Hg0.
      assert (p' = p) as ->.
      { apply Bolt_key_of_inj; [|done|done]. apply (sh_names _ _ _ HR). by eexists. }
      subst S1. rewrite FileTable.lookup_set, decide_True in Hg1; done.
Qed.

(** It returns; what it leaves is part of what there was, with everything of
the others, and nothing of the peer when it answers nil. *)
Lemma Bolt_PeerDisconnected_run owner d S o :
  holds owner d S ->
  exists d' e S', PeerDisconnected d o = Done (d', e) /\
    holds owner d' S' /\ S' ⊆ S /\ (forall p, owner p <> o -> S' !! p = S !! p) /\
    (reliable -> e = None) /\ (e = None -> S' = FileTable.without owner S o).
Proof.
  intros HR. destruct (owned_files_run owner d S o HR) as (ks & Hks & Hnd & Hin).
  unfold PeerDisconnected, View. destruct (begin_tx (db d)) as [e|] eqn:Hb; cbn [mbind outcome_bind].
  - exists d, (Some e), S. split; [done|]. split; [done|]. split; [done|]. split; [done|].
    split; [|done]. intros [Hr _]. by rewrite Hr in Hb.
  - rewrite Hks. cbn [mbind outcome_bind].
    destruct (delete_loop owner o d S ks None HR Hnd) as (d' & e & S' & Hrun & HR' & HS' & Hne & Hrel & Hdone).
    { intros k Hk. by apply Hin. }
    exists d', e, S'. split; [exact Hrun|]. split; [done|]. split; [done|]. split; [done|].
    split; [done|]. intros He. apply map_eq. intros p. unfold FileTable.without.
    destruct (Hdone He) as [_ Hgone]. destruct (decide (owner p = o)) as [Ho|Ho].
    + trans (@None FileInfo).
      * destruct (S !! p) as [f|] eqn:Hf.
        -- apply Hgone; [done|]. apply Hin. exists p. split; [by eexists|done].
        -- destruct (S' !! p) eqn:Hf'; [|done]. pose proof (lookup_weaken _ _ _ _ Hf' HS'). congruence.
      * symmetry. apply map_lookup_filter_None. right. intros f _. naive_solver.
    + rewrite Hne by done. destruct (S !! p) as [f|] eqn:Hf; symmetry.
      * by apply map_lookup_filter_Some.
      * apply map_lookup_filter_None. by left.
Qed.

(** ** Publishing *)

(** A name that fits a key of the store. *)
Definition fits (x : string) : Prop := x <> "" /\ (Z.of_nat (String.length x) <= MaxKeySize)%Z.

Lemma dive_total dirs b parents s :
  item_at s b = Some Nested -> Forall fits dirs ->
  (forall r v, r <> [] -> r `prefix_of` dirs -> item_at s (b ++ r) <> Some (Value v)) ->
  exists s' r, dive dirs b parents s = Done (inr (s', r)).
Proof.
  revert b parents s. induction dirs as [|x dirs IH]; intros b parents s Hb Hfit Hv; simpl; [by eexists _, _|].
  apply Forall_cons in Hfit as [[Hx1 Hx2] Hfit].
  rewrite (tx_bind_Done _ _ _ _ _ (tx_Bucket_run s b x)).
  assert (Hx : forall r v, r <> [] -> r `prefix_of` dirs -> item_at s ((b ++ [x]) ++ r) <> Some (Value v)).
  { intros r v Hr Hp. rewrite <-app_assoc. apply Hv; [done|]. by apply prefix_cons. }
  case_decide as Hd.
  - rewrite tx_bind_ret. by apply IH.
  - destruct (CreateBucket_ok s b x) as [s1 Hc]; [done| |done|done|].
    { destruct (item_at s (b ++ [x])) as [[v|]|] eqn:E; [|done|done]. destruct (Hv [x] v); [done| |done].
      apply prefix_cons, prefix_nil. }
    rewrite (tx_bind_Done _ _ s s1 (b ++ [x])).
    + apply CreateBucket_item in Hc as [Hnone Hq]; [|done].
      apply IH; [by rewrite Hq, decide_True|done|].
      intros r v Hr Hp. rewrite Hq. case_decide; [done|]. by apply Hx.
    + unfold tx_CreateBucket. by rewrite (tx_bind_Done _ _ s s1 ()) by (by apply tx_call_Done).
Qed.

Lemma set_byOwner_publish owner s S p f :
  owners_ok owner s S -> fits (owner p) -> fits (key_of p) ->
  exists s', set_byOwner (FileTable.fnEx p) (Some f) (owner p) s = Done (inr (s', ())).
Proof.
  intros HO [Ho1 Ho2] [Hk1 Hk2]. rewrite (set_byOwner_unfold _ _ _ _ _ _ HO).
  assert (exists s1, (forall k, item_at s1 ["byOwner"; owner p; k] <> Some Nested) /\
    item_at s1 ["byOwner"; owner p] = Some Nested /\
    (match (if decide (item_at s ["byOwner"; owner p] = Some Nested)
            then Some ["byOwner"; owner p] else None), Some f with
     | None, Some _ => ob ← tx_CreateBucket ["byOwner"] (owner p); mret (Some ob)
     | ob, _ => mret ob
     end : tx (option bucket)) s = Done (inr (s1, Some ["byOwner"; owner p]))) as (s1 & Hflat & Hob & Hrun).
  { case_decide as Hd; [exists s; split; [apply HO|done]|].
    destruct (CreateBucket_ok s ["byOwner"] (owner p)) as [s1 Hc]; [apply HO| |done|done|].
    { simpl. destruct (item_at s ["byOwner"; owner p]) as [[v|]|] eqn:E; [|done|done].
      by destruct (oo_value _ _ _ HO (owner p) v). }
    exists s1. pose proof Hc as Hc'. apply CreateBucket_item in Hc as [_ Hq]; [|apply HO]. simpl in Hq.
    split; [|split].
    - intros k. rewrite Hq, decide_False by done. apply HO.
    - by rewrite Hq, decide_True.
    - unfold tx_CreateBucket. rewrite (tx_bind_Done _ _ s s1 ["byOwner"; owner p]); [done|].
      by rewrite (tx_bind_Done _ _ s s1 ()) by (by apply tx_call_Done). }
  rewrite (tx_bind_Done _ _ _ _ _ Hrun).
  rewrite (tx_bind_Done _ _ s1 s1 ["byOwner"; owner p]) by done.
  destruct (Put_ok s1 ["byOwner"; owner p] (key_of p) "") as [s' Hs']; [done|apply Hflat|done|done|done|].
  exists s'. by apply tx_call_Done.
Qed.

(** The name of a file is not the name of a directory that leads to one. *)
Definition no_conflict S p : Prop :=
  ~ FileTable.below S (FileTable.fnEx p) /\
  forall q, is_Some (S !! q) -> ~ FileTable.fnEx q `prefix_of` p.1.

Lemma set_files_publish_total s S p f b :
  files_exact s S -> Forall fits (FileTable.fnEx p) -> no_conflict S p ->
  Marshal f = inr b -> (Z.of_nat (String.length b) <= MaxValueSize)%Z ->
  exists s' h, set_files (FileTable.fnEx p) (Some f) s = Done (inr (s', h)).
Proof.
  intros HF Hfit [Hnb Hnf] Hm Hb. rewrite (set_files_unfold _ _ _ _ _ HF). destruct p as [dn fn]. simpl in *.
  apply Forall_app in Hfit as [Hdirs [Hfn1 Hfn2]%Forall_singleton].
  destruct (dive_total dn ["files"] [] s) as (s1 & r & Hdive); [by apply (fo_bucket _ _ _ HF); left|done| |].
  { intros r v Hr Hp Hv. destruct r as [|x r _] using rev_ind; [done|].
    apply (fo_value _ _ _ HF) in Hv as (g & _ & Hg).
    apply (Hnf (r, x)); [by eexists|done]. }
  rewrite (tx_bind_Done _ _ _ _ _ Hdive).
  apply (files_ok_dive _ _ _ _ _ HF) in Hdive as (-> & HF1 & _).
  rewrite (tx_bind_Done _ _ s1 s1 b) by (unfold tx_lift, encodeFileInfo; by rewrite Hm).
  destruct (Put_ok s1 ("files" :: dn) fn b) as [s2 Hs2]; [| |done|done|done|].
  - apply (fo_bucket _ _ _ HF1). by right; right.
  - simpl. rewrite (fo_bucket _ _ _ HF1).
    intros [Hq|[Hq|Hq]]; [by destruct dn|done|by apply not_prefix_longer in Hq].
  - rewrite (tx_bind_Done _ _ s1 s2 ()) by (by apply tx_call_Done). by eexists _, _.
Qed.

End queries.
End BoltQueries.
