(* ===== verification/DatabaseBoltTheorems.v ===== *)
(** * Properties of the Bolt database

[database_bolt.go] against [FileTable]: the files, the directories and the
disconnections are right; the owners of hashes are not. *)

From S2P Require Import Prelude GoStrings Types DatabaseSpec DatabaseBolt DatabaseBoltStore.
From S2P Require Import DatabaseBoltProofs DatabaseBoltSetFile DatabaseBoltHolds DatabaseBoltQueries.
Import Bolt BoltProofs BoltSetFile BoltHolds BoltQueries.

Module BoltTheorems.

Section claims.
Context {B : BoltStore} {BL : BoltLaws B} {J : JSON} {JL : JSONLaws J}.
Implicit Types (s : store) (S : FileTable.table) (p : FileTable.path) (d : Database).

(** ** A new database *)

Lemma create_bucket_run s name s' u (k : bucket -> tx unit) :
  ((fun s => match CreateBucket s [] name with
    | inl e => Done (inl (Errorf "create bucket: %s" [e]))
    | inr s' => Done (inr (s', [name]))
    end : outcome (error + store * bucket)) ≫= k : tx unit) s = Done (inr (s', u)) ->
  exists s1, CreateBucket s [] name = inr s1 /\ k [name] s1 = Done (inr (s', u)).
Proof.
  intros (s1 & b & H1 & H2)%tx_bind_inv. destruct (CreateBucket s [] name); [done|].
  injection H1 as <- <-. eauto.
Qed.

Lemma create_buckets_holds owner s s' u :
  (forall q, q <> [] -> item_at s q = None) ->
  create_buckets s = Done (inr (s', u)) -> store_holds owner s' ∅.
Proof.
  intros Hempty Hrun. unfold create_buckets in Hrun.
  apply create_bucket_run in Hrun as (s1 & H1 & Hrun).
  apply create_bucket_run in Hrun as (s2 & H2 & Hrun).
  apply create_bucket_run in Hrun as (s3 & H3 & Hrun). injection Hrun as <- _.
  apply CreateBucket_item in H1 as [_ H1]; [|apply item_at_root].
  apply CreateBucket_item in H2 as [_ H2]; [|apply item_at_root].
  apply CreateBucket_item in H3 as [_ H3]; [|apply item_at_root]. simpl in *.
  assert (Hitem : forall r q, item_at s3 (r :: q) =
    if decide (q = [] /\ (r = "files" \/ r = "byHash" \/ r = "byOwner")) then Some Nested else None).
  { intros r q. rewrite H3, H2, H1, Hempty by done. repeat case_decide; naive_solver. }
  split; [split|split|split|].
  - intros dn fn v. rewrite Hitem, decide_False; [done|]. intros [Hn _]. by destruct dn.
  - intros dn fn f. by rewrite lookup_empty.
  - intros q. rewrite Hitem. case_decide as Hq; [naive_solver|]. split; [done|].
    intros [->|[(p & [f Hp] & _)|[]]]; [naive_solver|by rewrite lookup_empty in Hp].
  - rewrite Hitem. by rewrite decide_True by auto.
  - intros o v. rewrite Hitem. by case_decide.
  - intros o k. rewrite Hitem. by case_decide as Hk; [destruct Hk|].
  - intros o k. rewrite Hitem, decide_False by naive_solver. split; [by intros []|].
    intros (p & [f Hp] & _). by rewrite lookup_empty in Hp.
  - rewrite Hitem. by rewrite decide_True by auto.
  - intros h. rewrite Hitem. by case_decide as Hk; [destruct Hk|].
  - intros h v. rewrite Hitem. by case_decide as Hk; [destruct Hk|].
  - intros p [f Hp]. by rewrite lookup_empty in Hp.
Qed.

(** [newDatabase] on an empty store gives the database of no files, when the
store commits; otherwise it gives the store as it was opened, and no error. *)
Lemma newDatabase_run owner s :
  (exists s', create_buckets s = Done (inr (s', ()))) \/ (exists e, create_buckets s = Done (inl e)) ->
  exists d, newDatabase (inr s) = Done (inr d) /\
    (db d = s \/ ((forall q, q <> [] -> item_at s q = None) -> holds owner d ∅)).
Proof.
  intros Hrun. unfold newDatabase, Update. destruct (begin_tx s); simpl; [eexists; split; [done|by left]|].
  destruct Hrun as [[s' Hrun]|[e Hrun]]; rewrite Hrun; simpl; [|eexists; split; [done|by left]].
  destruct (commit_tx s s'); simpl; eexists; (split; [done|]); [by left|]. right.
  intros Hempty. by eapply create_buckets_holds.
Qed.

(** ** The lists of owners *)

Definition owner_ok (o : string) : Prop := o <> "" /\ strings.Contains o NUL = false.

Lemma new_owners_publish v o :
  owner_ok o ->
  (if decide (new_owners v true o = "") then [] else strings.Split (new_owners v true o) (str1 NUL)) =
  (if decide (v = "") then [] else strings.Split v (str1 NUL)) ++ [o].
Proof.
  intros [Ho Hnul]. unfold new_owners. destruct (decide (v = "")) as [->|Hv].
  - rewrite decide_False by done. by rewrite Split_single.
  - rewrite decide_False by (by destruct v). by apply Split_snoc.
Qed.

Lemma Forall_kept {A} (P Q : A -> Prop) `{forall x, Decision (Q x)} (l : list A) :
  Forall P l -> Forall P (filter Q l).
Proof. rewrite !Forall_forall. intros HP x [_ Hx]%list_elem_of_filter. by apply HP. Qed.

Lemma new_owners_delete v o :
  Forall (fun x => x <> "") (if decide (v = "") then [] else strings.Split v (str1 NUL)) ->
  (if decide (new_owners v false o = "") then [] else strings.Split (new_owners v false o) (str1 NUL)) =
  filter (fun x => x <> o) (if decide (v = "") then [] else strings.Split v (str1 NUL)).
Proof.
  intros Hne. unfold new_owners. destruct (decide (v = "")) as [->|Hv]; [done|].
  set (os := filter (fun x => x <> o) (strings.Split v (str1 NUL))).
  assert (Hsep : Forall (fun x => strings.Contains x NUL = false) os).
  { apply Forall_kept, (Split_no_sep NUL). }
  assert (Hos : Forall (fun x => x <> "") os) by (by apply Forall_kept).
  destruct os as [|x os]; [done|]. rewrite decide_False.
  - by apply Split_Join.
  - apply Forall_cons in Hos as [Hx _]. destruct x; [done|]. by destruct os.
Qed.

(** ** Outcomes of SetFile *)

Lemma tx_bind_Panic {A A'} (m : tx A) (k : A -> tx A') s why :
  m s = Panic why -> (m ≫= k) s = Panic why.
Proof. intros Hm. unfold mbind, tx_bind. by rewrite Hm. Qed.

(** A reliable store commits what a transaction that succeeds has done. *)
Lemma SetFile_commits d fnEx fi o :
  (forall s, begin_tx s = None) -> (forall s s', commit_tx s s' = None) ->
  (exists s', set_tx fnEx fi o (db d) = Done (inr (s', ()))) ->
  exists d', SetFile d fnEx fi o = Done (d', None).
Proof.
  intros Hb Hc [s' Hrun]. unfold SetFile, Update. rewrite Hb, Hrun. cbn [mbind outcome_bind].
  rewrite Hc. cbn [mbind outcome_bind]. eauto.
Qed.

(** In a table that a store holds no file is a directory. *)
Lemma conflict_free owner d S p f : holds owner d (FileTable.set S p (Some f)) -> no_conflict S p.
Proof.
  intros [HF _ _ _].
  assert (Hp : FileTable.set S p (Some f) !! (p.1, p.2) = Some f).
  { rewrite FileTable.lookup_set, decide_True; [done|by destruct p]. }
  assert (Hkeep : forall q, is_Some (S !! q) -> is_Some (FileTable.set S p (Some f) !! q)).
  { intros q Hq. rewrite FileTable.lookup_set. by case_decide. }
  split.
  - intros (q & Hq & Hpre). destruct (fo_file _ _ _ HF _ _ _ Hp) as [v Hv].
    assert (item_at (db d) ("files" :: p.1 ++ [p.2]) = Some Nested) as Hn; [|congruence].
    apply (fo_bucket _ _ _ HF). right. left. exists q. split; [by apply Hkeep|done].
  - intros q Hq Hpre. destruct (Hkeep q Hq) as [g Hg]. destruct q as [dn fn].
    destruct (fo_file _ _ _ HF _ _ _ Hg) as [v Hv].
    assert (item_at (db d) ("files" :: dn ++ [fn]) = Some Nested) as Hn; [|congruence].
    apply (fo_bucket _ _ _ HF). right. left. eapply FileTable.below_file; [exact Hp|exact Hpre].
Qed.

(** Deleting a file that its directory does not have. *)
Lemma set_files_panics s S p :
  files_exact s S -> S !! p = None -> FileTable.below S p.1 ->
  set_files (FileTable.fnEx p) None s = Panic "json.Unmarshal".
Proof.
  intros HF Hno Hb. rewrite (set_files_unfold _ _ _ _ _ HF). destruct p as [dn fn]. simpl in *.
  assert (Hdn : item_at s ("files" :: dn) = Some Nested) by (apply (fo_bucket _ _ _ HF); by right; left).
  rewrite (tx_bind_Done _ _ _ _ _ (dive_existing dn ["files"] [] s Hdn)).
  change (["files"] ++ dn) with ("files" :: dn).
  rewrite (tx_bind_Done _ _ s s None).
  - apply tx_bind_Panic. unfold tx_lift, decodeFileInfo. simpl.
    destruct Unmarshal_nil as [e He]. by rewrite He.
  - unfold tx_ask. rewrite Get_item. simpl.
    destruct (item_at s ("files" :: dn ++ [fn])) as [[v|]|] eqn:Hit; [|done|done].
    apply (fo_value _ _ _ HF) in Hit as (g & _ & Hg). congruence.
Qed.

(** *** Every outcome *)

Lemma tx_bind_returns {A A'} (m : tx A) (k : A -> tx A') s :
  (exists r, m s = Done r) -> (forall s' a, m s = Done (inr (s', a)) -> exists r, k a s' = Done r) ->
  exists r, (m ≫= k) s = Done r.
Proof.
  intros [[e|[s' a]] Hm] Hk; unfold mbind, tx_bind; rewrite Hm; [by eexists|]. by apply Hk.
Qed.

Lemma tx_call_returns (f : store -> error + store) s : exists r, tx_call f s = Done r.
Proof. unfold tx_call. destruct (f s); by eexists. Qed.

Lemma dive_returns dirs b parents s : exists r, dive dirs b parents s = Done r.
Proof.
  revert b parents s. induction dirs as [|x dirs IH]; intros b parents s; simpl; [by eexists|].
  apply tx_bind_returns; [by eexists|]. intros s1 sb _. apply tx_bind_returns; [|by intros s2 b2 _].
  destruct sb as [sb|]; [by eexists|]. apply tx_bind_returns; [apply tx_call_returns|]. by eexists.
Qed.

Lemma set_byOwner_returns owner s S fnEx fi o :
  owners_ok owner s S -> exists r, set_byOwner fnEx fi o s = Done r.
Proof.
  intros HO. rewrite (set_byOwner_unfold _ _ _ _ _ _ HO).
  case_decide; destruct fi as [f|]; rewrite ?tx_bind_ret; try apply tx_call_returns; try (by eexists).
  apply tx_bind_returns.
  - apply tx_bind_returns; [|by eexists]. apply tx_bind_returns; [apply tx_call_returns|by eexists].
  - intros s1 ob (s2 & b & _ & Hob)%tx_bind_inv. unfold mret, tx_ret in Hob. injection Hob as -> <-.
    apply tx_call_returns.
Qed.

(** No file lies where the path needs a directory. *)
Definition clear_way S p : Prop := forall q, is_Some (S !! q) -> ~ FileTable.fnEx q `prefix_of` p.1.

Lemma set_files_outcomes s S p fi :
  files_exact s S ->
  (exists r, set_files (FileTable.fnEx p) fi s = Done r) \/
  (set_files (FileTable.fnEx p) fi s = Panic "json.Unmarshal" /\ fi = None /\ S !! p = None /\ clear_way S p) \/
  (set_files (FileTable.fnEx p) fi s = Panic "json.Marshal" /\ exists f e, fi = Some f /\ Marshal f = inl e).
Proof.
  intros HF. destruct fi as [f|].
  - rewrite (set_files_unfold _ _ _ _ _ HF).
    destruct (dive_returns p.1 ["files"] [] s) as [[e|[s1 r]] Hdive].
    { left. exists (inl e). unfold mbind, tx_bind. by rewrite Hdive. }
    rewrite (tx_bind_Done _ _ _ _ _ Hdive). destruct r as [b parents].
    destruct (Marshal f) as [e|v] eqn:Hm.
    + right. right. split; [|by exists f, e]. apply tx_bind_Panic. unfold tx_lift, encodeFileInfo. by rewrite Hm.
    + left. apply tx_bind_returns; [unfold tx_lift, encodeFileInfo; rewrite Hm; by eexists|]. intros s2 v' _.
      apply tx_bind_returns; [apply tx_call_returns|by eexists].
  - destruct (S !! p) as [f|] eqn:Hp.
    { left. destruct (set_files_delete s S p f HF Hp) as (s' & -> & _). by eexists. }
    rewrite (set_files_unfold _ _ _ _ _ HF).
    destruct (dive_returns p.1 ["files"] [] s) as [[e|[s1 r]] Hdive].
    { left. exists (inl e). unfold mbind, tx_bind. by rewrite Hdive. }
    rewrite (tx_bind_Done _ _ _ _ _ Hdive).
    apply (files_ok_dive _ _ _ _ _ HF) in Hdive as (-> & HF1 & _). right. left. split_and!; [|done|done|].
    + rewrite (tx_bind_Done _ _ s1 s1 None).
      * apply tx_bind_Panic. unfold tx_lift, decodeFileInfo. simpl. destruct Unmarshal_nil as [e He]. by rewrite He.
      * unfold tx_ask. rewrite Get_item. simpl.
        destruct (item_at s1 ("files" :: p.1 ++ [p.2])) as [[v|]|] eqn:Hit; [|done|done].
        apply (fo_value _ _ _ HF1) in Hit as (g & _ & Hg). destruct p. simpl in *. congruence.
    + intros [dn fn] [g Hg] Hpre. destruct (fo_file _ _ _ HF1 _ _ _ Hg) as [v Hv].
      assert (item_at s1 ("files" :: dn ++ [fn]) = Some Nested) as Hn; [|congruence].
      apply (fo_bucket _ _ _ HF1). by right; right.
Qed.

Lemma set_byHash_returns s hash publish o : hash_ok s -> exists r, set_byHash hash publish o s = Done r.
Proof. intros HH. rewrite (set_byHash_unfold _ _ _ _ HH). cbv zeta. case_decide; apply tx_call_returns. Qed.

Lemma set_tx_outcomes owner s S p fi :
  store_holds owner s S -> Forall name_ok (FileTable.fnEx p) ->
  (exists r, set_tx (FileTable.fnEx p) fi (owner p) s = Done r) \/
  (set_tx (FileTable.fnEx p) fi (owner p) s = Panic "json.Unmarshal" /\ fi = None /\ S !! p = None /\ clear_way S p) \/
  (set_tx (FileTable.fnEx p) fi (owner p) s = Panic "json.Marshal" /\ exists f e, fi = Some f /\ Marshal f = inl e).
Proof.
  intros [HF HO HH HN] Hp. unfold set_tx.
  destruct (set_byOwner_returns owner s S (FileTable.fnEx p) fi (owner p) HO) as [[e|[s1 u]] H1].
  { left. exists (inl e). unfold mbind, tx_bind. by rewrite H1. }
  rewrite (tx_bind_Done _ _ _ _ _ H1).
  apply (set_byOwner_run owner _ _ S p fi _ fi) in H1 as [_ Hs1]; [|done..].
  pose proof (files_ok_same _ _ _ _ (Hs1 "files" ltac:(done)) HF) as HF1.
  destruct (set_files_outcomes s1 S p fi HF1) as [[[e|[s2 hash]] H2]|[[H2 ?]|[H2 ?]]].
  - left. exists (inl e). unfold mbind, tx_bind. by rewrite H2.
  - left. rewrite (tx_bind_Done _ _ _ _ _ H2). apply set_byHash_returns.
    assert (Hs2 : forall r, r <> "files" -> same_at r s1 s2).
    { destruct fi as [f|]; [by apply (set_files_publish _ _ _ _ _ _ HF1) in H2 as (_ & _ & ?)|].
      pose proof (set_files_missing _ _ _ _ HF1 H2) as [f Hf].
      destruct (set_files_delete _ _ _ _ HF1 Hf) as (s2' & Hrun & _ & ?). rewrite H2 in Hrun. by injection Hrun as <- _. }
    eapply hash_ok_same; [|exact HH]. eapply same_at_trans; [by apply Hs1|by apply Hs2].
  - right. left. split; [by apply tx_bind_Panic|done].
  - right. right. split; [by apply tx_bind_Panic|done].
Qed.

Lemma SetFile_cases owner d S p fi :
  holds owner d S -> Forall name_ok (FileTable.fnEx p) ->
  (exists d', SetFile d (FileTable.fnEx p) fi (owner p) = Done (d', None) /\
     holds owner d' (FileTable.set S p (json_kept <$> fi))) \/
  (exists e, SetFile d (FileTable.fnEx p) fi (owner p) = Done (d, Some e)) \/
  (SetFile d (FileTable.fnEx p) fi (owner p) = Panic "json.Unmarshal" /\
   fi = None /\ S !! p = None /\ clear_way S p) \/
  (SetFile d (FileTable.fnEx p) fi (owner p) = Panic "json.Marshal" /\
   exists f e, fi = Some f /\ Marshal f = inl e).
Proof.
  intros HR Hp. destruct (SetFile d (FileTable.fnEx p) fi (owner p)) as [[d' e]|why|] eqn:Hrun.
  - destruct (SetFile_holds owner d S p fi d' e HR Hp Hrun) as [[He ->]|(-> & HR' & _)]; [|by left; exists d'].
    right. left. destruct e as [e|]; [by exists e|done].
  - right. right. unfold SetFile, Update in Hrun. destruct (begin_tx (db d)); [done|].
    destruct (set_tx_outcomes owner (db d) S p fi HR Hp) as [[[e|[s' u]] H]|[[H ?]|[H ?]]];
      rewrite H in Hrun; cbn [mbind outcome_bind] in Hrun.
    + done.
    + by destruct (commit_tx (db d) s').
    + left. injection Hrun as <-. done.
    + right. injection Hrun as <-. done.
  - exfalso. unfold SetFile, Update in Hrun. destruct (begin_tx (db d)); [done|].
    destruct (set_tx_outcomes owner (db d) S p fi HR Hp) as [[[e|[s' u]] H]|[[H ?]|[H ?]]];
      rewrite H in Hrun; cbn [mbind outcome_bind] in Hrun; try done.
    by destruct (commit_tx (db d) s').
Qed.

(** A path whose directories can be gone through or made. *)
Lemma set_files_absent s S p :
  files_exact s S -> S !! p = None -> Forall fits p.1 -> clear_way S p ->
  set_files (FileTable.fnEx p) None s = Panic "json.Unmarshal".
Proof.
  intros HF Hp Hfit Hway. destruct (set_files_outcomes s S p None HF) as [[[e|[s' h]] H]|[[H _]|[_ (f & e & [=] & _)]]];
    [exfalso|exfalso|done].
  - rewrite (set_files_unfold _ _ _ _ _ HF) in H.
    destruct (dive_total p.1 ["files"] [] s) as (s1 & r & Hdive); [by apply (fo_bucket _ _ _ HF); left|done| |].
    { intros r v Hr Hpre Hv. destruct r as [|y r _] using rev_ind; [done|].
      apply (fo_value _ _ _ HF r y) in Hv as (g & _ & Hg). by apply (Hway (r, y)). }
    rewrite (tx_bind_Done _ _ _ _ _ Hdive) in H. apply (files_ok_dive _ _ _ _ _ HF) in Hdive as (-> & HF1 & _).
    unfold mbind at 1, tx_bind at 1, tx_ask in H.
    assert (exists e', decodeFileInfo (Get s1 ("files" :: p.1) p.2) = Panic e') as [e' He'].
    { rewrite Get_item. simpl. destruct (item_at s1 ("files" :: p.1 ++ [p.2])) as [[v|]|] eqn:Hit.
      - apply (fo_value _ _ _ HF1) in Hit as (g & _ & Hg). destruct p. simpl in *. congruence.
      - unfold decodeFileInfo. simpl. destruct Unmarshal_nil as [e' ->]. by eexists.
      - unfold decodeFileInfo. simpl. destruct Unmarshal_nil as [e' ->]. by eexists. }
    rewrite (tx_bind_Panic _ _ _ e') in H by (unfold tx_lift; by rewrite He'). done.
  - apply (set_files_missing s S p) in H as [f Hf]; [congruence|done].
Qed.

(** ** Claims *)

(** C14: every [SetFile] of the Bolt database that returns has done what it says:
with a nil error the store holds the updated table of files, its directories
exactly those that lead to a file and its keys of owners those of the table;
with an error nothing has changed. *)
Theorem Bolt_SetFile_refines owner d S p fi d' e :
  holds owner d S -> Forall name_ok (FileTable.fnEx p) ->
  SetFile d (FileTable.fnEx p) fi (owner p) = Done (d', e) ->
  (e = None -> holds owner d' (FileTable.set S p (json_kept <$> fi))) /\ (e <> None -> d' = d).
Proof.
  intros HR Hp Hrun.
  destruct (SetFile_holds owner d S p fi d' e HR Hp Hrun) as [[He ->]|(-> & HR' & _)]; done.
Qed.

(** C38: every outcome of [SetFile] of the Bolt database, for names without a slash.
It returns nil and the database holds the updated table, or an error and the database
is as before, or it panics in [json.Unmarshal], and then it was the deletion of a path
that is not published and leads through no file, or in [json.Marshal], which refused
the info. On a store that begins and commits every transaction, and for names that fit
it: a deletion returns nil if the file is published, panics if it is not and no file is
where one of its directories would be, and is an error otherwise; a publication whose
info and list of owners fit returns nil if the path is no directory and leads through
no file, and is an error otherwise. *)
Theorem Bolt_SetFile_outcomes owner d S p :
  holds owner d S -> Forall name_ok (FileTable.fnEx p) ->
  (forall fi,
     (exists d', SetFile d (FileTable.fnEx p) fi (owner p) = Done (d', None) /\
        holds owner d' (FileTable.set S p (json_kept <$> fi))) \/
     (exists e, SetFile d (FileTable.fnEx p) fi (owner p) = Done (d, Some e)) \/
     (SetFile d (FileTable.fnEx p) fi (owner p) = Panic "json.Unmarshal" /\
      fi = None /\ S !! p = None /\ clear_way S p) \/
     (SetFile d (FileTable.fnEx p) fi (owner p) = Panic "json.Marshal" /\
      exists f e, fi = Some f /\ Marshal f = inl e)) /\
  (reliable -> Forall fits (FileTable.fnEx p) ->
     (is_Some (S !! p) -> exists d', SetFile d (FileTable.fnEx p) None (owner p) = Done (d', None)) /\
     (S !! p = None -> clear_way S p ->
        SetFile d (FileTable.fnEx p) None (owner p) = Panic "json.Unmarshal") /\
     (S !! p = None -> ~ clear_way S p ->
        exists e, SetFile d (FileTable.fnEx p) None (owner p) = Done (d, Some e)) /\
     (forall f b, fits (key_of p) -> fits (owner p) -> fits (Hash f) ->
        Marshal f = inr b -> (Z.of_nat (String.length b) <= MaxValueSize)%Z ->
        (Z.of_nat (String.length (new_owners (owner_list (db d) (Hash f)) true (owner p))) <= MaxValueSize)%Z ->
        (no_conflict S p -> exists d', SetFile d (FileTable.fnEx p) (Some f) (owner p) = Done (d', None)) /\
        (~ no_conflict S p -> exists e, SetFile d (FileTable.fnEx p) (Some f) (owner p) = Done (d, Some e)))).
Proof.
  intros HR Hp. pose proof (fun fi => SetFile_cases owner d S p fi HR Hp) as Hcases. split; [exact Hcases|].
  intros [Hbegin Hcommit] Hfit. pose proof HR as [HF HO HH HN].
  split_and!; [| | |intros f b Hkey Ho [Hh1 Hh2] Hm Hb Hl; split].
  - intros [f Hf]. destruct (SetFile_delete_run owner d S p f HR Hf) as (d' & e & Hrun & [(_ & _ & Hfail)|(-> & _)]); [|eauto].
    destruct Hfail as [Hfail|[s' Hfail]]; by destruct Hfail.
  - intros Hnone Hway. unfold SetFile, Update. rewrite Hbegin. unfold set_tx.
    destruct (set_byOwner_delete owner (db d) S (FileTable.fnEx p) (owner p) HO) as [s1 H1].
    rewrite (tx_bind_Done _ _ _ _ _ H1).
    apply (set_byOwner_run owner _ _ S p None _ None) in H1 as [_ Hs1]; [|done..].
    pose proof (files_ok_same _ _ _ _ (Hs1 "files" ltac:(done)) HF) as HF1.
    apply Forall_app in Hfit as [Hdirs _].
    by rewrite (tx_bind_Panic _ _ _ _ (set_files_absent _ _ _ HF1 Hnone Hdirs Hway)).
  - intros Hnone Hway. destruct (Hcases None) as [(d' & Hrun & _)|[?|[(_ & _ & _ & ?)|(_ & f & e & [=] & _)]]]; [exfalso|done|done].
    apply (SetFile_holds owner d S p None) in Hrun as [[He _]|(_ & _ & h & (f & Hf & _) & _)]; [done|congruence|done|done].
  - intros Hnc. destruct (set_byOwner_publish owner (db d) S p f HO Ho Hkey) as [s1 H1].
    apply (SetFile_commits _ _ _ _ Hbegin Hcommit). unfold set_tx. rewrite (tx_bind_Done _ _ _ _ _ H1).
    apply (set_byOwner_run owner _ _ S p (Some f) _ (Some f)) in H1 as [_ Hs1]; [|done..].
    pose proof (files_ok_same _ _ _ _ (Hs1 "files" ltac:(done)) HF) as HF1.
    destruct (set_files_publish_total s1 S p f b HF1 Hfit Hnc Hm Hb) as (s2 & h & H2).
    rewrite (tx_bind_Done _ _ _ _ _ H2).
    apply (set_files_publish _ _ _ _ _ _ HF1) in H2 as (-> & _ & Hs2).
    assert (Hsame : same_at "byHash" (db d) s2).
    { eapply same_at_trans; [by apply Hs1|by apply Hs2]. }
    pose proof (hash_ok_same _ _ Hsame HH) as HH2. rewrite (set_byHash_unfold _ _ _ _ HH2).
    rewrite (owner_list_same _ _ _ Hsame). cbv zeta. rewrite bool_decide_eq_true_2 by done.
    rewrite decide_False.
    2:{ unfold new_owners. case_decide; [by apply Ho|]. by destruct (owner_list (db d) (Hash f)). }
    destruct (Put_ok s2 ["byHash"] (Hash f) (new_owners (owner_list (db d) (Hash f)) true (owner p)))
      as [s3 Hs3]; [apply HH2|apply HH2|done|done|done|]. exists s3. by apply tx_call_Done.
  - intros Hc. destruct (Hcases (Some f)) as [(d' & _ & HR')|[?|[(_ & [=] & _)|(_ & g & e & [= <-] & ?)]]]; [exfalso|done|congruence].
    by eapply Hc, conflict_free.
Qed.

(** C30: [GetDir] lists exactly the files of the directory and, sorted and once
each, the names that lead to files below it; any directory but the root that
leads to no file is ENOENT, so directories go with their last file. *)
Theorem Bolt_GetDir_correct owner d S dn :
  holds owner d S -> Forall good_part dn -> begin_tx (db d) = None ->
  if decide (dn = []) then
    exists fs ds, GetDir d "" = Done (Some (fs, ds), None) /\ FileTable.lists S [] fs /\
      (forall x, x ∈ ds <-> FileTable.below S [x]) /\ NoDup ds /\ StronglySorted String.le ds
  else
    (FileTable.below S dn /\ exists fs ds, GetDir d (strings.Join dn "/") = Done (Some (fs, ds), None) /\
       FileTable.lists S dn fs /\
       (forall x, x ∈ ds <-> FileTable.below S (dn ++ [x])) /\ NoDup ds /\ StronglySorted String.le ds) \/
    (~ FileTable.below S dn /\ GetDir d (strings.Join dn "/") = Done (None, Some (errors_New "ENOENT"))).
Proof.
  intros HR Hgood Hb.
  destruct (Bolt_GetDir_run owner d S dn HR Hgood Hb) as [(fs & ds & Hrun & Hdn & Hrest)|(Hrun & Hne & Hno)].
  - case_decide as Hd; [subst dn; by exists fs, ds|]. left. destruct Hdn as [|Hdn]; [done|]. eauto 6.
  - rewrite decide_False by done. by right.
Qed.

(** C32: [PeerDisconnected] returns whatever the store does; with a nil error,
which a reliable store always gives, exactly the files of the peer are gone,
and with another one only files of the peer can be. *)
Theorem Bolt_PeerDisconnected_correct owner d S o :
  holds owner d S ->
  exists d' e S', PeerDisconnected d o = Done (d', e) /\ holds owner d' S' /\
    (reliable -> e = None) /\
    (e = None -> S' = FileTable.without owner S o) /\
    S' ⊆ S /\ (forall p, owner p <> o -> S' !! p = S !! p).
Proof.
  intros HR. destruct (Bolt_PeerDisconnected_run owner d S o HR)
    as (d' & e & S' & ? & ? & ? & ? & ? & ?). exists d', e, S'. done.
Qed.

(** what [SetFile] does to the owners of hashes: a publication adds the
owner at the end of the list of the new hash, once more if it is there, and
leaves the list of the old hash; a deletion takes every entry of the owner out
of the list of the deleted hash. *)
Theorem Bolt_owner_lists owner d S p fi d' :
  holds owner d S -> Forall name_ok (FileTable.fnEx p) -> owner_ok (owner p) ->
  SetFile d (FileTable.fnEx p) fi (owner p) = Done (d', None) ->
  match fi with
  | Some f =>
      forall h, owners_of (db d') h =
        if decide (h = Hash f) then owners_of (db d) h ++ [owner p] else owners_of (db d) h
  | None =>
      exists f, S !! p = Some f /\ forall h,
        Forall (fun x => x <> "") (owners_of (db d) h) ->
        owners_of (db d') h =
          if decide (h = Hash f) then filter (fun x => x <> owner p) (owners_of (db d) h)
          else owners_of (db d) h
  end.
Proof.
  intros HR Hp Ho Hrun.
  apply (SetFile_holds owner d S p fi) in Hrun as [[He _]|(_ & _ & hash & Hhash & Hl)]; [done| |done|done].
  destruct fi as [f|].
  - intros h. unfold owners_of at 1. rewrite Hl. subst hash. rewrite bool_decide_eq_true_2 by done.
    destruct (decide (h = Hash f)) as [->|Hne]; [by apply new_owners_publish|done].
  - destruct Hhash as (f & Hf & ->). exists f. split; [done|]. intros h Hne.
    unfold owners_of at 1. rewrite Hl. rewrite bool_decide_eq_false_2 by naive_solver.
    destruct (decide (h = Hash f)) as [->|Hne']; [by apply new_owners_delete|done].
Qed.

(** [GetOwners] splits at slashes what is joined by NUL bytes: it names the
one owner of a hash, but for a hash with two owners or more it answers a single
name that belongs to none of them. *)
Theorem Bolt_GetOwners_answers owner d S h :
  holds owner d S -> begin_tx (db d) = None ->
  Forall (fun o => strings.Contains o slash = false) (owners_of (db d) h) ->
  match owners_of (db d) h with
  | [] => GetOwners d h = Done ([], Some (Errorf "hash %q not found" [errors_New h]))
  | [o] => GetOwners d h = Done ([o], None)
  | os => exists o, GetOwners d h = Done ([o], None) /\ o ∉ os
  end.
Proof.
  intros [_ _ HH _] Hb Hslash.
  assert (Hrun : GetOwners d h =
    Done (if decide (owner_list (db d) h = "")
          then ([], Some (Errorf "hash %q not found" [errors_New h]))
          else (strings.Split (owner_list (db d) h) "/", None))).
  { unfold GetOwners, View. rewrite Hb.
    rewrite (tx_bind_Done _ _ _ _ _ (tx_Bucket_there (db d) [] "byHash" (ho_root _ HH))).
    rewrite (tx_bind_Done _ _ (db d) (db d) ["byHash"]) by done.
    rewrite (tx_bind_Done _ _ (db d) (db d) (owner_list (db d) h)); [by case_decide|].
    unfold tx_ask, owner_list. rewrite Get_item. simpl. by destruct (item_at (db d) ["byHash"; h]) as [[]|]. }
  rewrite Hrun. unfold owners_of in Hslash |- *. case_decide as Hv; [done|].
  pose proof (Split_no_sep NUL (owner_list (db d) h)) as Hnul.
  pose proof (Join_Split NUL (owner_list (db d) h)) as Hjoin.
  assert (strings.Split (owner_list (db d) h) "/" = [owner_list (db d) h]) as ->.
  { apply (Split_single slash). rewrite <-Hjoin. by apply Contains_Join. }
  destruct (strings.Split (owner_list (db d) h) (str1 NUL)) as [|o [|o' os]] eqn:Hos.
  - by destruct (Split_not_nil NUL (owner_list (db d) h)).
  - rewrite <-Hjoin at 1. done.
  - exists (owner_list (db d) h). split; [done|]. intros Hin.
    rewrite Forall_forall in Hnul. apply Hnul in Hin. rewrite <-Hjoin in Hin.
    rewrite Contains_Join_sep in Hin; [done|]. simpl. lia.
Qed.

(** the lists of owners drift away from the table: once a file is published
again with another hash its owner stays in the list of the old hash, which it
has no more; and once one of two files with a hash is deleted its owner is
missing from the list of the hash that it still has. *)
Theorem Bolt_owner_lists_drift owner d S p f d' :
  holds owner d S -> owner_ok (owner p) -> S !! p = Some f ->
  owner p ∈ owners_of (db d) (Hash f) ->
  (forall f', Hash f' <> Hash f -> Hash (json_kept f') = Hash f' ->
     (forall q g, S !! q = Some g -> Hash g = Hash f -> owner q = owner p -> q = p) ->
     SetFile d (FileTable.fnEx p) (Some f') (owner p) = Done (d', None) ->
     (owner p ∈ owners_of (db d') (Hash f)) /\
     exists S', holds owner d' S' /\ ~ FileTable.owns owner S' (Hash f) (owner p)) /\
  (forall q g, q <> p -> S !! q = Some g -> Hash g = Hash f -> owner q = owner p ->
     Forall (fun x => x <> "") (owners_of (db d) (Hash f)) ->
     SetFile d (FileTable.fnEx p) None (owner p) = Done (d', None) ->
     (owner p ∉ owners_of (db d') (Hash f)) /\
     exists S', holds owner d' S' /\ FileTable.owns owner S' (Hash f) (owner p)).
Proof.
  intros HR Ho Hf Hin.
  assert (Hp : Forall name_ok (FileTable.fnEx p)) by (apply (sh_names _ _ _ HR); by eexists).
  split.
  - intros f' Hne Hkept Honly Hrun.
    apply (SetFile_holds owner d S p (Some f')) in Hrun as [[He _]|(_ & HR' & h & -> & Hl)]; [done| |done|done].
    split.
    + unfold owners_of in Hin |- *. rewrite Hl, (decide_False (P := Hash f = Hash f')) by congruence. done.
    + eexists. split; [exact HR'|]. intros (q & g & Hq & Hg & Hoq).
      rewrite FileTable.lookup_set in Hq. case_decide as Hqp; [simpl in Hq; injection Hq as <-; congruence|].
      by apply Hqp, (Honly q g).
  - intros q g Hqp Hq Hg Hoq Hnames Hrun.
    apply (SetFile_holds owner d S p None) in Hrun as [[He _]|(_ & HR' & h & (f0 & Hf0 & ->) & Hl)]; [done| |done|done].
    assert (f0 = f) as -> by congruence. split.
    + unfold owners_of at 1. rewrite Hl, (decide_True (P := Hash f = Hash f)) by done. rewrite bool_decide_eq_false_2 by naive_solver.
      rewrite new_owners_delete by done. rewrite list_elem_of_filter. by intros [? _].
    + eexists. split; [exact HR'|]. exists q, g. rewrite FileTable.lookup_set, decide_False by done. done.
Qed.

End claims.

(** ** The interface of the master *)

(** The database is open as long as it is used. *)
Class BoltOpen (B : BoltStore) := begin_open s : begin_tx s = None.

Section instance.
Context {B : BoltStore} {BL : BoltLaws B} {J : JSON} {JL : JSONLaws J} {BO : BoltOpen B}.

#[export] Instance bolt_ops : DatabaseOps := {|
  DatabaseSpec.db := Database;
  db_SetFile := SetFile;
  db_PeerDisconnected := PeerDisconnected;
  db_GetOwners := GetOwners;
  db_GetDir := fun d dir => '(r, e) ← GetDir d dir; Done (d, r, e);
|}.

(** The files of the Bolt database are those of the interface; it is no
[DatabaseComplete], see [Bolt_GetOwners_answers]. *)
#[export, refine] Instance bolt_laws : DatabaseLaws bolt_ops := {|
  db_holds := holds;
  db_name_ok := name_ok;
  db_stored := json_kept;
|}.
Proof.
  - by intros p [_ ?].
  - intros owner d S p fi d' e HR Hp Hrun.
    destruct (SetFile_holds owner d S p fi d' e HR Hp Hrun) as [[He ->]|(-> & HR' & _)]; [|done].
    by destruct e.
  - intros owner d S dn HR Hgood. simpl.
    destruct (Bolt_GetDir_run owner d S dn HR Hgood (begin_open _)) as [(fs & ds & -> & _ & Hl & _)|(-> & Hne & Hno)].
    + eexists _, _, _. split; [done|]. split; [done|]. left. eauto.
    + eexists _, _, _. split; [done|]. split; [done|]. right. split; [done|]. split; [done|].
      intros fn. destruct (S !! (dn, fn)) as [f|] eqn:Hf; [|done].
      destruct Hno. by eapply FileTable.below_file.
  - intros owner d S dir d' r e HR Hrun. simpl in Hrun.
    destruct (GetDir d dir) as [[]| |]; simpl in Hrun; try done. by injection Hrun as <- _ _.
  - intros owner d S o d' e HR Hrun.
    destruct (Bolt_PeerDisconnected_run owner d S o HR) as (d2 & e2 & S' & Hrun2 & HR' & HS' & Hne & _).
    change (PeerDisconnected d o = Done (d', e)) in Hrun. rewrite Hrun in Hrun2.
    injection Hrun2 as -> ->. eauto.
Defined.
End instance.

(** ** Concrete runs, on the store of [DatabaseBoltStore.v] *)

Section demo.
Import BoltTree.

Definition demo_owner (p : FileTable.path) : string :=
  match p.1 with
  | u :: _ => (u ++ "@10.0.0.7:1667")%string
  | [] => ""
  end.

Definition info (h : string) : FileInfo := mkFileInfo 3 h 0.
Definition file1 : FileTable.path := (["a"; "x"], "f").
Definition file2 : FileTable.path := (["a"; "x"], "g").
Definition file3 : FileTable.path := (["b"], "f").

Definition after (d : @Database tree_store) (p : FileTable.path) (fi : option FileInfo) : Database :=
  match SetFile d (FileTable.fnEx p) fi (demo_owner p) with Done (d', _) => d' | _ => d end.

Definition accepted (d : @Database tree_store) (p : FileTable.path) (fi : option FileInfo) : bool :=
  match SetFile d (FileTable.fnEx p) fi (demo_owner p) with Done (_, None) => true | _ => false end.

Lemma after_run d p fi :
  accepted d p fi = true ->
  SetFile d (FileTable.fnEx p) fi (demo_owner p) = Done (after d p fi, None).
Proof.
  unfold accepted, after.
  by destruct (SetFile d (FileTable.fnEx p) fi (demo_owner p)) as [[d' [e|]]| |].
Qed.

Definition demo0 : @Database tree_store :=
  match newDatabase (B := tree_store) (inr ∅) with Done (inr d) => d | _ => mkDatabase ∅ end.
Definition demo1 := after demo0 file1 (Some (info "h")).
Definition demo2 := after demo1 file2 (Some (info "h")).
Definition demo3 := after demo2 file3 (Some (info "h")).
Definition demo1_changed := after demo1 file1 (Some (info "k")).
Definition demo2_deleted := after demo2 file1 None.

Abbreviation table1 := (FileTable.set ∅ file1 (Some (info "h"))).
Abbreviation table2 := (FileTable.set table1 file2 (Some (info "h"))).
Abbreviation table3 := (FileTable.set table2 file3 (Some (info "h"))).

Lemma demo0_holds : holds demo_owner demo0 ∅.
Proof.
  apply (create_buckets_holds demo_owner (∅ : store (BoltStore := tree_store)) _ ()).
  - intros [|k q] Hq; [done|]. unfold item_at. simpl. unfold item_in. simpl. by rewrite lookup_empty.
  - vm_compute. reflexivity.
Qed.

Lemma demo_step d S p f :
  holds demo_owner d S -> Forall name_ok (FileTable.fnEx p) ->
  SetFile d (FileTable.fnEx p) (Some f) (demo_owner p) = Done (after d p (Some f), None) ->
  holds demo_owner (after d p (Some f)) (FileTable.set S p (Some f)).
Proof.
  intros HR Hp Hrun.
  apply (SetFile_holds demo_owner d S p (Some f)) in Hrun as [[He _]|(_ & HR' & _)]; done.
Qed.

Lemma demo1_holds : holds demo_owner demo1 table1.
Proof.
  refine (demo_step demo0 ∅ file1 (info "h") demo0_holds _ _);
    [by repeat constructor|apply after_run; vm_compute; reflexivity].
Qed.
Lemma demo2_holds : holds demo_owner demo2 table2.
Proof.
  refine (demo_step demo1 table1 file2 (info "h") demo1_holds _ _);
    [by repeat constructor|apply after_run; vm_compute; reflexivity].
Qed.
Lemma demo3_holds : holds demo_owner demo3 table3.
Proof.
  refine (demo_step demo2 table2 file3 (info "h") demo2_holds _ _);
    [by repeat constructor|apply after_run; vm_compute; reflexivity].
Qed.

Lemma tree_reliable : reliable (B := tree_store).
Proof. by split. Qed.

Lemma Bolt_SetFile_refines_witness :
  (@None error = None -> holds demo_owner demo2 (FileTable.set table1 file2 (json_kept <$> Some (info "h")))) /\
  (@None error <> None -> demo2 = demo1).
Proof.
  refine (Bolt_SetFile_refines demo_owner demo1 table1 file2 (Some (info "h")) demo2 None _ _ _).
  - apply demo1_holds.
  - by repeat constructor.
  - apply (after_run demo1 file2). vm_compute. reflexivity.
Defined.

Lemma Bolt_SetFile_outcomes_witness :
  (exists d', SetFile demo1 (FileTable.fnEx file1) None (demo_owner file1) = Done (d', None)) /\
  SetFile demo1 (FileTable.fnEx file2) None (demo_owner file2) = Panic "json.Unmarshal" /\
  exists e, SetFile demo1 (FileTable.fnEx (["a"; "x"; "f"], "g")) (Some (info "h")) (demo_owner file1) = Done (demo1, Some e).
Proof.
  assert (Hin : forall q, is_Some (table1 !! q) -> q = file1).
  { intros q [g Hg]. change table1 with (<[file1 := info "h"]> (∅ : FileTable.table)) in Hg.
    by apply lookup_insert_Some in Hg as [[? _]|[_ ?]]. }
  destruct (Bolt_SetFile_outcomes demo_owner demo1 table1 file1 demo1_holds) as [_ H1]; [by repeat constructor|].
  destruct (H1 tree_reliable) as (Hdel & _); [by repeat constructor|].
  destruct (Bolt_SetFile_outcomes demo_owner demo1 table1 file2 demo1_holds) as [_ H2]; [by repeat constructor|].
  destruct (H2 tree_reliable) as (_ & Hmiss & _); [by repeat constructor|].
  destruct (Bolt_SetFile_outcomes demo_owner demo1 table1 (["a"; "x"; "f"], "g") demo1_holds) as [_ H3]; [by repeat constructor|].
  destruct (H3 tree_reliable) as (_ & _ & _ & Hpub); [by repeat constructor|].
  split_and!; [apply Hdel; by eexists|apply Hmiss; [done|]|].
  - intros q Hq%Hin. subst q. intros Hpre%prefix_length. simpl in Hpre. lia.
  - destruct (Hpub (info "h") (String "{" (bits (info_code (info "h"))))) as [_ Hc]; [by split..|reflexivity|by vm_compute|by vm_compute|].
    apply Hc. intros [_ Hno]. apply (Hno file1); [by eexists|]. by exists [].
Defined.

Lemma Bolt_GetDir_correct_witness :
  (FileTable.below table3 ["a"] /\ exists fs ds, GetDir demo3 "a" = Done (Some (fs, ds), None) /\
     FileTable.lists table3 ["a"] fs /\
     (forall x, x ∈ ds <-> FileTable.below table3 ["a"; x]) /\ NoDup ds /\ StronglySorted String.le ds) \/
  (~ FileTable.below table3 ["a"] /\ GetDir demo3 "a" = Done (None, Some (errors_New "ENOENT"))).
Proof.
  refine (Bolt_GetDir_correct demo_owner demo3 table3 ["a"] _ _ _).
  - apply demo3_holds.
  - by repeat constructor.
  - reflexivity.
Defined.

Lemma Bolt_PeerDisconnected_correct_witness :
  exists d' e S', PeerDisconnected demo3 "a@10.0.0.7:1667" = Done (d', e) /\ holds demo_owner d' S' /\
    (reliable -> e = None) /\
    (e = None -> S' = FileTable.without demo_owner table3 "a@10.0.0.7:1667") /\
    S' ⊆ table3 /\ (forall p, demo_owner p <> "a@10.0.0.7:1667" -> S' !! p = table3 !! p).
Proof. refine (Bolt_PeerDisconnected_correct demo_owner demo3 table3 "a@10.0.0.7:1667" _). apply demo3_holds. Defined.

Lemma Bolt_owner_lists_witness :
  owners_of (db demo2) "h" = owners_of (db demo1) "h" ++ ["a@10.0.0.7:1667"] /\
  owners_of (db demo2) "g" = owners_of (db demo1) "g".
Proof.
  assert (Hrun : SetFile demo1 (FileTable.fnEx file2) (Some (info "h")) (demo_owner file2) = Done (demo2, None))
    by (apply (after_run demo1 file2); vm_compute; reflexivity).
  pose proof (Bolt_owner_lists demo_owner demo1 table1 file2 (Some (info "h")) demo2 demo1_holds
    ltac:(by repeat constructor) ltac:(by split) Hrun) as H.
  split; [apply (H "h")|apply (H "g")].
Defined.

Lemma Bolt_GetOwners_answers_witness :
  exists o, GetOwners demo3 "h" = Done ([o], None) /\
    o ∉ ["a@10.0.0.7:1667"; "a@10.0.0.7:1667"; "b@10.0.0.7:1667"].
Proof.
  assert (Hos : owners_of (db demo3) "h" = ["a@10.0.0.7:1667"; "a@10.0.0.7:1667"; "b@10.0.0.7:1667"])
    by (vm_compute; reflexivity).
  pose proof (Bolt_GetOwners_answers demo_owner demo3 table3 "h" demo3_holds eq_refl) as H.
  rewrite Hos in H. apply H. by repeat constructor.
Defined.

Lemma Bolt_owner_lists_drift_witness :
  ((demo_owner file1 ∈ owners_of (db demo1_changed) "h") /\
   exists S', holds demo_owner demo1_changed S' /\ ~ FileTable.owns demo_owner S' "h" (demo_owner file1)) /\
  ((demo_owner file1 ∉ owners_of (db demo2_deleted) "h") /\
   exists S', holds demo_owner demo2_deleted S' /\ FileTable.owns demo_owner S' "h" (demo_owner file1)).
Proof.
  assert (Hos1 : owners_of (db demo1) "h" = ["a@10.0.0.7:1667"]) by (vm_compute; reflexivity).
  assert (Hos2 : owners_of (db demo2) "h" = ["a@10.0.0.7:1667"; "a@10.0.0.7:1667"]) by (vm_compute; reflexivity).
  split.
  - refine (proj1 (Bolt_owner_lists_drift demo_owner demo1 table1 file1 (info "h") demo1_changed
      demo1_holds _ _ _) (info "k") _ _ _ _).
    + by split.
    + reflexivity.
    + change (demo_owner file1 ∈ owners_of (db demo1) "h"). rewrite Hos1. by left.
    + discriminate.
    + reflexivity.
    + intros q g Hq _ _. rewrite FileTable.lookup_set in Hq. by case_decide.
    + apply (after_run demo1 file1). vm_compute. reflexivity.
  - refine (proj2 (Bolt_owner_lists_drift demo_owner demo2 table2 file1 (info "h") demo2_deleted
      demo2_holds _ _ _) file2 (info "h") _ _ _ _ _ _).
    + by split.
    + reflexivity.
    + change (demo_owner file1 ∈ owners_of (db demo2) "h"). rewrite Hos2. by left.
    + discriminate.
    + reflexivity.
    + reflexivity.
    + reflexivity.
    + change (Forall (fun x => x <> "") (owners_of (db demo2) "h")). rewrite Hos2. by repeat constructor.
    + apply (after_run demo2 file1). vm_compute. reflexivity.
Defined.

End demo.
End BoltTheorems.
