(* ===== verification/DatabaseSqlite.v ===== *)
(** * The SQLite database of the master ([database_sqlite.go], build tag sqlite)

The engine behind [database/sql] is a parameter: [SqlEngine] has the calls that
the code makes, one statement of [statement] for each prepared one, and
[SqlLaws] what the SQL says. The methods hold [dbLock] while they run, so each
is one step. [dirCache] is the directories by name, or nil; a value of the map
is never nil, so an absent key is one that reads as nil. *)

From S2P Require Import Prelude GoStrings Types.

Module Sqlite.

(** The statements that write: [stmtAddFile], [stmtDeleteFile] and
[stmtDisconnect] with their arguments. *)
Inductive statement :=
  | stmtAddFile (directory file : string) (size mtime : Z) (hash peer : string)
  | stmtDeleteFile (directory file peer : string)
  | stmtDisconnect (peer : string).

(** The rows of a query: what [Next] and [Scan] give one after the other, and
[rows.Err()] after them. *)
Record Rows (A : Type) := mkRows {
  scanned : list (error + A);
  rows_Err : option error;
}.
Arguments mkRows {A}.
Arguments scanned {A}.
Arguments rows_Err {A}.

Class SqlEngine := {
  sqldb : Type;
  (** [db.Exec] and [db.Prepare] of a text. *)
  Exec_text : sqldb -> string -> sqldb * option error;
  Prepare : sqldb -> string -> option error;
  Begin : sqldb -> sqldb * option error;
  Commit : sqldb -> sqldb * option error;
  Exec : sqldb -> statement -> sqldb * option error;
  Query_GetOwners : sqldb -> string -> error + Rows string;
  Query_GetDir : sqldb -> string -> error + Rows (string * Z * Z * string);
  Query_GetAllDirs : sqldb -> error + Rows string;
}.

Definition schema : string := "
DROP TABLE IF EXISTS fs;
CREATE TABLE fs (
	directory VARCHAR(255) NOT NULL,
	file VARCHAR(255) NOT NULL,
	size INT NOT NULL,
	mtime INT NOT NULL,
	hash VARCHAR(40) NOT NULL,
	peer VARCHAR(64) NOT NULL,
	PRIMARY KEY(directory, file, peer)
);
CREATE INDEX idx_directory ON fs (directory);
CREATE INDEX idx_hash ON fs (hash);
	".

(** The texts that [newDatabase] executes, and those that it prepares. *)
Definition setup_texts : list string := [
  schema;
  "PRAGMA synchronous = OFF";
  "PRAGMA journal_mode = OFF";
  "PRAGMA locking_mode=EXCLUSIVE"].

Definition prepared_texts : list string := [
  "INSERT INTO fs (directory, file, size, mtime, hash, peer) VALUES (?, ?, ?, ?, ?, ?)";
  "DELETE FROM fs WHERE directory = ? AND file = ? AND peer = ?";
  "DELETE FROM fs WHERE peer = ?";
  "SELECT DISTINCT peer FROM fs WHERE hash = ?";
  "SELECT file, size, mtime, hash FROM fs WHERE directory = ? GROUP BY file";
  "SELECT DISTINCT directory FROM fs"].

(** A nanosecond count as [time.Unix] and [Time.Unix] see it. *)
Definition second : Z := 10 ^ 9.
Definition Unix (mtime : Z) : Z := mtime `div` second.
Definition time_Unix (sec : Z) : Z := sec * second.

Section database.
Context {E : SqlEngine}.

(** The loop of [rows.Next] and [rows.Scan] that gives up at the first error,
and the check of [rows.Err]. *)
Fixpoint scan_loop {A} (l : list (error + A)) : error + list A :=
  match l with
  | [] => inr []
  | inl e :: _ => inl e
  | inr a :: l' => match scan_loop l' with inl e => inl e | inr r => inr (a :: r) end
  end.

Definition scan_all {A} (r : Rows A) : error + list A :=
  match scan_loop (scanned r) with
  | inl e => inl e
  | inr l => match rows_Err r with Some e => inl e | None => inr l end
  end.

(** ** The database *)

Abbreviation dir_cache := (gmap string (list string)).

Record Database := mkDatabase {
  db : sqldb;
  dirCache : option dir_cache;
}.

Fixpoint exec_texts (s : sqldb) (texts : list string) : error + sqldb :=
  match texts with
  | [] => inr s
  | t :: texts' =>
      match Exec_text s t with
      | (_, Some e) => inl e
      | (s, None) => exec_texts s texts'
      end
  end.

Fixpoint prepare_texts (s : sqldb) (texts : list string) : option error :=
  match texts with
  | [] => None
  | t :: texts' => match Prepare s t with Some e => Some e | None => prepare_texts s texts' end
  end.

(** [newDatabase] once the old file is removed: [opened] is the answer of
[sql.Open]. *)
Definition newDatabase (opened : error + sqldb) : error + Database :=
  match opened with
  | inl e => inl e
  | inr s =>
      match exec_texts s setup_texts with
      | inl e => inl e
      | inr s =>
          match prepare_texts s prepared_texts with
          | Some e => inl e
          | None => inr (mkDatabase s None)
          end
      end
  end.

(** *** SetFile *)

(** [for s := len(fnEx) - 1; s > 0; s-- { ... }] *)
Fixpoint cache_parents (fnEx : list string) (s : nat) (c : dir_cache) : outcome dir_cache :=
  match s with
  | O => Done c
  | S s' =>
      dirs ← go_slice fnEx 0 (Z.of_nat s);
      if decide (is_Some (c !! strings.Join dirs "/")) then Done c
      else
        pdirs ← go_slice fnEx 0 (Z.of_nat s');
        f ← go_index fnEx (Z.of_nat s');
        let pdn := strings.Join pdirs "/" in
        cache_parents fnEx s' (<[pdn := default [] (c !! pdn) ++ [f]]> c)
  end.

(** The cache after the publication of a file in [dn]. *)
Definition cache_publish (fnEx : list string) (dn : string) (oc : option dir_cache)
    : outcome (option dir_cache) :=
  match oc with
  | None => Done None
  | Some c =>
      if decide (is_Some (c !! dn)) then Done (Some c)
      else
        c ← cache_parents fnEx (length fnEx - 1) c;
        Done (Some (<[dn := []]> c))
  end.

Definition invalidateDirCache (d : Database) : Database := mkDatabase (db d) None.

(** An error returns with the transaction as it is. *)
Definition SetFile (d : Database) (fnEx : list string) (fi : option FileInfo) (owner : string)
    : outcome (Database * option error) :=
  let '(s, err) := Begin (db d) in
  let d := mkDatabase s (dirCache d) in
  match err with
  | Some e => Done (d, Some e)
  | None =>
      dirs ← go_slice fnEx 0 (len fnEx - 1);
      let dn := strings.Join dirs "/" in
      f ← go_index fnEx (len fnEx - 1);
      let '(s, err) := Exec (db d) (stmtDeleteFile dn f owner) in
      let d := mkDatabase s (dirCache d) in
      match err with
      | Some e => Done (d, Some e)
      | None =>
          let commit (d : Database) :=
            let '(s, err) := Commit (db d) in (mkDatabase s (dirCache d), err) in
          match fi with
          | Some fi =>
              let '(s, err) := Exec (db d)
                (stmtAddFile dn f (Size fi) (Unix (Mtime fi)) (Hash fi) owner) in
              let d := mkDatabase s (dirCache d) in
              match err with
              | Some e => Done (d, Some e)
              | None =>
                  c ← cache_publish fnEx dn (dirCache d);
                  Done (commit (mkDatabase (db d) c))
              end
          | None => Done (commit (invalidateDirCache d))
          end
      end
  end.

Definition PeerDisconnected (d : Database) (owner : string) : Database * option error :=
  let '(s, err) := Exec (db d) (stmtDisconnect owner) in
  (invalidateDirCache (mkDatabase s (dirCache d)), err).

(** *** Queries *)

Definition GetOwners (d : Database) (hash : string) : list string * option error :=
  match Query_GetOwners (db d) hash with
  | inl e => ([], Some e)
  | inr rows => match scan_all rows with inl e => ([], Some e) | inr l => (l, None) end
  end.

(** [for s := len(ex) - 1; s >= 0; s-- { ... }] for one directory: from its last
part up to the first one that is already listed. *)
Fixpoint list_parents (ex : list string) (n : nat) (c : dir_cache) : outcome dir_cache :=
  match n with
  | O => Done c
  | S s =>
      dirs ← go_slice ex 0 (Z.of_nat s);
      let dn := strings.Join dirs "/" in
      f ← go_index ex (Z.of_nat s);
      if decide (f ∈ default [] (c !! dn)) then Done c
      else list_parents ex s (<[dn := default [] (c !! dn) ++ [f]]> c)
  end.

(** The loop over the rows: the cache so far is kept when it stops. *)
Fixpoint list_dirs (l : list (error + string)) (c : dir_cache) : outcome (dir_cache * option error) :=
  match l with
  | [] => Done (c, None)
  | inl e :: _ => Done (c, Some e)
  | inr dir :: l' =>
      let ex := strings.Split dir "/" in
      c ← list_parents ex (length ex) c;
      list_dirs l' c
  end.

Definition updateDirCache (d : Database) : outcome (Database * option error) :=
  match Query_GetAllDirs (db d) with
  | inl e => Done (d, Some e)
  | inr rows =>
      '(c, err) ← list_dirs (scanned rows) ∅;
      Done (mkDatabase (db d) (Some c),
            match err with Some e => Some e | None => rows_Err rows end)
  end.

Definition row_info (r : string * Z * Z * string) : string * FileInfo :=
  let '(file, size, mtime, hash) := r in (file, mkFileInfo size hash (time_Unix mtime)).

(** The error of [updateDirCache] is dropped. *)
Definition GetDir (d : Database) (dir : string)
    : outcome (Database * option (gmap string FileInfo * list string) * option error) :=
  d ← match dirCache d with
      | None => '(d, _) ← updateDirCache d; Done d
      | Some _ => Done d
      end;
  let dirs := default [] (default ∅ (dirCache d) !! dir) in
  match Query_GetDir (db d) dir with
  | inl e => Done (d, None, Some e)
  | inr rows =>
      match scan_all rows with
      | inl e => Done (d, None, Some e)
      | inr l => Done (d, Some (foldl (fun m r => <[(row_info r).1 := (row_info r).2]> m) ∅ l, dirs), None)
      end
  end.

End database.

(** ** What the SQL says

The table [fs], by its primary key: size, mtime and hash of every row. *)

Abbreviation fs_table := (gmap (string * string * string) (Z * Z * string)).

Class SqlLaws (E : SqlEngine) := {
  fs : sqldb -> fs_table;

  Begin_fs s s' : Begin s = (s', None) -> fs s' = fs s;
  Commit_fs s s' : Commit s = (s', None) -> fs s' = fs s;
  AddFile_fs s dn f size mtime hash peer s' :
    Exec s (stmtAddFile dn f size mtime hash peer) = (s', None) ->
    fs s' = <[(dn, f, peer) := (size, mtime, hash)]> (fs s);
  DeleteFile_fs s dn f peer s' :
    Exec s (stmtDeleteFile dn f peer) = (s', None) -> fs s' = delete (dn, f, peer) (fs s);
  Disconnect_fs s peer s' :
    Exec s (stmtDisconnect peer) = (s', None) ->
    fs s' = filter (fun r : (string * string * string) * (Z * Z * string) => r.1.2 <> peer) (fs s);

  GetOwners_rows s hash rows l :
    Query_GetOwners s hash = inr rows -> scan_all rows = inr l ->
    NoDup l /\
    forall o, o ∈ l <-> exists dn f size mtime, fs s !! (dn, f, o) = Some (size, mtime, hash);
  (** [GROUP BY file]: one row of every file of the directory. *)
  GetDir_rows s dir rows l :
    Query_GetDir s dir = inr rows -> scan_all rows = inr l ->
    (forall f size mtime hash, (f, size, mtime, hash) ∈ l ->
       exists o, fs s !! (dir, f, o) = Some (size, mtime, hash)) /\
    (forall f o r, fs s !! (dir, f, o) = Some r ->
       exists size mtime hash, (f, size, mtime, hash) ∈ l);
  GetAllDirs_rows s rows l :
    Query_GetAllDirs s = inr rows -> scan_all rows = inr l ->
    forall dir, dir ∈ l <-> exists f o, is_Some (fs s !! (dir, f, o));
}.

(** An engine that fails no statement but the insertion of a key that is
there. *)
Class SqlReliable (E : SqlEngine) (L : SqlLaws E) := {
  Begin_ok s : (Begin s).2 = None;
  Commit_ok s : (Commit s).2 = None;
  AddFile_ok s dn f size mtime hash peer :
    fs s !! (dn, f, peer) = None -> (Exec s (stmtAddFile dn f size mtime hash peer)).2 = None;
  DeleteFile_ok s dn f peer : (Exec s (stmtDeleteFile dn f peer)).2 = None;
  Disconnect_ok s peer : (Exec s (stmtDisconnect peer)).2 = None;
  GetOwners_ok s hash : exists rows l, Query_GetOwners s hash = inr rows /\ scan_all rows = inr l;
  GetDir_ok s dir : exists rows l, Query_GetDir s dir = inr rows /\ scan_all rows = inr l;
  GetAllDirs_ok s : exists rows l, Query_GetAllDirs s = inr rows /\ scan_all rows = inr l;
}.

End Sqlite.
