(* ===== verification/DatabaseSqliteProofs.v ===== *)
(** * The SQLite database and the table of published files

[holds]: the rows of [fs] are the files of a table, one row each, with the
peer that owns the path; times are kept in whole seconds. *)

From S2P Require Import Prelude GoStrings Types DatabaseSpec DatabaseSqlite.
Import Sqlite.

Module SqliteProofs.

(** What a row keeps of an info. *)
Definition row_of (f : FileInfo) : Z * Z * string := (Size f, Unix (Mtime f), Hash f).
Definition stored (f : FileInfo) : FileInfo := mkFileInfo (Size f) (Hash f) (time_Unix (Unix (Mtime f))).

Lemma Unix_time_Unix t : Unix (time_Unix t) = t.
Proof. unfold Unix, time_Unix. by apply Z.div_mul. Qed.

Lemma row_of_stored f : row_of (stored f) = row_of f.
Proof. unfold row_of, stored. simpl. by rewrite Unix_time_Unix. Qed.

Lemma stored_stored f : stored (stored f) = stored f.
Proof. unfold stored. simpl. by rewrite Unix_time_Unix. Qed.

(** A time within the second that is kept is up to a second early. *)
Lemma stored_Mtime f : (Mtime (stored f) <= Mtime f < Mtime (stored f) + second)%Z.
Proof.
  unfold stored, time_Unix, Unix, second. simpl.
  pose proof (Z.mul_div_le (Mtime f) (10 ^ 9) ltac:(lia)).
  pose proof (Z.mod_pos_bound (Mtime f) (10 ^ 9) ltac:(lia)).
  pose proof (Z.div_mod (Mtime f) (10 ^ 9) ltac:(lia)). lia.
Qed.

Lemma Sqlite_fnEx_parts p :
  go_slice (FileTable.fnEx p) 0 (len (FileTable.fnEx p) - 1) = Done p.1 /\
  go_index (FileTable.fnEx p) (len (FileTable.fnEx p) - 1) = Done p.2.
Proof.
  unfold FileTable.fnEx. split; [|apply go_index_last].
  rewrite go_slice_Done; unfold len; rewrite length_app; simpl; [|lia|lia].
  f_equal. rewrite drop_0. replace (Z.to_nat _) with (length p.1) by lia. apply take_app_length.
Qed.

Section proofs.
Context {E : SqlEngine} {L : SqlLaws E}.
Implicit Types (S : FileTable.table) (p : FileTable.path) (d : Database).

(** The primary key of a path. *)
Definition key_of (owner : FileTable.path -> string) p : string * string * string :=
  (strings.Join p.1 "/", p.2, owner p).

Record holds (owner : FileTable.path -> string) d S : Prop := {
  h_row p f : S !! p = Some f -> fs (db d) !! key_of owner p = Some (row_of f) /\ stored f = f;
  h_file k : is_Some (fs (db d) !! k) -> exists p, is_Some (S !! p) /\ k = key_of owner p;
  h_names p : is_Some (S !! p) -> Forall sep_name p.1;
}.

Lemma holds_same_db owner d d' S : db d' = db d -> holds owner d S -> holds owner d' S.
Proof. intros Hdb [H1 H2 H3]. split; [rewrite Hdb; done|rewrite Hdb; done|done]. Qed.

Lemma Sqlite_key_of_inj owner p p' :
  Forall sep_name p.1 -> Forall sep_name p'.1 -> key_of owner p = key_of owner p' -> p = p'.
Proof.
  intros Hp Hp' [= Hdn Hfn _]. destruct p as [dn fn], p' as [dn' fn']. simpl in *.
  f_equal; [by apply Join_sep_inj|done].
Qed.

(** The rows once a path is set. *)
Lemma holds_set owner d s' (c : option (gmap string (list string))) S p fi :
  holds owner d S -> Forall sep_name p.1 ->
  fs s' = match fi with
          | Some f => <[key_of owner p := row_of f]> (delete (key_of owner p) (fs (db d)))
          | None => delete (key_of owner p) (fs (db d))
          end ->
  holds owner (mkDatabase s' c) (FileTable.set S p (stored <$> fi)).
Proof.
  intros [H1 H2 H3] Hp Hfs.
  assert (Hlookup : forall k, fs s' !! k = if decide (k = key_of owner p) then row_of <$> fi else fs (db d) !! k).
  { intros k. rewrite Hfs. destruct fi as [f|]; case_decide as Hk; subst; simpl.
    - by rewrite lookup_insert_eq.
    - by rewrite lookup_insert_ne, lookup_delete_ne by done.
    - by rewrite lookup_delete_eq.
    - by rewrite lookup_delete_ne by done. }
  split; simpl.
  - intros q f. rewrite FileTable.lookup_set, Hlookup. case_decide as Hq.
    + subst q. rewrite decide_True by done. destruct fi as [g|]; simpl; [|done]. intros [= <-].
      by rewrite row_of_stored, stored_stored.
    + intros Hf. rewrite decide_False; [by apply H1|].
      intros Hk. apply Hq. apply (Sqlite_key_of_inj owner); [|done|done]. apply H3. by eexists.
  - intros k. rewrite Hlookup. case_decide as Hk.
    + intros Hfi. exists p. rewrite FileTable.lookup_set, decide_True by done. split; [|done].
      destruct fi; [by eexists|destruct Hfi as [r Hfi]; discriminate Hfi].
    + intros (q & Hq & ->)%H2. exists q. rewrite FileTable.lookup_set, decide_False; [done|].
      by intros ->.
  - intros q. rewrite FileTable.lookup_set. case_decide as Hq; [by subst q|apply H3].
Qed.

(** ** The loops over the parts of a path *)

Lemma go_slice_take (l : list string) (n : nat) : n <= length l -> go_slice l 0 (Z.of_nat n) = Done (take n l).
Proof.
  intros Hn. rewrite go_slice_Done; unfold len; [|lia|lia]. rewrite drop_0. by rewrite Z.sub_0_r, Nat2Z.id.
Qed.

Lemma cache_parents_total fnEx s c : s <= length fnEx -> exists c', cache_parents fnEx s c = Done c'.
Proof.
  revert c. induction s as [|s IH]; intros c Hs; [by eexists|]. cbn [cache_parents].
  rewrite (go_slice_take fnEx (S s)) by lia. cbn [mbind outcome_bind]. case_decide; [by eexists|].
  rewrite (go_slice_take fnEx s) by lia. cbn [mbind outcome_bind].
  destruct (lookup_lt_is_Some_2 fnEx s) as [f Hf]; [lia|].
  rewrite (go_index_lookup _ _ _ Hf). cbn [mbind outcome_bind]. apply IH. lia.
Qed.

Lemma cache_publish_total fnEx dn oc : exists oc', cache_publish fnEx dn oc = Done oc'.
Proof.
  unfold cache_publish. destruct oc as [c|]; [|by eexists]. case_decide; [by eexists|].
  destruct (cache_parents_total fnEx (length fnEx - 1) c) as [c' ->]; [lia|]. by eexists.
Qed.

Lemma list_parents_total ex n c : n <= length ex -> exists c', list_parents ex n c = Done c'.
Proof.
  revert c. induction n as [|n IH]; intros c Hn; [by eexists|]. cbn [list_parents].
  rewrite go_slice_take by lia. cbn [mbind outcome_bind].
  destruct (lookup_lt_is_Some_2 ex n) as [f Hf]; [lia|].
  rewrite (go_index_lookup _ _ _ Hf). cbn [mbind outcome_bind]. case_decide; [by eexists|].
  apply IH. lia.
Qed.

Lemma list_dirs_total (l : list (error + string)) c : exists c' e, list_dirs l c = Done (c', e).
Proof.
  revert c. induction l as [|[e|dir] l IH]; intros c; [by eexists _, _..|]. cbn [list_dirs].
  destruct (list_parents_total (strings.Split dir "/") (length (strings.Split dir "/")) c) as [c1 Hc1]; [done|].
  rewrite Hc1. cbn [mbind outcome_bind]. apply IH.
Qed.

Lemma updateDirCache_total d : exists d' e, updateDirCache d = Done (d', e) /\ db d' = db d.
Proof.
  unfold updateDirCache. destruct (Query_GetAllDirs (db d)) as [e|rows]; [by eexists _, _|].
  destruct (list_dirs_total (scanned rows) ∅) as (c & e & ->). simpl. by eexists _, _.
Qed.

Lemma scan_loop_inr {A} (l : list (error + A)) r : scan_loop l = inr r -> l = inr <$> r.
Proof.
  revert r. induction l as [|[e|a] l IH]; intros r; simpl; [by intros [= <-]|done|].
  destruct (scan_loop l) as [e|r']; [done|]. intros [= <-]. simpl. f_equal. by apply IH.
Qed.

Lemma scan_all_inr {A} (rows : Rows A) l :
  scan_all rows = inr l -> scanned rows = inr <$> l /\ rows_Err rows = None.
Proof.
  unfold scan_all. destruct (scan_loop (scanned rows)) as [|r] eqn:Hs; [done|].
  destruct (rows_Err rows); [done|]. intros [= <-]. by apply scan_loop_inr in Hs.
Qed.

(** ** The methods, on an engine that does not fail *)

Section reliable.
Context {R : SqlReliable E L}.

Lemma Begin_run s : exists s', Begin s = (s', None) /\ fs s' = fs s.
Proof.
  pose proof (Begin_ok s) as Hok. destruct (Begin s) as [s' e] eqn:Hb. simpl in Hok. subst e.
  exists s'. split; [done|]. by apply Begin_fs.
Qed.

Lemma Commit_run s : exists s', Commit s = (s', None) /\ fs s' = fs s.
Proof.
  pose proof (Commit_ok s) as Hok. destruct (Commit s) as [s' e] eqn:Hb. simpl in Hok. subst e.
  exists s'. split; [done|]. by apply Commit_fs.
Qed.

Lemma DeleteFile_run s dn f o :
  exists s', Exec s (stmtDeleteFile dn f o) = (s', None) /\ fs s' = delete (dn, f, o) (fs s).
Proof.
  pose proof (DeleteFile_ok s dn f o) as Hok.
  destruct (Exec s _) as [s' e] eqn:Hb. simpl in Hok. subst e.
  exists s'. split; [done|]. by apply DeleteFile_fs.
Qed.

Lemma AddFile_run s dn f size mtime hash o :
  fs s !! (dn, f, o) = None ->
  exists s', Exec s (stmtAddFile dn f size mtime hash o) = (s', None) /\
    fs s' = <[(dn, f, o) := (size, mtime, hash)]> (fs s).
Proof.
  intros Hnone. pose proof (AddFile_ok s dn f size mtime hash o Hnone) as Hok.
  destruct (Exec s _) as [s' e] eqn:Hb. simpl in Hok. subst e.
  exists s'. split; [done|]. by apply AddFile_fs.
Qed.

Lemma Sqlite_SetFile_run owner d S p fi :
  holds owner d S -> Forall sep_name p.1 ->
  exists d', SetFile d (FileTable.fnEx p) fi (owner p) = Done (d', None) /\
    holds owner d' (FileTable.set S p (stored <$> fi)) /\
    match fi with
    | Some _ => cache_publish (FileTable.fnEx p) (strings.Join p.1 "/") (dirCache d) = Done (dirCache d')
    | None => dirCache d' = None
    end.
Proof.
  intros HR Hp. destruct (Sqlite_fnEx_parts p) as [Hd Hf].
  destruct (Begin_run (db d)) as (s1 & H1 & Hfs1).
  destruct (DeleteFile_run s1 (strings.Join p.1 "/") p.2 (owner p)) as (s2 & H2 & Hfs2).
  unfold SetFile. rewrite H1, Hd. cbn [mbind outcome_bind]. rewrite Hf. cbn [mbind outcome_bind db dirCache].
  rewrite H2. destruct fi as [fi|]; cbn [db dirCache].
  - destruct (AddFile_run s2 (strings.Join p.1 "/") p.2 (Size fi) (Unix (Mtime fi)) (Hash fi) (owner p))
      as (s3 & H3 & Hfs3); [by rewrite Hfs2, lookup_delete_eq|].
    rewrite H3. cbn [db dirCache].
    destruct (cache_publish_total (FileTable.fnEx p) (strings.Join p.1 "/") (dirCache d)) as [oc Hoc].
    rewrite Hoc. cbn [mbind outcome_bind db dirCache].
    destruct (Commit_run s3) as (s4 & -> & Hfs4). eexists. split; [done|]. split; [|done].
    apply (holds_set owner d s4 oc S p (Some fi)); [done|done|].
    rewrite Hfs4, Hfs3, Hfs2, Hfs1. done.
  - destruct (Commit_run s2) as (s4 & H4 & Hfs4).
    unfold invalidateDirCache. cbn [db]. rewrite H4. eexists. split; [done|]. split; [|done].
    apply (holds_set owner d s4 None S p None); [done|done|]. rewrite Hfs4, Hfs2, Hfs1. done.
Qed.

Lemma Sqlite_PeerDisconnected_run owner d S o :
  holds owner d S ->
  exists d', PeerDisconnected d o = (d', None) /\ dirCache d' = None /\
    holds owner d' (FileTable.without owner S o).
Proof.
  intros [H1 H2 H3]. unfold PeerDisconnected. pose proof (Disconnect_ok (db d) o) as Hok.
  destruct (Exec (db d) (stmtDisconnect o)) as [s' e] eqn:Hrun. simpl in Hok. subst e.
  apply Disconnect_fs in Hrun. eexists. split; [done|]. split; [done|].
  unfold FileTable.without. split; simpl.
  - intros p f [Hf Ho]%map_lookup_filter_Some. simpl in Ho. rewrite Hrun.
    destruct (H1 p f Hf) as [Hrow Hst]. split; [|done]. by apply map_lookup_filter_Some.
  - intros k [r Hr]. rewrite Hrun in Hr. apply map_lookup_filter_Some in Hr as [Hr Ho]. simpl in Ho.
    destruct (H2 k) as (p & [f Hf] & ->); [by eexists|]. exists p. split; [|done].
    exists f. by apply map_lookup_filter_Some.
  - intros p [f Hf]. apply H3. apply map_lookup_filter_Some in Hf as [Hf _]. by eexists.
Qed.

Lemma GetOwners_run owner d S h :
  holds owner d S ->
  exists os, GetOwners d h = (os, None) /\ NoDup os /\ forall o, o ∈ os <-> FileTable.owns owner S h o.
Proof.
  intros [H1 H2 H3]. destruct (GetOwners_ok (db d) h) as (rows & l & Hq & Hl).
  destruct (GetOwners_rows _ _ _ _ Hq Hl) as [Hnd Hin].
  unfold GetOwners. rewrite Hq, Hl. exists l. split; [done|]. split; [done|].
  intros o. rewrite Hin. split.
  - intros (dn & f & size & mtime & Hrow). destruct (H2 (dn, f, o)) as (p & [g Hg] & Hk); [by eexists|].
    destruct (H1 p g Hg) as [Hrow' _]. rewrite <-Hk, Hrow in Hrow'. injection Hrow' as -> -> ->.
    injection Hk as _ _ ->. by exists p, g.
  - intros (p & g & Hg & <- & <-). destruct (H1 p g Hg) as [Hrow _]. unfold key_of, row_of in Hrow. eauto.
Qed.

(** The files that the rows of a directory give. *)
Lemma files_of_rows S dn (l : list (string * Z * Z * string)) (m : gmap string FileInfo) fn :
  (forall r, r ∈ l -> S !! (dn, (row_info r).1) = Some (row_info r).2) ->
  foldl (fun m r => <[(row_info r).1 := (row_info r).2]> m) m l !! fn =
    if decide (fn ∈ (fun r => (row_info r).1) <$> l) then S !! (dn, fn) else m !! fn.
Proof.
  revert m. induction l as [|r l IH]; intros m Hl; cbn [foldl fmap list_fmap].
  - rewrite decide_False; [done|apply not_elem_of_nil].
  - rewrite IH by (intros r' Hr'; apply Hl; by right).
    destruct (decide (fn ∈ (fun r => (row_info r).1) <$> l)) as [Hin|Hin].
    + rewrite decide_True; [done|by right].
    + destruct (decide ((row_info r).1 = fn)) as [<-|Hne].
      * rewrite decide_True by (by left). rewrite lookup_insert_eq. symmetry. apply Hl. by left.
      * rewrite lookup_insert_ne by done. rewrite decide_False; [done|].
        intros [?|?]%elem_of_cons; [by symmetry in H|done].
Qed.

Lemma Sqlite_GetDir_run owner d S dn :
  holds owner d S -> Forall sep_name dn ->
  exists d' files, GetDir d (strings.Join dn "/") =
      Done (d', Some (files, default [] (default ∅ (dirCache d') !! strings.Join dn "/")), None) /\
    holds owner d' S /\ FileTable.lists S dn files /\
    match dirCache d with
    | None => exists e, updateDirCache d = Done (d', e)
    | Some _ => d' = d
    end.
Proof.
  intros HR Hdn. unfold GetDir.
  assert (exists d', match dirCache d with
                     | None => '(d, _) ← updateDirCache d; Done d
                     | Some _ => Done d
                     end = Done d' /\ db d' = db d /\
    match dirCache d with
    | None => exists e, updateDirCache d = Done (d', e)
    | Some _ => d' = d
    end) as (d' & -> & Hdb & Hc).
  { destruct (dirCache d); [by exists d|].
    destruct (updateDirCache_total d) as (d' & e & -> & Hdb). exists d'. simpl. eauto. }
  cbn [mbind outcome_bind].
  destruct (GetDir_ok (db d') (strings.Join dn "/")) as (rows & l & Hq & Hl).
  destruct (GetDir_rows _ _ _ _ Hq Hl) as [Hsound Hfull]. rewrite Hq, Hl.
  eexists _, _. split; [done|]. split; [by apply (holds_same_db owner d)|]. split; [|done].
  pose proof HR as [H1 H2 H3]. intros fn. rewrite (files_of_rows S dn).
  - case_decide as Hin; [done|]. rewrite lookup_empty. symmetry. apply eq_None_not_Some. intros [f Hf].
    destruct (H1 _ _ Hf) as [Hrow _]. rewrite <-Hdb in Hrow.
    destruct (Hfull _ _ _ Hrow) as (size & mtime & hash & Hr). apply Hin, list_elem_of_fmap.
    by exists (fn, size, mtime, hash).
  - intros [[[f size] mtime] hash] Hr. simpl. destruct (Hsound _ _ _ _ Hr) as [o Hrow].
    rewrite Hdb in Hrow. destruct (H2 _ ltac:(by eexists)) as ([q g] & [i Hi] & Hk).
    injection Hk as Hdir -> ->.
    assert (dn = q) as <- by (apply Join_sep_inj; [done|apply (H3 (q, g)); by eexists|done]).
    destruct (H1 _ _ Hi) as [Hrow' Hst]. unfold key_of in Hrow'. simpl in Hrow'.
    rewrite Hrow in Hrow'. injection Hrow' as -> -> ->. rewrite Hi. f_equal.
    symmetry. exact Hst.
Qed.
End reliable.

Lemma GetDir_db d dir d' r e : GetDir d dir = Done (d', r, e) -> db d' = db d.
Proof.
  unfold GetDir. intros Hrun.
  assert (exists d1, match dirCache d with
                     | None => '(d, _) ← updateDirCache d; Done d
                     | Some _ => Done d
                     end = Done d1 /\ db d1 = db d) as (d1 & Hd1 & Hdb).
  { destruct (dirCache d); [by exists d|].
    destruct (updateDirCache_total d) as (d1 & e1 & -> & Hdb). simpl. eauto. }
  rewrite Hd1 in Hrun. cbn [mbind outcome_bind] in Hrun.
  destruct (Query_GetDir (db d1) dir) as [|rows]; [by injection Hrun as <- _ _|].
  destruct (scan_all rows); by injection Hrun as <- _ _.
Qed.

End proofs.
End SqliteProofs.
