(* ===== verification/DatabaseSqliteCache.v ===== *)
(** * The directory cache of the SQLite database

What [updateDirCache] makes of the table, and what publications do to it. *)

From S2P Require Import Prelude GoStrings Types DatabaseSpec DatabaseSqlite DatabaseSqliteProofs.
Import Sqlite SqliteProofs.

Module SqliteCache.

Abbreviation dir_cache := (gmap string (list string)).
Implicit Types (S : FileTable.table) (q ex : list string) (c : dir_cache) (T K : list string -> Prop).

(** The subdirectories that the cache has for the directory [q]. *)
Definition listed c q : list string := default [] (c !! strings.Join q "/").

(** The cache lists exactly the directories of [T], each once, and knows no
directory outside [K]. *)
Record lists_dirs T K c : Prop := {
  ld_dirs q x : Forall sep_name q -> x ∈ listed c q <-> T (q ++ [x]);
  ld_known q : Forall sep_name q -> is_Some (c !! strings.Join q "/") -> K q;
  ld_NoDup q : NoDup (listed c q);
}.

Lemma lists_dirs_ext T T' K K' c :
  (forall q x, T (q ++ [x]) <-> T' (q ++ [x])) -> (forall q, K q -> K' q) ->
  lists_dirs T K c -> lists_dirs T' K' c.
Proof.
  intros HT HK [H1 H2 H3]. split; [|by auto|done]. intros q x Hq. by rewrite H1, HT.
Qed.

Lemma lookup_dir_insert c q q' l :
  Forall sep_name q -> Forall sep_name q' ->
  <[strings.Join q "/" := l]> c !! strings.Join q' "/" =
    if decide (q' = q) then Some l else c !! strings.Join q' "/".
Proof.
  intros Hq Hq'. case_decide as Heq; [subst q'; apply lookup_insert_eq|].
  apply lookup_insert_ne. intros Hj. by apply Heq, Join_sep_inj.
Qed.

(** ** Rebuilding the cache *)

Lemma take_S_snoc ex n f : ex !! n = Some f -> take (S n) ex = take n ex ++ [f].
Proof. apply take_S_r. Qed.

(** A prefix one longer than another is that one with the next part. *)
Lemma prefix_take_next q ex n x f :
  ex !! n = Some f -> q ++ [x] `prefix_of` ex -> length (q ++ [x]) = S n -> q = take n ex /\ x = f.
Proof.
  intros Hf [r ->] Hlen. rewrite length_app in Hlen. simpl in Hlen.
  assert (n = length q) as -> by lia. rewrite <-app_assoc in Hf |- *.
  rewrite take_app_length. split; [done|]. simpl in Hf.
  rewrite list_lookup_middle in Hf by done. congruence.
Qed.

Lemma list_parents_lists T ex n c c' :
  Forall sep_name ex -> n <= length ex ->
  (forall q q', T q -> q' `prefix_of` q -> q' <> [] -> T q') ->
  lists_dirs (fun q => T q \/ (q `prefix_of` ex /\ n < length q))
    (fun q => q = [] \/ T q \/ q `prefix_of` ex) c ->
  list_parents ex n c = Done c' ->
  lists_dirs (fun q => T q \/ q `prefix_of` ex) (fun q => q = [] \/ T q \/ q `prefix_of` ex) c'.
Proof.
  intros Hex Hn HT. revert c Hn. induction n as [|n IH]; intros c Hn HL Hrun.
  - injection Hrun as <-. refine (lists_dirs_ext _ _ _ _ _ _ _ HL); [|done]. intros q x. simpl.
    rewrite length_app. simpl. naive_solver lia.
  - cbn [list_parents] in Hrun.
    rewrite (go_slice_take ex n) in Hrun by lia. cbn [mbind outcome_bind] in Hrun.
    destruct (lookup_lt_is_Some_2 ex n) as [f Hf]; [lia|].
    rewrite (go_index_lookup _ _ _ Hf) in Hrun. cbn [mbind outcome_bind] in Hrun.
    assert (Hq0 : Forall sep_name (take n ex)) by (by apply Forall_take).
    assert (Hlen : length (take n ex ++ [f]) = S n) by (rewrite length_app, length_take; simpl; lia).
    assert (Hpre : take n ex ++ [f] `prefix_of` ex).
    { rewrite <-(take_S_snoc ex n f Hf). exists (drop (S n) ex). by rewrite take_drop. }
    case_decide as Hin.
    + injection Hrun as <-. apply (ld_dirs _ _ _ HL _ _ Hq0) in Hin as [Hin|[_ Hlt]]; [|lia].
      refine (lists_dirs_ext _ _ _ _ _ _ _ HL); [|done]. intros q x. simpl. split; [naive_solver|].
      intros [?|Hp]; [by left|]. destruct (decide (S n < length (q ++ [x]))) as [?|Hle]; [by right|].
      left. apply (HT (take n ex ++ [f])); [done| |by destruct q].
      destruct Hp as [r Hr]. rewrite <-(take_S_snoc ex n f Hf), Hr, take_app_ge by lia.
      by eexists.
    + apply IH in Hrun; [done|lia|]. destruct HL as [H1 H2 H3]. split.
      * intros q x Hq. unfold listed. rewrite lookup_dir_insert by done.
        case_decide as Hqe; [subst q; cbn [default from_option id]|].
        -- rewrite elem_of_app, list_elem_of_singleton. unfold listed in H1. rewrite (H1 _ x Hq0). split.
           ++ intros [[?|[? ?]]| ->]; [by left|right; split; [done|lia]|]. right. split; [done|lia].
           ++ intros [?|[Hp Hl]]; [by left; left|].
              destruct (decide (length (take n ex ++ [x]) = S n)) as [He|He].
              ** right. by destruct (prefix_take_next _ _ _ _ _ Hf Hp He) as [_ Hxf].
              ** left. right. split; [done|lia].
        -- rewrite (H1 q x Hq). split; [intros [?|[? ?]]; [by left|right; split; [done|lia]]|]. intros [?|[Hp Hl]]; [by left|].
           destruct (decide (length (q ++ [x]) = S n)) as [He|He]; [|right; split; [done|lia]].
           by destruct (prefix_take_next _ _ _ _ _ Hf Hp He) as [? _].
      * intros q Hq. rewrite lookup_dir_insert by done. case_decide as Hqe; [|by apply H2].
        intros _. right. right. subst q. exists (drop n ex). by rewrite take_drop.
      * intros q. unfold listed. destruct (decide (strings.Join q "/" = strings.Join (take n ex) "/")) as [->|Hqe].
        -- rewrite lookup_insert_eq. cbn [default from_option id]. apply NoDup_app. split; [apply H3|].
           split; [|apply NoDup_singleton]. intros x Hx Hxf. apply list_elem_of_singleton in Hxf as ->. done.
        -- rewrite lookup_insert_ne by done. apply H3.
Qed.

Lemma list_dirs_lists T (l : list string) c c' e :
  (forall dir, dir ∈ l -> exists q, Forall sep_name q /\ q <> [] /\ dir = strings.Join q "/") ->
  (forall q q', T q -> q' `prefix_of` q -> q' <> [] -> T q') ->
  lists_dirs T (fun q => q = [] \/ T q) c ->
  list_dirs (inr <$> l) c = Done (c', e) ->
  e = None /\
  lists_dirs (fun q => T q \/ exists q', Forall sep_name q' /\ strings.Join q' "/" ∈ l /\ q `prefix_of` q')
    (fun q => q = [] \/ T q \/ exists q', Forall sep_name q' /\ strings.Join q' "/" ∈ l /\ q `prefix_of` q') c'.
Proof.
  revert T c. induction l as [|dir l IH]; intros T c Hl HT HL; cbn [fmap list_fmap list_dirs].
  - intros [= <- <-]. split; [done|]. refine (lists_dirs_ext _ _ _ _ _ _ _ HL); [|naive_solver].
    intros q x. split; [by left|]. intros [?|(? & _ & ?%not_elem_of_nil & _)]; done.
  - destruct (Hl dir) as (ex & Hex & Hne & ->); [by left|].
    assert (strings.Split (strings.Join ex "/") "/" = ex) as ->.
    { pose proof (sep_parts ex Hex) as Hs. rewrite decide_False in Hs; [done|by apply Join_sep_not_empty]. }
    destruct (list_parents_total ex (length ex) c) as [c1 Hc1]; [done|].
    rewrite Hc1. cbn [mbind outcome_bind]. intros Hrun.
    apply (list_parents_lists T) in Hc1; [|done|done|done|].
    2:{ refine (lists_dirs_ext _ _ _ _ _ _ _ HL); [|naive_solver]. intros q x. split; [by left|].
        intros [?|[Hp%prefix_length Hlt]]; [done|lia]. }
    apply (IH (fun q => T q \/ q `prefix_of` ex)) in Hrun as [-> HL'].
    + split; [done|]. refine (lists_dirs_ext _ _ _ _ _ _ _ HL').
      * intros q x. split.
        -- intros [[?|Hp]|(q' & ? & ? & ?)]; [by left| |].
           ++ right. exists ex. split; [done|]. split; [by left|done].
           ++ right. exists q'. split; [done|]. split; [by right|done].
        -- intros [?|(q' & Hq' & [Hj|Hin]%elem_of_cons & Hp)]; [by left; left| |].
           ++ left. right. apply Join_sep_inj in Hj as <-; done.
           ++ right. by exists q'.
      * intros q [?|[[?|Hp]|(q' & ? & ? & ?)]]; [by left|by right; left| |].
        -- right. right. exists ex. split; [done|]. split; [by left|done].
        -- right. right. exists q'. split; [done|]. split; [by right|done].
    + intros dir Hdir. apply Hl. by right.
    + intros q q' [Ht|Hp] Hq' Hne'; [left; by eapply HT|]. right. by etrans.
    + refine (lists_dirs_ext _ _ _ _ _ _ _ Hc1); [done|naive_solver].
Qed.

(** ** Publications *)

(** The cache after a publication in a directory that it has no entry for: one
name is added to the parent, and no more. *)
Lemma cache_publish_new c q x fn :
  c !! strings.Join (q ++ [x]) "/" = None ->
  cache_publish (FileTable.fnEx (q ++ [x], fn)) (strings.Join (q ++ [x]) "/") (Some c) =
    Done (Some (<[strings.Join (q ++ [x]) "/" := []]>
      (<[strings.Join q "/" := listed c q ++ [x]]> c))).
Proof.
  intros Hnone. unfold cache_publish. rewrite decide_False by (rewrite Hnone; by intros []).
  unfold FileTable.fnEx. simpl fst. simpl snd. set (ex := (q ++ [x]) ++ [fn]).
  assert (length ex - 1 = S (length q)) as -> by (unfold ex; rewrite !length_app; simpl; lia).
  assert (Hlen : S (length q) <= length ex) by (unfold ex; rewrite !length_app; simpl; lia).
  assert (Htake : take (S (length q)) ex = q ++ [x]).
  { unfold ex. replace (S (length q)) with (length (q ++ [x])) by (rewrite length_app; simpl; lia).
    apply take_app_length. }
  assert (Htake' : take (length q) ex = q) by (unfold ex; rewrite <-app_assoc; apply take_app_length).
  assert (Hx : ex !! length q = Some x).
  { unfold ex. rewrite <-app_assoc. by apply list_lookup_middle. }
  cbn [cache_parents]. rewrite (go_slice_take ex (S (length q))), Htake by done. cbn [mbind outcome_bind].
  rewrite decide_False by (rewrite Hnone; by intros []).
  rewrite (go_slice_take ex (length q)), Htake' by lia. cbn [mbind outcome_bind].
  rewrite (go_index_lookup _ _ _ Hx). cbn [mbind outcome_bind]. fold (listed c q).
  destruct (length q) as [|n] eqn:Hn; [done|]. cbn [cache_parents].
  rewrite (go_slice_take ex (S n)), Htake' by lia. cbn [mbind outcome_bind].
  rewrite decide_True; [done|]. rewrite lookup_insert_eq. by eexists.
Qed.

(** The cache lists no directory that there is not, and knows no other. *)
Record cache_sound S c : Prop := {
  cs_dirs q x : Forall sep_name q -> x ∈ listed c q -> FileTable.below S (q ++ [x]);
  cs_known q : Forall sep_name q -> is_Some (c !! strings.Join q "/") -> q = [] \/ FileTable.below S q;
}.

(** It lists all of them. *)
Definition cache_full S c : Prop :=
  forall q (x : string), Forall sep_name q -> FileTable.below S (q ++ [x]) -> x ∈ listed c q.

Section publish.
Context S c q (x fn : string) (f : FileInfo).
Context (Hnames : Forall sep_name (q ++ [x])) (Hsound : cache_sound S c).

Let Hq : Forall sep_name q := proj1 (proj1 (Forall_app _ _ _) Hnames).

Let c' : dir_cache :=
  <[strings.Join (q ++ [x]) "/" := []]> (<[strings.Join q "/" := listed c q ++ [x]]> c).

Lemma listed_publish q' :
  c !! strings.Join (q ++ [x]) "/" = None -> Forall sep_name q' ->
  listed c' q' = if decide (q' = q) then listed c q ++ [x] else listed c q'.
Proof using Hnames Hq.
  intros Hnone Hq'. unfold c', listed. rewrite !lookup_dir_insert by done.
  destruct (decide (q' = q ++ [x])) as [->|Hne].
  - rewrite decide_False; [by rewrite Hnone|]. intros Heq%(f_equal length).
    rewrite length_app in Heq. simpl in Heq. lia.
  - by case_decide.
Qed.

Lemma cache_sound_publish :
  c !! strings.Join (q ++ [x]) "/" = None -> cache_sound (<[(q ++ [x], fn) := f]> S) c'.
Proof using Hnames Hq Hsound.
  intros Hnone. split.
  - intros q' x' Hq'. rewrite listed_publish by done. rewrite FileTable.below_insert.
    case_decide as He.
    + subst q'. rewrite elem_of_app, list_elem_of_singleton.
      intros [Hin| ->]; [left; by apply (cs_dirs _ _ Hsound)|by right].
    + intros Hin. left. by apply (cs_dirs _ _ Hsound).
  - intros q' Hq'. unfold c'. rewrite FileTable.below_insert, !lookup_dir_insert by done.
    destruct (decide (q' = q ++ [x])) as [->|]; [by right; right|].
    destruct (decide (q' = q)) as [->|]; [right; right; by apply prefix_app_r|].
    intros [?|?]%(cs_known _ _ Hsound); auto.
Qed.

Lemma cache_full_publish :
  c !! strings.Join (q ++ [x]) "/" = None -> q = [] \/ FileTable.below S q ->
  cache_full S c -> cache_full (<[(q ++ [x], fn) := f]> S) c'.
Proof using Hnames Hq.
  intros Hnone Hparent Hfull q' x' Hq'. rewrite listed_publish, FileTable.below_insert by done.
  assert (Hold : FileTable.below S (q' ++ [x']) -> x' ∈ (if decide (q' = q) then listed c q ++ [x] else listed c q')).
  { intros Hb%Hfull; [|done]. case_decide; [subst q'; rewrite elem_of_app; by left|done]. }
  intros [Hb|[r Hr]]; [by apply Hold|]. destruct r as [|y r _] using rev_ind.
  - rewrite app_nil_r in Hr. apply app_inj_tail in Hr as [-> ->].
    rewrite decide_True by done. rewrite elem_of_app, list_elem_of_singleton. by right.
  - rewrite app_assoc in Hr. apply app_inj_tail in Hr as [Hr _]. apply Hold.
    destruct Hparent as [Hnil|Hb]; [rewrite Hnil in Hr; by destruct q'|].
    eapply FileTable.below_prefix; [|exact Hb]. rewrite Hr. by apply prefix_app_r.
Qed.
End publish.

(** A cache that knows the directory stays as it is, and right. *)
Lemma cache_sound_insert S c dn fn f :
  cache_sound S c -> cache_sound (<[(dn, fn) := f]> S) c.
Proof.
  intros [H1 H2]. split.
  - intros q x Hq Hin. apply FileTable.below_insert. left. by apply H1.
  - intros q Hq Hin. rewrite FileTable.below_insert. destruct (H2 q Hq Hin); auto.
Qed.

Lemma cache_full_insert S c dn fn f :
  dn = [] \/ FileTable.below S dn -> cache_full S c -> cache_full (<[(dn, fn) := f]> S) c.
Proof.
  intros Hdn Hfull q x Hq. rewrite FileTable.below_insert. intros [Hb|Hp]; [by apply Hfull|].
  destruct Hdn as [->|Hdn]; [apply prefix_nil_inv in Hp; by destruct q|].
  apply Hfull; [done|]. by eapply FileTable.below_prefix.
Qed.

End SqliteCache.
