(* ===== verification/DatabaseSqliteTheorems.v ===== *)
(** * Properties of the SQLite database

[database_sqlite.go] against [FileTable], on an engine that does what the SQL
says and does not fail: files, owners and disconnections are exact; the cached
directories are real ones, but not always all, nor once each. *)

From S2P Require Import Prelude GoStrings Types DatabaseSpec.
From S2P Require Import DatabaseSqlite DatabaseSqliteProofs DatabaseSqliteCache.
Import Sqlite SqliteProofs SqliteCache.

Module SqliteTheorems.

(** No file is published in the root itself, as the master sees to. *)
Definition no_root_files (S : FileTable.table) : Prop := forall p, is_Some (S !! p) -> p.1 <> [].

(** A cache that is there lists real directories only. *)
Definition cache_ok (S : FileTable.table) (oc : option (gmap string (list string))) : Prop :=
  match oc with Some c => cache_sound S c | None => True end.

Section claims.
Context {E : SqlEngine} {L : SqlLaws E} {R : SqlReliable E L}.
Implicit Types (S : FileTable.table) (p : FileTable.path) (d : Database).

Lemma dir_rows owner d S dir :
  holds owner d S ->
  (exists f o, is_Some (fs (db d) !! (dir, f, o))) <->
  exists p, is_Some (S !! p) /\ dir = strings.Join p.1 "/".
Proof.
  intros [H1 H2 H3]. split.
  - intros (f & o & (p & Hp & [= -> _ _])%H2). by exists p.
  - intros (p & [f Hf] & ->). destruct (H1 p f Hf) as [Hrow _]. exists p.2, (owner p). by eexists.
Qed.

Lemma updateDirCache_run owner d S d' e :
  holds owner d S -> no_root_files S -> updateDirCache d = Done (d', e) ->
  e = None /\ exists c, dirCache d' = Some c /\ cache_sound S c /\ cache_full S c /\
    forall q, NoDup (listed c q).
Proof.
  intros HR Hroot Hrun. destruct (GetAllDirs_ok (db d)) as (rows & l & Hq & Hl).
  pose proof (GetAllDirs_rows _ _ _ Hq Hl) as Hdirs.
  destruct (scan_all_inr _ _ Hl) as [Hscan Herr].
  unfold updateDirCache in Hrun. rewrite Hq, Hscan in Hrun.
  destruct (list_dirs_total (inr <$> l) ∅) as (c & e' & Hc). rewrite Hc in Hrun. simpl in Hrun.
  apply (list_dirs_lists (fun _ => False)) in Hc as [-> [H1 H2 H3]].
  - injection Hrun as <- <-. split; [done|]. exists c. split; [done|].
    assert (Hin : forall q, q <> [] -> (exists q', Forall sep_name q' /\ strings.Join q' "/" ∈ l /\
        q `prefix_of` q') <-> FileTable.below S q).
    { intros q Hne. split.
      - intros (q' & Hq' & Hin & Hp). apply Hdirs, (dir_rows owner _ S) in Hin as (p & Hin & Hj); [|done].
        apply Join_sep_inj in Hj as ->; [|done|by apply (h_names _ _ _ HR)]. by exists p.
      - intros (p & Hin & Hp). exists p.1. split; [by apply (h_names _ _ _ HR)|]. split; [|done].
        apply Hdirs, (dir_rows owner _ S); [done|]. by exists p. }
    split; [split|split; [|done]].
    + intros q x Hq' Hx. apply (H1 q x Hq') in Hx as [[]|Hx]. apply Hin; [by destruct q|done].
    + intros q Hq' [?|[[]|Hx]]%H2; [by left| |done]. destruct (decide (q = [])); [by left|]. right. by apply Hin.
    + intros q x Hq' Hx. apply (H1 q x Hq'). right. apply Hin; [by destruct q|done].
  - intros dir (p & Hp & ->)%Hdirs%(dir_rows owner _ S); [|done]. exists p.1.
    split; [by apply (h_names _ _ _ HR)|]. split; [by apply Hroot|done].
  - done.
  - split.
    + intros q x _. unfold listed. rewrite lookup_empty. simpl. split; [by intros ?%not_elem_of_nil|done].
    + intros q _. rewrite lookup_empty. by intros [].
    + intros q. unfold listed. rewrite lookup_empty. constructor.
Qed.

(** ** Claims *)

(** C15: [SetFile] of the SQLite database implements the table of files: it
returns nil, in a database that has the file with its info, the time cut to the
second, or has it no more; and the cached directories stay real ones, and all
of them when the parent of the directory was there before. *)
Theorem Sqlite_SetFile_refines owner d S p fi :
  holds owner d S -> Forall sep_name p.1 -> p.1 <> [] -> cache_ok S (dirCache d) ->
  exists d', SetFile d (FileTable.fnEx p) fi (owner p) = Done (d', None) /\
    let S' := FileTable.set S p (stored <$> fi) in
    holds owner d' S' /\ cache_ok S' (dirCache d') /\
    forall c c', dirCache d = Some c -> dirCache d' = Some c' ->
      cache_full S c -> removelast p.1 = [] \/ FileTable.below S (removelast p.1) -> cache_full S' c'.
Proof.
  intros HR Hp Hne Hc. destruct (Sqlite_SetFile_run owner d S p fi HR Hp) as (d' & Hrun & HR' & Hcache).
  exists d'. split; [done|]. split; [done|]. destruct p as [dn fn]. cbn [fst] in *.
  destruct fi as [f|]; [|rewrite Hcache; by split]. cbn [fmap option_fmap option_map FileTable.set].
  destruct (dirCache d) as [c|]; [|injection Hcache as <-; by split].
  destruct dn as [|x q _] using rev_ind; [done|]. rewrite removelast_last.
  destruct (c !! strings.Join (q ++ [x]) "/") as [l|] eqn:Hknown.
  - unfold cache_publish in Hcache. rewrite decide_True in Hcache by (rewrite Hknown; by eexists).
    injection Hcache as <-. split; [by apply cache_sound_insert|].
    intros c1 c2 [= <-] [= <-] Hfull _. apply cache_full_insert; [|done].
    apply (cs_known _ _ Hc); [done|]. rewrite Hknown. by eexists.
  - rewrite cache_publish_new in Hcache by done. injection Hcache as <-.
    split; [by apply cache_sound_publish|].
    intros c1 c2 [= <-] [= <-] Hfull Hparent. by apply cache_full_publish.
Qed.

(** C31: [GetDir] lists exactly the files of a directory, and as subdirectories
only names that lead to files; when the cache has to be rebuilt, all of them
and once each. It has no error for a directory that does not exist. *)
Theorem Sqlite_GetDir_correct owner d S dn :
  holds owner d S -> no_root_files S -> Forall sep_name dn -> cache_ok S (dirCache d) ->
  exists d' files dirs, GetDir d (strings.Join dn "/") = Done (d', Some (files, dirs), None) /\
    holds owner d' S /\ cache_ok S (dirCache d') /\ FileTable.lists S dn files /\
    (forall x, x ∈ dirs -> FileTable.below S (dn ++ [x])) /\
    (dirCache d = None -> NoDup dirs /\ forall x, FileTable.below S (dn ++ [x]) -> x ∈ dirs).
Proof.
  intros HR Hroot Hdn Hc. destruct (Sqlite_GetDir_run owner d S dn HR Hdn) as (d' & files & Hrun & HR' & Hl & Hcase).
  exists d', files. eexists. split; [exact Hrun|]. split; [done|].
  destruct (dirCache d) as [c|] eqn:Hcache.
  - subst d'. rewrite Hcache. cbn [default from_option id]. split; [done|]. split; [done|].
    split; [|done]. intros x Hx. by apply (cs_dirs _ _ Hc).
  - destruct Hcase as [e Hup]. apply (updateDirCache_run owner d S) in Hup as (_ & c & -> & Hs & Hf & Hnd); [|done..].
    cbn [default from_option id]. split; [done|]. split; [done|].
    split; [intros x Hx; by apply (cs_dirs _ _ Hs)|]. intros _. split; [apply Hnd|].
    intros x Hx. by apply Hf.
Qed.

(** [PeerDisconnected] removes exactly the files of the peer, and
[GetOwners] answers exactly the peers that publish a file with the hash, once
each. *)
Theorem Sqlite_owners_correct owner d S :
  holds owner d S ->
  (forall o, exists d', PeerDisconnected d o = (d', None) /\ dirCache d' = None /\
     holds owner d' (FileTable.without owner S o)) /\
  (forall h, exists os, GetOwners d h = (os, None) /\ NoDup os /\
     forall o, o ∈ os <-> FileTable.owns owner S h o).
Proof.
  intros HR. split; [intros o; by apply Sqlite_PeerDisconnected_run|intros h; by apply (GetOwners_run owner)].
Qed.

(** the cache of directories goes wrong under publications: a file in new
nested directories adds only the innermost of them, so that the listing of the
first directory above lacks a name that leads to the file; and the first file
published after a rebuild in a directory without subdirectories lists that
directory twice. *)
Theorem Sqlite_stale_listings owner d S q x fn f c :
  holds owner d S -> dirCache d = Some c -> cache_sound S c -> Forall sep_name (q ++ [x]) ->
  (forall y, sep_name y -> ~ FileTable.below S (q ++ [x]) ->
     let p := ((q ++ [x]) ++ [y], fn) in
     exists d' files dirs,
       SetFile d (FileTable.fnEx p) (Some f) (owner p) = Done (d', None) /\
       GetDir d' (strings.Join q "/") = Done (d', Some (files, dirs), None) /\
       FileTable.below (FileTable.set S p (Some (stored f))) (q ++ [x]) /\ x ∉ dirs) /\
  (FileTable.below S (q ++ [x]) -> x ∈ listed c q -> c !! strings.Join (q ++ [x]) "/" = None ->
     let p := (q ++ [x], fn) in
     exists d' files,
       SetFile d (FileTable.fnEx p) (Some f) (owner p) = Done (d', None) /\
       GetDir d' (strings.Join q "/") = Done (d', Some (files, listed c q ++ [x]), None)).
Proof.
  intros HR Hcache Hs Hnames. pose proof Hnames as [Hq Hx]%Forall_app. split.
  - intros y Hy Hno p.
    assert (Hp : Forall sep_name p.1) by (apply Forall_app; split; [done|by constructor]).
    destruct (Sqlite_SetFile_run owner d S p (Some f) HR Hp) as (d' & Hrun & HR' & Hc').
    destruct (Sqlite_GetDir_run owner d' _ q HR' Hq) as (d'' & files & Hget & _ & _ & Hsame).
    rewrite Hcache in Hc'. unfold p in Hc'. cbn [fst] in Hc'.
    assert (Hnone : c !! strings.Join ((q ++ [x]) ++ [y]) "/" = None).
    { apply eq_None_not_Some. intros [Hnil|Hb]%(cs_known _ _ Hs); [by destruct q|apply Hno|done].
      eapply FileTable.below_prefix; [|exact Hb]. by apply prefix_app_r. }
    rewrite cache_publish_new in Hc' by done. injection Hc' as Hc'. rewrite <-Hc' in Hsame.
    subst d''. rewrite <-Hc' in Hget. exists d', files. eexists.
    split; [exact Hrun|]. split; [exact Hget|]. split.
    + apply FileTable.below_insert. right. by apply prefix_app_r.
    + cbn [default from_option id].
      change (x ∉ listed (<[strings.Join ((q ++ [x]) ++ [y]) "/" := []]>
        (<[strings.Join (q ++ [x]) "/" := listed c (q ++ [x]) ++ [y]]> c)) q).
      rewrite listed_publish by done. rewrite decide_False.
      * intros Hin%(cs_dirs _ _ Hs); done.
      * intros Heq%(f_equal length). rewrite length_app in Heq. simpl in Heq. lia.
  - intros Hb Hin Hnone p. destruct (Sqlite_SetFile_run owner d S p (Some f) HR Hnames) as (d' & Hrun & HR' & Hc').
    destruct (Sqlite_GetDir_run owner d' _ q HR' Hq) as (d'' & files & Hget & _ & _ & Hsame).
    rewrite Hcache in Hc'. unfold p in Hc'. cbn [fst] in Hc'.
    rewrite cache_publish_new in Hc' by done. injection Hc' as Hc'. rewrite <-Hc' in Hsame.
    subst d''. rewrite <-Hc' in Hget. exists d', files. split; [exact Hrun|].
    assert (Hls : listed (<[strings.Join (q ++ [x]) "/" := []]>
      (<[strings.Join q "/" := listed c q ++ [x]]> c)) q = listed c q ++ [x]).
    { rewrite listed_publish by done. by rewrite decide_True. }
    rewrite <-Hls. exact Hget.
Qed.

(** ** The interface of the master *)

#[export] Instance sqlite_ops : DatabaseOps := {|
  DatabaseSpec.db := Database;
  db_SetFile := SetFile;
  db_PeerDisconnected := fun d o => Done (PeerDisconnected d o);
  db_GetOwners := fun d h => Done (GetOwners d h);
  db_GetDir := GetDir;
|}.

#[export, refine] Instance sqlite_laws : DatabaseLaws sqlite_ops := {|
  db_holds := holds;
  db_name_ok := sep_name;
  db_stored := stored;
|}.
Proof.
  - apply good_sep_name.
  - intros owner d S p fi d' e HR [Hp _]%Forall_app Hrun.
    destruct (Sqlite_SetFile_run owner d S p fi HR Hp) as (d2 & Hrun2 & HR' & _).
    change (SetFile d (FileTable.fnEx p) fi (owner p) = Done (d', e)) in Hrun.
    rewrite Hrun in Hrun2. by injection Hrun2 as -> ->.
  - intros owner d S dn HR Hgood.
    destruct (Sqlite_GetDir_run owner d S dn HR) as (d' & files & Hrun & HR' & Hl & _).
    { eapply Forall_impl; [exact Hgood|apply good_sep_name]. }
    eexists _, _, _. split; [exact Hrun|]. split; [done|]. left. eauto.
  - intros owner d S dir d' r e HR Hrun. eapply holds_same_db; [|exact HR]. exact (GetDir_db d dir d' r e Hrun).
  - intros owner d S o d' e HR Hrun.
    destruct (Sqlite_PeerDisconnected_run owner d S o HR) as (d2 & Hrun2 & _ & HR').
    change (Done (PeerDisconnected d o) = Done (d', e)) in Hrun. rewrite Hrun2 in Hrun.
    injection Hrun as <- <-. eexists. split; [exact HR'|]. unfold FileTable.without. split.
    + apply map_filter_subseteq.
    + intros p Hp. destruct (S !! p) as [f|] eqn:Hf.
      * by apply map_lookup_filter_Some.
      * apply map_lookup_filter_None. by left.
Defined.

#[export] Instance sqlite_complete : DatabaseComplete sqlite_ops sqlite_laws.
Proof.
  split.
  - intros owner d S p f HR [Hp _]%Forall_app.
    destruct (Sqlite_SetFile_run owner d S p (Some f) HR Hp) as (d' & Hrun & _). eauto.
  - intros owner d S p HR [Hp _]%Forall_app _.
    destruct (Sqlite_SetFile_run owner d S p None HR Hp) as (d' & Hrun & _). eauto.
  - intros owner d S h HR. destruct (GetOwners_run owner d S h HR) as (os & Hrun & _ & Hin).
    exists os. split; [|exact Hin]. simpl. by rewrite Hrun.
Qed.
End claims.

(** ** An engine of maps, for concrete runs *)

Abbreviation rows_of l := (inr (mkRows (inr <$> l) None)).

#[export] Instance map_engine : SqlEngine := {|
  sqldb := fs_table;
  Exec_text := fun s _ => (s, None);
  Prepare := fun _ _ => None;
  Begin := fun s => (s, None);
  Commit := fun s => (s, None);
  Exec := fun s st =>
    match st with
    | stmtAddFile dn f size mtime hash peer =>
        if decide (is_Some (s !! (dn, f, peer)))
        then (s, Some (errors_New "UNIQUE constraint failed: fs.directory, fs.file, fs.peer"))
        else (<[(dn, f, peer) := (size, mtime, hash)]> s, None)
    | stmtDeleteFile dn f peer => (delete (dn, f, peer) s, None)
    | stmtDisconnect peer => (filter (fun r : _ * (Z * Z * string) => r.1.2 <> peer) s, None)
    end;
  Query_GetOwners := fun s hash =>
    rows_of (remove_dups ((fun r : _ * (Z * Z * string) => r.1.2) <$>
      filter (fun r : _ * (Z * Z * string) => r.2.2 = hash) (map_to_list s)));
  Query_GetDir := fun s dir =>
    rows_of ((fun r : string * (Z * Z * string) => (r.1, r.2.1.1, r.2.1.2, r.2.2)) <$>
      map_to_list (list_to_map (M := gmap string (Z * Z * string))
        ((fun r : (string * string * string) * (Z * Z * string) => (r.1.1.2, r.2)) <$>
          filter (fun r : (string * string * string) * (Z * Z * string) => r.1.1.1 = dir) (map_to_list s))));
  Query_GetAllDirs := fun s =>
    rows_of (remove_dups ((fun r : (string * string * string) * (Z * Z * string) => r.1.1.1) <$> map_to_list s));
|}.

Lemma scan_all_rows {A} (l l' : list A) :
  scan_all (mkRows (inr <$> l) None) = inr l' -> l' = l.
Proof.
  intros Hl. apply scan_all_inr in Hl as [Hl _]. simpl in Hl. symmetry.
  by apply (inj (fmap inr)) in Hl.
Qed.

Lemma scan_all_ok {A} (l : list A) : scan_all (mkRows (inr <$> l) None) = inr l.
Proof.
  assert (Hs : scan_loop (inr <$> l : list (error + A)) = inr l).
  { induction l as [|a l IH]; [done|]. cbn [fmap list_fmap scan_loop]. by rewrite IH. }
  unfold scan_all. cbn [scanned rows_Err]. by rewrite Hs.
Qed.

#[export, refine] Instance map_laws : SqlLaws map_engine := {| fs := fun s => s |}.
Proof.
  - by intros s s' [= ->].
  - by intros s s' [= ->].
  - intros s dn f size mtime hash peer s'. simpl. case_decide; by intros [= <-].
  - by intros s dn f peer s' [= <-].
  - by intros s peer s' [= <-].
  - intros s hash rows l [= <-] ->%scan_all_rows. split; [apply NoDup_remove_dups|].
    intros o. rewrite elem_of_remove_dups, list_elem_of_fmap. split.
    + intros ([[[dn f] o'] [[size mtime] h]] & -> & Hin). apply list_elem_of_filter in Hin as [Hh Hin].
      simpl in Hh. subst h. apply elem_of_map_to_list in Hin. eauto.
    + intros (dn & f & size & mtime & Hrow). exists ((dn, f, o), (size, mtime, hash)). split; [done|].
      apply list_elem_of_filter. split; [done|]. by apply elem_of_map_to_list.
  - intros s dir rows l [= <-] ->%scan_all_rows. split.
    + intros f size mtime hash Hin. apply list_elem_of_fmap in Hin as ([f' [[sz mt] h]] & [= -> -> -> ->] & Hin).
      apply elem_of_map_to_list, elem_of_list_to_map_2 in Hin.
      apply list_elem_of_fmap in Hin as ([[[dn f] o] r] & [= -> <-] & Hin).
      apply list_elem_of_filter in Hin as [Hdn Hin]. simpl in Hdn. subst dn.
      apply elem_of_map_to_list in Hin. eauto.
    + intros f o r Hrow.
      set (l := (fun r : (string * string * string) * (Z * Z * string) => (r.1.1.2, r.2)) <$> _).
      assert (Hin : f ∈ l.*1).
      { apply list_elem_of_fmap. exists (f, r). split; [done|]. unfold l. apply list_elem_of_fmap.
        exists ((dir, f, o), r). split; [done|]. apply list_elem_of_filter. split; [done|].
        by apply elem_of_map_to_list. }
      destruct (list_to_map (M := gmap string (Z * Z * string)) l !! f) as [[[size mtime] hash]|] eqn:Hf.
      * exists size, mtime, hash. apply list_elem_of_fmap. exists (f, (size, mtime, hash)).
        split; [done|]. by apply elem_of_map_to_list.
      * by apply not_elem_of_list_to_map_2 in Hf.
  - intros s rows l [= <-] ->%scan_all_rows dir. rewrite elem_of_remove_dups, list_elem_of_fmap. split.
    + intros ([[[dn f] o] r] & -> & Hin). apply elem_of_map_to_list in Hin. exists f, o. by eexists.
    + intros (f & o & [r Hr]). exists ((dir, f, o), r). split; [done|]. by apply elem_of_map_to_list.
Defined.

#[export] Instance map_reliable : SqlReliable map_engine map_laws.
Proof.
  split; try done.
  - intros s dn f size mtime hash peer Hnone. cbn [Exec map_engine].
    rewrite decide_False; [done|]. change (~ is_Some (s !! (dn, f, peer))).
    change (s !! (dn, f, peer) = None) in Hnone. rewrite Hnone. by intros [].
  - intros s hash. eexists _, _. split; [done|]. apply scan_all_ok.
  - intros s dir. eexists _, _. split; [done|]. apply scan_all_ok.
  - intros s. eexists _, _. split; [done|]. apply scan_all_ok.
Qed.

(** ** Concrete runs *)

Definition demo_owner (p : FileTable.path) : string :=
  match p.1 with
  | u :: _ => (u ++ "@10.0.0.7:1667")%string
  | [] => ""
  end.

Definition demo_file : FileTable.path := (["a"; "x"], "f").
Definition demo_info : FileInfo := mkFileInfo 3 "h" 1500000000.

Abbreviation demo_table := (FileTable.set ∅ demo_file (Some (stored demo_info))).

Definition demo_db : @Database map_engine :=
  mkDatabase (<[key_of demo_owner demo_file := row_of demo_info]> ∅) None.

(** The same with its cache filled. *)
Definition demo_cache : gmap string (list string) :=
  match updateDirCache demo_db with
  | Done (d, _) => default ∅ (dirCache d)
  | _ => ∅
  end.
Definition demo_cached : @Database map_engine := mkDatabase (db demo_db) (Some demo_cache).

Lemma demo_holds : holds demo_owner demo_db demo_table.
Proof.
  apply (holds_set demo_owner (mkDatabase ∅ None) (db demo_db) None ∅ demo_file (Some demo_info)).
  - split.
    + intros p f. by rewrite lookup_empty.
    + intros k. simpl. rewrite lookup_empty. by intros [].
    + intros p [f Hp]. by rewrite lookup_empty in Hp.
  - repeat (constructor; [by split|]). constructor.
  - reflexivity.
Qed.

Lemma demo_no_root : no_root_files demo_table.
Proof.
  intros p Hp. rewrite FileTable.lookup_set in Hp. case_decide; [by subst p|]. by destruct Hp.
Qed.

Lemma demo_cache_right : cache_sound demo_table demo_cache /\ cache_full demo_table demo_cache.
Proof.
  destruct (updateDirCache_total demo_db) as (d' & e & Hrun & _).
  destruct (updateDirCache_run _ _ _ _ _ demo_holds demo_no_root Hrun) as (_ & c & Hc & Hs & Hf & _).
  assert (Heq : demo_cache = c) by (unfold demo_cache; rewrite Hrun, Hc; reflexivity).
  rewrite Heq. split; assumption.
Qed.

Lemma demo_cached_holds : holds demo_owner demo_cached demo_table.
Proof. exact (holds_same_db demo_owner demo_db demo_cached demo_table eq_refl demo_holds). Qed.

Lemma Sqlite_SetFile_refines_witness :
  exists d', SetFile demo_cached (FileTable.fnEx (["a"; "z"], "g")) (Some demo_info) "a@10.0.0.7:1667" = Done (d', None) /\
    let S' := FileTable.set demo_table (["a"; "z"], "g") (stored <$> Some demo_info) in
    holds demo_owner d' S' /\ cache_ok S' (dirCache d') /\
    forall c c', dirCache demo_cached = Some c -> dirCache d' = Some c' ->
      cache_full demo_table c -> ["a"] = [] \/ FileTable.below demo_table ["a"] -> cache_full S' c'.
Proof.
  refine (Sqlite_SetFile_refines demo_owner demo_cached demo_table (["a"; "z"], "g") (Some demo_info) _ _ _ _).
  - apply demo_cached_holds.
  - repeat (constructor; [by split|]). constructor.
  - discriminate.
  - apply demo_cache_right.
Defined.

Lemma Sqlite_GetDir_correct_witness :
  exists d' files dirs, GetDir demo_db "a" = Done (d', Some (files, dirs), None) /\
    holds demo_owner d' demo_table /\ cache_ok demo_table (dirCache d') /\
    FileTable.lists demo_table ["a"] files /\
    (forall x, x ∈ dirs -> FileTable.below demo_table ["a"; x]) /\
    (dirCache demo_db = None -> NoDup dirs /\ forall x, FileTable.below demo_table ["a"; x] -> x ∈ dirs).
Proof.
  refine (Sqlite_GetDir_correct demo_owner demo_db demo_table ["a"] _ _ _ _).
  - apply demo_holds.
  - apply demo_no_root.
  - repeat (constructor; [by split|]). constructor.
  - exact I.
Defined.

Lemma Sqlite_owners_correct_witness :
  (forall o, exists d', PeerDisconnected demo_db o = (d', None) /\ dirCache d' = None /\
     holds demo_owner d' (FileTable.without demo_owner demo_table o)) /\
  (forall h, exists os, GetOwners demo_db h = (os, None) /\ NoDup os /\
     forall o, o ∈ os <-> FileTable.owns demo_owner demo_table h o).
Proof. refine (Sqlite_owners_correct demo_owner demo_db demo_table _). apply demo_holds. Defined.

Lemma Sqlite_stale_listings_witness :
  (exists d' files dirs,
     SetFile demo_cached ["a"; "z"; "w"; "g"] (Some demo_info) "a@10.0.0.7:1667" = Done (d', None) /\
     GetDir d' "a" = Done (d', Some (files, dirs), None) /\
     FileTable.below (FileTable.set demo_table (["a"; "z"; "w"], "g") (Some (stored demo_info))) ["a"; "z"] /\
     "z" ∉ dirs) /\
  (exists d' files,
     SetFile demo_cached ["a"; "x"; "g"] (Some demo_info) "a@10.0.0.7:1667" = Done (d', None) /\
     GetDir d' "a" = Done (d', Some (files, listed demo_cache ["a"] ++ ["x"]), None)).
Proof.
  destruct demo_cache_right as [Hs Hf].
  assert (Hx : FileTable.below demo_table ["a"; "x"]) by (exists demo_file; split; [by eexists|done]).
  split.
  - refine (proj1 (Sqlite_stale_listings demo_owner demo_cached demo_table ["a"] "z" "g" demo_info demo_cache
      demo_cached_holds eq_refl Hs _) "w" _ _).
    + repeat (constructor; [by split|]). constructor.
    + by split.
    + intros (p & Hp & Hpre). rewrite FileTable.lookup_set in Hp.
      case_decide; [subst p|by destruct Hp]. by destruct Hpre.
  - refine (proj2 (Sqlite_stale_listings demo_owner demo_cached demo_table ["a"] "x" "g" demo_info demo_cache
      demo_cached_holds eq_refl Hs _) Hx _ _).
    + repeat (constructor; [by split|]). constructor.
    + apply (Hf ["a"] "x"); [|exact Hx]. repeat (constructor; [by split|]). constructor.
    + vm_compute. reflexivity.
Defined.

End SqliteTheorems.
