(* ===== verification/DatabaseEquivalence.v ===== *)
(** * Where two databases answer alike

The in-memory database and the one on Bolt, put through the same calls of
[SetFile]: their listings differ in the directories that have been emptied, which
the one keeps and the other drops, and in nothing else. *)

From S2P Require Import Prelude GoStrings Types DatabaseSpec.
From S2P Require Import DatabaseInmem DatabaseInmemTree DatabaseInmemProofs DatabaseInmemDisconnect DatabaseInmemTheorems.
From S2P Require Import DatabaseBolt DatabaseBoltStore DatabaseBoltProofs DatabaseBoltSetFile DatabaseBoltHolds DatabaseBoltQueries DatabaseBoltTheorems.

Module DatabaseEquivalence.

(** A history of calls of [SetFile]: paths with their infos, or deletions. *)
Abbreviation history := (list (FileTable.path * option FileInfo)).

(** The table that a history makes of another. *)
Definition table_after (S : FileTable.table) (h : history) : FileTable.table :=
  foldl (fun S c => FileTable.set S c.1 c.2) S h.

(** The database after the calls of a history, and whether all of them
answered nil; it stops at the first error. *)
Section replay.
Context {D : Type} (SetFile : D -> list string -> option FileInfo -> string -> outcome (D * option error)).
Context (owner_of : FileTable.path -> string).

Fixpoint replay (d : D) (h : history) : outcome (D * bool) :=
  match h with
  | [] => Done (d, true)
  | c :: h' =>
      '(d, e) ← SetFile d (FileTable.fnEx c.1) c.2 (owner_of c.1);
      match e with
      | Some _ => Done (d, false)
      | None => replay d h'
      end
  end.

Lemma replay_cons d p fi h d' :
  replay d ((p, fi) :: h) = Done (d', true) ->
  exists d1, SetFile d (FileTable.fnEx p) fi (owner_of p) = Done (d1, None) /\ replay d1 h = Done (d', true).
Proof.
  cbn [replay fst snd]. destruct (SetFile d (FileTable.fnEx p) fi (owner_of p)) as [[d1 [e|]]| |]; try done.
  cbn [mbind outcome_bind]. eauto.
Qed.
End replay.

(** ** Directories that are and that were *)

(** Some call of the history published a file in or below [q]. *)
Definition ever (h : history) (q : list string) : Prop :=
  exists p f, (p, Some f) ∈ h /\ q `prefix_of` p.1.

(** [q] has had files, and at the end of the history it has none, nor any below. *)
Definition emptied (h : history) (q : list string) : Prop :=
  q <> [] /\ ever h q /\ ~ FileTable.below (table_after ∅ h) q.

Lemma publications_stay S h p :
  Forall (fun c : FileTable.path * option FileInfo => is_Some c.2) h ->
  is_Some (S !! p) \/ (exists f, (p, Some f) ∈ h) -> is_Some (table_after S h !! p).
Proof.
  intros Hpub. revert S. induction Hpub as [|[p' fi] h [f Hf] _ IH]; intros S; simpl.
  - intros [?|[f Hf]]; [done|]. by apply not_elem_of_nil in Hf.
  - simpl in Hf. subst fi. intros Hp. apply IH. rewrite FileTable.lookup_set. case_decide as Heq; [left; by eexists|].
    destruct Hp as [?|[g [[= -> ->]|Hg]%elem_of_cons]]; [by left|done|right; by exists g].
Qed.

Lemma publications_empty_nothing h q :
  Forall (fun c : FileTable.path * option FileInfo => is_Some c.2) h -> ~ emptied h q.
Proof.
  intros Hpub (_ & (p & f & Hp & Hq) & Hno). apply Hno. exists p. split; [|done].
  apply publications_stay; [done|right; by exists f].
Qed.

Lemma below_ever_from S h q :
  FileTable.below (table_after S h) q -> FileTable.below S q \/ ever h q.
Proof.
  revert S. induction h as [|[p fi] h IH]; intros S; [by left|]. simpl. intros [Hb|(p' & f & Hp & Hq)]%IH.
  - destruct Hb as (p' & Hp & Hq). rewrite FileTable.lookup_set in Hp. case_decide as Heq.
    + subst p'. destruct fi as [f|]; [|by destruct Hp]. right. exists p, f. split; [by left|done].
    + left. by exists p'.
  - right. exists p', f. split; [by right|done].
Qed.

Lemma below_ever h q : FileTable.below (table_after ∅ h) q -> ever h q.
Proof. intros [(p & [f Hp] & _)|?]%below_ever_from; [by rewrite lookup_empty in Hp|done]. Qed.

(** ** The two databases after a history *)

Section inmem.
Import Inmem InmemTree InmemProofs.

Lemma mem_prefixes t rest q : q ∈ prefixes t rest <-> exists r, r <> [] /\ q = t ++ r /\ r `prefix_of` rest.
Proof.
  revert t. induction rest as [|x rest IH]; intros t; simpl.
  - split; [by intros ?%not_elem_of_nil|]. by intros (r & Hr & _ & ->%prefix_nil_inv).
  - rewrite elem_of_cons, IH. split.
    + intros [->|(r & _ & -> & Hr)].
      * exists [x]. split_and!; [done..|]. by exists rest.
      * exists (x :: r). split_and!; [done|by rewrite <-(assoc_L (++))|by apply prefix_cons].
    + intros (r & Hr & -> & Hp). destruct r as [|y r]; [done|].
      pose proof (prefix_cons_inv_1 _ _ _ _ Hp) as ->. apply prefix_cons_inv_2 in Hp.
      destruct r as [|z r]; [by left|]. right. exists (z :: r). by rewrite <-(assoc_L (++)).
Qed.

(** A directory of the tree is there because of a file that was published. *)
Lemma inmem_replay owner d S h d' :
  represents owner d S -> replay SetFile owner d h = Done (d', true) ->
  represents owner d' (table_after S h) /\
  forall q, q <> [] -> is_Some (node_at (fileTree d') q) <-> is_Some (node_at (fileTree d) q) \/ ever h q.
Proof.
  revert d S. induction h as [|[p fi] h IH]; intros d S HR Hrun.
  - injection Hrun as <-. split; [done|]. intros q _. split; [by left|]. intros [?|(p & f & Hp & _)]; [done|].
    by apply not_elem_of_nil in Hp.
  - apply replay_cons in Hrun as (d1 & Hset & Hrun). unfold SetFile in Hset.
    assert (represents owner d1 (FileTable.set S p fi) /\ forall q, q <> [] ->
      is_Some (node_at (fileTree d1) q) <-> is_Some (node_at (fileTree d) q) \/ (is_Some fi /\ q `prefix_of` p.1))
      as [HR1 Hq1].
    { destruct fi as [f|].
      - destruct (publish_refines owner d S p f HR) as (d2 & Hset2 & HR2 & Hq2). rewrite Hset in Hset2.
        injection Hset2 as <-. split; [done|]. intros q Hne. rewrite Hq2, mem_prefixes. split.
        + intros [?|(r & _ & -> & Hr)]; [by left|right]. by split.
        + intros [?|[_ Hp]]; [by left|right]. by exists q.
      - destruct (unpublish_refines owner d S p d1 None HR Hset) as (_ & HR2 & Hq2). split; [done|].
        intros q _. rewrite Hq2. split; [by left|]. by intros [?|[[? ?] _]]. }
    destruct (IH d1 _ HR1 Hrun) as [HR' Hq']. split; [done|]. intros q Hne. rewrite (Hq' q Hne), (Hq1 q Hne).
    split.
    + intros [[?|[[f ->] Hp]]|(p' & f & Hp & Hpre)]; [by left|right|right].
      * exists p, f. split; [by left|done].
      * exists p', f. split; [by right|done].
    + intros [?|(p' & f & [[= <- <-]|Hp]%elem_of_cons & Hpre)]; [by left; left|by left; right; split|].
      right. by exists p', f.
Qed.
End inmem.

Section bolt.
Import Bolt BoltProofs BoltSetFile BoltHolds BoltQueries.
Context {B : BoltStore} {BL : BoltLaws B} {J : JSON} {JL : JSONLaws J}.

Lemma bolt_replay owner (d : Database) S h d' :
  holds owner d S ->
  Forall (fun c : FileTable.path * option FileInfo => Forall name_ok (FileTable.fnEx c.1) /\ json_kept <$> c.2 = c.2) h ->
  replay SetFile owner d h = Done (d', true) -> holds owner d' (table_after S h).
Proof.
  intros HR Hok. revert d S HR. induction Hok as [|[p fi] h [Hp Hfi] _ IH]; intros d S HR Hrun.
  - by injection Hrun as <-.
  - simpl in Hp, Hfi. apply replay_cons in Hrun as (d1 & Hset & Hrun).
    destruct (SetFile_holds owner d S p fi d1 None HR Hp Hset) as [[He _]|(_ & HR1 & _)]; [done|].
    rewrite Hfi in HR1. by apply (IH d1).
Qed.
End bolt.

(** ** Claims *)

Section claims.
Import Bolt BoltProofs BoltSetFile BoltHolds BoltQueries.
Context `{MapRange} {B : BoltStore} {BL : BoltLaws B} {J : JSON} {JL : JSONLaws J}.

(** C16: the in-memory database and the one on Bolt, started empty and put through
the same publications and deletions, all of which both took, answer [GetDir] of
every directory alike but for directories that were emptied. A directory without
files in it or below, that had some, is an empty directory for the one and ENOENT
for the other; in any other directory both find nothing, or they list the same
files with the same infos, and the names of subdirectories of the one are those of
the other and those of the emptied ones. Without deletions nothing is ever emptied,
and both answer the same. The names and infos are such as Bolt and its JSON keep,
and a transaction can be begun. *)
Theorem inmem_bolt_listings owner h (d : Inmem.Database) (b0 b : Bolt.Database) dn :
  holds owner b0 ∅ ->
  Forall (fun c : FileTable.path * option FileInfo => Forall name_ok (FileTable.fnEx c.1) /\ json_kept <$> c.2 = c.2) h ->
  replay Inmem.SetFile owner Inmem.newDatabase h = Done (d, true) ->
  replay Bolt.SetFile owner b0 h = Done (b, true) ->
  Forall good_part dn -> begin_tx (db b) = None ->
  let dir := strings.Join dn "/" in
  let ENOENT := Some (errors_New "ENOENT") in
  (emptied h dn ->
     (exists ds, Inmem.GetDir d dir = (Some (∅, ds), None)) /\ Bolt.GetDir b dir = Done (None, ENOENT)) /\
  (~ emptied h dn ->
     (Inmem.GetDir d dir = (None, ENOENT) /\ Bolt.GetDir b dir = Done (None, ENOENT)) \/
     (exists files ds1 ds2,
        Inmem.GetDir d dir = (Some (files, ds1), None) /\ Bolt.GetDir b dir = Done (Some (files, ds2), None) /\
        NoDup ds1 /\ NoDup ds2 /\ (forall x, x ∈ ds1 <-> x ∈ ds2 \/ emptied h (dn ++ [x])) /\
        forall x, x ∈ ds2 -> ~ emptied h (dn ++ [x]))) /\
  (Forall (fun c : FileTable.path * option FileInfo => is_Some c.2) h -> forall q, ~ emptied h q).
Proof.
  intros Hb0 Hok Hrun1 Hrun2 Hdn Hbegin. simpl.
  destruct (inmem_replay owner _ ∅ h d (InmemProofs.represents_new owner) Hrun1) as [[Hfiles _] Hnodes].
  pose proof (bolt_replay owner b0 ∅ h b Hb0 Hok Hrun2) as Hb.
  assert (Hnode : forall q, q <> [] -> is_Some (Inmem.node_at (Inmem.fileTree d) q) <-> ever h q).
  { intros q Hq. rewrite (Hnodes q Hq). split; [|by right]. intros [Hn|?]; [|done]. destruct q as [|x q]; [done|].
    simpl in Hn. rewrite lookup_empty in Hn. by destruct Hn. }
  rewrite (InmemTheorems.GetDir_run d dn Hdn).
  split; [|split; [|intros Hpub q; by apply publications_empty_nothing]].
  - intros (Hne & Hever & Hno). apply (Hnode dn Hne) in Hever as [n Hn]. rewrite Hn. split.
    + exists (range_map (Inmem.dirs n)).*1. do 3 f_equal. apply map_eq. intros fn. rewrite lookup_empty.
      rewrite (InmemProofs.node_files _ _ _ fn Hn). change (InmemProofs.files_in d dn fn = None). rewrite Hfiles.
      destruct (table_after ∅ h !! (dn, fn)) as [f|] eqn:Hf; [|done]. destruct Hno. by eapply FileTable.below_file.
    + destruct (BoltQueries.Bolt_GetDir_run owner b _ dn Hb Hdn Hbegin) as [(fs & ds & _ & [?|?] & _)|(Hrun & _)]; done.
  - intros Hnot.
    destruct (BoltQueries.Bolt_GetDir_run owner b _ dn Hb Hdn Hbegin) as [(fs & ds & Hrun & Hor & Hl & Hds & Hnd & _)|(Hrun & Hne & Hno)].
    + right. assert (exists n, Inmem.node_at (Inmem.fileTree d) dn = Some n) as [n Hn].
      { destruct dn as [|x dn]; [by eexists|]. destruct Hor as [?|Hbelow]; [done|].
        apply below_ever in Hbelow. by apply Hnode in Hbelow. }
      rewrite Hn. exists fs, (range_map (Inmem.dirs n)).*1, ds. split_and!; [|done|apply NoDup_range_map|done| |].
      * do 3 f_equal. apply map_eq. intros fn. rewrite (InmemProofs.node_files _ _ _ fn Hn), (Hl fn). apply Hfiles.
      * intros x. rewrite elem_of_range_keys, <-(InmemDisconnect.node_at_child _ _ _ _ Hn), Hnode by (by intros []%app_nil).
        rewrite Hds. split.
        -- intros Hever. destruct (decide (x ∈ ds)) as [Hx|Hx]; [left; by apply Hds|right].
           split; [by intros []%app_nil|]. split; [done|]. intros Hbelow. by apply Hx, Hds.
        -- intros [Hbelow|(_ & ? & _)]; [by apply below_ever|done].
      * intros x Hx (_ & _ & Hno). by apply Hno, Hds.
    + left. split; [|done]. destruct (Inmem.node_at (Inmem.fileTree d) dn) as [n|] eqn:Hn; [|done].
      exfalso. apply Hnot. split; [done|]. split; [|done]. apply Hnode; [done|by eexists].
Qed.
End claims.

(** ** Both on a history that empties a directory *)

Definition demo_owner : FileTable.path -> string := BoltTheorems.demo_owner.

Definition demo_history : history := [
  ((["a"; "x"], "f"), Some (mkFileInfo 3 "h" 0));
  ((["b"; "y"], "f"), Some (mkFileInfo 3 "h" 0));
  ((["a"; "x"], "g"), Some (mkFileInfo 5 "k" 1000000000));
  ((["b"; "y"], "f"), None)].

(** The state that a run ends in. *)
Definition final {D : Type} (r : outcome (D * bool)) (d : D) : D := match r with Done (d', _) => d' | _ => d end.
Definition ends {D : Type} (r : outcome (D * bool)) : bool := match r with Done (_, true) => true | _ => false end.

Lemma final_run {D : Type} (r : outcome (D * bool)) (d : D) : ends r = true -> r = Done (final r d, true).
Proof. by destruct r as [[d' []]| |]. Qed.

Definition inmem_end : Inmem.Database :=
  final (replay Inmem.SetFile demo_owner Inmem.newDatabase demo_history) Inmem.newDatabase.

Section bolt_demo.
Import Bolt BoltTree.
Definition bolt0 : @Bolt.Database tree_store := BoltTheorems.demo0.
Definition bolt_end : @Bolt.Database tree_store :=
  final (replay (Bolt.SetFile (J := bits_json)) demo_owner bolt0 demo_history) bolt0.

Lemma inmem_bolt_listings_witness :
  (exists ds, @Inmem.GetDir std_range inmem_end "b" = (Some (∅, ds), None)) /\
  Bolt.GetDir bolt_end "b" = Done (None, Some (errors_New "ENOENT")).
Proof.
  refine (proj1 (inmem_bolt_listings (H := std_range) (B := tree_store) (BL := tree_laws) (J := bits_json)
    (JL := bits_laws) demo_owner demo_history inmem_end bolt0 bolt_end ["b"] _ _ _ _ _ _) _).
  - apply BoltTheorems.demo0_holds.
  - repeat (constructor; [split; [by repeat constructor|reflexivity]|]). constructor.
  - apply final_run. vm_compute. reflexivity.
  - apply final_run. vm_compute. reflexivity.
  - by repeat constructor.
  - reflexivity.
  - split; [done|]. split.
    + exists (["b"; "y"], "f"), (mkFileInfo 3 "h" 0). split; [right; by left|]. by exists ["y"].
    + intros (p & [f Hp] & Hq). change (table_after ∅ demo_history) with
        (delete (["b"; "y"], "f") (<[(["a"; "x"], "g") := mkFileInfo 5 "k" 1000000000]>
          (<[(["b"; "y"], "f") := mkFileInfo 3 "h" 0]>
          (<[(["a"; "x"], "f") := mkFileInfo 3 "h" 0]> (∅ : FileTable.table))))) in Hp.
      apply lookup_delete_Some in Hp as [Hne Hp].
      apply lookup_insert_Some in Hp as [[<- _]|[_ Hp]]; [by apply prefix_cons_inv_1 in Hq|].
      apply lookup_insert_Some in Hp as [[<- _]|[_ Hp]]; [done|].
      apply lookup_insert_Some in Hp as [[<- _]|[_ Hp]]; [by apply prefix_cons_inv_1 in Hq|].
      by rewrite lookup_empty in Hp.
Defined.
End bolt_demo.

End DatabaseEquivalence.
