(* ===== verification/Master.v ===== *)
(** * The master ([master.go])

The RPC handlers of [RUFSMasterService], each on the state of one connection
([Peer]) and the database, and the master as a state machine over the events of
its connections. The database is any implementation of [DatabaseOps]. *)

From stdpp Require Import pretty.
From S2P Require Import Prelude GoStrings Types Crypto DatabaseSpec.
Import Crypto.

Module Master.

(** The state of one connection; [conn] is in [Conn]. *)
Record Peer := mkPeer {
  user : string;
  address : string;
  ident : string;
}.

(** [&Peer{}] *)
Definition new_peer : Peer := mkPeer "" "" "".

#[export] Instance Peer_eq_dec : EqDecision Peer.
Proof. solve_decision. Defined.

(** What the handlers read of the [*tls.Conn]: the verified chains, as the
common names of their certificates (the leaf first), and the remote address. *)
Record Conn := {
  VerifiedChains : list (list string);
  RemoteAddr : string;
}.

(** The network as [Signin] meets it: the errors of [NewRUFSClient(addr, cfg)]
and of [client.Ping()], for the address and the [ServerName] of the
configuration. *)
Record Network := {
  connect : string -> string -> option error;
  ping : string -> string -> option error;
}.

Definition err_signin_first : error := errors_New "SetFile denied before calling Signin with Address".
Definition err_getdir_first : error := errors_New "GetDir denied before calling Signin".
Definition err_getowners_first : error := errors_New "GetOwners denied before calling Signin".

Section handlers.
Context `{X509} {ops : DatabaseOps}.

(** [RUFSMasterService.Register]: the certificate, or an error. *)
Definition Register (rnd : Z) (serial : error + Z) (now now' : Z) (vault : MasterVault)
    (q : RegisterRequest) : outcome (string * option error) :=
  let token := createAuthToken vault (Register_User q) in
  if decide (token <> Register_Token q) then Done ("", Some (errors_New "Token is invalid"))
  else
    '(cert, err) ← signClient rnd serial now now' vault (Register_PublicKey q) (Register_User q);
    match err with
    | Some err => Done ("", Some (Errorf "Failed to sign certificate: %v" [err]))
    | None => Done (cert, None)
    end.

(** The address to connect back to. *)
Definition callback_addr (conn : Conn) (addr : string) : string :=
  if strings.HasPrefix addr ":" then
    let host := match net.SplitHostPort (RemoteAddr conn) with
                | Some (host, _) => host
                | None => ""
                end in
    net.JoinHostPort host (strings.drop 1 addr)
  else addr.

(** [RUFSMasterService.Signin] *)
Definition Signin (netw : Network) (conn : Conn) (peer : Peer) (q : SigninRequest)
    : outcome (Peer * option error) :=
  if decide (Signin_ProtocolVersion q <> 1%Z)
  then Done (peer, Some (Errorf "Protocol %d not supported"
                     [errors_New (pretty (Signin_ProtocolVersion q))]))
  else if decide (Signin_User q = "")
  then Done (peer, Some (Errorf "Invalid credentials for user %q" [errors_New (Signin_User q)]))
  else if decide (VerifiedChains conn = [])
  then Done (peer, Some (errors_New "Signin is only possible with a valid certificate"))
  else
    chain ← go_index (VerifiedChains conn) 0;
    leaf ← go_index chain 0;
    if decide (leaf <> Signin_User q)
    then Done (peer, Some (errors_New "User does not match certificate"))
    else if decide (Signin_Address q <> "") then
      let addr := callback_addr conn (Signin_Address q) in
      match connect netw addr (Signin_User q) with
      | Some err => Done (peer, Some (Errorf "Failed to connect back to %q: %v" [errors_New addr; err]))
      | None =>
          match ping netw addr (Signin_User q) with
          | Some err => Done (peer, Some (Errorf "Failed to ping to %q: %v" [errors_New addr; err]))
          | None =>
              Done (mkPeer (Signin_User q) addr (Signin_User q ++ "@" ++ addr), None)
          end
      end
    else Done (mkPeer (Signin_User q) (address peer) (ident peer), None).

(** The check of the parts of a path: the first one that is refused. *)
Fixpoint first_bad (ex : list string) : option string :=
  match ex with
  | [] => None
  | p :: ex' => if bad_part p then Some p else first_bad ex'
  end.

(** [RUFSMasterService.SetFile] *)
Definition SetFile (peer : Peer) (d : db) (q : SetFileRequest) : outcome (db * option error) :=
  if decide (address peer = "") then Done (d, Some err_signin_first)
  else
    let ex := user peer :: strings.Split (SetFile_Path q) "/" in
    match first_bad ex with
    | Some p => Done (d, Some (err_bad_part p))
    | None => db_SetFile d ex (SetFile_Info q) (ident peer)
    end.

(** [RUFSMasterService.GetDir] *)
Definition GetDir (peer : Peer) (d : db) (Path : string)
    : outcome (db * option GetDirReply * option error) :=
  if decide (user peer = "") then Done (d, None, Some err_getdir_first)
  else
    '(d, r, err) ← db_GetDir d (strings.Trim Path slash);
    match err, r with
    | Some err, _ => Done (d, None, Some err)
    | None, Some (files, dirs) => Done (d, Some (mkGetDirReply dirs files), None)
    | None, None => Done (d, Some (mkGetDirReply [] ∅), None)
    end.

(** [RUFSMasterService.GetOwners] *)
Definition GetOwners (peer : Peer) (d : db) (hash : string)
    : outcome (list string * option error) :=
  if decide (user peer = "") then Done ([], Some err_getowners_first)
  else db_GetOwners d hash.

(** [Peer.Disconnected]; the error of the database is dropped. *)
Definition Disconnected (peer : Peer) (d : db) : outcome db :=
  if decide (address peer = "") then Done d
  else '(d, _) ← db_PeerDisconnected d (ident peer); Done d.

(** ** The master as a state machine

[Run] accepts connections, serves the calls of each one on its own [Peer], and
runs [Disconnected] when the connection ends. *)

Record state := mkState {
  database : db;
  peers : gmap nat (Conn * Peer);
}.

Inductive step : state -> state -> Prop :=
  | step_accept st id conn :
      peers st !! id = None ->
      step st (mkState (database st) (<[id := (conn, new_peer)]> (peers st)))
  | step_signin st id conn peer netw q peer' e :
      peers st !! id = Some (conn, peer) ->
      Signin netw conn peer q = Done (peer', e) ->
      step st (mkState (database st) (<[id := (conn, peer')]> (peers st)))
  | step_setfile st id conn peer q d' e :
      peers st !! id = Some (conn, peer) ->
      SetFile peer (database st) q = Done (d', e) ->
      step st (mkState d' (peers st))
  | step_getdir st id conn peer path d' r e :
      peers st !! id = Some (conn, peer) ->
      GetDir peer (database st) path = Done (d', r, e) ->
      step st (mkState d' (peers st))
  | step_disconnect st id conn peer d' :
      peers st !! id = Some (conn, peer) ->
      Disconnected peer (database st) = Done d' ->
      step st (mkState d' (delete id (peers st))).

Definition reachable (d0 : db) : state -> Prop := rtc step (mkState d0 ∅).

End handlers.
End Master.
