(* ===== verification/MasterTheorems.v ===== *)
(** * Properties of the master

Against the interface [DatabaseLaws]: what signing in establishes, what the
path check lets through, that published files reach the other peers, and that
peers cannot touch each other's directories. *)

From S2P Require Import Prelude GoStrings Types Crypto DatabaseSpec Master.
From S2P Require Import DatabaseInmem DatabaseInmemProofs DatabaseInmemInterface.
Import Crypto Master.

Module MasterTheorems.

(** ** The path check *)

Lemma first_bad_None ex : first_bad ex = None <-> Forall (fun p => bad_part p = false) ex.
Proof.
  induction ex as [|p ex IH]; simpl; [done|].
  rewrite Forall_cons. destruct (bad_part p); naive_solver.
Qed.

Lemma first_bad_Some ex p :
  first_bad ex = Some p <->
  exists pre post, ex = pre ++ p :: post /\ Forall (fun q => bad_part q = false) pre /\
    bad_part p = true.
Proof.
  induction ex as [|q ex IH]; simpl.
  - split; [done|]. by intros ([|] & ? & ? & _).
  - destruct (bad_part q) eqn:Hq.
    + split.
      * intros [= <-]. by exists [], ex.
      * intros ([|q' pre] & post & [= -> ->] & Hpre & Hp); [done|].
        apply Forall_cons in Hpre as [? _]. congruence.
    + rewrite IH. split.
      * intros (pre & post & -> & Hpre & Hp). exists (q :: pre), post.
        by rewrite Forall_cons.
      * intros ([|q' pre] & post & [= -> ->] & Hpre & Hp); [congruence|].
        apply Forall_cons in Hpre as [_ Hpre]. eauto.
Qed.

(** The path of a [SetFile] request of a peer: its directory and base name. *)
Definition path_of (u Path : string) : FileTable.path :=
  (u :: removelast (strings.Split Path "/"), List.last (strings.Split Path "/") "").

Lemma fnEx_path_of u Path :
  FileTable.fnEx (path_of u Path) = u :: strings.Split Path "/".
Proof.
  unfold FileTable.fnEx, path_of. simpl. f_equal. symmetry.
  apply app_removelast_last, (Split_not_nil slash).
Qed.

Lemma Split_good Path :
  Forall (fun p => bad_part p = false) (strings.Split Path "/") ->
  Forall good_part (strings.Split Path "/").
Proof.
  intros Hb. pose proof (Split_no_sep slash Path) as Hs.
  rewrite Forall_forall in *. intros p Hp. split; [by apply Hb|by apply Hs].
Qed.

Lemma removelast_subseteq {A} (l : list A) x : x ∈ removelast l -> x ∈ l.
Proof.
  induction l as [|y l IH]; simpl; [done|]. destruct l; [by intros ?%elem_of_nil|].
  rewrite !(elem_of_cons _ x y). naive_solver.
Qed.

(** ** Signing in *)

(** The common name of the certificate that the connection was verified with. *)
Definition leaf_of (conn : Conn) : option string := chain ← head (VerifiedChains conn); head chain.

(** What [Signin] keeps true of the state of a connection. *)
Definition peer_ok (conn : Conn) (peer : Peer) : Prop :=
  (user peer = "" /\ address peer = "" /\ ident peer = "") \/
  (user peer <> "" /\ leaf_of conn = Some (user peer) /\
   ((address peer = "" /\ ident peer = "") \/
    (address peer <> "" /\ ident peer = (user peer ++ "@" ++ address peer)%string))).

Lemma go_index_0 {A} (l : list A) x : go_index l 0 = Done x <-> head l = Some x.
Proof. rewrite go_index_Done. destruct l; simpl; naive_solver. Qed.

Lemma callback_addr_not_empty conn addr : addr <> "" -> callback_addr conn addr <> "".
Proof.
  intros Ha. unfold callback_addr. case_match; [|done].
  unfold net.JoinHostPort. case_match; [done|].
  generalize (match net.SplitHostPort (RemoteAddr conn) with Some (h, _) => h | None => "" end).
  intros s. by destruct s.
Qed.

Lemma Signin_run netw conn peer q peer' e :
  Signin netw conn peer q = Done (peer', e) ->
  (e <> None /\ peer' = peer) \/
  (e = None /\ Signin_ProtocolVersion q = 1%Z /\ Signin_User q <> "" /\
   leaf_of conn = Some (Signin_User q) /\
   ((Signin_Address q = "" /\ peer' = mkPeer (Signin_User q) (address peer) (ident peer)) \/
    (Signin_Address q <> "" /\
     let addr := callback_addr conn (Signin_Address q) in
     connect netw addr (Signin_User q) = None /\ ping netw addr (Signin_User q) = None /\
     peer' = mkPeer (Signin_User q) addr (Signin_User q ++ "@" ++ addr)))).
Proof.
  unfold Signin. intros Hrun.
  case_decide as Hv; [left; naive_solver|]. case_decide as Hu; [left; naive_solver|].
  case_decide as Hc; [left; naive_solver|].
  destruct (go_index (VerifiedChains conn) 0) as [chain| |] eqn:E1; simpl in Hrun; try done.
  destruct (go_index chain 0) as [leaf| |] eqn:E2; simpl in Hrun; try done.
  apply go_index_0 in E1, E2.
  assert (Hleaf : leaf_of conn = Some leaf) by (unfold leaf_of; by rewrite E1).
  case_decide as Hl; [left; naive_solver|]. subst leaf.
  case_decide as Ha.
  - destruct (connect _ _ _) eqn:Hcon; [left; naive_solver|].
    destruct (ping _ _ _) eqn:Hping; [left; naive_solver|].
    right. injection Hrun as <- <-. repeat split; try done. right. by repeat split.
  - right. injection Hrun as <- <-. repeat split; try done. by left.
Qed.

Lemma Signin_peer_ok netw conn peer q peer' e :
  peer_ok conn peer -> Signin netw conn peer q = Done (peer', e) -> peer_ok conn peer'.
Proof.
  intros Hok Hrun.
  apply Signin_run in Hrun as [[_ ->]|(_ & _ & Hu & Hleaf & [[_ ->]|(Ha & _ & _ & ->)])]; [done| |].
  - right. split; [done|]. split; [done|]. simpl.
    destruct Hok as [(_ & ? & ?)|(_ & Hleaf' & Hid)]; [by left|].
    rewrite Hleaf in Hleaf'. injection Hleaf' as Huser. by rewrite <-Huser in Hid.
  - right. split; [done|]. split; [done|]. right. split; [|done].
    by apply callback_addr_not_empty.
Qed.

Section machine.
Context {ops : DatabaseOps}.

Definition peers_ok (st : state) : Prop :=
  forall id conn peer, peers st !! id = Some (conn, peer) -> peer_ok conn peer.

Lemma peers_ok_insert d (ps : gmap nat (Conn * Peer)) id conn peer :
  (forall id conn peer, ps !! id = Some (conn, peer) -> peer_ok conn peer) ->
  peer_ok conn peer -> peers_ok (mkState d (<[id := (conn, peer)]> ps)).
Proof.
  intros Hps Hp id' conn' peer'. simpl. destruct (decide (id = id')) as [->|Hne].
  - rewrite lookup_insert_eq. naive_solver.
  - rewrite lookup_insert_ne by done. apply Hps.
Qed.

Lemma step_peers_ok st st' : peers_ok st -> step st st' -> peers_ok st'.
Proof.
  intros Hok Hstep. destruct Hstep as [st id conn Hn|st id conn peer netw q peer' e Hp Hrun
    |st id conn peer q d' e Hp Hrun|st id conn peer path d' r e Hp Hrun|st id conn peer d' Hp Hrun].
  - apply peers_ok_insert; [exact Hok|]. by left.
  - apply peers_ok_insert; [exact Hok|]. eapply Signin_peer_ok; [|exact Hrun]. by eapply Hok.
  - exact Hok.
  - exact Hok.
  - intros id' conn' peer'. simpl. intros [_ Hl]%lookup_delete_Some. by eapply Hok.
Qed.

Lemma reachable_peers_ok d0 st : reachable d0 st -> peers_ok st.
Proof.
  intros Hr.
  refine (rtc_inv step peers_ok (mkState d0 ∅) st _ _ Hr).
  - intros id conn peer. simpl. by rewrite lookup_empty.
  - intros y z Hstep Hy. by eapply step_peers_ok.
Qed.

(** ** Calls on the database *)

Lemma SetFile_calls (peer : Peer) (d : db) q :
  address peer <> "" -> Forall (fun p => bad_part p = false) (user peer :: strings.Split (SetFile_Path q) "/") ->
  SetFile peer d q =
    db_SetFile d (FileTable.fnEx (path_of (user peer) (SetFile_Path q))) (SetFile_Info q) (ident peer).
Proof.
  intros Ha Hgood. unfold SetFile. rewrite decide_False by done.
  rewrite (proj2 (first_bad_None _) Hgood). by rewrite fnEx_path_of.
Qed.

Lemma SetFile_run (peer : Peer) (d : db) q d' e :
  SetFile peer d q = Done (d', e) ->
  (d' = d /\ e <> None) \/
  (address peer <> "" /\
   Forall (fun p => bad_part p = false) (user peer :: strings.Split (SetFile_Path q) "/") /\
   db_SetFile d (FileTable.fnEx (path_of (user peer) (SetFile_Path q))) (SetFile_Info q) (ident peer)
     = Done (d', e)).
Proof.
  unfold SetFile. intros Hrun. case_decide as Ha; [left; naive_solver|].
  destruct (first_bad _) as [p|] eqn:Hb; [left; naive_solver|].
  right. apply first_bad_None in Hb. rewrite fnEx_path_of. done.
Qed.

Lemma GetDir_of_parts {laws : DatabaseLaws ops} owner_of (peer : Peer) d S dn p f :
  db_holds owner_of d S -> Forall good_part dn -> user peer <> "" -> S !! (dn, p) = Some f ->
  exists d' r, GetDir peer d (strings.Join dn "/") = Done (d', Some r, None) /\
    db_holds owner_of d' S /\ Files r !! p = Some f /\ FileTable.lists S dn (Files r).
Proof.
  intros HR Hgood Hu Hf. unfold GetDir. rewrite decide_False by done.
  assert (strings.Trim (strings.Join dn "/") slash = strings.Join dn "/") as ->.
  { apply (Trim_Join slash). eapply Forall_impl; [exact Hgood|].
    intros s [Hs1 Hs2]. split; [by intros ->|done]. }
  destruct (db_listing owner_of d S dn HR Hgood) as (d' & r & e & -> & HR' & Hr).
  destruct Hr as [(fs & ds & -> & -> & Hl)|(_ & _ & Hno)].
  - simpl. eexists _, _. split; [done|]. simpl. split; [done|]. split; [by rewrite Hl|done].
  - by rewrite Hno in Hf.
Qed.

End machine.

(** ** Isolation between users *)

Section isolation.
Context {ops : DatabaseOps} {laws : DatabaseLaws ops}.
(** [ident_of u]: the one identity with which the user [u] publishes. *)
Context (ident_of : string -> string).

(** A path belongs to the user whose name it starts with. *)
Definition owner_by_user (p : FileTable.path) : string :=
  match p.1 with
  | u :: _ => ident_of u
  | [] => ""
  end.

(** No connection is verified as [u], and each user has a name that the
database keeps apart and publishes with its one identity. *)
Definition without_user (u : string) (st : state) : Prop :=
  forall id conn peer, peers st !! id = Some (conn, peer) ->
    leaf_of conn <> Some u /\
    (address peer <> "" -> db_name_ok (user peer) /\ ident peer = ident_of (user peer)).

Definition step_without (u : string) (st st' : state) : Prop := step st st' /\ without_user u st'.

(** The database holds a table that agrees with [S0] on the files of [u]. *)
Definition keeps_files (u : string) (S0 : FileTable.table) (st : state) : Prop :=
  exists S, db_holds owner_by_user (database st) S /\
    forall dn fn, S !! (u :: dn, fn) = S0 !! (u :: dn, fn).

Lemma step_keeps_files u S0 st st' :
  (forall v, ident_of v = ident_of u -> v = u) ->
  peers_ok st -> without_user u st -> step st st' ->
  keeps_files u S0 st -> keeps_files u S0 st'.
Proof.
  intros Hinj Hok Hwo Hstep (S & HR & HS). destruct Hstep as [st id conn Hn
    |st id conn peer netw q peer' e Hp Hrun|st id conn peer q d' e Hp Hrun
    |st id conn peer path d' r e Hp Hrun|st id conn peer d' Hp Hrun].
  - by exists S.
  - by exists S.
  - specialize (Hwo id conn peer Hp) as [Hleaf Hid].
    apply SetFile_run in Hrun as [[-> _]|(Ha & Hparts & Hrun)]; [by exists S|].
    assert (user peer <> u) as Hne.
    { destruct (Hok id conn peer Hp) as [(_ & ? & _)|(_ & Hl & _)]; congruence. }
    destruct (Hid Ha) as [Hname Hident].
    assert (Howner : ident peer = owner_by_user (path_of (user peer) (SetFile_Path q))) by exact Hident.
    rewrite Howner in Hrun. apply (db_set owner_by_user _ S) in Hrun; [|done|].
    2:{ rewrite fnEx_path_of. apply Forall_cons in Hparts as [_ Hparts].
        constructor; [done|]. eapply Forall_impl; [by apply Split_good|]. apply db_good_ok. }
    eexists. split; [exact Hrun|]. intros dn fn. destruct e; [apply HS|].
    rewrite FileTable.lookup_set. rewrite decide_False; [apply HS|]. unfold path_of. congruence.
  - exists S. split; [|done]. unfold GetDir in Hrun. case_decide; [by injection Hrun as <- _ _|].
    destruct (db_GetDir _ _) as [[[d2 r2] e2]| |] eqn:Hd; simpl in Hrun; try done.
    apply (db_listing_keeps owner_by_user _ S) in Hd; [|done].
    destruct e2, r2 as [[]|]; by injection Hrun as <- _ _.
  - specialize (Hwo id conn peer Hp) as [Hleaf Hid].
    unfold Disconnected in Hrun. case_decide as Ha; [injection Hrun as <-; by exists S|].
    destruct (db_PeerDisconnected _ _) as [[d2 e]| |] eqn:Hd; simpl in Hrun; try done.
    injection Hrun as <-.
    destruct (db_disconnect owner_by_user _ S _ _ _ HR Hd) as (S' & HR' & _ & Hkeep).
    exists S'. split; [done|]. intros dn fn. rewrite <-HS. apply Hkeep.
    unfold owner_by_user. simpl. destruct (Hid Ha) as [_ ->]. intros Heq. symmetry in Heq.
    apply Hinj in Heq. destruct (Hok id conn peer Hp) as [(_ & ? & _)|(_ & Hl & _)]; congruence.
Qed.
End isolation.

(** ** Claims *)

Section claims.
Context {ops : DatabaseOps}.

(** a file that a signed-in peer publishes reaches every other signed-in
peer: [SetFile] succeeds, and then [GetDir] of the file's directory, as any
peer would spell it, has the file with its info and lists exactly the updated
directory, and [GetOwners] of its hash names the publisher; for every complete
database and an info that it keeps as it is. *)
Theorem published_file_reaches_peers {laws : DatabaseLaws ops} {full : DatabaseComplete ops laws}
    owner_of (a b : Peer) d S q f :
  db_holds owner_of d S ->
  address a <> "" -> good_part (user a) -> user b <> "" ->
  SetFile_Info q = Some f ->
  Forall (fun p => bad_part p = false) (strings.Split (SetFile_Path q) "/") ->
  db_stored f = f ->
  let p := path_of (user a) (SetFile_Path q) in
  owner_of p = ident a ->
  exists d' d'' r os,
    SetFile a d q = Done (d', None) /\ db_holds owner_of d' (FileTable.set S p (Some f)) /\
    GetDir b d' (strings.Join p.1 "/") = Done (d'', Some r, None) /\ Files r !! p.2 = Some f /\
    FileTable.lists (FileTable.set S p (Some f)) p.1 (Files r) /\
    GetOwners b d'' (Hash f) = Done (os, None) /\ ident a ∈ os.
Proof.
  intros HR Ha Hu Hb Hinfo Hparts Hf p Howner.
  assert (Hex : Forall good_part (FileTable.fnEx p)).
  { unfold p. rewrite fnEx_path_of. constructor; [done|by apply Split_good]. }
  assert (Hok : Forall db_name_ok (FileTable.fnEx p)).
  { eapply Forall_impl; [exact Hex|apply db_good_ok]. }
  destruct (db_publish owner_of d S p f HR Hok) as (d' & Hrun).
  pose proof (db_set owner_of d S p (Some f) d' None HR Hok Hrun) as HR'.
  simpl in HR'. rewrite Hf in HR'.
  assert (Hp : FileTable.set S p (Some f) !! (p.1, p.2) = Some f).
  { rewrite FileTable.lookup_set, decide_True; [done|by destruct p]. }
  assert (Hgood : Forall good_part p.1) by (by apply Forall_app in Hex as [? _]).
  destruct (GetDir_of_parts owner_of b d' _ p.1 p.2 f HR' Hgood Hb Hp)
    as (d'' & r & Hr & HR'' & Hrf & Hl).
  destruct (db_owners owner_of d'' _ (Hash f) HR'') as (os & Hos & Hin).
  assert (Howns : FileTable.owns owner_of (FileTable.set S p (Some f)) (Hash f) (ident a)).
  { exists (p.1, p.2), f. split; [done|]. split; [done|]. by destruct p. }
  apply Hin in Howns.
  exists d', d'', r, os. split.
  { rewrite SetFile_calls; [by rewrite Hinfo, <-Howner|done|]. constructor; [apply Hu|done]. }
  split; [done|]. split; [done|]. split; [done|]. split; [done|]. split; [|done].
  unfold GetOwners. by rewrite decide_False.
Qed.

(** with any database: in every run of the master in which no connection is
verified as [u] and users keep to one identity each, which is not that of [u],
the files under [u]'s directory stay as they were. *)
Theorem single_identities_isolated {laws : DatabaseLaws ops} ident_of u d0 S0 st :
  (forall v, ident_of v = ident_of u -> v = u) ->
  db_holds (owner_by_user ident_of) d0 S0 ->
  rtc (step_without ident_of u) (mkState d0 ∅) st ->
  keeps_files ident_of u S0 st.
Proof.
  intros Hinj HR Hrun.
  enough (peers_ok st /\ without_user ident_of u st /\ keeps_files ident_of u S0 st) by naive_solver.
  refine (rtc_inv (step_without ident_of u)
    (fun st => peers_ok st /\ without_user ident_of u st /\ keeps_files ident_of u S0 st)
    (mkState d0 ∅) st _ _ Hrun).
  - split; [|split; [|by exists S0]]; intros id conn peer; simpl; by rewrite lookup_empty.
  - intros y z [Hstep Hwo] (Hok & Hwo' & Hk).
    split; [by eapply step_peers_ok|]. split; [done|]. by eapply step_keeps_files.
Qed.

(** C13: in every reachable state of the master a connection without a verified
certificate is refused by [SetFile], [GetDir] and [GetOwners] with their
errors, the database untouched, and a connection that is not refused by
[GetDir] speaks for the common name of its certificate; an identity is always
user\@address. *)
Theorem reachable_sessions (d0 : db) (st : state) id conn peer :
  reachable d0 st -> peers st !! id = Some (conn, peer) ->
  (leaf_of conn = None ->
     (forall q, SetFile peer (database st) q = Done (database st, Some err_signin_first)) /\
     (forall path, GetDir peer (database st) path = Done (database st, None, Some err_getdir_first)) /\
     (forall h, GetOwners peer (database st) h = Done ([], Some err_getowners_first))) /\
  (user peer <> "" -> leaf_of conn = Some (user peer)) /\
  (address peer <> "" -> user peer <> "" /\ ident peer = (user peer ++ "@" ++ address peer)%string).
Proof.
  intros Hr Hp. pose proof (reachable_peers_ok d0 st Hr id conn peer Hp) as Hok.
  split; [|split].
  - intros Hnone. destruct Hok as [(Hu & Ha & _)|(_ & Hleaf & _)]; [|congruence].
    unfold SetFile, GetDir, GetOwners. rewrite Hu, Ha. done.
  - intros Hu. by destruct Hok as [(? & _)|(_ & ? & _)].
  - intros Ha. destruct Hok as [(_ & ? & _)|(Hu & _ & [[? _]|[_ ?]])]; done.
Qed.

(** [SetFile] refuses exactly the paths with an empty part or one that
starts with a dot, naming the first such part and leaving the database alone;
every other path reaches the database under the peer's own directory. *)
Theorem SetFile_path_check (peer : Peer) (d : db) q :
  address peer <> "" -> bad_part (user peer) = false ->
  (exists pre p post, strings.Split (SetFile_Path q) "/" = pre ++ p :: post /\
     Forall (fun r => bad_part r = false) pre /\ bad_part p = true /\
     SetFile peer d q = Done (d, Some (err_bad_part p))) \/
  (Forall good_part (strings.Split (SetFile_Path q) "/") /\
   SetFile peer d q =
     db_SetFile d (user peer :: strings.Split (SetFile_Path q) "/") (SetFile_Info q) (ident peer)).
Proof.
  intros Ha Hu. unfold SetFile. rewrite decide_False by done. simpl. rewrite Hu.
  destruct (first_bad _) as [p|] eqn:Hb.
  - left. apply first_bad_Some in Hb as (pre & post & Heq & Hpre & Hp). by exists pre, p, post.
  - right. apply first_bad_None in Hb. split; [by apply Split_good|done].
Qed.

(** [Signin] succeeds exactly when the protocol is 1, the user is not
empty and is the common name of the verified leaf, and the given address, if
any, can be connected to and pinged; a refusal leaves the peer as it was. *)
Theorem Signin_accepts netw conn peer q :
  Forall (fun chain => chain <> []) (VerifiedChains conn) ->
  exists peer' e, Signin netw conn peer q = Done (peer', e) /\
    (e <> None -> peer' = peer) /\
    (e = None <->
      Signin_ProtocolVersion q = 1%Z /\ Signin_User q <> "" /\
      leaf_of conn = Some (Signin_User q) /\
      (Signin_Address q = "" \/
       connect netw (callback_addr conn (Signin_Address q)) (Signin_User q) = None /\
       ping netw (callback_addr conn (Signin_Address q)) (Signin_User q) = None)).
Proof.
  intros Hchains.
  assert (exists r, Signin netw conn peer q = Done r) as [[peer' e] Hrun].
  { unfold Signin. destruct (VerifiedChains conn) as [|[|leaf chain] cs].
    - repeat case_decide; solve [eauto | done].
    - by apply Forall_cons in Hchains as [Hc _].
    - rewrite (proj2 (go_index_0 ((leaf :: chain) :: cs) (leaf :: chain)) eq_refl). cbn [mbind outcome_bind].
      rewrite (proj2 (go_index_0 (leaf :: chain) leaf) eq_refl). cbn [mbind outcome_bind].
      repeat case_match; eauto. }
  exists peer', e. split; [done|]. pose proof (Signin_run _ _ _ _ _ _ Hrun) as Hinv.
  split; [naive_solver|]. split; [naive_solver|].
  intros (Hv & Hu & Hleaf & Haddr). destruct Hinv as [[He _]|(He & _)]; [|done]. exfalso.
  unfold Signin in Hrun. rewrite decide_False in Hrun by naive_solver.
  rewrite decide_False in Hrun by done.
  unfold leaf_of in Hleaf. destruct (VerifiedChains conn) as [|chain cs]; [done|].
  simpl in Hleaf. destruct chain as [|leaf chain]; [done|]. injection Hleaf as ->.
  rewrite decide_False in Hrun by done. simpl in Hrun.
  rewrite decide_False in Hrun by naive_solver.
  case_decide as Ha; [|naive_solver].
  destruct Haddr as [?|[Hc Hpi]]; [done|]. rewrite Hc, Hpi in Hrun. naive_solver.
Qed.

(** a second [Signin] of a connection, with another address, loses track of
the files published before it: they are still in the database after
[Disconnected]. *)
Theorem second_signin_leaks {laws : DatabaseLaws ops} owner_of netw conn peer q peer' (d : db) S p f d' :
  db_holds owner_of d S -> S !! p = Some f -> owner_of p = ident peer ->
  peer_ok conn peer -> address peer <> "" ->
  Signin netw conn peer q = Done (peer', None) ->
  Signin_Address q <> "" -> callback_addr conn (Signin_Address q) <> address peer ->
  Disconnected peer' d = Done d' ->
  exists S', db_holds owner_of d' S' /\ S' !! p = Some f.
Proof.
  intros HR Hp Ho Hok Ha Hsign Hq Haddr Hrun.
  assert (ident peer' <> ident peer) as Hne.
  { apply Signin_run in Hsign as [[? _]|(_ & _ & _ & Hleaf & [[? _]|(_ & _ & _ & ->)])]; [done|done|].
    destruct Hok as [(_ & ? & _)|(_ & Hleaf' & [[? _]|[_ ->]])]; [done|done|].
    rewrite Hleaf in Hleaf'. injection Hleaf' as ->. simpl.
    intros Heq. by apply (inj (String.append (user peer))), (inj (String.append "@")) in Heq. }
  unfold Disconnected in Hrun. case_decide; [injection Hrun as <-; by exists S|].
  destruct (db_PeerDisconnected _ _) as [[d2 e]| |] eqn:Hd; simpl in Hrun; try done.
  injection Hrun as <-.
  destruct (db_disconnect owner_of _ S _ _ _ HR Hd) as (S' & HR' & _ & Hkeep).
  exists S'. split; [done|]. rewrite Hkeep; [done|congruence].
Qed.

End claims.

(** ** A concrete network and connections for the witnesses *)

Definition open_network : Network :=
  {| connect := fun _ _ => None; ping := fun _ _ => None |}.

Definition conn_a : Conn :=
  {| VerifiedChains := [["a"; "rufs-master"]]; RemoteAddr := "10.0.0.7:4242" |}.

Definition signin_a : SigninRequest :=
  {| Signin_ProtocolVersion := 1; Signin_User := "a"; Signin_Address := ":1667" |}.

Definition peer_a : Peer := mkPeer "a" "10.0.0.7:1667" "a@10.0.0.7:1667".
Definition peer_b : Peer := mkPeer "b" "" "".

Example Signin_a : Signin open_network conn_a new_peer signin_a = Done (peer_a, None).
Proof. reflexivity. Qed.

(** ** Witnesses, on the in-memory database *)

Definition ops0 : DatabaseOps := @InmemInterface.inmem_ops std_range.
Definition laws0 : DatabaseLaws ops0 := @InmemInterface.inmem_laws std_range.
Definition full0 : DatabaseComplete ops0 laws0 := @InmemInterface.inmem_complete std_range.

Definition db0 : @db ops0 := Inmem.newDatabase.

Definition q_a : SetFileRequest :=
  {| SetFile_Path := "docs/readme"; SetFile_Info := Some (mkFileInfo 3 "h" 0) |}.

Definition owner_a (p : FileTable.path) : string := "a@10.0.0.7:1667".

Lemma published_file_reaches_peers_witness :
  let p := path_of "a" "docs/readme" in
  exists d' d'' r os,
    @SetFile ops0 peer_a db0 q_a = Done (d', None) /\
    @db_holds ops0 laws0 owner_a d' (FileTable.set ∅ p (Some (mkFileInfo 3 "h" 0))) /\
    @GetDir ops0 peer_b d' (strings.Join p.1 "/") = Done (d'', Some r, None) /\
    Files r !! p.2 = Some (mkFileInfo 3 "h" 0) /\
    FileTable.lists (FileTable.set ∅ p (Some (mkFileInfo 3 "h" 0))) p.1 (Files r) /\
    @GetOwners ops0 peer_b d'' "h" = Done (os, None) /\ "a@10.0.0.7:1667" ∈ os.
Proof.
  apply (@published_file_reaches_peers ops0 laws0 full0 owner_a peer_a peer_b db0 ∅ q_a (mkFileInfo 3 "h" 0)).
  - apply InmemProofs.represents_new.
  - discriminate.
  - by split.
  - discriminate.
  - reflexivity.
  - repeat constructor.
  - reflexivity.
  - reflexivity.
Defined.

Definition st0 : @state ops0 := mkState db0 ∅.
Definition st1 : @state ops0 := mkState db0 {[0 := (conn_a, new_peer)]}.
Definition st2 : @state ops0 := mkState db0 {[0 := (conn_a, peer_a)]}.
Definition db3 : @db ops0 :=
  match @SetFile ops0 peer_a db0 q_a with Done (d, _) => d | _ => db0 end.
Definition st3 : @state ops0 := mkState db3 {[0 := (conn_a, peer_a)]}.

Lemma run_st3 : rtc (@step ops0) st0 st3.
Proof.
  eapply rtc_l; [exact (step_accept st0 0 conn_a eq_refl)|].
  eapply rtc_l; [exact (step_signin st1 0 conn_a new_peer open_network signin_a peer_a None eq_refl eq_refl)|].
  eapply rtc_l; [exact (step_setfile st2 0 conn_a peer_a q_a db3 None eq_refl ltac:(vm_compute; reflexivity))|].
  apply rtc_refl.
Qed.

Lemma reachable_sessions_witness :
  (leaf_of conn_a = None ->
     (forall q, @SetFile ops0 peer_a (database st3) q = Done (database st3, Some err_signin_first)) /\
     (forall path, @GetDir ops0 peer_a (database st3) path = Done (database st3, None, Some err_getdir_first)) /\
     (forall h, @GetOwners ops0 peer_a (database st3) h = Done ([], Some err_getowners_first))) /\
  (user peer_a <> "" -> leaf_of conn_a = Some (user peer_a)) /\
  (address peer_a <> "" ->
     user peer_a <> "" /\ ident peer_a = (user peer_a ++ "@" ++ address peer_a)%string).
Proof.
  apply (@reachable_sessions ops0 db0 st3 0 conn_a peer_a); [exact run_st3|reflexivity].
Defined.

Lemma SetFile_path_check_witness :
  let q := {| SetFile_Path := "x/../y"; SetFile_Info := None |} in
  (exists pre p post, strings.Split "x/../y" "/" = pre ++ p :: post /\
     Forall (fun r => bad_part r = false) pre /\ bad_part p = true /\
     @SetFile ops0 peer_a db0 q = Done (db0, Some (err_bad_part p))) \/
  (Forall good_part (strings.Split "x/../y" "/") /\
   @SetFile ops0 peer_a db0 q =
     @db_SetFile ops0 db0 ("a" :: strings.Split "x/../y" "/") None "a@10.0.0.7:1667").
Proof.
  intros q. apply (@SetFile_path_check ops0 peer_a db0 q); [discriminate|reflexivity].
Defined.

Lemma Signin_accepts_witness :
  exists peer' e, Signin open_network conn_a new_peer signin_a = Done (peer', e) /\
    (e <> None -> peer' = new_peer) /\
    (e = None <->
      Signin_ProtocolVersion signin_a = 1%Z /\ Signin_User signin_a <> "" /\
      leaf_of conn_a = Some (Signin_User signin_a) /\
      (Signin_Address signin_a = "" \/
       connect open_network (callback_addr conn_a (Signin_Address signin_a)) (Signin_User signin_a) = None /\
       ping open_network (callback_addr conn_a (Signin_Address signin_a)) (Signin_User signin_a) = None)).
Proof. apply Signin_accepts. repeat constructor. discriminate. Defined.

Definition signin_a2 : SigninRequest :=
  {| Signin_ProtocolVersion := 1; Signin_User := "a"; Signin_Address := "example.org:1" |}.
Definition peer_a2 : Peer := mkPeer "a" "example.org:1" "a@example.org:1".
Definition db4 : @db ops0 := match @Disconnected ops0 peer_a2 db3 with Done d => d | _ => db3 end.

Lemma db3_holds :
  @db_holds ops0 laws0 owner_a db3
    (FileTable.set ∅ (path_of "a" "docs/readme") (Some (mkFileInfo 3 "h" 0))).
Proof.
  set (p := path_of "a" "docs/readme").
  assert (Hok : Forall (@db_name_ok ops0 laws0) (FileTable.fnEx p)) by repeat constructor.
  assert (HR0 : @db_holds ops0 laws0 owner_a db0 ∅) by apply InmemProofs.represents_new.
  destruct (@db_publish ops0 laws0 full0 owner_a db0 ∅ p (mkFileInfo 3 "h" 0) HR0 Hok) as (d & Hrun).
  pose proof (@db_set ops0 laws0 owner_a db0 ∅ p (Some (mkFileInfo 3 "h" 0)) d None HR0 Hok Hrun) as HR.
  unfold db3. rewrite SetFile_calls; [|done|by repeat constructor].
  change (SetFile_Info q_a) with (Some (mkFileInfo 3 "h" 0)).
  change (ident peer_a) with (owner_a p).
  change (path_of (user peer_a) (SetFile_Path q_a)) with p.
  by rewrite Hrun.
Qed.

Lemma second_signin_leaks_witness :
  exists S', @db_holds ops0 laws0 owner_a db4 S' /\
    S' !! path_of "a" "docs/readme" = Some (mkFileInfo 3 "h" 0).
Proof.
  apply (@second_signin_leaks ops0 laws0 owner_a open_network conn_a peer_a signin_a2 peer_a2 db3
    (FileTable.set ∅ (path_of "a" "docs/readme") (Some (mkFileInfo 3 "h" 0)))).
  - apply db3_holds.
  - reflexivity.
  - reflexivity.
  - right. split; [discriminate|]. split; [reflexivity|]. right. split; [discriminate|reflexivity].
  - discriminate.
  - reflexivity.
  - discriminate.
  - discriminate.
  - vm_compute. reflexivity.
Defined.

End MasterTheorems.
