(* ===== verification/MasterIsolation.v ===== *)
(** * What users of the master cannot do to each other

With the in-memory database, and whatever addresses its users sign in from. *)

From S2P Require Import Prelude GoStrings Types Crypto DatabaseSpec Master.
From S2P Require Import DatabaseInmem DatabaseInmemProofs DatabaseInmemUsers DatabaseInmemInterface MasterTheorems.
Import Crypto Master MasterTheorems InmemUsers.

Module MasterIsolation.

(** ** Whose step it is *)

Section acts.
Context {ops : DatabaseOps}.

(** A step of [Master.step] that the connection [conn] makes. *)
Inductive step_by (conn : Conn) : state -> state -> Prop :=
  | by_accept st id :
      peers st !! id = None ->
      step_by conn st (mkState (database st) (<[id := (conn, new_peer)]> (peers st)))
  | by_signin st id peer netw q peer' e :
      peers st !! id = Some (conn, peer) -> Signin netw conn peer q = Done (peer', e) ->
      step_by conn st (mkState (database st) (<[id := (conn, peer')]> (peers st)))
  | by_setfile st id peer q d' e :
      peers st !! id = Some (conn, peer) -> SetFile peer (database st) q = Done (d', e) ->
      step_by conn st (mkState d' (peers st))
  | by_getdir st id peer path d' r e :
      peers st !! id = Some (conn, peer) -> GetDir peer (database st) path = Done (d', r, e) ->
      step_by conn st (mkState d' (peers st))
  | by_disconnect st id peer d' :
      peers st !! id = Some (conn, peer) -> Disconnected peer (database st) = Done d' ->
      step_by conn st (mkState d' (delete id (peers st))).

Lemma step_by_step st st' : step st st' <-> exists conn, step_by conn st st'.
Proof.
  split.
  - destruct 1; eexists; [by eapply by_accept|by eapply by_signin|by eapply by_setfile
      |by eapply by_getdir|by eapply by_disconnect].
  - intros [conn []]; [by eapply step_accept|by eapply step_signin|by eapply step_setfile
      |by eapply step_getdir|by eapply step_disconnect].
Qed.

(** The name of the certificate, if there is one, has no at sign: otherwise
user\@address can be the identity of two users. *)
Definition plain_name (conn : Conn) : Prop :=
  forall v, leaf_of conn = Some v -> strings.Contains v "@"%char = false.

(** A step of a connection with a plain name; and one that is not verified as [u]. *)
Definition plain_step (st st' : state) : Prop := exists conn, plain_name conn /\ step_by conn st st'.
Definition step_of_others (u : string) (st st' : state) : Prop :=
  exists conn, plain_name conn /\ leaf_of conn <> Some u /\ step_by conn st st'.

Lemma others_plain u st st' : step_of_others u st st' -> plain_step st st'.
Proof. intros (conn & ? & _ & ?). by exists conn. Qed.
End acts.

Section isolation.
Context `{MapRange}.
#[local] Existing Instance InmemInterface.inmem_ops.

(** The sums of the counters are right, and connections are what [Signin] made them. *)
Definition good_state (st : state) (S : FileTable.table) : Prop :=
  by_user (database st) S /\ peers_ok st.

Lemma ident_user conn peer :
  plain_name conn -> peer_ok conn peer -> address peer <> "" ->
  leaf_of conn = Some (user peer) /\ user_of (ident peer) = user peer.
Proof.
  intros Hp [(_ & ? & _)|(_ & Hleaf & [[? _]|[_ Hid]])] Ha; [done|done|].
  split; [done|]. rewrite Hid. by apply user_of_ident, Hp.
Qed.

(** A connection with a plain name changes files of its own user only. *)
Lemma step_by_user conn st st' S :
  plain_name conn -> good_state st S -> step_by conn st st' ->
  exists S', good_state st' S' /\ forall p, leaf_of conn <> Some (dir_user p) -> S' !! p = S !! p.
Proof.
  intros Hplain [HI Hok] Hstep. assert (Hok' : peers_ok st').
  { eapply step_peers_ok; [exact Hok|]. apply step_by_step. by exists conn. }
  destruct Hstep as [st id Hn|st id peer netw q peer' e Hp Hrun|st id peer q d' e Hp Hrun
    |st id peer path d' r e Hp Hrun|st id peer d' Hp Hrun].
  - by exists S.
  - by exists S.
  - apply SetFile_run in Hrun as [[-> _]|(Ha & _ & Hrun)]; [by exists S|].
    destruct (ident_user conn peer Hplain (Hok id conn peer Hp) Ha) as [Hleaf Hid].
    set (p := path_of (user peer) (SetFile_Path q)) in *.
    assert (dir_user p = user_of (ident peer)) as Howner by (by rewrite Hid).
    exists (FileTable.set S p (SetFile_Info q)). split; [split; [|exact Hok']|].
    + change (Inmem.setFileLocked (database st) (FileTable.fnEx p) (SetFile_Info q) (ident peer) = Done (d', e)) in Hrun.
      destruct (SetFile_Info q) as [fi|].
      * destruct (publish_by_user _ S p fi _ HI Howner) as (d2 & Hrun2 & HI2). rewrite Hrun in Hrun2.
        by injection Hrun2 as -> _.
      * by eapply unpublish_by_user.
    + intros p' Hp'. rewrite FileTable.lookup_set, decide_False; [done|]. intros ->. by rewrite Howner, Hid in Hp'.
  - exists S. split; [split; [|exact Hok']|done]. unfold GetDir in Hrun. case_decide; [by injection Hrun as <- _ _|].
    simpl in Hrun. destruct (Inmem.GetDir _ _) as [r2 e2]. simpl in Hrun.
    destruct e2, r2 as [[]|]; by injection Hrun as <- _ _.
  - unfold Disconnected in Hrun. case_decide as Ha; [injection Hrun as <-; by exists S|].
    destruct (db_PeerDisconnected _ _) as [[d2 e]| |] eqn:Hd; simpl in Hrun; try done. injection Hrun as <-.
    destruct (ident_user conn peer Hplain (Hok id conn peer Hp) Ha) as [Hleaf Hid].
    destruct (disconnect_by_user _ S _ d2 e HI Hd) as (S' & HI' & Hkeep).
    exists S'. split; [by split|]. intros p Hpu. apply Hkeep. rewrite Hid. congruence.
Qed.

Lemma plain_run st : rtc plain_step (mkState Inmem.newDatabase ∅) st -> exists S, good_state st S.
Proof.
  intros Hrun. refine (rtc_inv plain_step (fun st => exists S, good_state st S) _ st _ _ Hrun).
  - exists ∅. split; [apply by_user_new|]. intros id conn peer. simpl. by rewrite lookup_empty.
  - intros y z (conn & Hplain & Hstep) [S HS]. destruct (step_by_user conn y z S Hplain HS Hstep) as (S' & HS' & _).
    by exists S'.
Qed.

(** ** Claims *)

(** C12: whatever the other users do, the files in the directory of [u] stay as
they are, with the in-memory database. Let the master have run from an empty
database, with any connections, of [u] too, and any addresses: then no run of
connections that are not verified as [u], in which they sign in, also more than
once and from several addresses, publish, delete, list and disconnect, changes
any file in or below the directory of [u]. No certificate's name may contain an
at sign. *)
Theorem other_users_cannot_touch u (st1 st2 : state) :
  rtc plain_step (mkState Inmem.newDatabase ∅) st1 ->
  rtc (step_of_others u) st1 st2 ->
  forall dn fn, InmemProofs.files_in (database st2) (u :: dn) fn = InmemProofs.files_in (database st1) (u :: dn) fn.
Proof.
  intros [S HS]%plain_run Hrun dn fn. revert S HS.
  induction Hrun as [|st1 st st2 (conn & Hplain & Hleaf & Hstep) _ IH]; intros S HS; [done|].
  destruct (step_by_user conn st1 st S Hplain HS Hstep) as (S' & HS' & Hkeep).
  rewrite (IH S' HS'), (by_user_files _ _ (proj1 HS')), (by_user_files _ _ (proj1 HS)). by apply Hkeep.
Qed.
End isolation.

(** ** [b] publishes; [a] publishes the same content from two addresses, and leaves *)

#[local] Existing Instance ops0.

Definition conn_b : Conn := {| VerifiedChains := [["b"; "rufs-master"]]; RemoteAddr := "10.0.0.8:4242" |}.
Definition signin_from (u addr : string) : SigninRequest :=
  {| Signin_ProtocolVersion := 1; Signin_User := u; Signin_Address := addr |}.
Definition peer_at (u host : string) : Peer := mkPeer u host (u ++ "@" ++ host)%string.
Definition q_f : SetFileRequest := {| SetFile_Path := "f"; SetFile_Info := Some (mkFileInfo 3 "h" 0) |}.

Definition after_set (peer : Peer) (d : Inmem.Database) : Inmem.Database :=
  match Master.SetFile peer d q_f with Done (d', _) => d' | _ => d end.
Definition after_leaving (peer : Peer) (d : Inmem.Database) : Inmem.Database :=
  match Disconnected peer d with Done d' => d' | _ => d end.

Definition b_there : Peer := peer_at "b" "10.0.0.8:1667".
Definition a_first : Peer := peer_at "a" "10.0.0.7:1667".
Definition a_second : Peer := peer_at "a" "10.0.0.7:1668".

Definition db_b : Inmem.Database := after_set b_there Inmem.newDatabase.
Definition db_a1 : Inmem.Database := after_set a_first db_b.
Definition db_a2 : Inmem.Database := after_set a_second db_a1.
Definition db_end : Inmem.Database := after_leaving a_second db_a2.

Definition with_b (d : Inmem.Database) : state := mkState d {[0 := (conn_b, b_there)]}.
Definition with_a (d : Inmem.Database) (peer : Peer) : state :=
  mkState d (<[1 := (conn_a, peer)]> {[0 := (conn_b, b_there)]}).

Lemma plain_a : plain_name conn_a.
Proof. intros v [= <-]. done. Qed.

Lemma plain_b : plain_name conn_b.
Proof. intros v [= <-]. done. Qed.

Lemma a_steps st st' : step_by conn_a st st' -> step_of_others "b" st st'.
Proof. intros Hs. exists conn_a. split; [apply plain_a|]. by split. Qed.

Lemma other_users_cannot_touch_witness :
  InmemProofs.files_in db_end ["b"] "f" = InmemProofs.files_in db_b ["b"] "f" /\
  InmemProofs.files_in db_b ["b"] "f" = Some (mkFileInfo 3 "h" 0).
Proof.
  split; [|by vm_compute].
  refine (other_users_cannot_touch (H := std_range) "b" (with_b db_b) (with_b db_end) _ _ [] "f").
  - eapply rtc_l; [exists conn_b; split; [apply plain_b|exact (by_accept conn_b (mkState Inmem.newDatabase ∅) 0 eq_refl)]|].
    eapply rtc_l; [exists conn_b; split; [apply plain_b|]|].
    { exact (by_signin conn_b (mkState Inmem.newDatabase {[0 := (conn_b, new_peer)]}) 0 new_peer open_network (signin_from "b" ":1667") b_there None eq_refl eq_refl). }
    eapply rtc_l; [exists conn_b; split; [apply plain_b|]|].
    { exact (by_setfile conn_b (with_b Inmem.newDatabase) 0 b_there q_f db_b None eq_refl ltac:(vm_compute; reflexivity)). }
    apply rtc_refl.
  - eapply rtc_l; [apply a_steps; exact (by_accept conn_a (with_b db_b) 1 eq_refl)|].
    eapply rtc_l; [apply a_steps|].
    { exact (by_signin conn_a (with_a db_b new_peer) 1 new_peer open_network (signin_from "a" ":1667") a_first None eq_refl eq_refl). }
    eapply rtc_l; [apply a_steps|].
    { exact (by_setfile conn_a (with_a db_b a_first) 1 a_first q_f db_a1 None eq_refl ltac:(vm_compute; reflexivity)). }
    eapply rtc_l; [apply a_steps|].
    { exact (by_signin conn_a (with_a db_a1 a_first) 1 a_first open_network (signin_from "a" ":1668") a_second None eq_refl eq_refl). }
    eapply rtc_l; [apply a_steps|].
    { exact (by_setfile conn_a (with_a db_a1 a_second) 1 a_second q_f db_a2 None eq_refl ltac:(vm_compute; reflexivity)). }
    eapply rtc_l; [apply a_steps|].
    { exact (by_disconnect conn_a (with_a db_a2 a_second) 1 a_second db_end eq_refl ltac:(vm_compute; reflexivity)). }
    apply rtc_refl.
Defined.

End MasterIsolation.
