(* ===== verification/MasterRun.v ===== *)
(** * The accept loop of the master ([master.go])

[Run] accepts connections until the socket fails, and starts a goroutine for
each: it shakes hands, serves the calls, and runs [Disconnected]. [Master.v]
has the connections that are being served; here are the loop, the goroutine
that closes the socket when the context is done, and the handshakes. *)

From S2P Require Import Prelude GoStrings Types Crypto DatabaseSpec Master.
Import Crypto Master.

Module MasterRun.
Section run.
Context {ops : DatabaseOps}.

(** The goroutine of a connection: in [Handshake], which will see these verified
chains; in [ServeConn], with its [Peer]; gone. *)
Inductive goroutine :=
  | Handshaking (conn : Conn)
  | Serving (conn : Conn) (peer : Peer)
  | Gone.

(** [result]: what [Run] has returned. *)
Record running := mkRunning {
  ctx_done : bool;
  sock_closed : bool;
  result : option (option error);
  run_database : db;
  conns : gmap nat goroutine;
}.

Definition start (d0 : db) : running := mkRunning false false None d0 ∅.

Definition set_conn (s : running) (d : db) (id : nat) (g : goroutine) : running :=
  mkRunning (ctx_done s) (sock_closed s) (result s) d (<[id := g]> (conns s)).

(** A call that the goroutine of a connection serves. *)
Inductive serves (conn : Conn) : Peer -> db -> Peer -> db -> Prop :=
  | serves_signin peer d netw q peer' e :
      Signin netw conn peer q = Done (peer', e) -> serves conn peer d peer' d
  | serves_setfile peer d q d' e :
      SetFile peer d q = Done (d', e) -> serves conn peer d peer d'
  | serves_getdir peer d path d' r e :
      GetDir peer d path = Done (d', r, e) -> serves conn peer d peer d'
  | serves_getowners peer d hash os e :
      GetOwners peer d hash = Done (os, e) -> serves conn peer d peer d.

Inductive run_step : running -> running -> Prop :=
  | run_cancel s :
      run_step s (mkRunning true (sock_closed s) (result s) (run_database s) (conns s))
  (* the goroutine that waits for the context *)
  | run_close s :
      ctx_done s = true ->
      run_step s (mkRunning (ctx_done s) true (result s) (run_database s) (conns s))
  (* the loop: Accept gives a connection, or an error *)
  | run_accept s id conn :
      result s = None -> sock_closed s = false -> conns s !! id = None ->
      run_step s (set_conn s (run_database s) id (Handshaking conn))
  | run_accept_error s :
      result s = None ->
      run_step s (mkRunning (ctx_done s) (sock_closed s) (Some None) (run_database s) (conns s))
  (* the goroutine of a connection *)
  | run_handshake_failed s id conn :
      conns s !! id = Some (Handshaking conn) ->
      run_step s (set_conn s (run_database s) id Gone)
  | run_handshake s id conn :
      conns s !! id = Some (Handshaking conn) ->
      run_step s (set_conn s (run_database s) id (Serving conn new_peer))
  | run_serve s id conn peer peer' d' :
      conns s !! id = Some (Serving conn peer) ->
      serves conn peer (run_database s) peer' d' ->
      run_step s (set_conn s d' id (Serving conn peer'))
  | run_disconnect s id conn peer d' :
      conns s !! id = Some (Serving conn peer) ->
      Disconnected peer (run_database s) = Done d' ->
      run_step s (set_conn s d' id Gone).

End run.
End MasterRun.
