(* ===== verification/MasterRunTheorems.v ===== *)
(** * What the accept loop of the master guarantees

Everything the goroutines of the connections do is a run of the master of
[Master.v], so its theorems hold of the program with its loop and handshakes;
and the loop comes to an end. *)

From S2P Require Import Prelude GoStrings Types Crypto DatabaseSpec Master MasterTheorems MasterRun.
From S2P Require Import DatabaseInmem DatabaseInmemInterface.
Import Crypto Master MasterTheorems MasterRun.

Module MasterRunTheorems.
Section run.
Context {ops : DatabaseOps}.

(** The connections that are served, as [Master.v] has them. *)
Definition served (g : goroutine) : option (Conn * Peer) :=
  match g with Serving conn peer => Some (conn, peer) | _ => None end.

Definition abstract (s : running) : Master.state :=
  mkState (run_database s) (omap served (conns s)).

Lemma abstract_lookup (s : running) id : peers (abstract s) !! id = conns s !! id ≫= served.
Proof. apply lookup_omap. Qed.

Lemma abstract_served (s : running) id conn peer :
  conns s !! id = Some (Serving conn peer) -> peers (abstract s) !! id = Some (conn, peer).
Proof. intros Hid. by rewrite abstract_lookup, Hid. Qed.

Lemma abstract_unserved (s : running) id g :
  conns s !! id = Some g -> served g = None -> peers (abstract s) !! id = None.
Proof. intros Hid Hg. by rewrite abstract_lookup, Hid. Qed.

Lemma abstract_set (s : running) d id g :
  abstract (set_conn s d id g) =
    mkState d (match served g with Some cp => <[id := cp]> (peers (abstract s)) | None => delete id (peers (abstract s)) end).
Proof.
  unfold abstract, set_conn. simpl. f_equal. apply map_eq. intros i. rewrite lookup_omap.
  destruct (decide (i = id)) as [->|Hne].
  - rewrite lookup_insert_eq. simpl. destruct (served g); [by rewrite lookup_insert_eq|by rewrite lookup_delete_eq].
  - rewrite lookup_insert_ne by done.
    destruct (served g); [rewrite lookup_insert_ne by done|rewrite lookup_delete_ne by done]; by rewrite lookup_omap.
Qed.

Lemma abstract_skip (s : running) id g :
  served g = None -> peers (abstract s) !! id = None ->
  abstract (set_conn s (run_database s) id g) = abstract s.
Proof.
  intros Hg Hid. rewrite abstract_set, Hg, delete_id by done. done.
Qed.

Lemma step_simulates (s s' : running) :
  run_step s s' -> abstract s' = abstract s \/ Master.step (abstract s) (abstract s').
Proof.
  intros Hstep. destruct Hstep as [s|s Hc|s id conn Hr Hs Hid|s Hr|s id conn Hid|s id conn Hid
    |s id conn peer peer' d' Hid Hrun|s id conn peer d' Hid Hrun]; try (by left).
  - left. apply abstract_skip; [done|]. by rewrite abstract_lookup, Hid.
  - left. apply abstract_skip; [done|]. by eapply abstract_unserved.
  - right. rewrite abstract_set. simpl. by apply (step_accept (abstract s)), (abstract_unserved s id (Handshaking conn)).
  - apply abstract_served in Hid as Hp. rewrite abstract_set. simpl.
    inversion Hrun as [? ? netw q ? e Hcall|? ? q ? e Hcall|? ? path ? r e Hcall|? ? hash os e Hcall]; subst.
    + right. by eapply (step_signin (abstract s)).
    + right. rewrite insert_id by done. by eapply (step_setfile (abstract s)).
    + right. rewrite insert_id by done. by eapply (step_getdir (abstract s)).
    + left. rewrite insert_id by done. done.
  - right. rewrite abstract_set. simpl. by eapply (step_disconnect (abstract s)), Hrun; apply abstract_served.
Qed.

(** ** The loop *)

Definition loop_ok (s : running) : Prop :=
  (sock_closed s = true -> ctx_done s = true) /\ (forall e, result s = Some e -> e = None).

Lemma step_loop_ok (s s' : running) : run_step s s' -> loop_ok s -> loop_ok s'.
Proof. intros Hstep [H1 H2]. destruct Hstep; split; simpl; naive_solver. Qed.

(** ** Claims *)

(** C22: the accept loop runs the master of [Master.v]: in every run of [Run] with
its goroutines, the database and the connections that are being served have
been reached by the steps of that master, in the same order; a connection has
no [Peer] before its handshake has succeeded; [Run] never returns an error,
and from every state in which the context is done it returns. *)
Theorem loop_refines_master (d0 : db) (s : running) :
  rtc run_step (start d0) s ->
  Master.reachable d0 (abstract s) /\
  (forall id conn, conns s !! id = Some (Handshaking conn) -> peers (abstract s) !! id = None) /\
  (forall e, result s = Some e -> e = None) /\
  (ctx_done s = true -> exists s', rtc run_step s s' /\ result s' = Some None /\ sock_closed s' = true /\
     abstract s' = abstract s) /\
  (result s <> None -> forall s' id, run_step s s' -> conns s !! id = None -> conns s' !! id = None).
Proof.
  intros Hr.
  assert (Hok : loop_ok s /\ Master.reachable d0 (abstract s)).
  { refine (rtc_inv run_step (fun s => loop_ok s /\ Master.reachable d0 (abstract s)) (start d0) s _ _ Hr).
    - split; [by split|]. unfold abstract, start. simpl. rewrite omap_empty. apply rtc_refl.
    - intros y z Hstep [Hok Hreach]. split; [by eapply step_loop_ok|].
      destruct (step_simulates y z Hstep) as [->|Hs]; [done|]. by eapply rtc_r. }
  destruct Hok as [[Hsock Hres] Hreach]. split_and!; try done.
  - intros id conn Hid. by eapply abstract_unserved.
  - intros Hctx. destruct (result s) as [e|] eqn:He.
    + rewrite (Hres e eq_refl) in *. eexists. split; [by apply rtc_once, run_close|]. done.
    + eexists. split; [eapply rtc_l; [by apply run_close|]; by apply rtc_once, run_accept_error|]. done.
  - intros Hne s' id Hstep Hid.
    destruct Hstep; try done; simpl; (destruct (decide (id0 = id)) as [->|Hn]; [congruence|by rewrite lookup_insert_ne]).
Qed.
End run.

(** ** Witness: a connection that is served when the context is done *)

Definition serving0 : @running ops0 :=
  mkRunning true false None db0
    (<[0 := Serving conn_a peer_a]> (<[1 := Gone]> (<[1 := Handshaking conn_a]>
       (<[0 := Serving conn_a new_peer]> (<[0 := Handshaking conn_a]> ∅))))).

Lemma run_serving0 : rtc run_step (start db0) serving0.
Proof.
  eapply rtc_l; [by apply (run_accept _ 0 conn_a)|].
  eapply rtc_l; [by apply (run_handshake _ 0 conn_a)|].
  eapply rtc_l; [by apply (run_accept _ 1 conn_a)|].
  eapply rtc_l; [by apply (run_handshake_failed _ 1 conn_a)|].
  eapply rtc_l; [by eapply (run_serve _ 0 conn_a new_peer peer_a), (serves_signin _ _ _ open_network signin_a)|].
  eapply rtc_l; [apply run_cancel|]. apply rtc_refl.
Qed.

Lemma loop_refines_master_witness :
  Master.reachable db0 (abstract serving0) /\ peers (abstract serving0) !! 0 = Some (conn_a, peer_a) /\
  exists s', rtc run_step serving0 s' /\ result s' = Some None /\ sock_closed s' = true /\ abstract s' = abstract serving0.
Proof.
  destruct (loop_refines_master db0 serving0 run_serving0) as (H1 & _ & _ & H4 & _).
  split; [exact H1|]. split; [reflexivity|]. exact (H4 eq_refl).
Defined.

End MasterRunTheorems.
