(* ===== verification/CryptoTheorems.v ===== *)
(** * What the keys and certificates guarantee

Creating and loading the master's vault, and what [Register] certifies. *)

From S2P Require Import Prelude GoStrings Types Crypto DatabaseSpec Master.
Import Crypto.

Module CryptoTheorems.

(** ** Files of a directory *)

Lemma Split_app_gen c a b :
  strings.Split (a ++ str1 c ++ b)%string (str1 c) =
    strings.Split a (str1 c) ++ strings.Split b (str1 c).
Proof.
  induction a as [|x a IH].
  - change ("" ++ str1 c ++ b)%string with (String c b). rewrite Split_char_cons.
    by rewrite decide_True.
  - change (String x a ++ str1 c ++ b)%string with (String x (a ++ str1 c ++ b)).
    rewrite !Split_char_cons, IH. case_decide; [done|].
    destruct (strings.Split a (str1 c)) as [|p ps] eqn:E; [by apply Split_not_nil in E|done].
Qed.

(** What [filepath.Clean] keeps of a path comes from its parts. *)
Lemma push_no_sep rooted ps acc :
  Forall (fun p => strings.Contains p slash = false) ps ->
  Forall (fun p => strings.Contains p slash = false) acc ->
  Forall (fun p => strings.Contains p slash = false) (fold_left (filepath.push rooted) ps acc).
Proof.
  revert acc. induction ps as [|p ps IH]; intros acc Hps Hacc; [done|].
  apply Forall_cons in Hps as [Hp Hps]. simpl. apply IH; [done|]. unfold filepath.push.
  case_decide; [done|]. case_decide; [|by constructor]. destruct Hacc as [|q acc Hq Hacc].
  - destruct rooted; by repeat constructor.
  - case_decide; by repeat constructor.
Qed.

Lemma push_last rooted ps x acc :
  plain_part x ->
  fold_left (filepath.push rooted) (ps ++ [x]) acc = x :: fold_left (filepath.push rooted) ps acc.
Proof.
  intros (H1 & H2 & H3 & _). rewrite fold_left_app. simpl. unfold filepath.push at 1.
  rewrite decide_False by naive_solver. by rewrite decide_False.
Qed.

Lemma Join_last_not_empty ks z : z <> "" -> strings.Join (ks ++ [z]) "/" <> "".
Proof.
  intros Hz. destruct ks as [|p ks]; [done|].
  assert (exists q qs, ks ++ [z] = q :: qs) as (q & qs & Heq).
  { destruct ks; simpl; eauto. }
  unfold strings.Join. change ((p :: ks) ++ [z]) with (p :: (ks ++ [z])). rewrite Heq.
  change (p ++ "/" ++ String.concat "/" (q :: qs) <> "")%string. by destruct p.
Qed.

(** Different files of a directory have different names. *)
Lemma Join_file_inj dir x y :
  plain_part x -> plain_part y -> filepath.Join [dir; x] = filepath.Join [dir; y] -> x = y.
Proof.
  intros Hx Hy. destruct (decide (dir = "")) as [->|Hdir].
  { assert (Hone : forall z, plain_part z -> filepath.Join [""; z] = z).
    { intros z Hz. simpl. rewrite decide_False by (by destruct Hz).
      apply (Clean_parts [z]); [done|]. by constructor. }
    by rewrite !Hone. }
  cbn [filepath.Join]. rewrite !decide_False by done.
  set (keep := fold_left (filepath.push (strings.HasPrefix dir "/")) (strings.Split dir "/") []).
  assert (Hclean : forall z, plain_part z ->
    filepath.Clean (strings.Join [dir; z] "/") =
      let body := strings.Join (rev keep ++ [z]) "/" in
      if strings.HasPrefix dir "/" then String slash body else body).
  { intros z Hz. unfold filepath.Clean.
    change (strings.Join [dir; z] "/") with (dir ++ str1 slash ++ z)%string.
    destruct dir as [|a d]; [done|].
    rewrite decide_False by done.
    assert (strings.HasPrefix (String a d ++ str1 slash ++ z)%string "/" = strings.HasPrefix (String a d) "/") as ->.
    { unfold strings.HasPrefix. change "/"%string with (str1 slash).
      change (String a d ++ str1 slash ++ z)%string with (String a (d ++ str1 slash ++ z)).
      by rewrite !prefix_char. }
    assert (strings.Split (String a d ++ str1 slash ++ z)%string "/" = strings.Split (String a d) "/" ++ [z]) as ->.
    { change "/"%string with (str1 slash). rewrite Split_app_gen. f_equal.
      apply Split_single. by destruct Hz as (_ & _ & _ & ?). }
    rewrite push_last by done. fold keep. cbn [rev].
    destruct (strings.HasPrefix (String a d) "/"); [done|]. rewrite decide_False; [done|].
    apply Join_last_not_empty. by destruct Hz. }
  rewrite !Hclean by done. intros Heq.
  assert (Hbody : strings.Join (rev keep ++ [x]) "/" = strings.Join (rev keep ++ [y]) "/").
  { destruct (strings.HasPrefix dir "/"); [by injection Heq|done]. }
  assert (Hkeep : Forall (fun p => strings.Contains p slash = false) (rev keep)).
  { apply Forall_rev, push_no_sep; [|constructor]. apply (Split_no_sep slash). }
  assert (Hs : forall z, plain_part z -> strings.Split (strings.Join (rev keep ++ [z]) "/") "/" = rev keep ++ [z]).
  { intros z (_ & _ & _ & Hz). apply (Split_Join slash); [by destruct (rev keep)|].
    apply Forall_app. split; [done|]. by constructor. }
  apply (f_equal (fun s => strings.Split s "/")) in Hbody. rewrite !Hs in Hbody by done.
  apply app_inv_head in Hbody. by injection Hbody.
Qed.

(** ** PEM files *)

Section files.
Context `{X509}.
Implicit Types (disk : gmap string string).

Lemma pemToFile_error io disk fn ty data disk' err :
  pemToFile io disk fn ty data = (disk', Some err) -> disk' = disk.
Proof.
  unfold pemToFile. destruct (open_err io); [by intros [= <- <-]|].
  destruct (disk !! fn) eqn:E; [by intros [= <- <-]|].
  destruct (write_err io); [|destruct (close_err io)]; intros [= <-].
  - rewrite delete_insert_eq. by apply delete_id.
  - rewrite insert_insert_eq, delete_insert_eq. by apply delete_id.
Qed.

Lemma pemToFile_success io disk fn ty data disk' :
  pemToFile io disk fn ty data = (disk', None) ->
  disk !! fn = None /\ disk' = <[fn := pem_Encode ty data]> disk.
Proof.
  unfold pemToFile. destruct (open_err io); [done|]. destruct (disk !! fn) eqn:E; [done|].
  destruct (write_err io); [done|]. destruct (close_err io); [done|].
  intros [= <-]. split; [done|]. by rewrite insert_insert_eq.
Qed.

(** What the code relies on: decoding undoes encoding, for its two types. *)
Class X509Laws := {
  pem_roundtrip ty data : ty = "CERTIFICATE" \/ ty = "RSA PRIVATE KEY" -> pem_Decode (pem_Encode ty data) = Some (ty, data);
  key_roundtrip key : ParsePKCS1PrivateKey (MarshalPKCS1PrivateKey key) = inr key;
}.

Lemma pemFromFile_written `{!X509Laws} disk fn ty data :
  ty = "CERTIFICATE" \/ ty = "RSA PRIVATE KEY" ->
  disk !! fn = Some (pem_Encode ty data) -> pemFromFile disk fn ty = inr data.
Proof.
  intros Hty Hf. unfold pemFromFile. rewrite Hf, pem_roundtrip by done. by rewrite decide_True.
Qed.

Lemma plain_ca_key : plain_part "ca.key".
Proof. by repeat split. Qed.
Lemma plain_ca_crt : plain_part "ca.crt".
Proof. by repeat split. Qed.

(** ** Claims *)

(** [createCA] is all or nothing: whichever step fails (the key, the
signature, opening, writing or closing either file, or a file that is already
there), the disk is as before; and when it succeeds, [loadMasterVault] loads
from the directory the key that was made and the certificate it signed for
itself. *)
Theorem createCA_atomic `{!X509Laws} io_key io_crt rnd rnd' serial now now' disk dir name disk' err :
  createCA io_key io_crt rnd rnd' serial now now' disk dir name = Done (disk', err) ->
  match err with
  | Some _ => disk' = disk
  | None => exists key t der,
      GenerateKey rnd = inr key /\ createCertTemplate serial now now' true name = Done t /\
      CreateCertificate rnd' t t (Public key) key = inr der /\
      loadMasterVault disk' dir =
        match ParseCertificate der with
        | inl err => inl err
        | inr crt => inr {| ca := crt; priv := key |}
        end
  end.
Proof.
  unfold createCA. set (keyfn := filepath.Join [dir; "ca.key"]). set (crtfn := filepath.Join [dir; "ca.crt"]).
  destruct (createCertTemplate serial now now' true name) as [t| |] eqn:Ht; try done.
  cbn [mbind outcome_bind]. unfold createKeyPair.
  destruct (GenerateKey rnd) as [e|key] eqn:Hgen; [by intros [= <- <-]|].
  destruct (pemToFile io_key disk keyfn _ _) as [disk1 [e|]] eqn:Hkey.
  { intros [= <- <-]. by eapply pemToFile_error. }
  apply pemToFile_success in Hkey as [Hnone ->].
  destruct (CreateCertificate rnd' t t (Public key) key) as [e|der] eqn:Hder.
  { intros [= <- <-]. rewrite delete_insert_eq. by apply delete_id. }
  destruct (pemToFile io_crt _ crtfn _ _) as [disk2 [e|]] eqn:Hcrt.
  { intros [= <- <-]. apply pemToFile_error in Hcrt as ->. rewrite delete_insert_eq. by apply delete_id. }
  intros [= <- <-]. apply pemToFile_success in Hcrt as [_ ->].
  exists key, t, der. split_and!; try done.
  unfold loadMasterVault, loadCertificate. fold keyfn crtfn.
  rewrite (pemFromFile_written _ crtfn "CERTIFICATE" der) by (auto; by rewrite lookup_insert_eq).
  destruct (ParseCertificate der) as [e|crt]; [done|].
  assert (keyfn <> crtfn) as Hne.
  { intros Heq. apply (Join_file_inj dir "ca.key" "ca.crt" plain_ca_key plain_ca_crt) in Heq. done. }
  rewrite (pemFromFile_written _ keyfn "RSA PRIVATE KEY" (MarshalPKCS1PrivateKey key)).
  - by rewrite key_roundtrip.
  - by right.
  - rewrite lookup_insert_ne by done. by rewrite lookup_insert_eq.
Qed.

(** The users of tokens that are not confused hold no zero byte. *)
Lemma token_message_inj mv u v :
  strings.Contains u NUL = false -> strings.Contains v NUL = false ->
  token_message mv u = token_message mv v -> sha1.bytes_of u = sha1.bytes_of v.
Proof.
  intros Hu Hv Heq. unfold token_message in Heq.
  rewrite !(assoc_L (++)) in Heq. apply app_inv_tail, app_inv_tail in Heq. done.
Qed.

(** [Register] certifies a user exactly to the holder of his token: it
answers a certificate if and only if the token is the hash of the user and the
master's key and the public key parses and can be signed; the certificate is
then one for that name, not a certificate authority's, signed by the vault for
that public key. *)
Theorem Register_certifies rnd serial now now' vault q cert :
  Master.Register rnd serial now now' vault q = Done (cert, None) <->
  Register_Token q = hex (sha1.Sum (token_message vault (Register_User q))) /\
  exists pk t der,
    ParsePKIXPublicKey (Register_PublicKey q) = inr pk /\
    createCertTemplate serial now now' false (Register_User q) = Done t /\
    CommonName t = Register_User q /\ IsCA t = false /\
    CreateCertificate rnd t (ca vault) pk (priv vault) = inr der /\
    cert = pem_Encode "CERTIFICATE" der.
Proof.
  unfold Master.Register, signClient. fold (createAuthToken vault (Register_User q)).
  destruct (decide (createAuthToken vault (Register_User q) <> Register_Token q)) as [Hne|Heq].
  { split; [done|]. intros [Heq _]. by destruct Hne. }
  assert (Register_Token q = createAuthToken vault (Register_User q)) as Htok.
  { destruct (decide (Register_Token q = createAuthToken vault (Register_User q))); [done|naive_solver]. }
  destruct (ParsePKIXPublicKey (Register_PublicKey q)) as [e|pk].
  { split; [done|]. by intros (_ & pk & t & der & ? & _). }
  destruct (createCertTemplate serial now now' false (Register_User q)) as [t| |] eqn:Ht;
    cbn [mbind outcome_bind]; try (split; [done|]; by intros (_ & pk' & t' & der & _ & ? & _)).
  assert (CommonName t = Register_User q /\ IsCA t = false) as [Hcn Hca].
  { unfold createCertTemplate in Ht. destruct serial; [done|]. by injection Ht as <-. }
  destruct (CreateCertificate rnd t (ca vault) pk (priv vault)) as [e|der] eqn:Hder;
    cbn [mbind outcome_bind].
  - split; [done|]. intros (_ & pk' & t' & der & [= <-] & [= <-] & _ & _ & Hd & _). congruence.
  - split.
    + intros [= <-]. split; [done|]. exists pk, t, der. done.
    + intros (_ & pk' & t' & der' & [= <-] & [= <-] & _ & _ & Hd & ->). congruence.
Qed.
End files.

(** ** A concrete vault *)

Section demo.
#[local] Open Scope string_scope.

(** A PEM file is the type, a newline and the data. *)
#[local] Instance demo_x509 : X509 := {|
  PrivateKey := string; PublicKey := string; Public := fun k => k;
  AddDate := fun t _ _ _ => t;
  GenerateKey := fun rnd => inr "secret";
  MarshalPKCS1PrivateKey := fun k => k;
  ParsePKCS1PrivateKey := fun d => inr d;
  MarshalPKIXPublicKey := fun k => inr k;
  ParsePKIXPublicKey := fun d => inr d;
  CreateCertificate := fun _ t parent pk _ => inr (CommonName t);
  ParseCertificate := fun d => inr {| SerialNumber := 1; CommonName := d; Organization := ["RUFS"];
    NotBefore := 0; NotAfter := 0; ExtKeyUsages := []; KeyUsage := 0; BasicConstraintsValid := true;
    IsCA := true; Raw := d |};
  pem_Encode := fun t d => (t ++ String "010" d);
  pem_Decode := fun s => match strings.SplitN2 s "010" with [t; d] => Some (t, d) | _ => None end;
|}.

#[local] Instance demo_laws : X509Laws.
Proof. split; [by intros ty data [->| ->]|done]. Qed.

Definition no_faults : io_faults := {| open_err := None; write_err := None; close_err := None |}.
Definition full_disk : io_faults :=
  {| open_err := None; write_err := Some (errors_New "no space left on device"); close_err := None |}.

Definition demo_created : gmap string string :=
  <["/var/master/ca.crt" := pem_Encode "CERTIFICATE" "rufs-master"]>
    {["/var/master/ca.key" := pem_Encode "RSA PRIVATE KEY" "secret"]}.

(** A creation, and one for which the disk is full after the key is written. *)
Lemma createCA_atomic_witness :
  (exists key t der,
    GenerateKey 1 = inr key /\ createCertTemplate (inr 5%Z) 0 0 true "rufs-master" = Done t /\
    CreateCertificate 2 t t (Public key) key = inr der /\
    loadMasterVault demo_created "/var/master" =
      match ParseCertificate der with
      | inl err => inl err
      | inr crt => inr {| ca := crt; priv := key |}
      end) /\
  createCA no_faults full_disk 1 2 (inr 5%Z) 0 0 ∅ "/var/master" "rufs-master" =
    Done (∅, Some (errors_New "no space left on device")).
Proof.
  split.
  - refine (createCA_atomic no_faults no_faults 1 2 (inr 5%Z) 0 0 ∅ "/var/master" "rufs-master"
      demo_created None _).
    vm_cast_no_check (@eq_refl (outcome (gmap string string * option error)) (Done (demo_created, None))).
  - by vm_compute.
Defined.

Definition demo_vault : MasterVault :=
  {| ca := {| SerialNumber := 1; CommonName := "rufs-master"; Organization := ["RUFS"]%list;
       NotBefore := 0; NotAfter := 0; ExtKeyUsages := []%list; KeyUsage := 0;
       BasicConstraintsValid := true; IsCA := true; Raw := "rufs-master" |};
     priv := "secret" |}.

Definition demo_request : RegisterRequest :=
  {| Register_User := "bob"; Register_Token := createAuthToken demo_vault "bob";
     Register_PublicKey := "pub" |}.

Lemma Register_certifies_witness :
  Register_Token demo_request = hex (sha1.Sum (token_message demo_vault (Register_User demo_request))).
Proof.
  refine (proj1 (proj1 (Register_certifies 1 (inr 5%Z) 0 0 demo_vault demo_request
    (pem_Encode "CERTIFICATE" "bob")) _)).
  by vm_compute.
Defined.

End demo.
End CryptoTheorems.
