(* ===== verification/Fetcher.v ===== *)
(** * The block fetcher ([fetch.go])

A [pfHandle] caches the blocks of one remote file. Several readers and the
goroutines that fetch blocks share it under a mutex, so the code is split where
the mutex is released: the first locked part of [Read], the locked part of a
finishing fetch, and the second locked part of [Read]. Channels are numbers;
[closed] holds those that were closed. *)

From S2P Require Import Prelude GoStrings Types.

Module Fetcher.

Abbreviation bytes := (list Byte.byte).

(** ** Peers *)

(** [latency] in nanoseconds, nil when it could not be measured. *)
Record pfPeer := mkPfPeer { pf_ident : string; latency : option Z }.

Record Fetcher := mkFetcher {
  peers : gmap string pfPeer;
  blockSize : Z;
  localCacheDir : string;
  localCacheSize : Z;
}.

(** [GetFetcher]: [fetchers] is the global table, [server] identifies the
server, [lcs] is the answer of [humanize.ParseBytes] and [dir] that of
[getPath]. *)
Definition GetFetcher (fetchers : gmap nat Fetcher) (server : nat) (lcs : error + Z)
    (power : Z) (dir : string) : gmap nat Fetcher * (error + Fetcher) :=
  match fetchers !! server with
  | Some f => (fetchers, inr f)
  | None =>
      match lcs with
      | inl err => (fetchers, inl err)
      | inr lcs =>
          let f := mkFetcher ∅ (i64 (Z.shiftl 1 power)) dir lcs in
          (<[server := f]> fetchers, inr f)
      end
  end.

(** The network as [NewPeer] meets it: the error of [NewRUFSClient(addr, cfg)]
for an address and a server name, and for the identity of a peer the errors of
the two pings and the time the second one takes. *)
Record PeerNetwork := {
  dial : string -> string -> option error;
  ping1 : string -> option error;
  ping2 : string -> option error;
  ping_time : string -> Z;
}.

(** [MeasureLatency] *)
Definition MeasureLatency (netw : PeerNetwork) (r : pfPeer) : pfPeer * option error :=
  match ping1 netw (pf_ident r) with
  | Some err => (mkPfPeer (pf_ident r) None, Some err)
  | None =>
      match ping2 netw (pf_ident r) with
      | Some err => (mkPfPeer (pf_ident r) None, Some err)
      | None => (mkPfPeer (pf_ident r) (Some (ping_time netw (pf_ident r))), None)
      end
  end.

(** [NewPeer]; the error of the measurement is dropped. *)
Definition NewPeer (netw : PeerNetwork) (ident : string) : outcome (error + pfPeer) :=
  let ex := strings.Split ident "@" in
  name ← go_index ex 0;
  addr ← go_index ex 1;
  match dial netw addr name with
  | Some err => Done (inl err)
  | None => Done (inr (MeasureLatency netw (mkPfPeer ident None)).1)
  end.

(** ** Handles *)

Record pfHandle := mkHandle {
  h_blockSize : Z;
  h_hash : string;
  h_size : Z;
  h_peers : list string;
  h_cache : list (option bytes);
  h_active : list (option nat);
  h_lastErr : option error;
}.

(** [make([]T, n)] with nil elements. *)
Definition make_nil {A} (n : Z) : outcome (list (option A)) :=
  if decide (0 <= n)%Z then Done (replicate (Z.to_nat n) None)
  else Panic "runtime error: makeslice: len out of range".

(** The loop of [NewHandle] over the peers. *)
Definition add_peer (netw : PeerNetwork) (acc : gmap string pfPeer * bool) (p : string)
    : outcome (gmap string pfPeer * bool) :=
  let '(known, found) := acc in
  match known !! p with
  | Some _ => Done (known, true)
  | None =>
      r ← NewPeer netw p;
      match r with
      | inr r => Done (<[p := r]> known, true)
      | inl _ => Done (known, found)
      end
  end.

Definition NewHandle (netw : PeerNetwork) (f : Fetcher) (hash : string) (size : Z)
    (ps : list string) : outcome (Fetcher * (error + pfHandle)) :=
  let blocks := i64 (Z.quot size (blockSize f) + 1) in
  cache ← make_nil blocks;
  active ← make_nil blocks;
  '(known, found) ← foldM (add_peer netw) (peers f, false) ps;
  let f := mkFetcher known (blockSize f) (localCacheDir f) (localCacheSize f) in
  if (found : bool) then Done (f, inr (mkHandle (blockSize f) hash size ps cache active None))
  else Done (f, inl (errors_New "didn't find peer with file")).

(** [realFetch]: [known] are the keys of [fetcher.peers] and [answer] the reply
of each peer to the [Read] of the block. *)
Fixpoint realFetch_loop (known : gset string) (answer : string -> error + bytes)
    (ps : list string) (retErr : error) : error + bytes :=
  match ps with
  | [] => inl retErr
  | p :: ps' =>
      if decide (p ∈ known) then
        match answer p with
        | inl err => realFetch_loop known answer ps' err
        | inr data => inr data
        end
      else realFetch_loop known answer ps' retErr
  end.

Definition realFetch (known : gset string) (answer : string -> error + bytes) (ps : list string)
    : error + bytes :=
  realFetch_loop known answer ps (errors_New "Couldn't find peer with file").

(** A byte slice that came through [encoding/gob]: an empty one arrives nil. *)
Definition gob_bytes (data : bytes) : option bytes :=
  match data with
  | [] => None
  | _ => Some data
  end.

(** ** The shared state *)

(** A call of [Read] after its first locked part, or when it has returned. *)
Inductive reader :=
  | Waiting (offset size : Z) (blocks : list Z) (unfetched : list (option nat))
  | Returned (offset size : Z) (data : bytes) (err : option error).

Record sys := mkSys {
  handle : pfHandle;
  closed : gset nat;
  next_chan : nat;
  inflight : list Z;
  readers : gmap nat reader;
}.

Definition with_cache (cache : list (option bytes)) (h : pfHandle) : pfHandle :=
  mkHandle (h_blockSize h) (h_hash h) (h_size h) (h_peers h) cache (h_active h) (h_lastErr h).
Definition with_active (active : list (option nat)) (h : pfHandle) : pfHandle :=
  mkHandle (h_blockSize h) (h_hash h) (h_size h) (h_peers h) (h_cache h) active (h_lastErr h).
Definition with_lastErr (err : option error) (h : pfHandle) : pfHandle :=
  mkHandle (h_blockSize h) (h_hash h) (h_size h) (h_peers h) (h_cache h) (h_active h) err.
Definition set_handle (s : sys) (h : pfHandle) : sys :=
  mkSys h (closed s) (next_chan s) (inflight s) (readers s).
Definition set_reader (s : sys) (tid : nat) (r : reader) : sys :=
  mkSys (handle s) (closed s) (next_chan s) (inflight s) (<[tid := r]> (readers s)).

(** [h.fetch(offset)]: a new channel for the block, and a goroutine. *)
Definition fetch (s : sys) (offset : Z) : outcome sys :=
  let h := handle s in
  let b := Z.quot offset (h_blockSize h) in
  active ← go_store (h_active h) b (Some (next_chan s));
  Done (mkSys (with_active active h) (closed s) (S (next_chan s)) (inflight s ++ [offset]) (readers s)).

(** [close(c)] *)
Definition close_chan (closed : gset nat) (c : option nat) : outcome (gset nat) :=
  match c with
  | None => Panic "close of nil channel"
  | Some c => if decide (c ∈ closed) then Panic "close of closed channel" else Done ({[c]} ∪ closed)
  end.

(** The locked part of the goroutine that fetched the block at [offset]. *)
Definition complete (s : sys) (offset : Z) (result : error + bytes) : outcome sys :=
  let h := handle s in
  let b := Z.quot offset (h_blockSize h) in
  h ← match result with
      | inl err => Done (with_lastErr (Some err) h)
      | inr data => cache ← go_store (h_cache h) b (gob_bytes data); Done (with_cache cache h)
      end;
  c ← go_index (h_active h) b;
  closed ← close_chan (closed s) c;
  Done (mkSys h closed (next_chan s) (filter (fun o => o <> offset) (inflight s)) (readers s)).

(** The offsets of the blocks of a request: the loop from [b] below [hi]. *)
Fixpoint block_loop (fuel : nat) (b hi bs : Z) : list Z :=
  match fuel with
  | O => []
  | S fuel' => if decide (hi > b)%Z then i64 (b * bs) :: block_loop fuel' (b + 1) hi bs else []
  end.

Definition block_end (offset size bs : Z) : Z :=
  Z.quot (i64 (offset + i64 (size + bs) - 1)) bs.

Definition request_blocks (offset size bs : Z) : list Z :=
  let lo := Z.quot offset bs in
  let hi := block_end offset size bs in
  block_loop (Z.to_nat (hi - lo)) lo hi bs.

(** One pass of the loop that collects the channels to wait for. *)
Definition want_block (acc : sys * list (option nat)) (o : Z) : outcome (sys * list (option nat)) :=
  let '(s, unfetched) := acc in
  let b := Z.quot o (h_blockSize (handle s)) in
  c ← go_index (h_cache (handle s)) b;
  match c with
  | Some _ => Done (s, unfetched)
  | None =>
      a ← go_index (h_active (handle s)) b;
      s ← match a with
          | None => fetch s o
          | Some _ => Done s
          end;
      a ← go_index (h_active (handle s)) b;
      Done (s, unfetched ++ [a])
  end.

(** "Ugly-ass purging" of the block before the request. *)
Definition purge (s : sys) (blocks : list Z) : outcome sys :=
  let h := handle s in
  first ← go_index blocks 0;
  let b := (Z.quot first (h_blockSize h) - 1)%Z in
  if decide (b > 0)%Z then
    c ← go_index (h_cache h) b;
    match c with
    | None => Done s
    | Some _ =>
        cache ← go_store (h_cache h) b None;
        active ← go_store (h_active h) b None;
        Done (set_handle s (with_active active (with_cache cache h)))
    end
  else Done s.

(** One pass of the prefetch loop. *)
Definition prefetch_block (blocks : list Z) (s : sys) (i : nat) : outcome sys :=
  let h := handle s in
  let bs := h_blockSize h in
  last ← go_index blocks (len blocks - 1);
  let b := i64 (Z.quot last bs + 1 + Z.of_nat i) in
  if decide (i64 (b * bs) < h_size h)%Z then
    c ← go_index (h_cache h) b;
    match c with
    | Some _ => Done s
    | None =>
        a ← go_index (h_active h) b;
        match a with
        | Some _ => Done s
        | None => fetch s (i64 (b * bs))
        end
    end
  else Done s.

(** [Read] up to the release of the mutex; [prefetchBlocks] is the flag. *)
Definition begin_read (prefetchBlocks : nat) (s : sys) (tid : nat) (offset size : Z)
    : outcome sys :=
  if decide (offset >= h_size (handle s))%Z then Done (set_reader s tid (Returned offset size [] None))
  else
    let blocks := request_blocks offset size (h_blockSize (handle s)) in
    '(s, unfetched) ← foldM want_block (s, []) blocks;
    s ← purge s blocks;
    s ← foldM (prefetch_block blocks) s (seq 0 prefetchBlocks);
    Done (set_reader s tid (Waiting offset size blocks unfetched)).

(** The blocks of a request in the cache, unless one is missing. *)
Fixpoint grab (cache : list (option bytes)) (bs : Z) (blocks : list Z)
    : outcome (option (list bytes)) :=
  match blocks with
  | [] => Done (Some [])
  | o :: blocks' =>
      c ← go_index cache (Z.quot o bs);
      match c with
      | None => Done None
      | Some buf =>
          r ← grab cache bs blocks';
          Done (match r with Some bufs => Some (buf :: bufs) | None => None end)
      end
  end.

(** The requested bytes out of the blocks. *)
Definition assemble (bs offset size : Z) (blocks : list Z) (bufs : list bytes) : outcome bytes :=
  first ← go_index blocks 0;
  let bo := (offset - first)%Z in
  let cut := Z.rem (i64 (bo + size)) bs in
  bufs ←
    (if decide (cut > 0)%Z then
       let l := (len bufs - 1)%Z in
       last ← go_index bufs l;
       if decide (len last > cut)%Z then
         last ← go_slice last 0 cut;
         go_store bufs l last
       else Done bufs
     else Done bufs);
  bufs ←
    (if decide (bo > 0)%Z then
       buf ← go_index bufs 0;
       buf ← go_slice buf bo (len buf);
       go_store bufs 0 buf
     else Done bufs);
  if decide (len bufs = 1)%Z then go_index bufs 0
  else if decide (size < 0)%Z then Panic "runtime error: makeslice: cap out of range"
  else Done (concat bufs).

(** [Read] from the second lock on. *)
Definition finish_read (h : pfHandle) (offset size : Z) (blocks : list Z)
    : outcome (bytes * option error) :=
  r ← grab (h_cache h) (h_blockSize h) blocks;
  match r with
  | None => Done ([], h_lastErr h)
  | Some bufs => data ← assemble (h_blockSize h) offset size blocks bufs; Done (data, None)
  end.

Definition ErrInterrupted : error := error_var "ErrInterrupted".

(** ** Streams *)

(** [st_cancelled]: whether the context of the stream is done. *)
Record pfStream := mkStream { st_offset : Z; st_cancelled : bool }.

(** [pfHandle.Stream] and [pfHandle.Close], and [pfStream.Close]: a [Read] of the
stream that waits may then be interrupted. *)
Definition Stream (offset : Z) : pfStream := mkStream offset false.
Definition Close (h : pfHandle) : pfHandle := h.
Definition Stream_Close (s : pfStream) (h : pfHandle) : pfStream * pfHandle * option error :=
  (mkStream (st_offset s) true, Close h, None).

(** [Stream.Read(p)] around the answer of [h.Read(ctx, s.offset, len(p))]: the
bytes copied to [p], the count and error returned, the stream after it. *)
Definition Stream_Read (s : pfStream) (len_p : Z) (answer : bytes * option error)
    : pfStream * (bytes * Z * option error) :=
  match answer with
  | (_, Some err) => (s, ([], 0%Z, Some err))
  | (data, None) =>
      let n := len data in
      (mkStream (i64 (st_offset s + n)) (st_cancelled s),
       (take (Z.to_nat len_p) data, n,
        if decide (n < len_p)%Z then Some io_EOF else None))
  end.

(** ** Interleavings *)

Section steps.
(** The flag [prefetch_blocks], the peers the fetcher is connected to, and what
peers may answer to the [Read] of the block at an offset. *)
Context (prefetchBlocks : nat) (known : gset string).
Context (may_answer : Z -> string -> error + bytes -> Prop).

Definition all_closed (s : sys) (unfetched : list (option nat)) : Prop :=
  Forall (fun c => match c with Some c => c ∈ closed s | None => False end) unfetched.

Inductive step : sys -> sys -> Prop :=
  | step_begin s s' tid offset size :
      readers s !! tid = None ->
      in_i64 offset -> in_i64 size ->
      begin_read prefetchBlocks s tid offset size = Done s' ->
      step s s'
  | step_complete s s' offset answer :
      offset ∈ inflight s ->
      (forall p, may_answer offset p (answer p)) ->
      complete s offset (realFetch known answer (h_peers (handle s))) = Done s' ->
      step s s'
  | step_finish s tid offset size blocks unfetched data err :
      readers s !! tid = Some (Waiting offset size blocks unfetched) ->
      all_closed s unfetched ->
      finish_read (handle s) offset size blocks = Done (data, err) ->
      step s (set_reader s tid (Returned offset size data err))
  | step_interrupt s tid offset size blocks unfetched :
      readers s !! tid = Some (Waiting offset size blocks unfetched) ->
      step s (set_reader s tid (Returned offset size [] (Some ErrInterrupted))).
End steps.

(** A handle as [NewHandle] makes it, before any reader. *)
Definition start (h : pfHandle) : sys := mkSys h ∅ 0 [] ∅.

End Fetcher.
