(* ===== verification/FetcherBlocks.v ===== *)
(** * Blocks of a file

Which blocks a request needs, and that cutting and joining them gives the
requested bytes. *)

From S2P Require Import Prelude GoStrings Types Fetcher.
Import Fetcher.

Module FetcherBlocks.

(** ** Lists of consecutive slices *)

Section slices.
Context {A : Type}.
Implicit Types (l : list A).

(** The [k] slices of [n] elements from slice [i] on. *)
Definition slices (n : nat) l (i k : nat) : list (list A) :=
  (fun j => take n (drop (j * n) l)) <$> seq i k.

Lemma concat_slices n l i k : concat (slices n l i k) = take (k * n) (drop (i * n) l).
Proof.
  revert i. induction k as [|k IH]; intros i; simpl; [done|].
  unfold slices in *. simpl. rewrite IH.
  replace (S i * n) with (i * n + n) by lia. rewrite <-(drop_drop l).
  by rewrite take_take_drop.
Qed.

Lemma slices_S n l i k :
  slices n l i (S k) = slices n l i k ++ [take n (drop ((i + k) * n) l)].
Proof. unfold slices. rewrite seq_S, fmap_app. done. Qed.

(** The slices with the last one cut to [c] elements. *)
Lemma concat_slices_cut n l i k c :
  c <= n ->
  concat (slices n l i k ++ [take c (take n (drop ((i + k) * n) l))]) =
    take (k * n + c) (drop (i * n) l).
Proof.
  intros Hc. rewrite concat_app, concat_slices. simpl. rewrite app_nil_r, take_take.
  rewrite Nat.min_l by done. replace ((i + k) * n) with (i * n + k * n) by lia.
  rewrite <-(drop_drop l). by rewrite take_take_drop.
Qed.

Lemma concat_drop_head (l : list A) (ls : list (list A)) m :
  m <= length l -> concat (drop m l :: ls) = drop m (concat (l :: ls)).
Proof. intros Hm. simpl. by rewrite drop_app_le. Qed.
End slices.

(** ** The blocks of a request *)

Section request.
Context (bs : Z) (Hbs : (0 < bs)%Z).

(** A request whose end, rounded up to a block, is an [int64]. *)
Definition sound_request (offset size : Z) : Prop :=
  (0 <= offset)%Z /\ (0 < size)%Z /\ (offset + size + bs < 2 ^ 63)%Z.

Lemma block_loop_seqZ fuel b hi :
  (0 <= b)%Z -> fuel = Z.to_nat (hi - b) -> (hi * bs < 2 ^ 63)%Z ->
  block_loop fuel b hi bs = (fun b => b * bs)%Z <$> seqZ b (hi - b).
Proof.
  revert b. induction fuel as [|fuel IH]; intros b Hb Hfuel Hhi; simpl.
  - by rewrite seqZ_nil by lia.
  - rewrite decide_True by lia. rewrite seqZ_cons by lia. simpl.
    rewrite i64_id by (unfold in_i64; nia). f_equal. rewrite IH by lia.
    f_equal. f_equal; lia.
Qed.

Lemma block_end_eq offset size :
  sound_request offset size -> block_end offset size bs = ((offset + size + bs - 1) / bs)%Z.
Proof.
  intros (H1 & H2 & H3). unfold block_end.
  rewrite (i64_id (size + bs)) by (unfold in_i64; lia).
  rewrite i64_id by (unfold in_i64; lia). rewrite Z.quot_div_nonneg by lia. f_equal. lia.
Qed.

(** The first block and the number of blocks. *)
Definition first_block (offset : Z) : nat := Z.to_nat (offset / bs).
Definition block_count (offset size : Z) : nat :=
  Z.to_nat ((offset + size + bs - 1) / bs - offset / bs).

(** How many bytes of the last block the request wants. *)
Lemma block_count_eq offset size :
  sound_request offset size ->
  exists k, block_count offset size = S k /\
    (Z.of_nat k * bs < offset - offset / bs * bs + size <= Z.of_nat (S k) * bs)%Z.
Proof.
  intros (H1 & H2 & H3). unfold block_count.
  pose proof (Z.div_mod offset bs ltac:(lia)) as E1.
  pose proof (Z.mod_pos_bound offset bs Hbs) as B1.
  pose proof (Z.div_mod (offset + size + bs - 1) bs ltac:(lia)) as E2.
  pose proof (Z.mod_pos_bound (offset + size + bs - 1) bs Hbs) as B2.
  set (q1 := (offset / bs)%Z) in *. set (q2 := ((offset + size + bs - 1) / bs)%Z) in *.
  assert (q1 < q2)%Z by nia.
  exists (Z.to_nat (q2 - q1 - 1)). split; [lia|].
  rewrite Nat2Z.inj_succ, Z2Nat.id by lia. nia.
Qed.

Lemma request_blocks_eq offset size :
  sound_request offset size ->
  request_blocks offset size bs =
    (fun b => Z.of_nat b * bs)%Z <$> seq (first_block offset) (block_count offset size).
Proof.
  intros Hreq. pose proof Hreq as (H1 & H2 & H3). unfold request_blocks.
  rewrite (block_end_eq offset size Hreq), Z.quot_div_nonneg by lia.
  pose proof (Z.div_pos offset bs H1 Hbs) as Hlo.
  pose proof (Z.mul_div_le (offset + size + bs - 1) bs Hbs) as Hhi.
  rewrite block_loop_seqZ by lia.
  unfold first_block, block_count. unfold seqZ. rewrite <-!list_fmap_compose.
  rewrite <-(Nat.add_0_r (Z.to_nat (offset / bs))), <-fmap_add_seq.
  rewrite <-list_fmap_compose. apply list_fmap_ext. intros i x _. simpl.
  rewrite Nat2Z.inj_add, Z2Nat.id by lia. f_equal. lia.
Qed.
(** ** Cutting and joining the blocks *)

Context (F : bytes).
Abbreviation n := (Z.to_nat bs).

(** The content of block [b]. *)
Definition block (b : nat) : bytes := take n (drop (b * n) F).

(** The blocks from [i] on, as the cache has them. *)
Definition blocks_from (i k : nat) : list bytes := slices n F i k.

Lemma quot_block b : Z.quot (Z.of_nat b * bs) bs = Z.of_nat b.
Proof. rewrite Z.quot_div_nonneg by lia. by apply Z.div_mul; lia. Qed.

(** Cutting the last buffer. *)
Lemma cut_last (bufs : list bytes) (last : bytes) (cut : Z) :
  (0 < cut)%Z ->
  (let l := (len (bufs ++ [last]) - 1)%Z in
   x ← go_index (bufs ++ [last]) l;
   if decide (len x > cut)%Z then x ← go_slice x 0 cut; go_store (bufs ++ [last]) l x
   else Done (bufs ++ [last])) = Done (bufs ++ [take (Z.to_nat cut) last]).
Proof.
  intros Hc. simpl. rewrite go_index_last. simpl. unfold len at 1. case_decide as Hl.
  - rewrite go_slice_Done by (unfold len; lia). simpl.
    rewrite go_store_Done by (unfold len; rewrite length_app; simpl; lia).
    f_equal. unfold len. rewrite length_app. simpl.
    replace (Z.to_nat _) with (length bufs + 0) by lia.
    rewrite insert_app_r. simpl. rewrite drop_0. do 3 f_equal. lia.
  - rewrite take_ge by lia. done.
Qed.

(** Dropping the start of the first buffer, and joining. *)
Lemma drop_first (b0 : bytes) (rest : list bytes) (bo size : Z) :
  (0 <= bo)%Z -> (0 < size)%Z -> Z.to_nat bo <= length b0 ->
  (bufs ← (if decide (bo > 0)%Z then
             buf ← go_index (b0 :: rest) 0;
             buf ← go_slice buf bo (len buf);
             go_store (b0 :: rest) 0 buf
           else Done (b0 :: rest));
   if decide (len bufs = 1)%Z then go_index bufs 0
   else if decide (size < 0)%Z then Panic "runtime error: makeslice: cap out of range"
   else Done (concat bufs)) = Done (drop (Z.to_nat bo) (concat (b0 :: rest))).
Proof.
  intros Hbo Hsize Hlen.
  assert (Hend : forall x : bytes,
    (if decide (len (x :: rest) = 1)%Z then go_index (x :: rest) 0
     else if decide (size < 0)%Z then Panic "runtime error: makeslice: cap out of range"
     else Done (concat (x :: rest))) = Done (concat (x :: rest))).
  { intros x. destruct (decide (len (x :: rest) = 1)%Z) as [Hl|Hl].
    - unfold len in Hl. destruct rest; simpl in Hl; [|lia]. simpl. by rewrite app_nil_r.
    - by rewrite (decide_False (P := (size < 0)%Z)) by lia. }
  rewrite <-concat_drop_head by done. destruct (decide (bo > 0)%Z) as [Hpos|Hpos].
  - change (go_index (b0 :: rest) 0) with (Done b0). cbn [mbind outcome_bind].
    rewrite go_slice_Done by (unfold len; lia). cbn [mbind outcome_bind].
    rewrite go_store_Done by (unfold len; simpl; lia). cbn [mbind outcome_bind].
    rewrite take_ge by (rewrite length_drop; unfold len; lia). apply Hend.
  - replace (Z.to_nat bo) with 0 by lia. rewrite drop_0. apply Hend.
Qed.

Lemma assemble_correct offset size :
  sound_request offset size -> (offset < len F)%Z ->
  assemble bs offset size (request_blocks offset size bs)
    (blocks_from (first_block offset) (block_count offset size)) =
    Done (take (Z.to_nat size) (drop (Z.to_nat offset) F)).
Proof.
  intros Hreq Hoff. pose proof Hreq as (H1 & H2 & H3).
  destruct (block_count_eq offset size Hreq) as (k & Hk & Hk1 & Hk2).
  rewrite (request_blocks_eq offset size Hreq), Hk. unfold assemble.
  set (i := first_block offset).
  assert (Hi : Z.of_nat i = (offset / bs)%Z).
  { subst i. unfold first_block. rewrite Z2Nat.id; [done|]. by apply Z.div_pos. }
  rewrite <-Hi in Hk1, Hk2.
  pose proof (Z.mul_div_le offset bs Hbs) as Hle. rewrite <-Hi in Hle.
  pose proof (Z.mod_pos_bound offset bs Hbs) as Hm. rewrite Z.mod_eq, <-Hi in Hm by lia.
  change (go_index ((fun b => Z.of_nat b * bs)%Z <$> seq i (S k)) 0)
    with (Done (Z.of_nat i * bs)%Z). cbn [mbind outcome_bind].
  set (bo := (offset - Z.of_nat i * bs)%Z) in *.
  assert (Hbo : (0 <= bo < bs)%Z) by lia.
  rewrite (i64_id (bo + size)) by (unfold in_i64; lia).
  rewrite Z.rem_mod_nonneg by lia.
  unfold blocks_from. rewrite slices_S.
  set (last := take n (drop ((i + k) * n) F)).
  set (c := Z.to_nat (bo + size - Z.of_nat k * bs)).
  match goal with |- (bufs ← ?m; _) = _ =>
    assert (m = Done (slices n F i k ++ [take c last])) as ->
  end.
  { rewrite (Z.mod_eq (bo + size) bs) by lia. case_decide as Hcut.
    - assert (((bo + size) / bs)%Z = Z.of_nat k) as Hq.
      { symmetry. apply (Z.div_unique _ _ _ (bo + size - Z.of_nat k * bs)); [left|]; try lia.
        split; [lia|]. destruct (decide (bo + size = Z.of_nat (S k) * bs)%Z) as [E|E]; [|lia].
        rewrite E, Z.div_mul in Hcut by lia. lia. }
      rewrite Hq. replace (bs * Z.of_nat k)%Z with (Z.of_nat k * bs)%Z by lia.
      apply cut_last. lia.
    - pose proof (Z.mod_pos_bound (bo + size) bs Hbs) as Hb. rewrite Z.mod_eq in Hb by lia.
      assert ((bo + size) / bs = Z.of_nat (S k))%Z as Hq by nia.
      do 3 f_equal. subst c last. rewrite take_take. f_equal. nia. }
  cbn [mbind outcome_bind].
  assert (Hc : c <= n) by (subst c; lia).
  assert (Hne : exists b0 rest, slices n F i k ++ [take c last] = b0 :: rest /\ Z.to_nat bo <= length b0).
  { assert (Hdrop : Z.to_nat bo < length (drop (i * n) F)).
    { rewrite length_drop. unfold len in Hoff. nia. }
    destruct k as [|k].
    - exists (take c last), []. split; [done|]. subst last. rewrite Nat.add_0_r, !length_take. lia.
    - eexists _, _. split; [done|]. rewrite length_take. lia. }
  destruct Hne as (b0 & rest & Heq & Hlen). rewrite Heq, drop_first by lia.
  rewrite <-Heq. subst last. rewrite concat_slices_cut by done.
  replace (k * n + c) with (Z.to_nat bo + Z.to_nat size) by (subst c; nia).
  rewrite <-take_drop_commute, drop_drop. do 3 f_equal. nia.
Qed.

(** ** What the cache holds *)

(** Every cached block is the content of that block of the file. *)
Definition cache_ok (cache : list (option bytes)) : Prop :=
  forall b buf, cache !! b = Some (Some buf) -> buf = block b /\ buf <> [].

Lemma grab_cached cache i k :
  cache_ok cache ->
  (forall b, i <= b < i + k -> exists buf, cache !! b = Some (Some buf)) ->
  grab cache bs ((fun b => Z.of_nat b * bs)%Z <$> seq i k) = Done (Some (blocks_from i k)).
Proof.
  intros Hok. revert i. induction k as [|k IH]; intros i Hall; [done|].
  cbn [seq]. rewrite fmap_cons. cbn [grab].
  destruct (Hall i) as [buf Hbuf]; [lia|].
  rewrite quot_block, (go_index_lookup _ _ _ Hbuf). cbn [mbind outcome_bind].
  rewrite IH by (intros b Hb; apply Hall; lia). simpl.
  destruct (Hok i buf Hbuf) as [-> _]. done.
Qed.

Lemma grab_cases cache i k r :
  cache_ok cache ->
  grab cache bs ((fun b => Z.of_nat b * bs)%Z <$> seq i k) = Done r ->
  r = None \/ r = Some (blocks_from i k) /\ forall b, i <= b < i + k ->
    cache !! b = Some (Some (block b)) /\ block b <> [].
Proof.
  intros Hok. revert i r. induction k as [|k IH]; intros i r.
  - intros [= <-]. right. split; [done|]. intros b ?. lia.
  - cbn [seq]. rewrite fmap_cons. cbn [grab]. rewrite quot_block. intros H. outcome_inv.
    match goal with H : go_index cache _ = Done ?o |- _ =>
      apply go_index_Done in H as [_ H]; rewrite Nat2Z.id in H; destruct o as [buf|]
    end; [|outcome_inv; by left].
    outcome_inv. destruct (IH (S i) _ E0) as [->|[-> Hall]]; subst r; [by left|right].
    destruct (Hok i buf E) as [-> Hne]. split; [done|]. intros b Hb.
    destruct (decide (b = i)) as [->|]; [done|apply Hall; lia].
Qed.

Lemma grab_total cache i k :
  i + k <= length cache ->
  exists r, grab cache bs ((fun b => Z.of_nat b * bs)%Z <$> seq i k) = Done r.
Proof.
  revert i. induction k as [|k IH]; intros i Hlen; [by eexists|].
  cbn [seq]. rewrite fmap_cons. cbn [grab].
  rewrite quot_block.
  destruct (lookup_lt_is_Some_2 cache i) as [[buf|] Hbuf]; [lia| |];
    rewrite (go_index_lookup _ _ _ Hbuf); cbn [mbind outcome_bind]; [|by eexists].
  destruct (IH (S i)) as [r Hr]; [lia|]. rewrite Hr. simpl. by eexists.
Qed.

(** ** Any request *)

(** Every block a loop of [Read] names is a multiple of the block size. *)
Lemma block_loop_multiple fuel b hi o :
  in_i64 (b * bs) -> in_i64 (hi * bs) -> o ∈ block_loop fuel b hi bs ->
  exists b', (b <= b')%Z /\ o = (b' * bs)%Z.
Proof.
  revert b. induction fuel as [|fuel IH]; intros b Hb Hhi; simpl; [by intros ?%not_elem_of_nil|].
  destruct (decide (hi > b)%Z) as [Hlt|]; [|by intros ?%not_elem_of_nil].
  rewrite elem_of_cons. intros [->|Ho].
  - exists b. split; [lia|]. by rewrite i64_id.
  - apply IH in Ho as (b' & Hle & ->); [exists b'; split; [lia|done]| |done].
    unfold in_i64 in *. nia.
Qed.

Lemma quot_mul_in x : in_i64 x -> in_i64 (Z.quot x bs * bs).
Proof.
  unfold in_i64. intros Hx. destruct (decide (0 <= x)%Z) as [Hp|Hn].
  - rewrite Z.quot_div_nonneg by lia. pose proof (Z.mul_div_le x bs Hbs).
    pose proof (Z.div_pos x bs Hp Hbs). nia.
  - rewrite <-(Z.opp_involutive x), Z.quot_opp_l, Z.quot_div_nonneg by lia.
    pose proof (Z.mul_div_le (- x) bs Hbs). pose proof (Z.div_pos (- x) bs ltac:(lia) Hbs). nia.
Qed.

Lemma request_blocks_multiple offset size o :
  in_i64 offset -> o ∈ request_blocks offset size bs -> exists b, o = (b * bs)%Z.
Proof.
  intros Hoff Ho. unfold request_blocks in Ho.
  apply block_loop_multiple in Ho as (b & _ & ->); [by exists b|by apply quot_mul_in|].
  unfold block_end. apply quot_mul_in. apply i64_range.
Qed.

End request.
End FetcherBlocks.
