(* ===== verification/FetcherProofs.v ===== *)
(** * The invariant of a shared handle

What every interleaving of readers and fetches keeps true of a [pfHandle], and
that each locked part of the code keeps it. *)

From S2P Require Import Prelude GoStrings Types Fetcher FetcherBlocks.
Import Fetcher FetcherBlocks.

Module FetcherProofs.

Section invariant.
Context (bs : Z) (Hbs : (0 < bs)%Z) (F : bytes) (HF : (len F < 2 ^ 63)%Z).

Abbreviation cache s := (h_cache (handle s)).
Abbreviation active s := (h_active (handle s)).
Abbreviation at_block b := (Z.of_nat b * bs)%Z.

(** The cache holds blocks of the file, a block is in flight exactly when its
channel is open, and no two blocks share a channel. *)
Record core (s : sys) : Prop := mkCore {
  core_bs : h_blockSize (handle s) = bs;
  core_size : h_size (handle s) = len F;
  core_len : (len (cache s) = len F / bs + 1)%Z;
  core_active_len : length (active s) = length (cache s);
  core_cache : cache_ok bs F (cache s);
  core_inflight o : o ∈ inflight s -> exists b c,
    o = at_block b /\ cache s !! b = Some None /\ active s !! b = Some (Some c) /\ c ∉ closed s;
  core_nodup : NoDup (inflight s);
  core_open b c : active s !! b = Some (Some c) -> c ∉ closed s -> at_block b ∈ inflight s;
  core_fresh_active b c : active s !! b = Some (Some c) -> c < next_chan s;
  core_fresh_closed c : c ∈ closed s -> c < next_chan s;
  core_inj b b' c : active s !! b = Some (Some c) -> active s !! b' = Some (Some c) -> b = b';
}.

(** A channel a reader may wait for. *)
Definition wait_ok (s : sys) (c : nat) : Prop :=
  c ∈ closed s \/ exists b, active s !! b = Some (Some c).

(** What a locked part leaves of the state other readers rely on. *)
Definition grows (s s' : sys) : Prop :=
  readers s' = readers s /\ forall c, wait_ok s c -> wait_ok s' c.

#[global] Instance grows_preorder : PreOrder grows.
Proof.
  split; [by intros s|]. intros s1 s2 s3 [H1 H2] [H3 H4]. split; [congruence|naive_solver].
Qed.

(** The block is there or on its way. *)
Definition ready (s : sys) (b : nat) : Prop :=
  (exists buf, cache s !! b = Some (Some buf)) \/ at_block b ∈ inflight s.

(** No block was given up: one that is not cached is in flight or was never
asked for, and only blocks with data are in flight. *)
Definition healthy (s : sys) : Prop :=
  (forall b, cache s !! b = Some None -> active s !! b = Some None \/ at_block b ∈ inflight s) /\
  (forall o, o ∈ inflight s -> (o < len F)%Z).

Lemma at_block_inj b b' : at_block b = at_block b' -> b = b'.
Proof. intros H. apply Z.mul_reg_r in H; lia. Qed.

(** ** Starting a fetch *)

(** The state after [h.fetch] for block [b]. *)
Definition fetched (s : sys) (b : nat) : sys :=
  mkSys (with_active (<[b := Some (next_chan s)]> (active s)) (handle s)) (closed s)
    (S (next_chan s)) (inflight s ++ [at_block b]) (readers s).

Lemma fetch_Done s b :
  core s -> b < length (cache s) -> fetch s (at_block b) = Done (fetched s b).
Proof.
  intros Hc Hb. unfold fetch. rewrite (core_bs s Hc), quot_block by done.
  rewrite go_store_Done by (unfold len; rewrite (core_active_len s Hc); lia).
  simpl. rewrite Nat2Z.id. done.
Qed.

Lemma fetched_core s b :
  core s -> cache s !! b = Some None -> active s !! b = Some None -> core (fetched s b).
Proof.
  intros Hc Hb Ha. pose proof (lookup_lt_Some _ _ _ Ha) as Hlt.
  assert (Hnew : forall b' c, <[b:=Some (next_chan s)]> (active s) !! b' = Some (Some c) ->
    (b' = b /\ c = next_chan s) \/ (b' <> b /\ active s !! b' = Some (Some c) /\ c < next_chan s)).
  { intros b' c Hl. destruct (decide (b' = b)) as [->|Hne].
    - rewrite list_lookup_insert_eq in Hl by done. left. naive_solver.
    - rewrite list_lookup_insert_ne in Hl by done. right. split; [done|].
      split; [done|by eapply core_fresh_active]. }
  destruct Hc. split; simpl; try done.
  - by rewrite length_insert.
  - intros o [Ho| ->%list_elem_of_singleton]%elem_of_app.
    + destruct (core_inflight0 o Ho) as (b' & c & -> & H1 & H2 & H3).
      exists b', c. rewrite list_lookup_insert_ne by congruence. done.
    + exists b, (next_chan s). rewrite list_lookup_insert_eq by done.
      split_and!; try done. intros ?%core_fresh_closed0. lia.
  - apply NoDup_app. split_and!; [done| |apply NoDup_singleton].
    intros o Ho ->%list_elem_of_singleton.
    destruct (core_inflight0 _ Ho) as (b' & c & ->%at_block_inj & H1 & H2 & H3). congruence.
  - intros b' c [[-> ->]|(Hne & Hl & _)]%Hnew Hcl; apply elem_of_app; [right; by left|].
    left. by eapply core_open0.
  - intros b' c [[-> ->]|(Hne & _ & Hl)]%Hnew; lia.
  - intros c ?%core_fresh_closed0. lia.
  - intros b1 b2 c [[-> ->]|(Hne & Hl & ?)]%Hnew [[-> ?]|(Hne' & Hl' & ?)]%Hnew; try lia; try done.
    by eapply core_inj0.
Qed.

Lemma fetched_grows s b : active s !! b = Some None -> grows s (fetched s b).
Proof.
  intros Ha. split; [done|]. intros c [Hc|[b' Hb']]; [by left|right].
  exists b'. simpl. rewrite list_lookup_insert_ne; [done|congruence].
Qed.

Lemma fetched_ready s b b' : ready s b' -> ready (fetched s b) b'.
Proof. intros [H|H]; [by left|right]. simpl. apply elem_of_app. by left. Qed.

Lemma fetched_ready_eq s b : ready (fetched s b) b.
Proof. right. simpl. apply elem_of_app. right. by left. Qed.

Lemma fetched_healthy s b : healthy s -> (at_block b < len F)%Z -> healthy (fetched s b).
Proof.
  intros [H1 H2] Hb. split; simpl.
  - intros b' Hb'. destruct (decide (b' = b)) as [->|Hne].
    + right. apply elem_of_app. right. by left.
    + rewrite list_lookup_insert_ne by done. rewrite elem_of_app. naive_solver.
  - intros o [Ho| ->%list_elem_of_singleton]%elem_of_app; auto.
Qed.

(** ** A fetch that finishes *)

(** An answer that, when it carries data, carries that block. *)
Definition honest (o : Z) (r : error + bytes) : Prop :=
  forall b data, o = at_block b -> r = inr data -> data = block bs F b.

(** The cache and the sticky error after an answer for block [b]. *)
Definition answered (h : pfHandle) (b : nat) (r : error + bytes) : pfHandle :=
  match r with
  | inl err => with_lastErr (Some err) h
  | inr data => with_cache (<[b := gob_bytes data]> (h_cache h)) h
  end.

Lemma answered_active h b r : h_active (answered h b r) = h_active h.
Proof. by destruct r. Qed.

Lemma answered_other h b r b' : b' <> b -> h_cache (answered h b r) !! b' = h_cache h !! b'.
Proof. intros Hne. destruct r; simpl; [done|]. by rewrite list_lookup_insert_ne. Qed.

Lemma answered_length h b r : length (h_cache (answered h b r)) = length (h_cache h).
Proof. destruct r; simpl; [done|]. by rewrite length_insert. Qed.

Lemma answered_cache_ok h b r :
  cache_ok bs F (h_cache h) -> honest (at_block b) r -> cache_ok bs F (h_cache (answered h b r)).
Proof.
  intros Hok Hh b' buf. destruct (decide (b' = b)) as [->|Hne].
  - destruct r as [err|data]; [apply Hok|]. simpl. intros Hl.
    assert (Hlt : b < length (h_cache h)).
    { apply lookup_lt_Some in Hl. by rewrite length_insert in Hl. }
    rewrite list_lookup_insert_eq in Hl by done.
    pose proof (Hh b data eq_refl eq_refl) as ->.
    destruct (block bs F b); [done|]. simpl in Hl. by injection Hl as <-.
  - rewrite answered_other by done. apply Hok.
Qed.

(** The state after the goroutine for block [b], whose channel is [c]. *)
Definition completed (s : sys) (b c : nat) (r : error + bytes) : sys :=
  mkSys (answered (handle s) b r) ({[c]} ∪ closed s) (next_chan s)
    (filter (fun o => o <> at_block b) (inflight s)) (readers s).

(** The goroutine never closes a channel that is nil or closed. *)
Lemma complete_Done s o r :
  core s -> o ∈ inflight s -> exists b c,
    o = at_block b /\ cache s !! b = Some None /\ active s !! b = Some (Some c) /\
    (c ∉ closed s) /\ complete s o r = Done (completed s b c r).
Proof.
  intros Hc Ho. destruct (core_inflight s Hc o Ho) as (b & c & -> & H1 & H2 & H3).
  exists b, c. split_and!; try done. unfold complete.
  rewrite (core_bs s Hc), quot_block by done.
  pose proof (lookup_lt_Some _ _ _ H1) as Hlt.
  assert ((match r with
      | inl err => Done (with_lastErr (Some err) (handle s))
      | inr data => (cache ← go_store (cache s) (Z.of_nat b) (gob_bytes data);
                     Done (with_cache cache (handle s)))
      end) = Done (answered (handle s) b r)) as ->.
  { destruct r; [done|]. rewrite go_store_Done by (unfold len; lia). simpl. by rewrite Nat2Z.id. }
  cbn [mbind outcome_bind]. rewrite answered_active, (go_index_lookup _ _ _ H2).
  cbn [mbind outcome_bind]. unfold close_chan. by rewrite decide_False.
Qed.

Lemma completed_core s b c r :
  core s -> active s !! b = Some (Some c) -> at_block b ∈ inflight s -> honest (at_block b) r ->
  core (completed s b c r).
Proof.
  intros Hc Ha Hin Hh. destruct Hc. split; simpl; rewrite ?answered_active; try done.
  - by destruct r.
  - by destruct r.
  - unfold len. by rewrite answered_length.
  - by rewrite answered_length.
  - by apply answered_cache_ok.
  - intros o [Hne Ho]%list_elem_of_filter.
    destruct (core_inflight0 o Ho) as (b' & c' & -> & H1 & H2 & H3).
    assert (b' <> b) by congruence. exists b', c'. rewrite answered_other by done.
    split_and!; try done. rewrite elem_of_union, elem_of_singleton. intros [->|?]; [|done].
    by pose proof (core_inj0 _ _ _ Ha H2).
  - by apply NoDup_filter.
  - intros b' c' Hb' Hcl. rewrite elem_of_union, elem_of_singleton in Hcl.
    apply list_elem_of_filter. split; [|apply (core_open0 b' c'); naive_solver].
    intros ->%at_block_inj. naive_solver.
  - intros c'. rewrite elem_of_union, elem_of_singleton.
    intros [->|?]; [by eapply core_fresh_active0|by apply core_fresh_closed0].
Qed.

Lemma completed_grows s b c r : grows s (completed s b c r).
Proof.
  split; [done|]. intros c' [Hc'|[b' Hb']]; [left; set_solver|right].
  exists b'. simpl. by rewrite answered_active.
Qed.

Lemma block_nonempty b : (at_block b < len F)%Z -> block bs F b <> [].
Proof.
  intros Hb Hnil. apply (f_equal length) in Hnil. simpl in Hnil. unfold block in Hnil.
  rewrite length_take, length_drop in Hnil. unfold len in Hb. nia.
Qed.

(** After a good answer. *)
Lemma completed_cached s b c :
  core s -> cache s !! b = Some None -> (at_block b < len F)%Z ->
  cache (completed s b c (inr (block bs F b))) !! b = Some (Some (block bs F b)).
Proof.
  intros Hc Hb Hlt. simpl. rewrite list_lookup_insert_eq by (by eapply lookup_lt_Some).
  pose proof (block_nonempty b Hlt). by destruct (block bs F b).
Qed.

Lemma completed_healthy s b c :
  core s -> healthy s -> cache s !! b = Some None -> at_block b ∈ inflight s ->
  healthy (completed s b c (inr (block bs F b))).
Proof.
  intros Hc [H1 H2] Hb Hin. pose proof (completed_cached s b c Hc Hb (H2 _ Hin)) as Hcached.
  split.
  - intros b' Hb'. destruct (decide (b' = b)) as [->|Hne]; [congruence|].
    simpl in Hb'. rewrite list_lookup_insert_ne in Hb' by done. simpl.
    destruct (H1 b' Hb') as [?|?]; [by left|right].
    apply list_elem_of_filter. split; [|done]. by intros ?%at_block_inj.
  - simpl. intros o [_ Ho]%list_elem_of_filter. auto.
Qed.

Lemma completed_ready s b c b' :
  core s -> healthy s -> cache s !! b = Some None -> at_block b ∈ inflight s ->
  ready s b' -> ready (completed s b c (inr (block bs F b))) b'.
Proof.
  intros Hc [_ Hlt] Hb Hin Hr. destruct (decide (b' = b)) as [->|Hne].
  - left. exists (block bs F b). apply completed_cached; auto.
  - destruct Hr as [[buf Hbuf]|Hr].
    + left. exists buf. simpl. by rewrite list_lookup_insert_ne.
    + right. simpl. apply list_elem_of_filter. split; [by intros ?%at_block_inj|done].
Qed.

(** *** All of them *)

(** The goroutines that are in flight finish, in the order they started. *)
Definition drain (answer : Z -> error + bytes) (s : sys) : outcome sys :=
  foldM (fun s o => complete s o (answer o)) s (inflight s).

Lemma filter_head (o : Z) l : NoDup (o :: l) -> filter (fun o' => o' <> o) (o :: l) = l.
Proof.
  intros [Hnot _]%NoDup_cons. rewrite filter_cons_False by tauto.
  induction l as [|x l IH]; [done|]. apply not_elem_of_cons in Hnot as [Hx Hl].
  rewrite filter_cons_True by done. by rewrite IH.
Qed.

Lemma drain_core answer s :
  core s -> (forall o, o ∈ inflight s -> honest o (answer o)) ->
  exists s', drain answer s = Done s' /\ core s' /\ inflight s' = [] /\ grows s s'.
Proof.
  unfold drain. remember (inflight s) as l eqn:Hl. revert s Hl.
  induction l as [|o l IH]; intros s Hl Hc Hh; simpl; [by exists s|].
  assert (Ho : o ∈ inflight s) by (rewrite <-Hl; by left).
  destruct (complete_Done s o (answer o) Hc Ho) as (b & c & -> & H1 & H2 & H3 & ->). simpl.
  destruct (IH (completed s b c (answer (at_block b)))) as (s' & Hs' & Hc' & Hin & Hg).
  - simpl. rewrite <-Hl. rewrite filter_head; [done|]. rewrite Hl. by apply core_nodup.
  - apply completed_core; try done. apply Hh. by left.
  - intros o' Ho'. apply Hh. by right.
  - exists s'. split_and!; try done. etrans; [apply completed_grows|done].
Qed.

Lemma drain_healthy answer s :
  core s -> healthy s ->
  (forall b, at_block b ∈ inflight s -> answer (at_block b) = inr (block bs F b)) ->
  exists s', drain answer s = Done s' /\ core s' /\ inflight s' = [] /\ grows s s' /\
    healthy s' /\ forall b, ready s b -> ready s' b.
Proof.
  unfold drain. remember (inflight s) as l eqn:Hl. revert s Hl.
  induction l as [|o l IH]; intros s Hl Hc Hs Hh; simpl; [exists s; split_and!; try done|].
  assert (Ho : o ∈ inflight s) by (rewrite <-Hl; by left).
  destruct (complete_Done s o (answer o) Hc Ho) as (b & c & -> & H1 & H2 & H3 & ->). simpl.
  rewrite (Hh b) by (by left).
  destruct (IH (completed s b c (inr (block bs F b)))) as (s' & Hs' & Hc' & Hin & Hg & Hs'' & Hr).
  - simpl. rewrite <-Hl. rewrite filter_head; [done|]. rewrite Hl. by apply core_nodup.
  - apply completed_core; try done. intros b' data ->%at_block_inj. congruence.
  - by apply completed_healthy.
  - intros b' Hb'. apply Hh. by right.
  - exists s'. split_and!; try done; [etrans; [apply completed_grows|done]|].
    intros b' Hb'. apply Hr. by apply completed_ready.
Qed.

(** ** The first locked part of [Read] *)

Lemma in_range_eq s (b : nat) : core s -> b < length (cache s) <-> (Z.of_nat b <= len F / bs)%Z.
Proof. intros Hc. pose proof (core_len s Hc) as Hl. unfold len at 1 in Hl. lia. Qed.

Lemma core_lookup s b :
  core s -> b < length (cache s) ->
  exists x a, cache s !! b = Some x /\ active s !! b = Some a.
Proof.
  intros Hc Hb. destruct (lookup_lt_is_Some_2 (cache s) b Hb) as [x Hx].
  destruct (lookup_lt_is_Some_2 (active s) b) as [a Ha]; [by rewrite core_active_len|].
  by exists x, a.
Qed.

(** A channel that is neither nil nor forgotten. *)
Definition waitable (s : sys) (c : option nat) : Prop := exists c', c = Some c' /\ wait_ok s c'.

Lemma waitable_grows s s' c : grows s s' -> waitable s c -> waitable s' c.
Proof. intros [_ Hg] (c' & -> & Hw). exists c'. auto. Qed.

(** What the loops of [Read] make of the state. *)
Record advance (s s' : sys) : Prop := mkAdvance {
  adv_core : core s';
  adv_grows : grows s s';
  adv_ready b : ready s b -> ready s' b;
}.

Lemma advance_refl s : core s -> advance s s.
Proof. intros Hc. by split. Qed.

Lemma advance_trans s1 s2 s3 : advance s1 s2 -> advance s2 s3 -> advance s1 s3.
Proof. intros [] []. split; [done|by etrans|auto]. Qed.

Lemma fetched_advance s b :
  core s -> cache s !! b = Some None -> active s !! b = Some None -> advance s (fetched s b).
Proof.
  intros Hc H1 H2. split; [by apply fetched_core|by apply fetched_grows|].
  intros b'. apply fetched_ready.
Qed.

Lemma want_block_spec s uf b :
  core s -> b < length (cache s) ->
  exists s' new, want_block (s, uf) (at_block b) = Done (s', uf ++ new) /\ advance s s' /\
    Forall (waitable s') new /\
    ((at_block b < len F)%Z -> healthy s -> healthy s' /\ ready s' b).
Proof.
  intros Hc Hb. destruct (core_lookup s b Hc Hb) as (x & a & Hx & Ha).
  unfold want_block. rewrite (core_bs s Hc), quot_block by done.
  rewrite (go_index_lookup _ _ _ Hx). cbn [mbind outcome_bind].
  destruct x as [buf|].
  { exists s, []. rewrite app_nil_r. split_and!; [done|by apply advance_refl|by constructor|].
    intros _ Hs. split; [done|]. left. by exists buf. }
  rewrite (go_index_lookup _ _ _ Ha). cbn [mbind outcome_bind]. destruct a as [c|].
  - cbn [mbind outcome_bind]. rewrite (go_index_lookup _ _ _ Ha). cbn [mbind outcome_bind].
    exists s, [Some c]. split_and!; [done|by apply advance_refl| |].
    + constructor; [|done]. exists c. split; [done|]. right. by exists b.
    + intros _ Hs. split; [done|]. right. destruct Hs as [Hs _].
      destruct (Hs b Hx); [congruence|done].
  - rewrite fetch_Done by done. cbn [mbind outcome_bind].
    assert (Ha' : active (fetched s b) !! b = Some (Some (next_chan s))).
    { simpl. apply list_lookup_insert_eq. by eapply lookup_lt_Some. }
    rewrite (go_index_lookup _ _ _ Ha'). cbn [mbind outcome_bind].
    exists (fetched s b), [Some (next_chan s)].
    split_and!; [done|by apply fetched_advance| |].
    + constructor; [|done]. eexists. split; [done|]. right. by exists b.
    + intros Hlt Hs. split; [by apply fetched_healthy|apply fetched_ready_eq].
Qed.

(** [want_block] on any multiple of the block size panics or names a block. *)
Lemma want_block_range s uf z r :
  core s -> want_block (s, uf) (z * bs)%Z = Done r ->
  exists b, z = Z.of_nat b /\ b < length (cache s).
Proof.
  intros Hc. unfold want_block. rewrite (core_bs s Hc), Z.quot_mul by lia. intros H.
  outcome_inv. apply go_index_Done in E as [Hz Hl%lookup_lt_Some].
  exists (Z.to_nat z). split; [lia|done].
Qed.

(** *** The purge *)

Definition purged (s : sys) (b : nat) : sys :=
  set_handle s (with_active (<[b := None]> (active s)) (with_cache (<[b := None]> (cache s)) (handle s))).

Lemma cached_closed s b c buf :
  core s -> cache s !! b = Some (Some buf) -> active s !! b = Some (Some c) -> c ∈ closed s.
Proof.
  intros Hc Hb Ha. destruct (decide (c ∈ closed s)) as [|Hn]; [done|].
  destruct (core_inflight s Hc _ (core_open s Hc b c Ha Hn)) as (b' & c' & Heq & Hx & _).
  apply at_block_inj in Heq as <-. congruence.
Qed.

Lemma purged_core s b buf : core s -> cache s !! b = Some (Some buf) -> core (purged s b).
Proof.
  intros Hc Hb.
  assert (Hact : forall b' c, <[b:=None]> (active s) !! b' = Some (Some c) ->
    b' <> b /\ active s !! b' = Some (Some c)).
  { intros b' c Hl. destruct (decide (b' = b)) as [->|Hne].
    - rewrite list_lookup_insert_eq in Hl; [done|].
      apply lookup_lt_Some in Hl. by rewrite length_insert in Hl.
    - by rewrite list_lookup_insert_ne in Hl. }
  destruct Hc. split; simpl; try done.
  - by rewrite len_insert.
  - by rewrite !length_insert.
  - intros b' buf'. destruct (decide (b' = b)) as [->|Hne].
    + rewrite list_lookup_insert_eq by (by eapply lookup_lt_Some). done.
    + rewrite list_lookup_insert_ne by done. apply core_cache0.
  - intros o Ho. destruct (core_inflight0 o Ho) as (b' & c & -> & H1 & H2 & H3).
    assert (b' <> b) by congruence. exists b', c.
    by rewrite !list_lookup_insert_ne by done.
  - intros b' c [_ Hl]%Hact. eauto.
  - intros b' c [_ Hl]%Hact. eauto.
  - intros b1 b2 c [_ Hl]%Hact [_ Hl']%Hact. eauto.
Qed.

Lemma purged_grows s b buf : core s -> cache s !! b = Some (Some buf) -> grows s (purged s b).
Proof.
  intros Hc Hb. split; [done|]. intros c [Hcl|[b' Hb']]; [by left|].
  destruct (decide (b' = b)) as [->|Hne].
  - left. simpl. by eapply cached_closed.
  - right. exists b'. simpl. by rewrite list_lookup_insert_ne.
Qed.

Lemma purged_healthy s b buf :
  core s -> cache s !! b = Some (Some buf) -> healthy s -> healthy (purged s b).
Proof.
  intros Hc Hb [H1 H2]. split; [|done]. intros b'. simpl.
  destruct (decide (b' = b)) as [->|Hne].
  - rewrite !list_lookup_insert_eq; [by left| |by eapply lookup_lt_Some].
    rewrite (core_active_len s Hc). by eapply lookup_lt_Some.
  - rewrite !list_lookup_insert_ne by done. apply H1.
Qed.

Lemma purged_ready s b buf b' :
  core s -> cache s !! b = Some (Some buf) -> b' <> b -> ready s b' -> ready (purged s b) b'.
Proof.
  intros Hc Hb Hne [[buf' Hl]|Hin]; [left|by right].
  exists buf'. simpl. by rewrite list_lookup_insert_ne.
Qed.

(** The purge leaves the state alone or drops a cached block that precedes the
request. *)
Lemma purge_cases s z rest s' :
  core s -> purge s ((z * bs)%Z :: rest) = Done s' ->
  s' = s \/ exists b buf, Z.of_nat b = (z - 1)%Z /\ cache s !! b = Some (Some buf) /\ s' = purged s b.
Proof.
  intros Hc. unfold purge. cbn [go_index]. rewrite (core_bs s Hc).
  change (go_index ((z * bs)%Z :: rest) 0) with (Done (z * bs)%Z). cbn [mbind outcome_bind].
  rewrite Z.quot_mul by lia. destruct (decide (z - 1 > 0)%Z) as [Hz|]; [|intros [= <-]; by left].
  intros H. destruct (go_index (cache s) (z - 1)) as [x| |] eqn:Hl; try discriminate H.
  cbn [mbind outcome_bind] in H. apply go_index_Done in Hl as [_ Hl].
  destruct x as [buf|]; [|outcome_inv; by left].
  pose proof (lookup_lt_Some _ _ _ Hl) as Hlt.
  rewrite (go_store_Done (cache s)) in H by (unfold len; lia). cbn [mbind outcome_bind] in H.
  rewrite (go_store_Done (active s)) in H by (unfold len; rewrite (core_active_len s Hc); lia).
  cbn [mbind outcome_bind] in H. injection H as <-.
  right. exists (Z.to_nat (z - 1)), buf. split_and!; [lia|done|done].
Qed.

Lemma purge_total s b rest :
  core s -> b < length (cache s) -> exists s', purge s (at_block b :: rest) = Done s'.
Proof.
  intros Hc Hb. unfold purge. rewrite (core_bs s Hc).
  change (go_index (at_block b :: rest) 0) with (Done (at_block b)). cbn [mbind outcome_bind].
  rewrite quot_block by done. destruct (decide _) as [Hz|]; [|by eexists].
  destruct (core_lookup s (b - 1) Hc ltac:(lia)) as (x & a & Hx & Ha).
  replace (Z.of_nat b - 1)%Z with (Z.of_nat (b - 1)) by lia.
  rewrite (go_index_lookup _ _ _ Hx). cbn [mbind outcome_bind]. destruct x; [|by eexists].
  rewrite (go_store_Done (cache s)) by (unfold len; lia). cbn [mbind outcome_bind].
  rewrite (go_store_Done (active s)) by (unfold len; rewrite (core_active_len s Hc); lia).
  by eexists.
Qed.

(** *** The prefetch *)

(** One pass leaves the state alone or fetches a block that has data. *)
Lemma prefetch_block_cases s blocks i s' :
  core s -> prefetch_block blocks s i = Done s' ->
  s' = s \/ exists b, cache s !! b = Some None /\ active s !! b = Some None /\
    (at_block b < len F)%Z /\ s' = fetched s b.
Proof.
  intros Hc. unfold prefetch_block. rewrite (core_bs s Hc), (core_size s Hc). intros H.
  destruct (go_index blocks _) as [last| |]; try discriminate H. cbn [mbind outcome_bind] in H.
  set (z := i64 (Z.quot last bs + 1 + Z.of_nat i)) in *.
  destruct (decide (i64 (z * bs) < len F)%Z) as [Hlt|]; [|outcome_inv; by left].
  destruct (go_index (cache s) z) as [x| |] eqn:Hx; try discriminate H. cbn [mbind outcome_bind] in H.
  apply go_index_Done in Hx as [Hz Hx]. destruct x as [buf|]; [outcome_inv; by left|].
  destruct (go_index (active s) z) as [a| |] eqn:Ha; try discriminate H.
  cbn [mbind outcome_bind] in H. apply go_index_Done in Ha as [_ Ha].
  destruct a as [c|]; [outcome_inv; by left|].
  pose proof (lookup_lt_Some _ _ _ Hx) as Hr. apply in_range_eq in Hr; [|done].
  pose proof (Z.mul_div_le (len F) bs Hbs).
  assert (Hid : i64 (z * bs) = at_block (Z.to_nat z)).
  { rewrite i64_id by (unfold in_i64; nia). lia. }
  rewrite Hid in *. rewrite fetch_Done in H by (done || by eapply lookup_lt_Some).
  injection H as <-. right. by exists (Z.to_nat z).
Qed.

Lemma prefetch_loop_inv blocks P s s' :
  core s -> foldM (prefetch_block blocks) s (seq 0 P) = Done s' ->
  advance s s' /\ (healthy s -> healthy s').
Proof.
  intros Hc Hrun.
  apply (foldM_inv _ (fun _ s' => advance s s' /\ (healthy s -> healthy s')) _ _ _ Hrun).
  { split; [by apply advance_refl|done]. }
  intros done x todo s1 s2 _ [Hadv Hh] Hstep.
  apply prefetch_block_cases in Hstep as [->|(b & H1 & H2 & H3 & ->)]; [done| |by apply adv_core in Hadv].
  split; [|intros Hs; apply fetched_healthy; auto].
  eapply advance_trans; [done|]. apply fetched_advance; [by apply adv_core in Hadv|done|done].
Qed.

End invariant.
End FetcherProofs.
