(* ===== verification/FetcherRuns.v ===== *)
(** * Runs of the block fetcher

The calls of [Read] against the invariant of the handle, and what every
reachable state says of its readers. *)

From S2P Require Import Prelude GoStrings Types Fetcher FetcherBlocks FetcherProofs.
Import Fetcher FetcherBlocks FetcherProofs.

Module FetcherRuns.

Section runs.
Context (bs : Z) (Hbs : (0 < bs)%Z) (F : bytes) (HF : (len F < 2 ^ 63)%Z).

Abbreviation cache s := (h_cache (handle s)).
Abbreviation active s := (h_active (handle s)).
Abbreviation at_block b := (Z.of_nat b * bs)%Z.
Abbreviation core := (core bs F).
Abbreviation healthy := (healthy bs F).
Abbreviation ready := (ready bs).
Abbreviation advance := (advance bs F).
Abbreviation blocks_of offset size := (request_blocks offset size bs).

(** The requested bytes. *)
Definition wanted (offset size : Z) : bytes := take (Z.to_nat size) (drop (Z.to_nat offset) F).

(** The blocks of a request, as the handle numbers them. *)
Definition covers (offset size : Z) (b : nat) : Prop := at_block b ∈ blocks_of offset size.

(** ** The first locked part *)

Lemma want_loop_inv blocks s s' uf :
  (forall o, o ∈ blocks -> exists z, o = (z * bs)%Z) ->
  core s -> foldM want_block (s, []) blocks = Done (s', uf) ->
  advance s s' /\ Forall (waitable s') uf /\
  forall o, o ∈ blocks -> exists b, o = at_block b /\ b < length (cache s).
Proof.
  intros Hmul Hc Hrun.
  apply (foldM_inv _ (fun done acc => advance s acc.1 /\ Forall (waitable acc.1) acc.2 /\
    forall o, o ∈ done -> exists b, o = at_block b /\ b < length (cache s)) _ _ _ Hrun).
  { simpl. split_and!; [by apply advance_refl|done|by intros o ?%not_elem_of_nil]. }
  intros done x todo [s1 uf1] [s2 uf2] Hl (Hadv & Huf & Hdone) Hstep. cbn [fst snd] in *.
  destruct (Hmul x) as [z ->]; [rewrite Hl; apply elem_of_app; right; by left|].
  pose proof (adv_core _ _ _ _ Hadv) as Hc1.
  destruct (want_block_range bs Hbs F s1 uf1 z _ Hc1 Hstep) as (b & -> & Hb).
  destruct (want_block_spec bs Hbs F s1 uf1 b Hc1 Hb) as (s3 & new & Heq & Hadv' & Hnew & _).
  rewrite Heq in Hstep. injection Hstep as <- <-. split_and!.
  - by eapply advance_trans.
  - apply Forall_app. split; [|done]. eapply Forall_impl; [exact Huf|].
    intros c. apply waitable_grows. by eapply adv_grows.
  - intros o [Ho| ->%list_elem_of_singleton]%elem_of_app; [auto|]. exists b. split; [done|].
    apply (in_range_eq bs F s); [done|]. by apply (in_range_eq bs F s1).
Qed.

Lemma purge_inv s o rest s' :
  (exists z, o = (z * bs)%Z) -> core s -> purge s (o :: rest) = Done s' -> core s' /\ grows s s'.
Proof.
  intros [z ->] Hc H. destruct (purge_cases bs Hbs F s z rest s' Hc H) as [->|(b & buf & _ & Hb & ->)].
  - done.
  - split; [by eapply purged_core|by eapply purged_grows].
Qed.

(** What [Read] has done when it lets go of the mutex. *)
Lemma begin_read_cases P s tid offset size s' :
  core s -> in_i64 offset -> begin_read P s tid offset size = Done s' ->
  ((len F <= offset)%Z /\ s' = set_reader s tid (Returned offset size [] None)) \/
  exists s1 uf, (offset < len F)%Z /\
    s' = set_reader s1 tid (Waiting offset size (blocks_of offset size) uf) /\
    core s1 /\ grows s s1 /\ Forall (waitable s1) uf /\
    (forall o, o ∈ blocks_of offset size -> exists b, o = at_block b /\ b < length (cache s)).
Proof.
  intros Hc Hoff. unfold begin_read. rewrite (core_size _ _ _ Hc), (core_bs _ _ _ Hc).
  destruct (decide (offset >= len F)%Z) as [Hge|Hlt].
  { intros [= <-]. left. split; [lia|done]. }
  intros H. right.
  assert (Hmul : forall o, o ∈ blocks_of offset size -> exists z, o = (z * bs)%Z).
  { intros o. by apply request_blocks_multiple. }
  destruct (foldM want_block (s, []) _) as [[s1 uf]| |] eqn:Hwant; try discriminate H.
  cbn [mbind outcome_bind] in H.
  destruct (want_loop_inv _ _ _ _ Hmul Hc Hwant) as (Hadv & Huf & Hrange).
  destruct (purge s1 _) as [s2| |] eqn:Hpurge; try discriminate H. cbn [mbind outcome_bind] in H.
  assert (core s2 /\ grows s1 s2) as [Hc2 Hg2].
  { destruct (blocks_of offset size) as [|o rest]; [discriminate Hpurge|].
    eapply purge_inv; [apply Hmul; by left|by eapply adv_core|done]. }
  destruct (foldM (prefetch_block _) s2 _) as [s3| |] eqn:Hpre; try discriminate H.
  cbn [mbind outcome_bind] in H. injection H as <-.
  destruct (prefetch_loop_inv bs Hbs F HF _ _ _ _ Hc2 Hpre) as [Hadv3 _].
  exists s3, uf. split_and!; try done; [lia|by eapply adv_core| |].
  - etrans; [by eapply adv_grows|]. etrans; [done|by eapply adv_grows].
  - eapply Forall_impl; [exact Huf|]. intros c. apply waitable_grows.
    etrans; [done|by eapply adv_grows].
Qed.

(** ** The second locked part *)

Lemma covers_eq offset size b :
  sound_request bs offset size ->
  covers offset size b <-> first_block bs offset <= b < first_block bs offset + block_count bs offset size.
Proof.
  intros Hreq. unfold covers. rewrite (request_blocks_eq bs Hbs offset size Hreq), list_elem_of_fmap.
  split.
  - intros (b' & ->%at_block_inj & Hb'%elem_of_seq); [lia|done].
  - intros Hb. exists b. split; [done|]. apply elem_of_seq. lia.
Qed.

(** The outcomes of a sound request. *)
Definition result_ok (offset size : Z) (data : bytes) (err : option error) : Prop :=
  data = [] \/
  (err = None /\ data = wanted offset size /\ forall b, covers offset size b -> block bs F b <> []).

Lemma finish_read_cases s offset size data err :
  core s -> sound_request bs offset size -> (offset < len F)%Z ->
  finish_read (handle s) offset size (blocks_of offset size) = Done (data, err) ->
  (data = [] /\ err = h_lastErr (handle s)) \/
  (err = None /\ data = wanted offset size /\
   forall b, covers offset size b -> cache s !! b = Some (Some (block bs F b)) /\ block bs F b <> []).
Proof.
  intros Hc Hreq Hoff. unfold finish_read. rewrite (core_bs _ _ _ Hc).
  intros H. destruct (grab _ _ _) as [r| |] eqn:Hgrab; try discriminate H.
  cbn [mbind outcome_bind] in H. rewrite request_blocks_eq in Hgrab by done.
  destruct (grab_cases bs Hbs F _ _ _ _ (core_cache _ _ _ Hc) Hgrab) as [->|[-> Hall]].
  - left. naive_solver.
  - rewrite assemble_correct in H by done. injection H as <- <-. right.
    split_and!; try done. intros b Hb%covers_eq; [|done]. by apply Hall.
Qed.

Lemma finish_read_total s offset size :
  core s -> sound_request bs offset size -> (offset < len F)%Z ->
  (forall o, o ∈ blocks_of offset size -> exists b, o = at_block b /\ b < length (cache s)) ->
  exists r, finish_read (handle s) offset size (blocks_of offset size) = Done r.
Proof.
  intros Hc Hreq Hoff Hrange. unfold finish_read. rewrite (core_bs _ _ _ Hc).
  destruct (grab_total bs Hbs (cache s) (first_block bs offset) (block_count bs offset size)) as [r Hr].
  { destruct (block_count_eq bs Hbs offset size Hreq) as (k & Hk & _). rewrite Hk.
    destruct (Hrange (at_block (first_block bs offset + k))) as (b & Hb%at_block_inj & Hlt); try lia.
    apply covers_eq; [done|lia]. }
  rewrite (request_blocks_eq bs Hbs offset size Hreq), Hr. cbn [mbind outcome_bind].
  rewrite <-(request_blocks_eq bs Hbs offset size Hreq).
  destruct (grab_cases bs Hbs F _ _ _ _ (core_cache _ _ _ Hc) Hr) as [->|[-> _]]; [by eexists|].
  rewrite assemble_correct by done. by eexists.
Qed.

(** ** The invariant of runs *)

Definition reader_ok (s : sys) (r : reader) : Prop :=
  match r with
  | Waiting offset size blocks uf =>
      blocks = blocks_of offset size /\ (offset < len F)%Z /\ Forall (waitable s) uf /\
      forall o, o ∈ blocks -> exists b, o = at_block b /\ b < length (cache s)
  | Returned offset size data err => sound_request bs offset size -> result_ok offset size data err
  end.

Record inv (s : sys) : Prop := mkInv {
  inv_core : core s;
  inv_readers tid r : readers s !! tid = Some r -> reader_ok s r;
}.

Lemma reader_ok_grows s s' r : core s -> core s' -> grows s s' -> reader_ok s r -> reader_ok s' r.
Proof.
  intros Hc Hc' Hg. destruct r as [offset size blocks uf|]; [|done].
  intros (-> & Hlt & Huf & Hr). split_and!; try done.
  - eapply Forall_impl; [exact Huf|]. intros c. by apply waitable_grows.
  - intros o Ho. destruct (Hr o Ho) as (b & -> & Hb). exists b. split; [done|].
    apply (in_range_eq bs F s'); [done|]. by apply (in_range_eq bs F s).
Qed.

Lemma grows_inv s s' : inv s -> core s' -> grows s s' -> inv s'.
Proof.
  intros [Hc Hr] Hc' Hg. split; [done|]. intros tid r Htid.
  eapply reader_ok_grows; [exact Hc|done|done|]. destruct Hg as [Hreq _].
  rewrite Hreq in Htid. by eapply Hr.
Qed.

Lemma set_reader_inv s tid r : inv s -> reader_ok s r -> inv (set_reader s tid r).
Proof.
  intros [Hc Hr] Hok. split; [by destruct Hc; split|].
  intros tid' r'. simpl. intros [[<- <-]|[_ Hl]]%lookup_insert_Some; [done|].
  by eapply Hr.
Qed.

Lemma realFetch_inr known answer ps data :
  realFetch known answer ps = inr data -> exists p, p ∈ known /\ answer p = inr data.
Proof.
  unfold realFetch. generalize (errors_New "Couldn't find peer with file").
  induction ps as [|p ps IH]; intros err; simpl; [done|].
  destruct (decide (p ∈ known)); [|apply IH].
  destruct (answer p) eqn:E; [apply IH|]. intros [= <-]. eauto.
Qed.

(** Peers that answer with the bytes of the file, or with errors. *)
Definition honest_peers (may_answer : Z -> string -> error + bytes -> Prop) : Prop :=
  forall b p data, may_answer (at_block b) p (inr data) -> data = block bs F b.

Lemma step_inv P known may_answer s s' :
  honest_peers may_answer -> step P known may_answer s s' -> inv s -> inv s'.
Proof.
  intros Hh Hstep Hinv. pose proof (inv_core s Hinv) as Hc.
  destruct Hstep as [s s' tid offset size Hnew Hoff _ Hb|s s' o answer Ho Hans Hcomp
    |s tid offset size blocks uf data err Hr Hcl Hfin|s tid offset size blocks uf Hr].
  - apply begin_read_cases in Hb as [[Hge ->]|(s1 & uf & Hlt & -> & Hc1 & Hg & Huf & Hrange)];
      try done.
    + apply set_reader_inv; [done|]. intros _. by left.
    + apply set_reader_inv; [by eapply grows_inv|]. split_and!; try done.
      intros o Ho. destruct (Hrange o Ho) as (b & -> & Hb). exists b. split; [done|].
      apply (in_range_eq bs F s1); [done|]. by apply (in_range_eq bs F s).
  - destruct (complete_Done bs Hbs F s o (realFetch known answer (h_peers (handle s))) Hc Ho)
      as (b & c & -> & H1 & H2 & H3 & Heq).
    rewrite Heq in Hcomp. injection Hcomp as <-.
    eapply grows_inv; [done| |by apply (completed_grows bs Hbs F)].
    apply completed_core; try done. intros b' data ->%at_block_inj Hr; [|done].
    apply realFetch_inr in Hr as (p & _ & Hp). eapply Hh. rewrite <-Hp. apply Hans.
  - apply set_reader_inv; [done|]. destruct (inv_readers s Hinv _ _ Hr) as (-> & Hlt & _ & _).
    intros Hreq. destruct (finish_read_cases s offset size data err Hc Hreq Hlt Hfin)
      as [[-> _]|(-> & -> & Hall)]; [by left|right].
    split_and!; try done. intros b Hb. by apply Hall.
  - apply set_reader_inv; [done|]. intros _. by left.
Qed.

Lemma steps_inv P known may_answer s s' :
  honest_peers may_answer -> rtc (step P known may_answer) s s' -> inv s -> inv s'.
Proof. intros Hh. induction 1; eauto using step_inv. Qed.

(** ** A new handle *)

Lemma NewHandle_start netw f hash ps f' h :
  blockSize f = bs -> NewHandle netw f hash (len F) ps = Done (f', inr h) ->
  inv (start h) /\ healthy (start h) /\ h_peers h = ps.
Proof.
  intros Hf H. unfold NewHandle in H. rewrite Hf in H.
  pose proof (len_nonneg F) as Hlen. rewrite Z.quot_div_nonneg in H by lia.
  pose proof (Z.div_pos (len F) bs Hlen Hbs). pose proof (Z.mul_div_le (len F) bs Hbs).
  set (n := i64 (len F / bs + 1)) in H. unfold make_nil in H.
  destruct (decide (0 <= n)%Z) as [Hn|]; [|discriminate H].
  assert (n = (len F / bs + 1)%Z) as Heq.
  { destruct (decide (len F / bs + 1 = 2 ^ 63)%Z) as [E|E]; [subst n; by rewrite E in Hn|].
    apply i64_id. unfold in_i64. nia. }
  cbn [mbind outcome_bind] in H.
  destruct (foldM _ _ ps) as [[known found]| |]; try discriminate H.
  cbn [mbind outcome_bind] in H. destruct found; [|done]. injection H as _ <-.
  assert (Hnone : forall {A} b (x : A), replicate (Z.to_nat n) (@None A) !! b <> Some (Some x)).
  { intros A b x [??]%lookup_replicate. done. }
  split; [split|split; [split|done]]; simpl.
  - split; simpl; try done.
    + unfold len at 1. rewrite length_replicate. lia.
    + by rewrite !length_replicate.
    + intros b buf Hb. by apply Hnone in Hb.
    + intros o ?%not_elem_of_nil. done.
    + constructor.
    + intros b c Hb. by apply Hnone in Hb.
    + intros b c Hb. by apply Hnone in Hb.
    + intros b b' c Hb. by apply Hnone in Hb.
  - intros tid r. by rewrite lookup_empty.
  - intros b [_ Hb]%lookup_replicate. left. by apply lookup_replicate.
  - intros o ?%not_elem_of_nil. done.
Qed.

(** ** One caller after the other *)

(** A [Read] nothing interrupts, while every goroutine it started finishes. *)
Definition read_alone (P : nat) (answer : Z -> error + bytes) (s : sys) (tid : nat) (offset size : Z)
    : outcome (sys * (bytes * option error)) :=
  s ← begin_read P s tid offset size;
  s ← drain answer s;
  match readers s !! tid with
  | Some (Waiting offset size blocks _) =>
      r ← finish_read (handle s) offset size blocks;
      Done (set_reader s tid (Returned offset size r.1 r.2), r)
  | Some (Returned _ _ data err) => Done (s, (data, err))
  | None => Panic "unknown caller"
  end.

(** Reads in sequence. *)
Definition read_all (P : nat) (answer : Z -> error + bytes) (s : sys) (reqs : list (Z * Z))
    : outcome (sys * list (bytes * option error)) :=
  foldM (fun acc req =>
      r ← read_alone P answer acc.1 0 req.1 req.2;
      Done (r.1, acc.2 ++ [r.2])) (s, []) reqs.

(** Reading a stream to its end, as [io.Copy] does with a buffer of [m] bytes. *)
Fixpoint copy_stream (fuel : nat) (P : nat) (answer : Z -> error + bytes) (s : sys) (st : pfStream)
    (m : Z) (acc : bytes) : outcome (bytes * error) :=
  match fuel with
  | O => NoFuel
  | S fuel' =>
      r ← read_alone P answer s 0 (st_offset st) m;
      let '(st, (out, n, err)) := Stream_Read st m r.2 in
      let acc := acc ++ take (Z.to_nat n) out in
      match err with
      | Some e => Done (acc, e)
      | None => copy_stream fuel' P answer r.1 st m acc
      end
  end.

(** A request that ends before the end of the last block with data. *)
Definition in_file (offset size : Z) : Prop :=
  sound_request bs offset size /\ (offset + size <= (len F + bs - 1) / bs * bs)%Z.

Lemma in_file_covers offset size b :
  in_file offset size -> covers offset size b -> (at_block b < len F)%Z.
Proof.
  intros [Hreq Hend] Hb%covers_eq; [|done]. pose proof Hreq as (H1 & H2 & H3).
  pose proof (Z.mul_div_le (len F + bs - 1) bs Hbs) as Hc.
  unfold first_block, block_count in Hb.
  pose proof (Z.mul_div_le (offset + size + bs - 1) bs Hbs) as Hq.
  pose proof (Z.div_pos offset bs H1 Hbs).
  set (q := ((offset + size + bs - 1) / bs)%Z) in *.
  set (c := ((len F + bs - 1) / bs)%Z) in *.
  assert (Z.of_nat b + 1 <= q)%Z by lia.
  assert ((Z.of_nat b + 1) * bs <= q * bs)%Z by nia.
  assert (Z.of_nat b < c)%Z by nia.
  assert ((Z.of_nat b + 1) * bs <= c * bs)%Z by nia. lia.
Qed.

Lemma in_file_range s b : core s -> (at_block b < len F)%Z -> b < length (cache s).
Proof.
  intros Hc Hb. apply (in_range_eq bs F s b Hc). apply Z.div_le_lower_bound; lia.
Qed.

Lemma want_loop_total blocks s :
  core s -> healthy s ->
  (forall o, o ∈ blocks -> exists b, o = at_block b /\ (at_block b < len F)%Z) ->
  exists s' uf, foldM want_block (s, []) blocks = Done (s', uf) /\ core s' /\ healthy s' /\
    forall b, at_block b ∈ blocks -> ready s' b.
Proof.
  intros Hc Hh Hmul.
  destruct (foldM_total want_block (fun done acc => core acc.1 /\ healthy acc.1 /\
    forall b, at_block b ∈ done -> ready acc.1 b) (s, []) blocks) as ([s' uf] & Hrun & Hres).
  { simpl. split_and!; try done. by intros b ?%not_elem_of_nil. }
  { intros done x todo [s1 uf1] Hl (Hc1 & Hh1 & Hr1). simpl in *.
    destruct (Hmul x) as (b & -> & Hb); [rewrite Hl; apply elem_of_app; right; by left|].
    destruct (want_block_spec bs Hbs F s1 uf1 b Hc1) as (s2 & new & Heq & Hadv & _ & Hhealthy).
    { by apply in_file_range. }
    exists (s2, uf1 ++ new). split; [exact Heq|]. simpl. destruct (Hhealthy Hb Hh1) as [Hh2 Hb2].
    split_and!; [by eapply adv_core|done|].
    intros b' [Hb'|Heq'%list_elem_of_singleton]%elem_of_app.
    - eapply adv_ready; [done|]. auto.
    - apply at_block_inj in Heq' as ->; done. }
  exists s', uf. done.
Qed.

Lemma purge_healthy s b rest :
  core s -> healthy s -> b < length (cache s) ->
  exists s', purge s (at_block b :: rest) = Done s' /\ core s' /\ healthy s' /\
    forall b', b <= b' -> ready s b' -> ready s' b'.
Proof.
  intros Hc Hh Hb. destruct (purge_total bs Hbs F s b rest Hc Hb) as [s' Hs'].
  exists s'. split; [done|].
  destruct (purge_cases bs Hbs F s _ rest s' Hc Hs') as [->|(b0 & buf & Hb0 & Hl & ->)]; [done|].
  split_and!; [by eapply purged_core|by eapply purged_healthy|].
  intros b' Hle. eapply purged_ready; try done. lia.
Qed.

Lemma prefetch_block_total s rest l i :
  core s -> (at_block l < len F)%Z -> (len F + Z.of_nat (i + 2) * bs < 2 ^ 63)%Z ->
  exists s', prefetch_block (rest ++ [at_block l]) s i = Done s'.
Proof.
  intros Hc Hl Hi. unfold prefetch_block.
  rewrite (core_bs _ _ _ Hc), (core_size _ _ _ Hc), go_index_last. cbn [mbind outcome_bind].
  rewrite quot_block by done.
  assert (Hz : i64 (Z.of_nat l + 1 + Z.of_nat i) = Z.of_nat (l + 1 + i)).
  { rewrite i64_id by (unfold in_i64; nia). lia. }
  rewrite Hz. rewrite i64_id by (unfold in_i64; nia).
  destruct (decide _) as [Hlt|]; [|by eexists].
  assert (Hr : l + 1 + i < length (cache s)) by (by apply in_file_range).
  destruct (core_lookup bs F s (l + 1 + i) Hc Hr) as (x & a & Hx & Ha).
  rewrite (go_index_lookup _ _ _ Hx). cbn [mbind outcome_bind]. destruct x; [by eexists|].
  rewrite (go_index_lookup _ _ _ Ha). cbn [mbind outcome_bind]. destruct a; [by eexists|].
  eexists. by apply (fetch_Done bs Hbs F).
Qed.

Lemma prefetch_loop_total s rest l P :
  core s -> (at_block l < len F)%Z -> (len F + Z.of_nat (P + 2) * bs < 2 ^ 63)%Z ->
  exists s', foldM (prefetch_block (rest ++ [at_block l])) s (seq 0 P) = Done s'.
Proof.
  intros Hc Hl HP.
  destruct (foldM_total (prefetch_block (rest ++ [at_block l])) (fun _ s => core s) s (seq 0 P))
    as (s' & Hs' & _); [done| |by exists s'].
  intros done i todo s1 Hseq Hc1.
  assert (i < P).
  { assert (i ∈ seq 0 P) as Hi%elem_of_seq; [|lia].
    rewrite Hseq. apply elem_of_app. right. by left. }
  destruct (prefetch_block_total s1 rest l i Hc1 Hl) as [s2 Hs2]; [nia|].
  exists s2. split; [done|].
  apply (prefetch_block_cases bs Hbs F HF) in Hs2 as [->|(b & H1 & H2 & _ & ->)]; try done.
  by apply fetched_core.
Qed.

Lemma begin_read_total P s tid offset size :
  core s -> healthy s -> in_file offset size -> (offset < len F)%Z ->
  (len F + Z.of_nat (P + 2) * bs < 2 ^ 63)%Z ->
  exists s' uf, begin_read P s tid offset size =
      Done (set_reader s' tid (Waiting offset size (blocks_of offset size) uf)) /\
    core s' /\ healthy s' /\ forall b, covers offset size b -> ready s' b.
Proof.
  intros Hc Hh Hin Hoff HP. pose proof (proj1 Hin) as Hreq. unfold begin_read.
  rewrite (core_size _ _ _ Hc), (core_bs _ _ _ Hc), decide_False by lia.
  destruct (want_loop_total (blocks_of offset size) s) as (s1 & uf & -> & Hc1 & Hh1 & Hr1); try done.
  { intros o Ho. destruct (request_blocks_multiple bs Hbs offset size o) as [z ->]; [|done|].
    { destruct Hreq. unfold in_i64. lia. }
    rewrite (request_blocks_eq bs Hbs offset size Hreq) in Ho.
    apply list_elem_of_fmap in Ho as (b & -> & Hb%elem_of_seq). exists b. split; [done|].
    apply (in_file_covers offset size); [done|]. apply covers_eq; [done|lia]. }
  cbn [mbind outcome_bind].
  destruct (block_count_eq bs Hbs offset size Hreq) as (k & Hk & _).
  pose proof (request_blocks_eq bs Hbs offset size Hreq) as Hbl. rewrite Hk in Hbl.
  assert (Hcov : forall b, first_block bs offset <= b <= first_block bs offset + k ->
    (at_block b < len F)%Z).
  { intros b Hb. apply (in_file_covers offset size); [done|]. apply covers_eq; [done|lia]. }
  destruct (purge_healthy s1 (first_block bs offset)
    ((fun b => at_block b) <$> seq (S (first_block bs offset)) k)) as (s2 & Hs2 & Hc2 & Hh2 & Hr2); try done.
  { apply in_file_range; [done|]. apply Hcov. lia. }
  assert (purge s1 (blocks_of offset size) = Done s2) as -> by (by rewrite Hbl).
  cbn [mbind outcome_bind].
  destruct (prefetch_loop_total s2 ((fun b => at_block b) <$> seq (first_block bs offset) k)
    (first_block bs offset + k) P) as [s3 Hs3]; try done; [apply Hcov; lia|].
  assert (blocks_of offset size =
    ((fun b => at_block b) <$> seq (first_block bs offset) k) ++ [at_block (first_block bs offset + k)])
    as Hlast by (rewrite Hbl, seq_S, fmap_app; done).
  rewrite <-Hlast in Hs3. rewrite Hs3. cbn [mbind outcome_bind].
  destruct (prefetch_loop_inv bs Hbs F HF _ _ _ _ Hc2 Hs3) as [Hadv Hh3].
  exists s3, uf. split_and!; [done|by eapply adv_core|auto|].
  intros b Hb. eapply adv_ready; [done|]. apply Hr2; [|auto].
  apply covers_eq in Hb; [lia|done].
Qed.

Lemma set_reader_core s tid r : core s -> core (set_reader s tid r).
Proof. by intros []. Qed.

Lemma read_alone_eof P answer s tid offset size :
  core s -> healthy s -> inflight s = [] -> (len F <= offset)%Z ->
  exists s', read_alone P answer s tid offset size = Done (s', ([], None)) /\
    core s' /\ healthy s' /\ inflight s' = [].
Proof.
  intros Hc Hh Hin Hoff. unfold read_alone, begin_read.
  rewrite (core_size _ _ _ Hc), decide_True by lia. cbn [mbind outcome_bind].
  unfold drain. cbn [inflight set_reader]. rewrite Hin. cbn [foldM mbind outcome_bind readers set_reader].
  rewrite lookup_insert_eq.
  exists (set_reader s tid (Returned offset size [] None)).
  split_and!; [done|by apply set_reader_core|done|done].
Qed.

Lemma read_alone_correct P answer s tid offset size :
  core s -> healthy s -> inflight s = [] -> in_file offset size ->
  (len F + Z.of_nat (P + 2) * bs < 2 ^ 63)%Z ->
  (forall b, (at_block b < len F)%Z -> answer (at_block b) = inr (block bs F b)) ->
  exists s', read_alone P answer s tid offset size = Done (s', (wanted offset size, None)) /\
    core s' /\ healthy s' /\ inflight s' = [].
Proof.
  intros Hc Hh Hin Hreq HP Hans.
  destruct (decide (offset < len F)%Z) as [Hoff|Hoff].
  - unfold read_alone.
    destruct (begin_read_total P s tid offset size Hc Hh Hreq Hoff HP) as (s1 & uf & -> & Hc1 & Hh1 & Hr1).
    cbn [mbind outcome_bind].
    set (s1' := set_reader s1 tid _).
    destruct (drain_healthy bs Hbs F HF answer s1') as (s2 & -> & Hc2 & Hin2 & [Hg _] & Hh2 & Hr2).
    { by apply set_reader_core. } { done. }
    { intros b Hb. apply Hans. by apply Hh1. }
    cbn [mbind outcome_bind]. rewrite Hg. subst s1'. cbn [readers set_reader].
    rewrite lookup_insert_eq.
    destruct Hreq as [Hreq _]. unfold finish_read. rewrite (core_bs _ _ _ Hc2).
    assert (grab (cache s2) bs (blocks_of offset size) = Done (Some (blocks_from bs F
      (first_block bs offset) (block_count bs offset size)))) as ->.
    { rewrite (request_blocks_eq bs Hbs offset size Hreq). apply (grab_cached bs Hbs F).
      - by apply core_cache.
      - intros b Hb. destruct (Hr2 b) as [?|Hn]; [|done|].
        + apply Hr1. by apply covers_eq.
        + rewrite Hin2 in Hn. by apply not_elem_of_nil in Hn. }
    cbn [mbind outcome_bind]. rewrite assemble_correct by done. cbn [mbind outcome_bind].
    eexists. split; [done|]. split_and!; [by apply set_reader_core|done|done].
  - destruct (read_alone_eof P answer s tid offset size) as (s' & -> & ? & ? & ?); try done; [lia|].
    exists s'. split_and!; try done. unfold wanted.
    rewrite drop_ge by (unfold len in Hoff; lia). by rewrite take_nil.
Qed.

Lemma realFetch_good known answer ps data :
  (forall p d, answer p = inr d -> d = data) ->
  (exists p, p ∈ ps /\ p ∈ known /\ answer p = inr data) ->
  realFetch known answer ps = inr data.
Proof.
  intros Huniq (p & Hp & Hk & Ha). unfold realFetch.
  generalize (errors_New "Couldn't find peer with file").
  induction ps as [|p' ps IH]; intros err; simpl; [by apply not_elem_of_nil in Hp|].
  apply elem_of_cons in Hp as [<-|Hp].
  - by rewrite decide_True, Ha.
  - destruct (decide (p' ∈ known)); [|by apply IH].
    destruct (answer p') as [err'|d] eqn:E; [by apply IH|]. by rewrite (Huniq _ _ E).
Qed.

Lemma read_all_correct P answer s reqs :
  core s -> healthy s -> inflight s = [] -> Forall (fun r => in_file r.1 r.2) reqs ->
  (len F + Z.of_nat (P + 2) * bs < 2 ^ 63)%Z ->
  (forall b, (at_block b < len F)%Z -> answer (at_block b) = inr (block bs F b)) ->
  exists s', read_all P answer s reqs = Done (s', (fun r => (wanted r.1 r.2, None)) <$> reqs).
Proof.
  intros Hc Hh Hin Hreqs HP Hans. unfold read_all.
  match goal with |- context [foldM ?body _ _] =>
    destruct (foldM_total body (fun done acc =>
      (core acc.1 /\ healthy acc.1 /\ inflight acc.1 = []) /\
      acc.2 = (fun r => (wanted r.1 r.2, None)) <$> done) (s, []) reqs)
      as ([s' out] & Hrun & _ & Hout)
  end; [done| |by exists s'; rewrite Hrun; simpl in Hout; rewrite Hout].
  intros done [offset size] todo [s1 out] Hl [(Hc1 & Hh1 & Hin1) Hout]. cbn [fst snd] in *.
  rewrite Hl, Forall_app, Forall_cons in Hreqs. destruct Hreqs as (_ & Hreq & _).
  destruct (read_alone_correct P answer s1 0 offset size) as (s2 & -> & Hres); try done.
  eexists. split; [reflexivity|]. cbn [fst snd]. split; [done|].
  by rewrite fmap_app, Hout.
Qed.

Lemma chunk_in_file m q :
  (0 < m)%Z -> (m | bs)%Z -> (0 <= q)%Z -> (q * m < len F)%Z -> (len F + 2 * bs < 2 ^ 63)%Z ->
  in_file (q * m) m.
Proof.
  intros Hm [d Hd] Hq Hoff Hlen. assert (m <= bs)%Z by (assert (0 < d)%Z by nia; nia).
  assert (0 <= q * m)%Z by nia. split; [unfold sound_request; lia|].
  pose proof (Z.div_mod (len F + bs - 1) bs ltac:(lia)) as E.
  pose proof (Z.mod_pos_bound (len F + bs - 1) bs Hbs).
  set (c := ((len F + bs - 1) / bs)%Z) in *.
  assert (q * m < c * d * m)%Z by nia. assert (q < c * d)%Z by nia. nia.
Qed.

Lemma copy_stream_correct fuel P answer s q m :
  core s -> healthy s -> inflight s = [] ->
  (0 < m)%Z -> (m | bs)%Z -> (0 <= q)%Z -> (len F + Z.of_nat (P + 2) * bs < 2 ^ 63)%Z ->
  (forall b, (at_block b < len F)%Z -> answer (at_block b) = inr (block bs F b)) ->
  (len F < (q + Z.of_nat fuel) * m)%Z -> (q * m <= len F)%Z ->
  copy_stream fuel P answer s (Stream (q * m)) m (take (Z.to_nat (q * m)) F) =
    Done (F, io_EOF).
Proof.
  intros Hc Hh Hin Hm Hdiv Hq HP Hans. revert s q Hc Hh Hin Hq.
  induction fuel as [|fuel IH]; intros s q Hc Hh Hin Hq Hfuel Hle; [lia|]. cbn [copy_stream].
  cbn [Stream st_offset]. destruct (decide (q * m < len F)%Z) as [Hlt|Hge].
  - destruct (read_alone_correct P answer s 0 (q * m) m) as (s' & -> & Hc' & Hh' & Hin'); try done.
    { apply chunk_in_file; try done. nia. }
    cbn [mbind outcome_bind fst snd]. unfold Stream_Read. cbn [Stream st_offset st_cancelled].
    assert (Hn : len (wanted (q * m) m) = Z.min m (len F - q * m)).
    { unfold len, wanted in *. rewrite length_take, length_drop. lia. }
    assert (Hacc : take (Z.to_nat (q * m)) F ++ take (Z.to_nat (len (wanted (q * m) m)))
      (take (Z.to_nat m) (wanted (q * m) m)) = take (Z.to_nat ((q + 1) * m)) F).
    { rewrite (take_ge (wanted _ _) (Z.to_nat m)) by (unfold len in Hn; lia).
      rewrite (take_ge (wanted _ _)) by (unfold len; lia). unfold wanted. rewrite take_take_drop. f_equal. lia. }
    rewrite Hacc. destruct (decide (len (wanted (q * m) m) < m)%Z) as [Hs|Hs].
    + rewrite take_ge by (unfold len in *; lia). done.
    + rewrite i64_id by (unfold in_i64; nia).
      replace (q * m + len (wanted (q * m) m))%Z with ((q + 1) * m)%Z by lia.
      apply IH; try done; lia.
  - destruct (read_alone_eof P answer s 0 (q * m) m) as (s' & -> & _); try done; [lia|].
    cbn [mbind outcome_bind fst snd]. unfold Stream_Read. rewrite take_nil.
    change (len (@nil Byte.byte)) with 0%Z. rewrite decide_True by lia. simpl.
    rewrite app_nil_r, take_ge by (unfold len in *; lia). done.
Qed.

End runs.
End FetcherRuns.
