(* ===== verification/FetcherTheorems.v ===== *)
(** * What the block fetcher guarantees

Every theorem is about a handle [NewHandle] returned for a file with bytes [F]
and a fetcher with block size [bs]. *)

From S2P Require Import Prelude GoStrings Types Fetcher FetcherBlocks FetcherProofs FetcherRuns.
Import Fetcher FetcherBlocks FetcherProofs FetcherRuns.

Module FetcherTheorems.

(** A request of [Read], with [int64] operands. *)
Abbreviation at_block bs b := (Z.of_nat b * bs)%Z.

(** ** Helper lemmas *)

Section helpers.
Context (bs : Z) (Hbs : (0 < bs)%Z) (F : bytes) (HF : (len F < 2 ^ 63)%Z).

Lemma want_block_panics s uf b :
  core bs F s -> length (h_cache (handle s)) <= b ->
  want_block (s, uf) (at_block bs b) = Panic index_out_of_range.
Proof.
  intros Hc Hb. unfold want_block. rewrite (core_bs _ _ _ Hc), quot_block by done.
  by rewrite (go_index_ge (h_cache (handle s))) by (unfold len; lia).
Qed.

(** A request that reaches past the last block meets a block index out of range. *)
Lemma want_loop_panics s uf i k :
  core bs F s -> i <= length (h_cache (handle s)) < i + k ->
  foldM want_block (s, uf) ((fun b => at_block bs b) <$> seq i k) = Panic index_out_of_range.
Proof.
  revert s uf i. induction k as [|k IH]; intros s uf i Hc Hi; [lia|].
  cbn [seq]. rewrite fmap_cons. cbn [foldM].
  destruct (decide (i = length (h_cache (handle s)))) as [->|Hne].
  - by rewrite want_block_panics.
  - destruct (want_block_spec bs Hbs F s uf i Hc) as (s' & new & -> & Hadv & _); [lia|].
    cbn [mbind outcome_bind]. pose proof (adv_core _ _ _ _ Hadv) as Hc'. apply IH; [done|].
    pose proof (core_len _ _ _ Hc) as H1. pose proof (core_len _ _ _ Hc') as H2.
    unfold len in H1, H2. lia.
Qed.

(** A block whose fetch failed, or gave no data: nobody fetches it any more. *)
Definition given_up (s : sys) (b : nat) : Prop :=
  exists c, h_cache (handle s) !! b = Some None /\ h_active (handle s) !! b = Some (Some c) /\
    c ∈ closed s.

Lemma given_up_not_inflight s b : core bs F s -> given_up s b -> at_block bs b ∉ inflight s.
Proof.
  intros Hc (c & H1 & H2 & H3) Hin.
  destruct (core_inflight _ _ _ Hc _ Hin) as (b' & c' & ->%at_block_inj & _ & Ha & Hn); [|done].
  congruence.
Qed.

Lemma given_up_fetched s b b' :
  h_active (handle s) !! b' = Some None -> given_up s b -> given_up (fetched bs s b') b.
Proof.
  intros Ha (c & H1 & H2 & H3). exists c. split_and!; [done| |done]. simpl.
  rewrite list_lookup_insert_ne; [done|congruence].
Qed.

Lemma given_up_want blocks s s' uf b :
  (forall o, o ∈ blocks -> exists z, o = (z * bs)%Z) -> core bs F s -> given_up s b ->
  foldM want_block (s, []) blocks = Done (s', uf) -> given_up s' b.
Proof.
  intros Hmul Hc Hg Hrun.
  apply (foldM_inv _ (fun _ acc => core bs F acc.1 /\ given_up acc.1 b) _ _ _ Hrun); [done|].
  intros done x todo [s1 uf1] [s2 uf2] Hl [Hc1 Hg1] Hstep. cbn [fst snd] in *.
  destruct (Hmul x) as [z ->]; [rewrite Hl; apply elem_of_app; right; by left|].
  destruct (want_block_range bs Hbs F s1 uf1 z _ Hc1 Hstep) as (b' & -> & Hb').
  destruct (want_block_spec bs Hbs F s1 uf1 b' Hc1 Hb') as (s3 & new & Heq & Hadv & _).
  rewrite Heq in Hstep. injection Hstep as <- _. split; [by eapply adv_core|].
  destruct (core_lookup bs F s1 b' Hc1 Hb') as (x & a & Hx & Ha).
  unfold want_block in Heq. rewrite (core_bs _ _ _ Hc1), quot_block in Heq by done.
  rewrite (go_index_lookup _ _ _ Hx) in Heq. cbn [mbind outcome_bind] in Heq.
  destruct x as [buf|]; [by injection Heq as <- _|].
  rewrite (go_index_lookup _ _ _ Ha) in Heq. cbn [mbind outcome_bind] in Heq.
  destruct a as [c|].
  - cbn [mbind outcome_bind] in Heq. rewrite (go_index_lookup _ _ _ Ha) in Heq.
    by injection Heq as <- _.
  - rewrite (fetch_Done bs Hbs F) in Heq by done. cbn [mbind outcome_bind] in Heq.
    destruct (go_index _ _); try discriminate Heq. injection Heq as <- _.
    by apply given_up_fetched.
Qed.

Lemma given_up_purged s b b' buf :
  h_cache (handle s) !! b' = Some (Some buf) -> given_up s b -> given_up (purged s b') b.
Proof.
  intros Hb' (c & H1 & H2 & H3). assert (b' <> b) by congruence.
  exists c. simpl. by rewrite !list_lookup_insert_ne.
Qed.

Lemma given_up_begin P s tid offset size s' b :
  core bs F s -> in_i64 offset -> given_up s b -> begin_read P s tid offset size = Done s' ->
  given_up s' b.
Proof.
  intros Hc Hoff Hg. unfold begin_read. rewrite (core_size _ _ _ Hc), (core_bs _ _ _ Hc).
  destruct (decide _); [by intros [= <-]|]. intros H.
  assert (Hmul : forall o, o ∈ request_blocks offset size bs -> exists z, o = (z * bs)%Z).
  { intros o. by apply request_blocks_multiple. }
  destruct (foldM want_block (s, []) _) as [[s1 uf]| |] eqn:Hwant; try discriminate H.
  cbn [mbind outcome_bind] in H.
  pose proof (given_up_want _ _ _ _ _ Hmul Hc Hg Hwant) as Hg1.
  destruct (want_loop_inv bs Hbs F _ _ _ _ Hmul Hc Hwant) as [Hadv _].
  pose proof (adv_core _ _ _ _ Hadv) as Hc1.
  destruct (purge s1 _) as [s2| |] eqn:Hpurge; try discriminate H. cbn [mbind outcome_bind] in H.
  assert (core bs F s2 /\ given_up s2 b) as [Hc2 Hg2].
  { destruct (request_blocks offset size bs) as [|o rest]; [discriminate Hpurge|].
    destruct (Hmul o) as [z ->]; [by left|].
    destruct (purge_cases bs Hbs F s1 z rest s2 Hc1 Hpurge) as [->|(b' & buf & _ & Hb' & ->)]; [done|].
    split; [by eapply purged_core|by eapply given_up_purged]. }
  destruct (foldM (prefetch_block _) s2 _) as [s3| |] eqn:Hpre; try discriminate H.
  cbn [mbind outcome_bind] in H. injection H as <-.
  apply (foldM_inv _ (fun _ s => core bs F s /\ given_up s b) _ _ _ Hpre); [done|].
  intros done x todo s4 s5 _ [Hc4 Hg4] Hstep.
  apply (prefetch_block_cases bs Hbs F HF) in Hstep as [->|(b' & H1 & H2 & _ & ->)]; [done| |done].
  split; [by apply fetched_core|by apply given_up_fetched].
Qed.

Lemma given_up_step P known may_answer s s' b :
  inv bs F s -> step P known may_answer s s' -> given_up s b -> given_up s' b.
Proof.
  intros Hinv Hstep Hg. pose proof (inv_core _ _ _ Hinv) as Hc.
  destruct Hstep as [s s' tid offset size Hnew Hoff _ Hb|s s' o answer Ho Hans Hcomp| |]; try done.
  - by eapply given_up_begin.
  - destruct (complete_Done bs Hbs F s o (realFetch known answer (h_peers (handle s))) Hc Ho)
      as (b' & c' & -> & H1 & H2 & H3 & Heq).
    rewrite Heq in Hcomp. injection Hcomp as <-. destruct Hg as (c & G1 & G2 & G3).
    assert (b <> b') by congruence. exists c. simpl.
    rewrite answered_other, answered_active by done. set_solver.
Qed.

Lemma given_up_steps P known may_answer s s' b :
  honest_peers bs F may_answer -> rtc (step P known may_answer) s s' ->
  inv bs F s -> given_up s b -> inv bs F s' /\ given_up s' b.
Proof.
  intros Hh. induction 1 as [s|s1 s2 s3 Hstep _ IH]; intros Hinv Hg; [done|].
  apply IH; [by eapply step_inv|by eapply given_up_step].
Qed.
End helpers.

(** ** Claims *)

Section claims.
(** A handle [NewHandle] made for a file with bytes [F]. *)
Context (bs : Z) (F : bytes) (netw : PeerNetwork) (f f' : Fetcher) (hash : string)
  (ps : list string) (h : pfHandle).
Context (Hbs : (0 < bs)%Z) (HF : (len F < 2 ^ 63)%Z) (Hf : blockSize f = bs).
Context (Hnew : NewHandle netw f hash (len F) ps = Done (f', inr h)).

(** The run of readers and fetches: the flag, the peers, what they answer. *)
Context (P : nat) (known : gset string) (may_answer : Z -> string -> error + bytes -> Prop).
Context (Hhonest : honest_peers bs F may_answer).

(** C4: In every interleaving of any number of readers, fetches and
interruptions, when every answer of a peer that carries data carries that block
of the file, a Read that has returned answered the bytes of the file in the
requested range with no error, or no bytes at all. *)
Theorem reads_never_corrupt s tid offset size data err :
  rtc (step P known may_answer) (start h) s ->
  readers s !! tid = Some (Returned offset size data err) ->
  sound_request bs offset size ->
  data = [] \/ (err = None /\ data = take (Z.to_nat size) (drop (Z.to_nat offset) F)).
Proof.
  intros Hrun Htid Hreq.
  destruct (NewHandle_start bs Hbs F HF _ _ _ _ _ _ Hf Hnew) as (Hinv & _ & _).
  pose proof (steps_inv bs Hbs F HF _ _ _ _ _ Hhonest Hrun Hinv) as Hinv'.
  destruct (inv_readers _ _ _ Hinv' _ _ Htid Hreq) as [?|(? & ? & _)]; auto.
Qed.

(** C9: The fetching goroutines never panic (no close of a nil or closed
channel, no index out of range) and no wake-up is lost: from every reachable
state, whatever the peers answer, the goroutines in flight finish, after them
nothing is in flight, every waiting reader has all its channels closed, and the
rest of its Read returns. *)
Theorem fetches_always_finish s answer :
  rtc (step P known may_answer) (start h) s ->
  (forall o p, may_answer o p (answer o p)) ->
  exists s', drain (fun o => realFetch known (answer o) ps) s = Done s' /\ inflight s' = [] /\
    forall tid offset size blocks unfetched,
      readers s !! tid = Some (Waiting offset size blocks unfetched) ->
      all_closed s' unfetched /\
      (sound_request bs offset size ->
       exists r, finish_read (handle s') offset size blocks = Done r).
Proof.
  intros Hrun Hans.
  destruct (NewHandle_start bs Hbs F HF _ _ _ _ _ _ Hf Hnew) as (Hinv & _ & _).
  pose proof (steps_inv bs Hbs F HF _ _ _ _ _ Hhonest Hrun Hinv) as Hinv'.
  pose proof (inv_core _ _ _ Hinv') as Hc.
  destruct (drain_core bs Hbs F HF (fun o => realFetch known (answer o) ps) s Hc)
    as (s' & Hs' & Hc' & Hin & Hg).
  { intros o _ b data -> (p & _ & Hp)%realFetch_inr. eapply Hhonest. rewrite <-Hp. apply Hans. }
  exists s'. split_and!; [done|done|]. intros tid offset size blocks uf Htid.
  pose proof (reader_ok_grows bs F s s' _ Hc Hc' Hg (inv_readers _ _ _ Hinv' _ _ Htid))
    as (-> & Hlt & Huf & Hrange). split.
  - eapply Forall_impl; [exact Huf|]. intros c (c' & -> & [Hcl|[b Hb]]); [done|].
    destruct (decide (c' ∈ closed s')) as [|Hn]; [done|].
    pose proof (core_open _ _ _ Hc' b c' Hb Hn) as Ho. rewrite Hin in Ho.
    by apply not_elem_of_nil in Ho.
  - intros Hreq. by apply (finish_read_total bs Hbs F s').
Qed.

(** C18: Reads one after the other on a new handle are correct: when every block
with data is answered by some connected peer of the file, and no peer answers
wrong data, each request that ends within the last block with data gives
exactly its bytes of the file and no error, whatever was cached, purged or
prefetched before. *)
Theorem sequential_reads_correct answer reqs :
  (forall b p data, answer (at_block bs b) p = inr data -> data = block bs F b) ->
  (forall b, (at_block bs b < len F)%Z ->
     exists p data, p ∈ ps /\ p ∈ known /\ answer (at_block bs b) p = inr data) ->
  (len F + Z.of_nat (P + 2) * bs < 2 ^ 63)%Z ->
  Forall (fun r => in_file bs F r.1 r.2) reqs ->
  exists s', read_all P (fun o => realFetch known (answer o) ps) (start h) reqs =
    Done (s', (fun r => (take (Z.to_nat r.2) (drop (Z.to_nat r.1) F), None)) <$> reqs).
Proof.
  intros Hok Hsome HP Hreqs.
  destruct (NewHandle_start bs Hbs F HF _ _ _ _ _ _ Hf Hnew) as ([Hc _] & Hh & _).
  apply (read_all_correct bs Hbs F HF); try done. intros b Hb. apply realFetch_good; [by intros p d; apply Hok|].
  destruct (Hsome b Hb) as (p & data & H1 & H2 & H3). exists p. split_and!; [done|done|].
  rewrite H3. f_equal. by eapply Hok.
Qed.

(** Streaming a file from its start with a buffer whose size divides the
block size gives the whole file and ends with EOF, under the same assumptions
on the peers. *)
Theorem stream_gives_file answer m fuel :
  (forall b p data, answer (at_block bs b) p = inr data -> data = block bs F b) ->
  (forall b, (at_block bs b < len F)%Z ->
     exists p data, p ∈ ps /\ p ∈ known /\ answer (at_block bs b) p = inr data) ->
  (len F + Z.of_nat (P + 2) * bs < 2 ^ 63)%Z ->
  (0 < m)%Z -> (m | bs)%Z -> (len F < Z.of_nat fuel * m)%Z ->
  copy_stream fuel P (fun o => realFetch known (answer o) ps) (start h) (Stream 0) m [] =
    Done (F, io_EOF).
Proof.
  intros Hok Hsome HP Hm Hdiv Hfuel.
  destruct (NewHandle_start bs Hbs F HF _ _ _ _ _ _ Hf Hnew) as ([Hc _] & Hh & _).
  pose proof (len_nonneg F).
  apply (copy_stream_correct bs Hbs F HF fuel P _ _ 0); try done; try lia.
  intros b Hb. apply realFetch_good; [by intros p d; apply Hok|].
  destruct (Hsome b Hb) as (p & data & H1 & H2 & H3). exists p. split_and!; [done|done|].
  rewrite H3. f_equal. by eapply Hok.
Qed.

(** C40: A request for a block past the last one is an index out of range, in
every reachable state: [Read] does not clip its size to the file. *)
Theorem read_past_end_panics s tid offset size :
  rtc (step P known may_answer) (start h) s ->
  sound_request bs offset size -> (offset < len F)%Z ->
  (len F / bs + 1 < block_end offset size bs)%Z ->
  begin_read P s tid offset size = Panic index_out_of_range.
Proof.
  intros Hrun Hreq Hoff Hend.
  destruct (NewHandle_start bs Hbs F HF _ _ _ _ _ _ Hf Hnew) as (Hinv & _ & _).
  pose proof (inv_core _ _ _ (steps_inv bs Hbs F HF _ _ _ _ _ Hhonest Hrun Hinv)) as Hc.
  unfold begin_read. rewrite (core_size _ _ _ Hc), (core_bs _ _ _ Hc), decide_False by lia.
  rewrite (request_blocks_eq bs Hbs offset size Hreq), (want_loop_panics bs Hbs F); [done|done|].
  rewrite (block_end_eq bs Hbs offset size Hreq) in Hend.
  pose proof (core_len _ _ _ Hc) as Hlen. unfold len at 1 in Hlen.
  destruct Hreq as (H1 & _). pose proof (Z.div_le_mono offset (len F) bs Hbs ltac:(lia)).
  pose proof (Z.div_pos offset bs H1 Hbs). unfold first_block, block_count. lia.
Qed.

(** A Read that needs the block after the last byte of a file of whole
blocks never gives any of the bytes that exist: the block is empty, arrives as
a nil slice and is taken for a missing one. *)
Theorem aligned_end_gives_nothing s tid offset size data err :
  rtc (step P known may_answer) (start h) s ->
  readers s !! tid = Some (Returned offset size data err) ->
  sound_request bs offset size ->
  (len F mod bs = 0)%Z -> (offset < len F)%Z -> (len F < offset + size)%Z ->
  data = [].
Proof.
  intros Hrun Htid Hreq Hmod Hoff Hend.
  destruct (NewHandle_start bs Hbs F HF _ _ _ _ _ _ Hf Hnew) as (Hinv & _ & _).
  pose proof (steps_inv bs Hbs F HF _ _ _ _ _ Hhonest Hrun Hinv) as Hinv'.
  destruct (inv_readers _ _ _ Hinv' _ _ Htid Hreq) as [?|(_ & _ & Hall)]; [done|].
  pose proof Hreq as (H1 & _). pose proof (len_nonneg F).
  pose proof (Z.div_mod (len F) bs ltac:(lia)) as Hdiv. rewrite Hmod in Hdiv.
  exfalso. apply (Hall (Z.to_nat (len F / bs))).
  - apply (covers_eq bs Hbs); [done|]. unfold first_block, block_count.
    pose proof (Z.div_le_mono offset (len F) bs Hbs ltac:(lia)).
    pose proof (Z.div_pos offset bs H1 Hbs).
    assert (len F / bs < (offset + size + bs - 1) / bs)%Z; [|lia].
    apply Z.lt_le_trans with (len F / bs + 1)%Z; [lia|]. apply Z.div_le_lower_bound; lia.
  - unfold block. rewrite drop_ge; [by rewrite take_nil|]. unfold len in *. nia.
Qed.

(** A failed fetch is final: once a fetched block is not in the cache, no
goroutine ever fetches it again, however long the handle lives, and every
reader that waits for a range with that block ends with no data and the last
error of the handle. *)
Theorem failed_block_stays_failed s s' b c :
  rtc (step P known may_answer) (start h) s ->
  h_cache (handle s) !! b = Some None -> h_active (handle s) !! b = Some (Some c) ->
  c ∈ closed s ->
  rtc (step P known may_answer) s s' ->
  (at_block bs b ∉ inflight s') /\
  forall tid offset size blocks unfetched data err,
    readers s' !! tid = Some (Waiting offset size blocks unfetched) ->
    sound_request bs offset size -> at_block bs b ∈ blocks ->
    finish_read (handle s') offset size blocks = Done (data, err) ->
    data = [] /\ err = h_lastErr (handle s').
Proof.
  intros Hrun H1 H2 H3 Hrun'.
  destruct (NewHandle_start bs Hbs F HF _ _ _ _ _ _ Hf Hnew) as (Hinv & _ & _).
  pose proof (steps_inv bs Hbs F HF _ _ _ _ _ Hhonest Hrun Hinv) as Hinv'.
  destruct (given_up_steps bs Hbs F HF P known may_answer s s' b Hhonest Hrun' Hinv')
    as [Hinv2 Hg]; [by exists c|].
  pose proof (inv_core _ _ _ Hinv2) as Hc. split; [by eapply given_up_not_inflight|].
  intros tid offset size blocks uf data err Htid Hreq Hb Hfin.
  destruct (inv_readers _ _ _ Hinv2 _ _ Htid) as (-> & Hlt & _).
  destruct (finish_read_cases bs Hbs F s' offset size data err Hc Hreq Hlt Hfin)
    as [?|(_ & _ & Hall)]; [done|].
  destruct Hg as (c' & Hnone & _). by destruct (Hall b Hb) as [? _]; simplify_eq.
Qed.
End claims.

(** ** Concrete runs *)

Section demo.
#[local] Open Scope string_scope.
#[local] Open Scope list_scope.

(** Ten bytes in blocks of four, and one peer that has them. *)
Definition demo_file : bytes := String.list_byte_of_string "0123456789".
Definition demo_net : PeerNetwork :=
  {| dial := fun _ _ => None; ping1 := fun _ => None; ping2 := fun _ => None;
     ping_time := fun _ => 5%Z |}.
Definition demo_fetcher : Fetcher := mkFetcher ∅ 4 "/cache" 0.
Definition demo_peer : string := "bob@10.0.0.2:1667".
Definition demo_known : gset string := {[demo_peer]}.
Definition demo_handle (size : Z) (blocks : nat) : pfHandle :=
  mkHandle 4 "hash" size [demo_peer] (replicate blocks None) (replicate blocks None) None.

(** A peer that serves the file block by block. *)
Definition demo_answer (F : bytes) (o : Z) (p : string) : error + bytes :=
  inr (take 4 (drop (Z.to_nat o) F)).
(** A peer that cannot be reached. *)
Definition demo_dead (o : Z) (p : string) : error + bytes := inl (errors_New "unreachable").

(** What either of them may answer. *)
Definition demo_may (F : bytes) (o : Z) (p : string) (r : error + bytes) : Prop :=
  r = demo_answer F o p \/ r = demo_dead o p.

Lemma demo_honest F : honest_peers 4 F (demo_may F).
Proof.
  intros b p data [H|H]; [|done]. injection H as ->. unfold block. simpl.
  change (Pos.to_nat 4) with 4. f_equal. f_equal. lia.
Qed.

Definition get {A} (d : A) (m : outcome A) : A := match m with Done x => x | _ => d end.

(** A read of [size] bytes at [offset], and the first block in flight. *)
Definition demo_begin (F : bytes) (blocks : nat) (offset size : Z) : sys :=
  get (start (demo_handle (len F) blocks))
    (begin_read 0 (start (demo_handle (len F) blocks)) 7 offset size).
Definition demo_complete (s : sys) (o : Z) (answer : string -> error + bytes) : sys :=
  get s (complete s o (realFetch demo_known answer [demo_peer])).
Definition demo_finish (s : sys) (offset size : Z) (blocks : list Z) : sys :=
  let r := get ([], None) (finish_read (handle s) offset size blocks) in
  set_reader s 7 (Returned offset size r.1 r.2).

(** The fetcher after it dialled the peer. *)
Definition demo_fetcher' : Fetcher :=
  mkFetcher {[demo_peer := mkPfPeer demo_peer (Some 5%Z)]} 4 "/cache" 0.

(** Reading bytes 2 to 7: two blocks. *)
Definition demo_s1 := demo_begin demo_file 3 2 5.
Definition demo_s2 := demo_complete demo_s1 4 (demo_answer demo_file 4).
Definition demo_s3 := demo_complete demo_s2 0 (demo_answer demo_file 0).
Definition demo_s4 := demo_finish demo_s3 2 5 [0%Z; 4%Z].

Lemma demo_run1 : rtc (step 0 demo_known (demo_may demo_file)) (start (demo_handle 10 3)) demo_s1.
Proof.
  apply rtc_once. apply (step_begin _ _ _ _ _ 7 2 5); [done|..]; try (unfold in_i64; lia).
  vm_compute. reflexivity.
Qed.

(** Every step of a concrete run is checked by computation. *)
Ltac demo_completes s s' o answer :=
  apply (rtc_l _ _ s');
  [ apply (step_complete _ _ _ s s' o answer);
    [ by apply (bool_decide_eq_true_1 (o ∈ inflight s)); vm_compute
    | intros p; by (left + right) | by vm_compute ] |].

Lemma demo_run2 : rtc (step 0 demo_known (demo_may demo_file)) (start (demo_handle 10 3)) demo_s4.
Proof.
  etrans; [apply demo_run1|].
  demo_completes demo_s1 demo_s2 4%Z (demo_answer demo_file 4).
  demo_completes demo_s2 demo_s3 0%Z (demo_answer demo_file 0).
  apply rtc_once. refine (step_finish _ _ _ demo_s3 7 2 5 [0%Z; 4%Z] [Some 0; Some 1] _ _ _ _ _).
  - by vm_compute.
  - apply Forall_cons. split; [by apply (bool_decide_eq_true_1 (0 ∈ closed demo_s3)); vm_compute|].
    apply Forall_cons. split; [by apply (bool_decide_eq_true_1 (1 ∈ closed demo_s3)); vm_compute|].
    by apply Forall_nil.
  - by vm_compute.
Qed.

Lemma reads_never_corrupt_witness :
  String.list_byte_of_string "23456" = [] \/
  (@None error = None /\
   String.list_byte_of_string "23456" = take (Z.to_nat 5) (drop (Z.to_nat 2) demo_file)).
Proof.
  refine (reads_never_corrupt 4 demo_file demo_net demo_fetcher demo_fetcher' "hash" [demo_peer]
    (demo_handle 10 3) _ _ eq_refl _ 0 demo_known (demo_may demo_file) (demo_honest _)
    demo_s4 7 2 5 _ None demo_run2 _ _).
  - lia.
  - by vm_compute.
  - by vm_compute.
  - by vm_compute.
  - unfold sound_request. lia.
Defined.
Lemma demo_peers_answer F :
  (forall b p data, demo_answer F (at_block 4 b) p = inr data -> data = block 4 F b) /\
  (forall b, (at_block 4 b < len F)%Z ->
     exists p data, p ∈ [demo_peer] /\ p ∈ demo_known /\ demo_answer F (at_block 4 b) p = inr data).
Proof.
  split.
  - intros b p data H. apply (demo_honest F b p). by left.
  - intros b _. exists demo_peer, (take 4 (drop (Z.to_nat (at_block 4 b)) F)).
    split_and!; [by left|by apply elem_of_singleton|done].
Qed.

Lemma fetches_always_finish_witness :
  exists s', drain (fun o => realFetch demo_known (demo_dead o) [demo_peer]) demo_s1 = Done s' /\
    inflight s' = [] /\
    forall tid offset size blocks unfetched,
      readers demo_s1 !! tid = Some (Waiting offset size blocks unfetched) ->
      all_closed s' unfetched /\
      (sound_request 4 offset size ->
       exists r, finish_read (handle s') offset size blocks = Done r).
Proof.
  refine (fetches_always_finish 4 demo_file demo_net demo_fetcher demo_fetcher' "hash" [demo_peer]
    (demo_handle 10 3) _ _ eq_refl _ 0 demo_known (demo_may demo_file) (demo_honest _)
    demo_s1 demo_dead demo_run1 _).
  - lia.
  - by vm_compute.
  - by vm_compute.
  - intros o p. by right.
Defined.

Lemma sequential_reads_correct_witness :
  exists s', read_all 1 (fun o => realFetch demo_known (demo_answer demo_file o) [demo_peer])
    (start (demo_handle 10 3)) [(2, 5); (7, 3); (8, 4)]%Z =
    Done (s', [(String.list_byte_of_string "23456", None); (String.list_byte_of_string "789", None);
               (String.list_byte_of_string "89", None)]).
Proof.
  refine (sequential_reads_correct 4 demo_file demo_net demo_fetcher demo_fetcher' "hash" [demo_peer]
    (demo_handle 10 3) _ _ eq_refl _ 1 demo_known (demo_answer demo_file)
    [(2, 5); (7, 3); (8, 4)]%Z _ _ _ _).
  - lia.
  - by vm_compute.
  - by vm_compute.
  - apply demo_peers_answer.
  - apply demo_peers_answer.
  - by vm_compute.
  - repeat (apply Forall_cons; split); [..|by apply Forall_nil];
      (split; [unfold sound_request; simpl; lia|by vm_compute]).
Defined.

Lemma stream_gives_file_witness :
  copy_stream 6 0 (fun o => realFetch demo_known (demo_answer demo_file o) [demo_peer])
    (start (demo_handle 10 3)) (Stream 0) 2 [] = Done (demo_file, io_EOF).
Proof.
  refine (stream_gives_file 4 demo_file demo_net demo_fetcher demo_fetcher' "hash" [demo_peer]
    (demo_handle 10 3) _ _ eq_refl _ 0 demo_known (demo_answer demo_file) 2 6 _ _ _ _ _ _).
  - lia.
  - by vm_compute.
  - by vm_compute.
  - apply demo_peers_answer.
  - apply demo_peers_answer.
  - by vm_compute.
  - lia.
  - by exists 2%Z.
  - by vm_compute.
Defined.

Lemma read_past_end_panics_witness :
  begin_read 0 (start (demo_handle 10 3)) 7 0 16 = Panic index_out_of_range.
Proof.
  refine (read_past_end_panics 4 demo_file demo_net demo_fetcher demo_fetcher' "hash" [demo_peer]
    (demo_handle 10 3) _ _ eq_refl _ 0 demo_known (demo_may demo_file) (demo_honest _)
    _ 7 0 16 (rtc_refl _ _) _ _ _).
  - lia.
  - by vm_compute.
  - by vm_compute.
  - unfold sound_request. lia.
  - by vm_compute.
  - by vm_compute.
Defined.

(** Eight bytes are two blocks; a read of bytes 4 to 8 also wants the third. *)
Definition demo_aligned : bytes := String.list_byte_of_string "01234567".
Definition demo_a1 := demo_begin demo_aligned 3 4 5.
Definition demo_a2 := demo_complete demo_a1 4 (demo_answer demo_aligned 4).
Definition demo_a3 := demo_complete demo_a2 8 (demo_answer demo_aligned 8).
Definition demo_a4 := demo_finish demo_a3 4 5 [4%Z; 8%Z].

Lemma demo_run3 :
  rtc (step 0 demo_known (demo_may demo_aligned)) (start (demo_handle 8 3)) demo_a4.
Proof.
  apply (rtc_l _ _ demo_a1).
  { apply (step_begin _ _ _ _ _ 7 4 5); [done|..|by vm_compute]; unfold in_i64; lia. }
  demo_completes demo_a1 demo_a2 4%Z (demo_answer demo_aligned 4).
  demo_completes demo_a2 demo_a3 8%Z (demo_answer demo_aligned 8).
  apply rtc_once.
  refine (step_finish _ _ _ demo_a3 7 4 5 [4%Z; 8%Z] [Some 0; Some 1] _ _ _ _ _); [by vm_compute| |by vm_compute].
  apply Forall_cons. split; [by apply (bool_decide_eq_true_1 (0 ∈ closed demo_a3)); vm_compute|].
  apply Forall_cons. split; [by apply (bool_decide_eq_true_1 (1 ∈ closed demo_a3)); vm_compute|].
  by apply Forall_nil.
Qed.

Lemma aligned_end_gives_nothing_witness :
  readers demo_a4 !! 7 = Some (Returned 4 5 [] None) /\ ([] : bytes) = [].
Proof.
  split; [by vm_compute|].
  refine (aligned_end_gives_nothing 4 demo_aligned demo_net demo_fetcher demo_fetcher' "hash"
    [demo_peer] (demo_handle 8 3) _ _ eq_refl _ 0 demo_known (demo_may demo_aligned)
    (demo_honest _) demo_a4 7 4 5 [] None demo_run3 _ _ _ _ _).
  - lia.
  - by vm_compute.
  - by vm_compute.
  - by vm_compute.
  - unfold sound_request. lia.
  - by vm_compute.
  - by vm_compute.
  - by vm_compute.
Defined.

(** The second block of the first run cannot be had. *)
Definition demo_f2 := demo_complete demo_s1 4 (demo_dead 4).
Definition demo_f3 := demo_complete demo_f2 0 (demo_answer demo_file 0).

Lemma failed_block_stays_failed_witness :
  (at_block 4 1 ∉ inflight demo_f3) /\
  finish_read (handle demo_f3) 2 5 [0%Z; 4%Z] = Done ([], Some (errors_New "unreachable")).
Proof.
  destruct (failed_block_stays_failed 4 demo_file demo_net demo_fetcher demo_fetcher' "hash"
    [demo_peer] (demo_handle 10 3) ltac:(lia) eq_refl eq_refl eq_refl 0 demo_known
    (demo_may demo_file) (demo_honest _) demo_f2 demo_f3 1 1) as [H _].
  - etrans; [apply demo_run1|]. demo_completes demo_s1 demo_f2 4%Z (demo_dead 4). apply rtc_refl.
  - by vm_compute.
  - by vm_compute.
  - by apply (bool_decide_eq_true_1 (_ ∈ _)); vm_compute.
  - demo_completes demo_f2 demo_f3 0%Z (demo_answer demo_file 0). apply rtc_refl.
  - split; [exact H|by vm_compute].
Defined.
End demo.

End FetcherTheorems.
