(* ===== verification/Server.v ===== *)
(** * The file server ([server.go])

The shares of a peer, the index from hashes to the paths that have them, the
[Read] RPC that serves blocks, and the registration with the master. [getPath]
is from [main.go]. *)

From S2P Require Import Prelude GoStrings Types Crypto.
Import Crypto.

Module Server.

Abbreviation bytes := (list Byte.byte).

(** ** Paths of flags *)

Definition var_marker : string := "%rufs_var_storage%".

(** [getPath]: [home] is the home directory [osUser.Current] answers (or none,
for an error) and [varStorage] the flag. The recursion is the code's; [fuel]
bounds it. *)
Fixpoint getPath (home : option string) (varStorage : string) (fuel : nat) (path : string)
    : outcome string :=
  match fuel with
  | O => NoFuel
  | S fuel' =>
      path ←
        (if strings.HasPrefix path "~/" then
           match home with
           | Some home => Done (filepath.Join [home; strings.drop 2 path])
           | None => Panic nil_dereference
           end
         else Done path);
      match strings.Split path var_marker with
      | [] => Panic index_out_of_range
      | ex0 :: ex =>
          foldM (fun ex0 exi =>
            var ← getPath home varStorage fuel' varStorage;
            Done (filepath.Join [ex0; var; exi])) ex0 ex
      end
  end.

(** [ensureDirExists]; [mkdir] is the error of [os.MkdirAll]. *)
Definition ensureDirExists (mkdir : option error) : outcome unit :=
  match mkdir with Some _ => Panic "MkdirAll" | None => Done tt end.

(** ** Shares *)

Section shares.
(** [getPath] on the flags of the process. *)
Context (path_of : string -> outcome string).

(** One item of the flag when there are several. *)
Definition add_share (shares : gmap string string) (s : string) : outcome (gmap string string) :=
  match strings.SplitN2 s "=" with
  | [name; dir] => dir ← path_of dir; Done (<[name := dir]> shares)
  | _ => dir ← path_of s; Done (<[filepath.Base s := dir]> shares)
  end.

(** The shares of [newServer]. *)
Definition parse_shares (share : string) : outcome (error + gmap string string) :=
  if decide (share = "") then Done (inr ∅)
  else
    let items := strings.Split share "," in
    if decide (len items > 1)%Z then
      shares ← foldM add_share ∅ items;
      if decide (Z.of_nat (size shares) <> len items)
      then Done (inl (errors_New "Flag --share has multiple shares with the same name"))
      else Done (inr shares)
    else
      item ← go_index items 0;
      Done (inr {["" := item]}).
End shares.

(** [hashToPath]: for a hash, the set of its [share\0path] keys. *)
Abbreviation index := (gmap string (gmap string ())).

Record Server `{X509} := mkServer {
  masterAddr : string;
  shares : gmap string string;
  server_ca : Certificate;
  server_cert : option tlsCertificate;
  hashToPath : index;
}.

Section server.
Context `{X509}.

(** [newServer]: [load_pair] is [tls.LoadX509KeyPair]; [disk] the files that
[isFile] and [loadCertificate] see. *)
Definition newServer (path_of : string -> outcome string)
    (load_pair : string -> string -> error + tlsCertificate) (disk : gmap string string)
    (masterCert varStorage user share master : string) : outcome (error + Server) :=
  caFile ← path_of masterCert;
  match loadCertificate disk caFile with
  | inl err => Done (inl err)
  | inr ca =>
      dir ← path_of varStorage;
      let certFile := filepath.Join [dir; (user ++ ".crt")%string] in
      let keyFile := filepath.Join [dir; (user ++ ".key")%string] in
      let pair :=
        if decide (is_Some (disk !! certFile) /\ is_Some (disk !! keyFile))
        then match load_pair certFile keyFile with
             | inl err => inl err
             | inr crt => inr (Some crt)
             end
        else inr None in
      match pair with
      | inl err => Done (inl err)
      | inr cert =>
          r ← parse_shares path_of share;
          match r with
          | inl err => Done (inl err)
          | inr shares => Done (inr (mkServer _ master shares ca cert ∅))
          end
      end
  end.

(** ** Publishing *)

Definition share_key (share path : string) : string := (share ++ str1 NUL ++ path)%string.

(** [delete(s.hashToPath[hash], key)], and the entry when it is left empty. *)
Definition index_delete (m : index) (hash key : string) : index :=
  match m !! hash with
  | None => delete hash m
  | Some paths =>
      let paths := delete key paths in
      if decide (size paths = 0) then delete hash m else <[hash := paths]> m
  end.

Definition index_insert (m : index) (hash key : string) : index :=
  match m !! hash with
  | None => <[hash := {[key := ()]}]> m
  | Some paths => <[hash := <[key := ()]> paths]> m
  end.

(** [Server.SetFile]: the index after it, and the request it sends. *)
Definition SetFile (m : index) (share path : string) (info old : option FileInfo)
    : index * SetFileRequest :=
  let key := share_key share path in
  let m := match old with Some old => index_delete m (Hash old) key | None => m end in
  let m := match info with Some info => index_insert m (Hash info) key | None => m end in
  (m, {| SetFile_Path := filepath.Join [share; path]; SetFile_Info := info |}).
End server.

(** ** Serving *)

(** What [Read] uses of [os.File]. [os_Read f n] is the bytes a read into a
buffer of [n] bytes gives, and its error. *)
Class OS := {
  File : Type;
  os_Open : string -> error + File;
  os_Seek : File -> Z -> option error * File;
  os_Read : File -> Z -> bytes * option error;
}.

Definition ENOENT : error := errors_New "ENOENT".

Section read.
Context `{MapRange} `{OS}.

(** The loop of [Read] over the paths, up to the first that opens. *)
Fixpoint open_first (shares : gmap string string) (paths : list (string * ()))
    (file : option File) (err : option error) : outcome (option File * option error) :=
  match paths with
  | [] => Done (file, err)
  | (path, _) :: paths' =>
      let sp := strings.Split path (str1 NUL) in
      sp0 ← go_index sp 0;
      sp1 ← go_index sp 1;
      match os_Open (filepath.Join [default "" (shares !! sp0); sp1]) with
      | inr f => Done (Some f, None)
      | inl err => open_first shares paths' None (Some err)
      end
  end.

(** [RUFSService.Read]: the data of the reply, and the error. *)
Definition Read (shares : gmap string string) (m : index) (q : ReadRequest)
    : outcome (bytes * option error) :=
  match m !! Read_Hash q with
  | None => Done ([], Some ENOENT)
  | Some paths =>
      if decide (size paths = 0) then Done ([], Some ENOENT)
      else
        '(file, err) ← open_first shares (range_map paths) None None;
        match err, file with
        | Some err, _ => Done ([], Some err)
        | None, None => Panic nil_dereference
        | None, Some file =>
            let '(seek, file) :=
              if decide (Read_Offset q <> 0)%Z then os_Seek file (Read_Offset q)
              else (None, file) in
            match seek with
            | Some err => Done ([], Some err)
            | None =>
                if decide (Read_Size q < 0)%Z then Panic "runtime error: makeslice: len out of range"
                else
                  let '(data, err) := os_Read file (Read_Size q) in
                  match err with
                  | Some err => if error_same err io_EOF then Done (data, None) else Done (data, Some err)
                  | None => Done (data, None)
                  end
            end
        end
  end.
End read.

(** ** Registering *)

Section registration.
Context `{X509}.

(** [getCertificates]: [mkdir] is the error of [os.MkdirAll], [io] the faults of
writing the key, [register] the call to the master with the public key, and
[write] what [ioutil.WriteFile] leaves in the certificate file (or none, when it
cannot open it) with its error. No error means the process exits with 0. *)
Definition getCertificates {W : Type} (path_of : string -> outcome string) (mkdir : option error)
    (io : io_faults) (write : string -> option string * option error) (rnd : Z)
    (register : W -> string -> outcome (W * (error + string)))
    (varStorage user : string) (w : W) (disk : gmap string string)
    : outcome (W * gmap string string * option error) :=
  dir ← path_of varStorage;
  _ ← ensureDirExists mkdir;
  match createKeyPair io rnd disk (filepath.Join [dir; (user ++ ".key")%string]) with
  | (disk, inl err) => Done (w, disk, Some err)
  | (disk, inr priv) =>
      match serializePubKey priv with
      | inl err => Done (w, disk, Some err)
      | inr pub =>
          '(w, ret) ← register w pub;
          match ret with
          | inl err => Done (w, disk, Some err)
          | inr crt =>
              let fn := filepath.Join [dir; (user ++ ".crt")%string] in
              let '(content, err) := write crt in
              Done (w, match content with Some c => <[fn := c]> disk | None => disk end, err)
          end
      end
  end.
End registration.

End Server.
