(* ===== verification/ServerTheorems.v ===== *)
(** * What the file server guarantees

The index from hashes to paths, the blocks [Read] serves, the shares of the
flag, and the registration. *)

From S2P Require Import Prelude GoStrings Types Crypto Fetcher FetcherBlocks FetcherRuns Server.
Import Crypto Server.

Module ServerTheorems.

(** ** The index *)

(** The path is listed under the hash. *)
Definition has (m : index) (hash key : string) : Prop :=
  exists paths, m !! hash = Some paths /\ is_Some (paths !! key).

(** No hash is kept without paths. *)
Definition no_empty (m : index) : Prop :=
  forall hash paths, m !! hash = Some paths -> size paths <> 0.

(** The index of a table of published files: the inverse of their hashes. *)
Definition indexes (m : index) (files : gmap string FileInfo) : Prop :=
  no_empty m /\
  forall hash key, has m hash key <-> exists fi, files !! key = Some fi /\ Hash fi = hash.

Lemma size_zero {A} (m : gmap string A) : size m = 0 <-> m = ∅.
Proof. apply map_size_empty_iff. Qed.

Lemma has_index_delete m h k h' k' :
  has (index_delete m h k) h' k' <-> has m h' k' /\ ~ (h' = h /\ k' = k).
Proof.
  unfold has, index_delete. destruct (m !! h) as [paths|] eqn:Hm; cycle 1.
  { rewrite delete_id by done. split; [|naive_solver].
    intros (p & Hp & Hk). split; [eauto|]. intros [-> _]. congruence. }
  destruct (decide (size (delete k paths) = 0)) as [Hz|Hz].
  - apply size_zero in Hz. split.
    + intros (p & [Hne Hp]%lookup_delete_Some & Hk). split; [eauto|naive_solver].
    + intros [(p & Hp & Hk) Hn]. destruct (decide (h' = h)) as [->|Hne].
      * assert (p = paths) as -> by congruence. assert (k' <> k) as Hk' by naive_solver.
        rewrite <-(lookup_delete_ne paths k k') in Hk by done. rewrite Hz, lookup_empty in Hk.
        by destruct Hk.
      * exists p. by rewrite lookup_delete_ne.
  - destruct (decide (h' = h)) as [->|Hne].
    + rewrite lookup_insert_eq. split.
      * intros (p & [= <-] & Hk). destruct (decide (k' = k)) as [->|Hk'].
        { rewrite lookup_delete_eq in Hk. by destruct Hk. }
        rewrite lookup_delete_ne in Hk by done. split; [eauto|naive_solver].
      * intros [(p & Hp & Hk) Hn]. assert (p = paths) as -> by congruence.
        eexists. split; [done|]. rewrite lookup_delete_ne; [done|naive_solver].
    + rewrite lookup_insert_ne by done. naive_solver.
Qed.

Lemma has_index_insert m h k h' k' :
  has (index_insert m h k) h' k' <-> has m h' k' \/ (h' = h /\ k' = k).
Proof.
  unfold has, index_insert. destruct (m !! h) as [paths|] eqn:Hm;
    (destruct (decide (h' = h)) as [->|Hne];
     [rewrite lookup_insert_eq|rewrite lookup_insert_ne by done; naive_solver]).
  - split.
    + intros (p & [= <-] & Hk). destruct (decide (k' = k)) as [->|Hk']; [by right|left].
      rewrite lookup_insert_ne in Hk by done. eauto.
    + intros [(p & Hp & Hk)|[_ ->]]; eexists; (split; [done|]).
      * assert (p = paths) as -> by congruence. by apply lookup_insert_is_Some'; right.
      * by rewrite lookup_insert_eq.
  - split.
    + intros (p & [= <-] & Hk). right. apply lookup_singleton_is_Some in Hk. naive_solver.
    + intros [(p & Hp & _)|[_ ->]]; [congruence|]. eexists. split; [done|].
      by rewrite lookup_singleton_eq.
Qed.

Lemma index_delete_no_empty m h k : no_empty m -> no_empty (index_delete m h k).
Proof.
  intros Hm hash paths. unfold index_delete. destruct (m !! h) as [ps|] eqn:E.
  - destruct (decide _) as [Hz|Hz]; [intros [_ H]%lookup_delete_Some; by apply (Hm hash)|].
    intros [[<- <-]|[_ H]]%lookup_insert_Some; [done|by apply (Hm hash)].
  - intros [_ H]%lookup_delete_Some. by apply (Hm hash).
Qed.

Lemma index_insert_no_empty m h k : no_empty m -> no_empty (index_insert m h k).
Proof.
  intros Hm hash paths. unfold index_insert.
  destruct (m !! h) as [ps|] eqn:E; intros [[<- <-]|[_ H]]%lookup_insert_Some;
    try (by apply (Hm hash)); rewrite size_zero.
  - apply insert_non_empty.
  - apply map_non_empty_singleton.
Qed.

(** The table after the file at [key] became [info]. *)
Definition publish (files : gmap string FileInfo) (key : string) (info : option FileInfo)
    : gmap string FileInfo :=
  match info with Some info => <[key := info]> files | None => delete key files end.

(** What [old] says of the file that is replaced: its hash, when there is one;
without it, only a file that keeps its hash may be there. *)
Definition old_fits (files : gmap string FileInfo) (key : string) (info old : option FileInfo) : Prop :=
  forall fi, files !! key = Some fi ->
    match old, info with
    | Some old, _ => Hash old = Hash fi
    | None, Some info => Hash info = Hash fi
    | None, None => False
    end.

(** The old hash of a file goes from the index with the file. *)
Lemma index_delete_indexes m files key h :
  indexes m files -> (forall fi, files !! key = Some fi -> h = Hash fi) ->
  indexes (index_delete m h key) (delete key files).
Proof.
  intros [Hne Hhas] Hh. split; [by apply index_delete_no_empty|]. intros h' k'.
  rewrite has_index_delete, Hhas. setoid_rewrite lookup_delete_Some. split.
  - intros [(fi & Hfi & <-) Hn]. exists fi. split; [|done]. split; [|done].
    intros <-. apply Hn. split; [|done]. symmetry. by apply Hh.
  - intros (fi & [Hk Hfi] & <-). split; [by exists fi|]. intros [_ ->]. done.
Qed.

Lemma index_insert_indexes m files key i :
  indexes m files -> (forall fi, files !! key = Some fi -> Hash i = Hash fi) ->
  indexes (index_insert m (Hash i) key) (<[key := i]> files).
Proof.
  intros [Hne' Hhas'] Hi. split; [by apply index_insert_no_empty|]. intros h' k'.
  rewrite has_index_insert, Hhas'. setoid_rewrite lookup_insert_Some. split.
  - intros [(fi & Hfi & <-)|[-> ->]]; [|naive_solver].
    destruct (decide (k' = key)) as [->|Hk]; [|naive_solver].
    exists i. split; [by left|]. by apply Hi.
  - intros (fi & [[-> ->]|[Hk Hfi]] & <-); [by right|left; eauto].
Qed.

(** A change with the hash of the file it replaces. *)
Lemma replace_indexes m files key info h :
  indexes m files -> (forall fi, files !! key = Some fi -> h = Hash fi) ->
  indexes (match info with
           | Some info => index_insert (index_delete m h key) (Hash info) key
           | None => index_delete m h key
           end) (publish files key info).
Proof.
  intros Hm Hh. pose proof (index_delete_indexes m files key h Hm Hh) as Hd.
  destruct info as [i|]; [|done]. simpl. rewrite <-(insert_delete_eq files).
  apply index_insert_indexes; [done|]. intros fi. by rewrite lookup_delete_eq.
Qed.

(** ** Shares *)

(** The name and the directory an item of the flag gives. *)
Definition share_item (s : string) : string * string :=
  match strings.SplitN2 s "=" with
  | [name; dir] => (name, dir)
  | _ => (filepath.Base s, s)
  end.

Lemma add_share_eq path_of m s d :
  path_of (share_item s).2 = Done d ->
  add_share path_of m s = Done (<[(share_item s).1 := d]> m).
Proof.
  unfold add_share, share_item. intros Hd.
  destruct (strings.SplitN2 s "=") as [|a [|b [|c l]]]; simpl in *; by rewrite Hd.
Qed.

(** The names of a list fill a set exactly when none repeats. *)
Lemma size_names (l : list string) : size (list_to_set l : gset string) = length l <-> NoDup l.
Proof.
  split; [|apply size_list_to_set]. induction l as [|x l IH]; simpl; [constructor|].
  intros Hs. destruct (decide (x ∈ l)) as [Hin|Hin].
  - assert (({[x]} ∪ list_to_set l : gset string) = list_to_set l) as Heq by set_solver.
    rewrite Heq in Hs.
    assert (size (list_to_set l : gset string) <= length l); [|lia].
    clear. induction l as [|y l IH]; [apply Nat.le_refl|]. simpl.
    pose proof (size_union_alt ({[y]} : gset string) (list_to_set l)) as Hu.
    rewrite size_singleton in Hu.
    assert (size (list_to_set l ∖ {[y]} : gset string) <= size (list_to_set l : gset string))
      by (apply subseteq_size; set_solver). lia.
  - rewrite size_union in Hs by set_solver. rewrite size_singleton in Hs.
    constructor; [done|]. apply IH. lia.
Qed.

(** The map of the items, in any order: the last of a name wins. *)
Lemma add_shares_correct path_of items :
  (forall s, s ∈ items -> exists d, path_of (share_item s).2 = Done d) ->
  exists m, foldM (add_share path_of) ∅ items = Done m /\
    dom m = list_to_set ((fun s => (share_item s).1) <$> items) /\
    (NoDup ((fun s => (share_item s).1) <$> items) -> forall s, s ∈ items ->
       exists d, path_of (share_item s).2 = Done d /\ m !! (share_item s).1 = Some d).
Proof.
  intros Htot. apply (foldM_total _ (fun items m =>
    dom m = list_to_set ((fun s => (share_item s).1) <$> items) /\
    (NoDup ((fun s => (share_item s).1) <$> items) -> forall s, s ∈ items ->
       exists d, path_of (share_item s).2 = Done d /\ m !! (share_item s).1 = Some d))).
  - split; [set_solver|]. intros _ s Hs. by apply not_elem_of_nil in Hs.
  - intros done x todo m Hl [Hdom Hm].
    destruct (Htot x) as [d Hd]; [rewrite Hl; apply elem_of_app; right; by left|].
    exists (<[(share_item x).1 := d]> m). split; [by apply add_share_eq|].
    rewrite fmap_app. cbn [fmap list_fmap]. split.
    + rewrite dom_insert_L, Hdom, list_to_set_app_L. set_solver.
    + intros (Hnd & Hx & _)%NoDup_app s [Hs| ->%list_elem_of_singleton]%elem_of_app.
      * destruct (Hm Hnd s Hs) as (d' & Hd' & Hs'). exists d'. split; [done|].
        rewrite lookup_insert_ne; [done|]. intros Heq. apply (Hx (share_item s).1).
        { by apply (list_elem_of_fmap_2 (fun s => (share_item s).1)). }
        rewrite Heq. by left.
      * exists d. by rewrite lookup_insert_eq.
Qed.

(** ** Serving *)

Section serving.
Context `{MapRange} `{OS}.

(** A file handle as [os.File] documents it for a regular file with bytes [F]:
reads give what is there, up to the size of the buffer. *)
Definition regular (f : File) (F : bytes) : Prop :=
  forall off n, (0 <= off)%Z -> (0 <= n)%Z ->
    let '(err, f') := if decide (off <> 0)%Z then os_Seek f off else (None, f) in
    err = None /\ exists e, os_Read f' n = (take (Z.to_nat n) (drop (Z.to_nat off) F), e) /\
      (e = None \/ e = Some io_EOF).

(** The file a key of the index names, when it opens. *)
Definition key_path (shares : gmap string string) (share path : string) : string :=
  filepath.Join [default "" (shares !! share); path].

(** A key [Server.SetFile] made; file names have no zero byte. *)
Definition sound_key (shares : gmap string string) (F : bytes) (key : string) : Prop :=
  exists share path, key = share_key share path /\
    strings.Contains share NUL = false /\ strings.Contains path NUL = false /\
    forall f, os_Open (key_path shares share path) = inr f -> regular f F.

Lemma open_step shares share path u paths file err :
  strings.Contains share NUL = false -> strings.Contains path NUL = false ->
  open_first shares ((share_key share path, u) :: paths) file err =
    match os_Open (key_path shares share path) with
    | inr f => Done (Some f, None)
    | inl err => open_first shares paths None (Some err)
    end.
Proof.
  intros Hs Hp. cbn [open_first]. unfold share_key.
  rewrite (Split_app NUL share path Hs), (Split_single NUL path Hp). done.
Qed.

(** The loop ends with the first regular file, or with an error. *)
Lemma open_first_sound shares F paths file err :
  Forall (fun kv => sound_key shares F kv.1) paths -> paths <> [] \/ is_Some err ->
  exists file' err', open_first shares paths file err = Done (file', err') /\
    (is_Some err' \/ exists f, file' = Some f /\ err' = None /\ regular f F).
Proof.
  intros Hall. revert file err.
  induction Hall as [|[key []] paths (share & path & Hk & Hs & Hp & Hreg) _ IH]; intros file err Hne.
  - exists file, err. split; [done|]. left. by destruct Hne.
  - simpl in Hk. subst key. rewrite open_step by done.
    destruct (os_Open (key_path shares share path)) as [e|f] eqn:Ho.
    + apply IH. right. by exists e.
    + exists (Some f), None. split; [done|]. right. exists f. auto.
Qed.

Lemma open_first_opens shares F paths file err :
  Forall (fun kv => sound_key shares F kv.1) paths ->
  (exists share path f, (share_key share path, ()) ∈ paths /\
     strings.Contains share NUL = false /\ strings.Contains path NUL = false /\
     os_Open (key_path shares share path) = inr f) ->
  exists f, open_first shares paths file err = Done (Some f, None) /\ regular f F.
Proof.
  intros Hall (share & path & f & Hin & Hs & Hp & Ho). revert file err.
  induction Hall as [|[key []] paths (share' & path' & Hk & Hs' & Hp' & Hreg) Hall IH]; intros file err.
  - by apply not_elem_of_nil in Hin.
  - simpl in Hk. subst key. rewrite open_step by done.
    destruct (os_Open (key_path shares share' path')) as [e|f'] eqn:Ho'.
    + apply elem_of_cons in Hin as [Heq|Hin]; [|by apply IH].
      injection Heq as Heq. exfalso.
      assert ([share; path] = [share'; path']) as Hpair.
      { rewrite <-(Split_single NUL path Hp), <-(Split_single NUL path' Hp').
        rewrite <-(Split_app NUL share path Hs), <-(Split_app NUL share' path' Hs').
        unfold share_key in Heq. by rewrite Heq. }
      injection Hpair as -> ->. congruence.
    + exists f'. auto.
Qed.

(** [Read] on a hash with sound keys, once a file is open. *)
Lemma Read_eq shares m hash off n F paths f :
  m !! hash = Some paths -> size paths <> 0 ->
  open_first shares (range_map paths) None None = Done (Some f, None) ->
  regular f F -> (0 <= off)%Z -> (0 <= n)%Z ->
  Read shares m {| Read_Hash := hash; Read_Offset := off; Read_Size := n |} =
    Done (take (Z.to_nat n) (drop (Z.to_nat off) F), None).
Proof.
  intros Hm Hsz Hopen Hreg Hoff Hn. unfold Read. simpl. rewrite Hm, decide_False by done.
  rewrite Hopen. cbn [mbind outcome_bind]. specialize (Hreg off n Hoff Hn).
  destruct (decide (off <> 0)%Z).
  - destruct (os_Seek f off) as [e f']. destruct Hreg as (-> & e' & He & Hcase).
    rewrite decide_False by lia. rewrite He. by destruct Hcase as [->| ->].
  - destruct Hreg as (_ & e' & He & Hcase).
    rewrite decide_False by lia. rewrite He. by destruct Hcase as [->| ->].
Qed.

(** Every path of the hash is sound. *)
Definition sound_hash (shares : gmap string string) (m : index) (hash : string) (F : bytes) : Prop :=
  no_empty m /\ forall key, has m hash key -> sound_key shares F key.

Lemma sound_hash_paths shares m hash F paths :
  sound_hash shares m hash F -> m !! hash = Some paths ->
  size paths <> 0 /\ Forall (fun kv => sound_key shares F kv.1) (range_map paths) /\
  range_map paths <> [].
Proof.
  intros [Hne Hs] Hm. split; [by apply (Hne hash)|]. split.
  - apply Forall_forall. intros [key []] Hin%elem_of_range_map. apply Hs. exists paths. eauto.
  - intros Hnil. apply (Hne hash paths Hm), size_zero, map_empty. intros k.
    destruct (paths !! k) as [[]|] eqn:E; [|done].
    assert ((k, ()) ∈ range_map paths) as Hin by (by apply elem_of_range_map).
    rewrite Hnil in Hin. by apply not_elem_of_nil in Hin.
Qed.
End serving.

(** ** Claims *)

(** [Server.SetFile] keeps [hashToPath] the exact inverse of the published
files: a hash lists exactly the paths whose current file has it, and no hash is
kept without paths, whether a file appears, changes, goes or is exported again. *)
Theorem SetFile_index m files share path info old :
  indexes m files ->
  old_fits files (share_key share path) info old ->
  indexes (SetFile m share path info old).1 (publish files (share_key share path) info).
Proof.
  intros Hidx Hold. unfold SetFile. simpl. destruct old as [o|].
  - apply replace_indexes; [done|]. intros fi Hfi. apply (Hold fi Hfi).
  - destruct info as [i|]; simpl.
    + apply index_insert_indexes; [done|]. apply Hold.
    + rewrite delete_id; [done|].
      destruct (files !! share_key share path) eqn:E; [|done]. by destruct (Hold _ E).
Qed.

(** The name a file is published under is the share and the path within it,
joined by slashes: splitting it gives the parts of both back, for shares and
files whose parts [filepath.Clean] keeps. *)
Theorem SetFile_publishes_path m share path info old :
  Forall plain_part share -> Forall plain_part path -> path <> [] ->
  strings.Split (SetFile_Path (SetFile m (strings.Join share "/") (strings.Join path "/") info old).2) "/"
    = share ++ path /\
  SetFile_Info (SetFile m (strings.Join share "/") (strings.Join path "/") info old).2 = info.
Proof.
  intros Hs Hp Hne. split; [|done]. unfold SetFile. cbn [snd SetFile_Path].
  rewrite filepath_Join_parts by done. apply (Split_Join slash).
  - intros [_ ?]%app_eq_nil. done.
  - apply Forall_app. split; (eapply Forall_impl; [eassumption|]); by intros p (_ & _ & _ & ?).
Qed.

Section claims.
Context `{MapRange} `{OS}.

(** [Read] of a published hash answers exactly the bytes of the file in the
requested range, cut at the end of the file, in whatever order the paths of the
hash are tried, as long as one of them opens and none was changed. *)
Theorem Read_serves shares m hash off n F share path f :
  sound_hash shares m hash F ->
  has m hash (share_key share path) ->
  strings.Contains share NUL = false -> strings.Contains path NUL = false ->
  os_Open (key_path shares share path) = inr f ->
  (0 <= off)%Z -> (0 <= n)%Z ->
  Read shares m {| Read_Hash := hash; Read_Offset := off; Read_Size := n |} =
    Done (take (Z.to_nat n) (drop (Z.to_nat off) F), None).
Proof.
  intros Hsound (paths & Hm & [[] Hk]) Hs Hp Hopen Hoff Hn.
  destruct (sound_hash_paths shares m hash F paths Hsound Hm) as (Hsz & Hall & _).
  destruct (open_first_opens shares F (range_map paths) None None Hall) as (f' & Hf' & Hreg).
  { exists share, path, f. split_and!; try done. by apply elem_of_range_map. }
  by eapply Read_eq.
Qed.

(** A hash nobody publishes is ENOENT, and no file is opened for it. *)
Theorem Read_unknown shares m q :
  (forall key, ~ has m (Read_Hash q) key) -> Read shares m q = Done ([], Some ENOENT).
Proof.
  intros Hno. unfold Read. destruct (m !! Read_Hash q) as [paths|] eqn:E; [|done].
  rewrite decide_True; [done|]. apply size_zero, map_empty. intros k.
  destruct (paths !! k) as [u|] eqn:Hk; [|done]. destruct (Hno k). exists paths. eauto.
Qed.

(** A request with a negative size for a hash with an open file panics in
[make] instead of being refused: any peer can send it. *)
Theorem Read_negative_size_panics shares m hash off n F share path f :
  sound_hash shares m hash F ->
  has m hash (share_key share path) ->
  strings.Contains share NUL = false -> strings.Contains path NUL = false ->
  os_Open (key_path shares share path) = inr f ->
  (0 <= off)%Z -> (n < 0)%Z ->
  Read shares m {| Read_Hash := hash; Read_Offset := off; Read_Size := n |} =
    Panic "runtime error: makeslice: len out of range".
Proof.
  intros Hsound (paths & Hm & [[] Hk]) Hs Hp Hopen Hoff Hn.
  destruct (sound_hash_paths shares m hash F paths Hsound Hm) as (Hsz & Hall & _).
  destruct (open_first_opens shares F (range_map paths) None None Hall) as (f' & Hf' & Hreg).
  { exists share, path, f. split_and!; try done. by apply elem_of_range_map. }
  unfold Read. simpl. rewrite Hm, decide_False by done. rewrite Hf'. cbn [mbind outcome_bind].
  specialize (Hreg off 0%Z Hoff ltac:(lia)). destruct (decide (off <> 0)%Z).
  - destruct (os_Seek f' off) as [e f'']. destruct Hreg as (-> & _). by rewrite decide_True.
  - by rewrite decide_True.
Qed.

(** What a peer with this index and these shares answers to the fetcher's
request for [bs] bytes at an offset. *)
Definition serves (shares : gmap string string) (m : index) (hash : string) (bs o : Z)
    (r : error + bytes) : Prop :=
  match Read shares m {| Read_Hash := hash; Read_Offset := o; Read_Size := bs |} with
  | Done (data, None) => r = inr data
  | _ => exists err, r = inl err
  end.

(** The answers of a server with sound keys carry blocks of the file. *)
Lemma serves_block shares m hash bs F b data :
  (0 < bs)%Z -> sound_hash shares m hash F ->
  serves shares m hash bs (Z.of_nat b * bs) (inr data) -> data = FetcherBlocks.block bs F b.
Proof.
  intros Hbs Hsound. unfold serves.
  destruct (m !! hash) as [paths|] eqn:Hm; cycle 1.
  { unfold Read. simpl. rewrite Hm. by intros []. }
  destruct (sound_hash_paths _ _ _ _ _ Hsound Hm) as (Hsz & Hall & Hne).
  destruct (open_first_sound shares F (range_map paths) None None Hall (or_introl Hne))
    as (file & err & Hopen & Hcase).
  destruct Hcase as [[e ->]|(f & -> & -> & Hreg)].
  - unfold Read. simpl. rewrite Hm, decide_False by done. rewrite Hopen. by intros [].
  - rewrite (Read_eq shares m hash (Z.of_nat b * bs) bs F paths f) by
      (done || lia).
    intros [= ->]. unfold FetcherBlocks.block. f_equal. f_equal. lia.
Qed.

(** C8: The blocks [Server.Read] serves are what the fetcher's theorems ask of
the peers: when every peer that lists the hash lists only unchanged copies of
the file, all its answers with data carry the block of the file, whatever fails
to open and in whatever order paths are tried. *)
Theorem servers_are_honest (peer_shares : string -> gmap string string) (peer_index : string -> index)
    hash bs F :
  (0 < bs)%Z ->
  (forall p, sound_hash (peer_shares p) (peer_index p) hash F) ->
  FetcherRuns.honest_peers bs F (fun o p r => serves (peer_shares p) (peer_index p) hash bs o r).
Proof. intros Hbs Hsound b p data. by apply serves_block. Qed.
End claims.

(** Several items of [--share] are accepted exactly when their names differ,
and then each name stands for the directory of its item, with the home and
storage prefixes expanded. *)
Theorem parse_shares_correct path_of share :
  share <> "" -> (len (strings.Split share ",") > 1)%Z ->
  (forall s, s ∈ strings.Split share "," -> exists d, path_of (share_item s).2 = Done d) ->
  (NoDup ((fun s => (share_item s).1) <$> strings.Split share ",") ->
   exists m, parse_shares path_of share = Done (inr m) /\
     dom m = list_to_set ((fun s => (share_item s).1) <$> strings.Split share ",") /\
     forall s, s ∈ strings.Split share "," ->
       exists d, path_of (share_item s).2 = Done d /\ m !! (share_item s).1 = Some d) /\
  (~ NoDup ((fun s => (share_item s).1) <$> strings.Split share ",") ->
   parse_shares path_of share =
     Done (inl (errors_New "Flag --share has multiple shares with the same name"))).
Proof.
  intros Hne Hlen Htot. unfold parse_shares. rewrite decide_False by done. rewrite decide_True by done.
  destruct (add_shares_correct path_of _ Htot) as (m & -> & Hdom & Hm). cbn [mbind outcome_bind].
  pose proof (size_names ((fun s => (share_item s).1) <$> strings.Split share ",")) as Hsize.
  rewrite <-Hdom, length_fmap, size_dom in Hsize. unfold len. split.
  - intros Hnd. rewrite decide_False by (apply Hsize in Hnd; lia). exists m. auto.
  - intros Hnd. rewrite decide_True; [done|]. intros Heq. apply Hnd, Hsize. lia.
Qed.

(** A single item of [--share] is taken as it is: unlike the items of a
list, it is not cut at "=" and its "~/" and storage prefixes are not expanded. *)
Theorem single_share_not_expanded path_of share :
  share <> "" -> strings.Contains share "," = false ->
  parse_shares path_of share = Done (inr {["" := share]}).
Proof.
  intros Hne Hc. unfold parse_shares. rewrite decide_False by done.
  assert (strings.Split share "," = [share]) as -> by (by apply (Split_single ","%char)).
  done.
Qed.

(** A path with its "~/" replaced. *)
Definition expand_home (home path : string) : string :=
  if strings.HasPrefix path "~/" then filepath.Join [home; strings.drop 2 path] else path.

Lemma getPath_S home vs fuel path :
  getPath (Some home) vs (S fuel) path =
    match strings.Split (expand_home home path) var_marker with
    | [] => Panic index_out_of_range
    | ex0 :: ex =>
        foldM (fun ex0 exi =>
          var ← getPath (Some home) vs fuel vs; Done (filepath.Join [ex0; var; exi])) ex0 ex
    end.
Proof. unfold expand_home. cbn [getPath]. by destruct (strings.HasPrefix path "~/"). Qed.

Lemma Split_from_not_nil sep skip s : strings.Split_from sep skip s <> [].
Proof.
  revert skip. induction s as [|a s IH]; intros skip; [done|]. cbn [strings.Split_from].
  destruct skip; [|apply IH]. destruct (String.prefix _ _); [done|].
  by destruct (strings.Split_from sep 0 s).
Qed.

(** [getPath] returns for every path when the storage flag holds no marker
of its own; when it does, the recursion expands the flag inside itself without
end, and [getPath] returns for no path with a marker. *)
Theorem getPath_terminates home vs :
  (strings.Split (expand_home home vs) var_marker = [expand_home home vs] ->
   forall path, exists r, getPath (Some home) vs 2 path = Done r) /\
  (1 < length (strings.Split (expand_home home vs) var_marker) ->
   forall path, 1 < length (strings.Split (expand_home home path) var_marker) ->
   forall fuel, getPath (Some home) vs fuel path = NoFuel).
Proof.
  split.
  - intros Hplain path. rewrite getPath_S.
    destruct (strings.Split (expand_home home path) var_marker) as [|ex0 ex] eqn:E.
    { by apply Split_from_not_nil in E. }
    rewrite getPath_S, Hplain. clear. revert ex0. cbn [foldM].
    induction ex as [|x ex IH]; intros ex0; [by eexists|]. cbn [foldM mbind outcome_bind]. apply IH.
  - intros Hvs path Hpath fuel. revert path Hpath. induction fuel as [|fuel IH]; intros path Hpath; [done|].
    rewrite getPath_S. destruct (strings.Split (expand_home home path) var_marker) as [|a [|b l]];
      simpl in Hpath; try lia. cbn [foldM]. by rewrite (IH vs Hvs).
Qed.

(** A registration the master refuses cannot be tried again: the key file of
the first try stays, and every later try fails because it exists, whatever the
token and the answers then. *)
Theorem failed_registration_blocks_retry `{X509} {W} path_of io write rnd register vs user (w w' : W) disk dir key pub err :
  path_of vs = Done dir ->
  disk !! filepath.Join [dir; (user ++ ".key")%string] = None ->
  open_err io = None -> write_err io = None -> close_err io = None ->
  GenerateKey rnd = inr key -> serializePubKey key = inr pub -> register w pub = Done (w', inl err) ->
  exists disk', getCertificates path_of None io write rnd register vs user w disk = Done (w', disk', Some err) /\
    forall io' write' rnd' register' w2, exists err',
      getCertificates path_of None io' write' rnd' register' vs user w2 disk' = Done ((w2 : W), disk', Some err').
Proof.
  intros Hdir Hkey H1 H2 H3 Hgen Hser Hreg. unfold getCertificates. rewrite Hdir.
  cbn [mbind outcome_bind ensureDirExists]. unfold createKeyPair, pemToFile. rewrite Hgen, H1, Hkey, H2, H3.
  rewrite Hser, Hreg. eexists. split; [reflexivity|]. intros io' write' rnd' register' w2.
  destruct (GenerateKey rnd') as [e|key']; [by eexists|].
  destruct (open_err io') as [e|]; [by eexists|]. rewrite lookup_insert_eq. by eexists.
Qed.

(** ** Concrete servers *)

Section demo.
#[local] Open Scope string_scope.
#[local] Open Scope list_scope.

Definition demo_text : bytes := String.list_byte_of_string "0123456789".
Definition demo_info : FileInfo := mkFileInfo 10 "h1" 1000.
Definition demo_info2 : FileInfo := mkFileInfo 11 "h2" 2000.
Definition demo_key : string := share_key "" "a.txt".

(** One file on disk. *)
#[local] Instance demo_os : OS := {|
  File := bytes * Z;
  os_Open := fun fn => if decide (fn = "/srv/a.txt") then inr (demo_text, 0%Z)
                       else inl (errors_New "no such file");
  os_Seek := fun f off => (None, (f.1, off));
  os_Read := fun f n =>
    let data := take (Z.to_nat n) (drop (Z.to_nat f.2) f.1) in
    (data, if decide (data = []) then Some io_EOF else None);
|}.

Definition demo_shares : gmap string string := {["" := "/srv"]}.
Definition demo_index : index := (SetFile ∅ "" "a.txt" (Some demo_info) None).1.

Lemma demo_sound : sound_hash demo_shares demo_index "h1" demo_text.
Proof.
  split.
  - apply index_insert_no_empty. intros h p. by rewrite lookup_empty.
  - intros key (paths & Hp & Hk). exists "", "a.txt".
    assert (demo_index = {["h1" := {[demo_key := ()]}]}) as Hi by done.
    rewrite Hi in Hp. apply lookup_singleton_Some in Hp as [_ <-].
    apply lookup_singleton_is_Some in Hk. split_and!; [done|done|done|].
    intros f. change (key_path demo_shares "" "a.txt") with "/srv/a.txt". intros [= <-].
    intros off n Hoff Hn. destruct (decide (off <> 0)%Z) as [|Hz]; simpl.
    + split; [done|]. eexists. split; [done|]. case_decide; auto.
    + assert (off = 0%Z) as -> by lia. split; [done|]. eexists. split; [done|]. case_decide; auto.
Qed.

Lemma demo_has : has demo_index "h1" demo_key.
Proof. exists {[demo_key := ()]}. split; [done|]. by exists (). Qed.

Lemma indexes_empty : indexes ∅ ∅.
Proof.
  split; [intros h p; by rewrite lookup_empty|]. intros h k. split.
  - intros (p & Hp & _). by rewrite lookup_empty in Hp.
  - intros (fi & Hp & _). by rewrite lookup_empty in Hp.
Qed.

Lemma demo_indexes : indexes demo_index {[demo_key := demo_info]}.
Proof. apply (index_insert_indexes ∅ ∅); [apply indexes_empty|]. intros f. by rewrite lookup_empty. Qed.

Lemma SetFile_index_witness :
  indexes (SetFile demo_index "" "a.txt" (Some demo_info2) (Some demo_info)).1
    {[demo_key := demo_info2]}.
Proof.
  refine (SetFile_index demo_index {[demo_key := demo_info]} "" "a.txt" (Some demo_info2)
    (Some demo_info) demo_indexes _).
  intros fi [_ <-]%lookup_singleton_Some. done.
Defined.

Lemma SetFile_publishes_path_witness :
  strings.Split (SetFile_Path (SetFile ∅ "music" "band/song.mp3" (Some demo_info) None).2) "/" =
    ["music"; "band"; "song.mp3"].
Proof.
  refine (proj1 (SetFile_publishes_path ∅ ["music"] ["band"; "song.mp3"] (Some demo_info) None _ _ _)).
  - by repeat constructor.
  - by repeat constructor.
  - done.
Defined.

Lemma Read_serves_witness :
  @Read std_range demo_os demo_shares demo_index
    {| Read_Hash := "h1"; Read_Offset := 8; Read_Size := 4 |} =
    Done (String.list_byte_of_string "89", None).
Proof.
  refine (@Read_serves std_range demo_os demo_shares demo_index "h1" 8 4 demo_text "" "a.txt"
    (demo_text, 0%Z) demo_sound demo_has _ _ _ _ _); done.
Defined.

Lemma Read_unknown_witness :
  @Read std_range demo_os demo_shares demo_index
    {| Read_Hash := "h9"; Read_Offset := 0; Read_Size := 4 |} = Done ([], Some ENOENT).
Proof.
  refine (@Read_unknown std_range demo_os demo_shares demo_index _ _).
  intros key (paths & Hp & _). done.
Defined.

Lemma Read_negative_size_panics_witness :
  @Read std_range demo_os demo_shares demo_index
    {| Read_Hash := "h1"; Read_Offset := 0; Read_Size := -1 |} =
    Panic "runtime error: makeslice: len out of range".
Proof.
  refine (@Read_negative_size_panics std_range demo_os demo_shares demo_index "h1" 0 (-1) demo_text
    "" "a.txt" (demo_text, 0%Z) demo_sound demo_has _ _ _ _ _); done.
Defined.

Lemma servers_are_honest_witness :
  FetcherRuns.honest_peers 4 demo_text
    (fun o p r => @serves std_range demo_os demo_shares demo_index "h1" 4 o r).
Proof.
  refine (@servers_are_honest std_range demo_os (fun _ => demo_shares) (fun _ => demo_index) "h1" 4
    demo_text _ _); [done|]. intros _. apply demo_sound.
Defined.

Lemma parse_shares_correct_witness :
  exists m, parse_shares (fun p => Done p) "music=/srv/music,/srv/films" = Done (inr m) /\
    dom m = list_to_set ["music"; "films"] /\
    forall s, s ∈ ["music=/srv/music"; "/srv/films"] ->
      exists d, Done (share_item s).2 = Done d /\ m !! (share_item s).1 = Some d.
Proof.
  refine (proj1 (parse_shares_correct (fun p => Done p) "music=/srv/music,/srv/films" _ _ _) _).
  - done.
  - done.
  - intros s _. by eexists.
  - apply (bool_decide_eq_true_1 (NoDup _)). by vm_compute.
Defined.

Lemma single_share_not_expanded_witness :
  parse_shares (fun p => Done ("expanded:" ++ p)%string) "~/music" = Done (inr {["" := "~/music"]}).
Proof. refine (single_share_not_expanded _ "~/music" _ _); done. Defined.

Lemma getPath_terminates_witness :
  (exists r, getPath (Some "/home/bob") "~/.rufs/" 2 "%rufs_var_storage%/cache/" = Done r) /\
  (forall fuel, getPath (Some "/home/bob") "%rufs_var_storage%" fuel "%rufs_var_storage%/x" = NoFuel).
Proof.
  split.
  - refine (proj1 (getPath_terminates "/home/bob" "~/.rufs/") _ "%rufs_var_storage%/cache/").
    by vm_compute.
  - refine (proj2 (getPath_terminates "/home/bob" "%rufs_var_storage%") _ "%rufs_var_storage%/x" _);
      vm_compute; lia.
Defined.

(** Keys and certificates that are what they encode. *)
#[local] Instance demo_x509 : X509 := {|
  PrivateKey := Z; PublicKey := Z; Public := fun k => k;
  AddDate := fun t _ _ _ => t;
  GenerateKey := fun rnd => inr rnd;
  MarshalPKCS1PrivateKey := fun _ => "key";
  ParsePKCS1PrivateKey := fun _ => inr 0%Z;
  MarshalPKIXPublicKey := fun _ => inr "pub";
  ParsePKIXPublicKey := fun _ => inr 0%Z;
  CreateCertificate := fun _ _ _ _ _ => inr "cert";
  ParseCertificate := fun _ => inl (errors_New "unparsable");
  pem_Encode := fun t d => (t ++ d)%string;
  pem_Decode := fun _ => None;
|}.

Definition no_faults : io_faults := {| open_err := None; write_err := None; close_err := None |}.

Definition refused (w : unit) (pub : string) : outcome (unit * (error + string)) :=
  Done (w, inl (errors_New "Token is invalid")).

Lemma failed_registration_blocks_retry_witness :
  exists disk', getCertificates (fun p => Done p) None no_faults (fun c => (Some c, None)) 7
      refused "/var" "bob" tt ∅ =
      Done (tt, disk', Some (errors_New "Token is invalid")) /\
    forall io' write' rnd' register' w2, exists err',
      getCertificates (fun p => Done p) None io' write' rnd' register' "/var" "bob" w2 disk' =
        Done ((w2 : unit), disk', Some err').
Proof.
  refine (@failed_registration_blocks_retry demo_x509 unit (fun p => Done p) no_faults
    (fun c => (Some c, None)) 7 refused "/var" "bob" tt tt ∅ "/var"
    7%Z "pub" (errors_New "Token is invalid") _ _ _ _ _ _ _ _); done.
Defined.

End demo.
End ServerTheorems.
