(* ===== verification/Scanner.v ===== *)
(** * The file scanner ([filescanner/filescanner.go])

A scanner keeps what it knows of the files under a directory and tells its
listeners of every change. The directory is a tree, as [filepath.Walk] sees it;
[HashFile] is from [common/hash.go]. *)

From S2P Require Import Prelude GoStrings Types Crypto.

Module Scanner.

Abbreviation cache := (gmap string FileInfo).

(** ** Walking a directory *)

(** What the walk reads of an [os.FileInfo]: whether any type bit of the mode is
set (directories, links, pipes...), the size and the time. *)
Record stat := mkStat { st_special : bool; st_size : Z; st_mtime : Z }.

(** A directory entry; the entries of a directory are in the order the walk
visits them. [Unreadable] is an entry the walk reports with an error. *)
Inductive entry :=
  | Plain (s : stat)
  | Directory (entries : list (string * entry))
  | Unreadable.

(** [base[0] == '.' && base != "." && base != ".."], which panics on an empty
name; the walk has none. *)
Definition hidden (base : string) : bool :=
  match base with
  | String c _ =>
      bool_decide (c = "."%char) && negb (bool_decide (base = ".")) && negb (bool_decide (base = ".."))
  | EmptyString => false
  end.

(** The name of an entry below [rel], as [filepath.Rel] gives it. *)
Definition below (rel name : string) : string :=
  if decide (rel = ".") then name else (rel ++ "/" ++ name)%string.

(** [scanFilesystem]: the files the callback is called with, in order. *)
Fixpoint scan (rel base : string) (e : entry) : list (string * stat) :=
  match e with
  | Unreadable => []
  | Plain s => if hidden base then [] else if st_special s then [] else [(rel, s)]
  | Directory entries =>
      if hidden base then []
      else
        (fix scan_all (es : list (string * entry)) : list (string * stat) :=
           match es with
           | [] => []
           | (name, e) :: es' => scan (below rel name) name e ++ scan_all es'
           end) entries
  end.

Definition scanFilesystem (root : entry) : list (string * stat) := scan "." "." root.

(** ** Hashing *)

(** [common.HashFile]: [read] is what opening and copying the file gives. *)
Definition HashFile (read : string -> error + string) (fn : string) : error + string :=
  match read fn with
  | inl err => inl err
  | inr content => inr (hex (sha1.Sum (sha1.bytes_of content)))
  end.

(** ** The scanner *)

(** A listener: its identity, and its context as a number that may be done. *)
Record listener := mkListener { callback : nat; l_ctx : nat }.

Record Scanner := mkScanner {
  baseDir : string;
  cacheDir : string;
  fileCache : cache;
  listeners : list listener;
}.

Definition New (baseDir cacheDir : string) : Scanner := mkScanner baseDir cacheDir ∅ [].

(** A call of a callback: the listener, the path, the info and the old info. *)
Record call := mkCall {
  c_listener : nat;
  c_path : string;
  c_info : option FileInfo;
  c_old : option FileInfo;
}.

(** [m.fileCache[path]] of a path without an entry. *)
Definition zero_info : FileInfo := mkFileInfo 0 "" 0.

(** The loop of [set] over the listeners from [i] on: a listener whose context
is done gives its place to the last one. [fuel] bounds the passes. *)
Fixpoint notify (fuel : nat) (is_done : nat -> bool) (ls : list listener) (i : nat)
    (path : string) (fi old : option FileInfo) : outcome (list listener * list call) :=
  match fuel with
  | O => NoFuel
  | S fuel' =>
      if decide (i < length ls) then
        l ← go_index ls (Z.of_nat i);
        if is_done (l_ctx l) then
          last ← go_index ls (len ls - 1);
          ls ← go_store ls (Z.of_nat i) last;
          ls ← go_slice ls 0 (len ls - 1);
          notify fuel' is_done ls i path fi old
        else
          '(ls, calls) ← notify fuel' is_done ls (S i) path fi old;
          Done (ls, mkCall (callback l) path fi old :: calls)
      else Done (ls, [])
  end.

(** [set]; [is_done] are the contexts that are done. *)
Definition set (is_done : nat -> bool) (m : Scanner) (path : string) (fi : option FileInfo)
    : outcome (Scanner * list call) :=
  let old := default zero_info (fileCache m !! path) in
  let files := match fi with
               | Some fi => <[path := fi]> (fileCache m)
               | None => delete path (fileCache m)
               end in
  '(ls, calls) ← notify (S (length (listeners m))) is_done (listeners m) 0 path fi (Some old);
  Done (mkScanner (baseDir m) (cacheDir m) files ls, calls).

Section passes.
Context `{MapRange} (is_done : nat -> bool).

(** A call of [set] in a pass, with the calls of callbacks so far. *)
Definition set_more (acc : Scanner * list call) (path : string) (fi : option FileInfo)
    : outcome (Scanner * list call) :=
  '(m, calls) ← set is_done acc.1 path fi;
  Done (m, acc.2 ++ calls).

(** The callback of [fastPass] for one file. *)
Definition fast_file (seed : cache) (acc : Scanner * list call) (file : string * stat)
    : outcome (Scanner * list call) :=
  match seed !! file.1 with
  | Some f =>
      if decide (Size f = st_size file.2 /\ Mtime f = st_mtime file.2)
      then set_more acc file.1 (Some f) else Done acc
  | None => Done acc
  end.

(** [fastPass]; [seed] is what [readHashCache] gives. *)
Definition fastPass (seed : error + cache) (root : entry) (m : Scanner) : outcome (Scanner * list call) :=
  match seed with
  | inl _ => Done (m, [])
  | inr seed => foldM (fast_file seed) (m, []) (scanFilesystem root)
  end.

(** The callback of [normalPass] for one file; [hash] is [HashFile]. *)
Definition normal_file (hash : string -> error + string) (acc : Scanner * list call)
    (file : string * stat) : outcome (Scanner * list call) :=
  let m := acc.1 in
  let changed :=
    match hash (filepath.Join [baseDir m; file.1]) with
    | inl _ => Done acc
    | inr h => set_more acc file.1 (Some (mkFileInfo (st_size file.2) h (st_mtime file.2)))
    end in
  match fileCache m !! file.1 with
  | Some f => if decide (Size f = st_size file.2 /\ Mtime f = st_mtime file.2) then Done acc else changed
  | None => changed
  end.

(** [getFileNames] *)
Definition getFileNames (m : Scanner) : gmap string () := (fun _ => ()) <$> fileCache m.

(** [scanFilesystemAndReportMissing]: the names the walk does not meet. *)
Definition report_missing (root : entry) (names : gmap string ()) : gmap string () :=
  foldl (fun names file => delete file.1 names) names (scanFilesystem root).

Definition normalPass (hash : string -> error + string) (root : entry) (m : Scanner)
    : outcome (Scanner * list call) :=
  let missing := report_missing root (getFileNames m) in
  acc ← foldM (normal_file hash) (m, []) (scanFilesystem root);
  foldM (fun acc fn => set_more acc fn.1 None) acc (range_map missing).

(** The loop of [ContinuousExport]: [ctx_done] tells whether its context is done
when it comes to a file. *)
Fixpoint export_loop (ctx_done : string -> bool) (k : nat) (files : list (string * FileInfo)) : list call :=
  match files with
  | [] => []
  | (fn, fi) :: files' =>
      if ctx_done fn then [] else mkCall k fn (Some fi) None :: export_loop ctx_done k files'
  end.

(** [ContinuousExport]: the scanner with the new listener, and the calls of the
initial export, of what is in the cache when it starts. *)
Definition ContinuousExport (ctx_done : string -> bool) (l : listener) (m : Scanner)
    : Scanner * list call :=
  (mkScanner (baseDir m) (cacheDir m) (fileCache m) (listeners m ++ [l]),
   export_loop ctx_done (callback l) (range_map (fileCache m))).
End passes.

(** ** The cache file *)

Fixpoint replace_slash (s : string) : string :=
  match s with
  | EmptyString => EmptyString
  | String c s' => String (if decide (c = slash) then "-"%char else c) (replace_slash s')
  end.

Definition cacheFileName (m : Scanner) : string :=
  filepath.Join [cacheDir m; ("hashcache-" ++ replace_slash (baseDir m) ++ ".dat")%string].

(** [writeHashCache] and [readHashCache] on a disk: [encode] and [decode] stand
for the gob and gzip encoding, with the faults of creating, encoding and
renaming. *)
Section cache_file.
Context (encode : cache -> string) (decode : string -> error + cache).

Record cache_faults := { create_err : option error; encode_err : option (string * error); rename_err : option error }.

Definition writeHashCache (io : cache_faults) (disk : gmap string string) (m : Scanner) (c : cache)
    : gmap string string * option error :=
  let tmp := (cacheFileName m ++ ".new")%string in
  match create_err io with
  | Some err => (disk, Some err)
  | None =>
      match encode_err io with
      | Some (partial, err) => (<[tmp := partial]> disk, Some err)
      | None =>
          let disk := <[tmp := encode c]> disk in
          match rename_err io with
          | Some err => (disk, Some err)
          | None => (<[cacheFileName m := encode c]> (delete tmp disk), None)
          end
      end
  end.

Definition readHashCache (disk : gmap string string) (m : Scanner) : error + cache :=
  match disk !! cacheFileName m with
  | None => inl (errors_New "no such file")
  | Some data => decode data
  end.
End cache_file.

End Scanner.
