(* ===== verification/ScannerTheorems.v ===== *)
(** * What the file scanner guarantees

Who is told of a change, what the passes make of the cache, that the index of
the file server follows it, and the cache file. *)

From S2P Require Import Prelude GoStrings Types Crypto Server ServerTheorems Scanner.
Import ServerTheorems Scanner.

Module ScannerTheorems.

(** ** Listeners *)

Section notify.
Context (is_done : nat -> bool).
Implicit Types (ls pre rest : list listener).

Definition live ls : list listener := filter (fun l => is_done (l_ctx l) = false) ls.

Lemma live_app ls ls' : live (ls ++ ls') = live ls ++ live ls'.
Proof. apply filter_app. Qed.

Lemma live_cons_done l ls : is_done (l_ctx l) = true -> live (l :: ls) = live ls.
Proof. intros H. unfold live. rewrite filter_cons_False; [done|congruence]. Qed.

Lemma live_cons_live l ls : is_done (l_ctx l) = false -> live (l :: ls) = l :: live ls.
Proof. intros H. unfold live. by rewrite filter_cons_True. Qed.

Lemma live_NoDup ls : NoDup (callback <$> ls) -> NoDup (callback <$> live ls).
Proof. intros Hnd. eapply sublist_NoDup; [exact Hnd|]. apply fmap_sublist, sublist_filter. Qed.

(** The done listener at the end of [pre] replaced by the last one. *)
Lemma swap_remove pre l rest :
  exists rest', rest ≡ₚ rest' /\
    (last ← go_index (pre ++ l :: rest) (len (pre ++ l :: rest) - 1);
     ls ← go_store (pre ++ l :: rest) (Z.of_nat (length pre)) last;
     go_slice ls 0 (len ls - 1)) = Done (pre ++ rest').
Proof.
  assert (Hlen : forall (xs : list listener) x ys, len (xs ++ x :: ys) = (len xs + 1 + len ys)%Z).
  { intros xs x ys. unfold len. rewrite length_app. simpl. lia. }
  destruct rest as [|x rest _] using rev_ind.
  - exists []. split; [done|]. rewrite go_index_last. cbn [mbind outcome_bind].
    rewrite go_store_Done by (unfold len; rewrite length_app; simpl; lia). cbn [mbind outcome_bind].
    rewrite Nat2Z.id, list_insert_id by (by apply list_lookup_middle).
    rewrite go_slice_Done by (rewrite ?Hlen; unfold len; lia).
    rewrite drop_0. f_equal. rewrite Z.sub_0_r, Hlen. unfold len. simpl.
    rewrite take_app_le by lia. rewrite take_ge by lia. by rewrite app_nil_r.
  - exists (x :: rest). split; [by rewrite Permutation_app_comm|].
    rewrite app_comm_cons, (assoc_L (++)), go_index_last. cbn [mbind outcome_bind].
    rewrite <-(assoc_L (++)), <-app_comm_cons.
    rewrite go_store_Done by (unfold len; rewrite length_app; simpl; lia). cbn [mbind outcome_bind].
    rewrite Nat2Z.id, insert_app_r_alt by lia. rewrite Nat.sub_diag. cbn [insert list_insert].
    rewrite go_slice_Done by (rewrite ?Hlen; unfold len; lia).
    rewrite drop_0. f_equal. rewrite app_comm_cons, (assoc_L (++)).
    rewrite take_app_le by (unfold len; rewrite !length_app; simpl; rewrite ?length_app; simpl; lia).
    apply take_ge. unfold len. rewrite !length_app. simpl. rewrite ?length_app. simpl. lia.
Qed.

Lemma notify_correct fuel pre rest path fi old :
  length rest < fuel ->
  exists rest' calls, notify fuel is_done (pre ++ rest) (length pre) path fi old = Done (pre ++ rest', calls) /\
    rest' ≡ₚ live rest /\ (exists told, told ≡ₚ live rest /\
      calls = (fun l => mkCall (callback l) path fi old) <$> told).
Proof.
  revert pre rest. induction fuel as [|fuel IH]; intros pre rest Hfuel; [lia|].
  cbn [notify]. rewrite length_app. destruct rest as [|l rest].
  { exists [], []. rewrite decide_False by (simpl; lia). split_and!; [done|done|]. by exists []. }
  rewrite decide_True by (simpl; lia).
  rewrite (go_index_lookup _ _ l) by (by apply list_lookup_middle). cbn [mbind outcome_bind].
  destruct (is_done (l_ctx l)) eqn:Hd.
  - destruct (swap_remove pre l rest) as (rest1 & Hperm & Hswap). simpl in Hfuel.
    destruct (IH pre rest1) as (rest' & calls & Heq & Hr & told & Ht & Hcalls).
    { apply Permutation_length in Hperm. lia. }
    exists rest', calls.
    destruct (go_index (pre ++ l :: rest) _) as [last| |]; try discriminate Hswap.
    cbn [mbind outcome_bind] in *.
    destruct (go_store (pre ++ l :: rest) _ _) as [ls| |]; try discriminate Hswap.
    cbn [mbind outcome_bind] in *. rewrite Hswap. cbn [mbind outcome_bind].
    rewrite live_cons_done by done.
    assert (live rest1 ≡ₚ live rest) as Hl by (unfold live; by rewrite Hperm).
    split_and!; [done|by rewrite Hr|]. exists told. by rewrite <-Hl.
  - destruct (IH (pre ++ [l]) rest) as (rest' & calls & Heq & Hr & told & Ht & Hcalls); [simpl in *; lia|].
    rewrite length_app in Heq. simpl in Heq. rewrite <-!(assoc_L (++)) in Heq. simpl in Heq.
    rewrite Nat.add_1_r in Heq. rewrite Heq. cbn [mbind outcome_bind].
    exists (l :: rest'), (mkCall (callback l) path fi old :: calls).
    rewrite live_cons_live by done. split_and!; [done|by rewrite Hr|].
    exists (l :: told). split; [by constructor|]. by rewrite Hcalls.
Qed.

(** The cache after [set]. *)
Definition updated (files : cache) (path : string) (fi : option FileInfo) : cache :=
  match fi with Some fi => <[path := fi]> files | None => delete path files end.

(** What [set] does: it always returns. *)
Lemma set_correct m path fi :
  exists ls told, set is_done m path fi =
      Done (mkScanner (baseDir m) (cacheDir m) (updated (fileCache m) path fi) ls,
            (fun l => mkCall (callback l) path fi (Some (default zero_info (fileCache m !! path)))) <$> told) /\
    ls ≡ₚ live (listeners m) /\ told ≡ₚ live (listeners m).
Proof.
  destruct (notify_correct (S (length (listeners m))) [] (listeners m) path fi
    (Some (default zero_info (fileCache m !! path))) ltac:(lia)) as (ls & calls & Heq & Hls & told & Ht & ->).
  exists ls, told. unfold set. cbn [app length] in Heq. rewrite Heq. done.
Qed.
End notify.

(** ** Passes *)

Section passes.
Context `{MapRange} (is_done : nat -> bool).
Abbreviation live := (live is_done).
Abbreviation set_more := (set_more is_done).

Lemma live_idemp ls ls' : ls' ≡ₚ live ls -> live ls' ≡ₚ live ls.
Proof.
  intros Hp. unfold ScannerTheorems.live in *. rewrite Hp.
  rewrite list_filter_filter_l; [done|]. done.
Qed.

Lemma share_key_inj share : Inj (=) (=) (Server.share_key share).
Proof.
  intros p q Heq. unfold Server.share_key in Heq. induction share as [|a share IH]; [by injection Heq|].
  injection Heq as Heq. by apply IH.
Qed.

(** The index of the file server after the calls of its callback [k]. *)
Definition serve (share : string) (k : nat) (idx : Server.index) (calls : list call) : Server.index :=
  foldl (fun idx c =>
    if decide (c_listener c = k) then (Server.SetFile idx share (c_path c) (c_info c) (c_old c)).1
    else idx) idx calls.

(** The keys under which a share publishes files. *)
Definition share_table (share : string) (files : cache) : gmap string FileInfo :=
  kmap (Server.share_key share) files.

Lemma serve_others share k idx path fi old told :
  k ∉ callback <$> told -> serve share k idx ((fun l => mkCall (callback l) path fi old) <$> told) = idx.
Proof.
  induction told as [|l told IH]; [done|]. rewrite fmap_cons. intros Hnot.
  apply not_elem_of_cons in Hnot as [Hne Hnot]. unfold serve in *. simpl.
  rewrite decide_False by done. by apply IH.
Qed.

(** One callback among the listeners is told exactly once. *)
Lemma serve_once share k idx path fi old told :
  NoDup (callback <$> told) -> k ∈ callback <$> told ->
  serve share k idx ((fun l => mkCall (callback l) path fi old) <$> told) =
    (Server.SetFile idx share path fi old).1.
Proof.
  revert idx. induction told as [|l told IH]; intros idx Hnd Hin; [by apply not_elem_of_nil in Hin|].
  rewrite fmap_cons in Hnd, Hin. apply NoDup_cons in Hnd as [Hnot Hnd].
  unfold serve. simpl. destruct (decide (callback l = k)) as [<-|Hne].
  - by apply serve_others.
  - apply elem_of_cons in Hin as [?|Hin]; [congruence|]. by apply IH.
Qed.

(** Exporting files that are in the index already changes nothing of it. *)
Lemma serve_export share k idx files ctx_done exported :
  (forall path fi, (path, fi) ∈ exported -> files !! path = Some fi) ->
  indexes idx (share_table share files) ->
  indexes (serve share k idx (export_loop ctx_done k exported)) (share_table share files).
Proof.
  revert idx. induction exported as [|[fn fi] exported IH]; intros idx Hex Hidx; [done|].
  cbn [export_loop]. destruct (ctx_done fn); [done|]. unfold serve. cbn [foldl].
  rewrite decide_True by done. apply IH; [intros p f Hin; apply Hex; by right|].
  pose proof (share_key_inj share).
  assert (share_table share files !! Server.share_key share fn = Some fi) as Hfi.
  { unfold share_table. rewrite lookup_kmap by done. apply Hex. by left. }
  unfold Server.SetFile. cbn [fst c_path c_info c_old].
  rewrite <-(insert_id _ _ _ Hfi). apply index_insert_indexes; [done|].
  intros f. rewrite Hfi. by intros [= ->].
Qed.

(** Entries of the index that are not of this share. *)
Definition other_keys (share : string) (others : gmap string FileInfo) : Prop :=
  forall path, others !! Server.share_key share path = None.

(** What a pass that has dealt with the paths [done] keeps of the scanner [m0]
it started from. *)
Record pass_inv (m0 : Scanner) (done : list string) (acc : Scanner * list call) : Prop := mkPassInv {
  pass_dir : baseDir acc.1 = baseDir m0;
  pass_live : live (listeners acc.1) ≡ₚ live (listeners m0);
  pass_other path : path ∉ done -> fileCache acc.1 !! path = fileCache m0 !! path;
  pass_calls c : c ∈ acc.2 -> c_path c ∈ done /\
    c_listener c ∈ callback <$> live (listeners m0) /\
    c_info c = fileCache acc.1 !! c_path c /\
    c_old c = Some (default zero_info (fileCache m0 !! c_path c));
  pass_told path k : fileCache acc.1 !! path <> fileCache m0 !! path ->
    k ∈ callback <$> live (listeners m0) ->
    mkCall k path (fileCache acc.1 !! path) (Some (default zero_info (fileCache m0 !! path))) ∈ acc.2;
  pass_gone c : c ∈ acc.2 -> c_info c = None -> is_Some (fileCache m0 !! c_path c);
  pass_once : NoDup (callback <$> live (listeners m0)) ->
    NoDup ((fun c => (c_listener c, c_path c)) <$> acc.2);
  pass_index share others k idx : NoDup (callback <$> live (listeners m0)) ->
    k ∈ callback <$> live (listeners m0) -> other_keys share others ->
    indexes idx (share_table share (fileCache m0) ∪ others) ->
    indexes (serve share k idx acc.2) (share_table share (fileCache acc.1) ∪ others);
}.

Lemma pass_start m : pass_inv m [] (m, []).
Proof. split; simpl; try done; try (by intros c ?%not_elem_of_nil). intros _. constructor. Qed.

Lemma pass_skip m0 done acc path : pass_inv m0 done acc -> pass_inv m0 (done ++ [path]) acc.
Proof.
  intros []. split; try done.
  - intros p Hp. apply pass_other0. intros Hin. apply Hp, elem_of_app. by left.
  - intros c Hc. destruct (pass_calls0 c Hc) as (H1 & H2 & H3 & H4).
    split_and!; try done. apply elem_of_app. by left.
Qed.

Lemma updated_eq files path fi : updated files path fi !! path = fi.
Proof. destruct fi; simpl; [apply lookup_insert_eq|apply lookup_delete_eq]. Qed.

Lemma updated_ne files path fi p : p <> path -> updated files path fi !! p = files !! p.
Proof. intros Hne. destruct fi; simpl; [by rewrite lookup_insert_ne|by rewrite lookup_delete_ne]. Qed.

Lemma share_table_updated share files path fi :
  share_table share (updated files path fi) = publish (share_table share files) (Server.share_key share path) fi.
Proof.
  pose proof (share_key_inj share). unfold share_table.
  destruct fi; simpl; [by rewrite kmap_insert|by rewrite kmap_delete].
Qed.

Lemma publish_union share files others path fi :
  other_keys share others ->
  publish (share_table share files) (Server.share_key share path) fi ∪ others =
    publish (share_table share files ∪ others) (Server.share_key share path) fi.
Proof.
  intros Ho. destruct fi; simpl; [by rewrite insert_union_l|].
  rewrite delete_union. by rewrite (delete_id others) by apply Ho.
Qed.

(** The callback of the file server keeps the index in step with [set]. *)
Lemma serve_set share others k idx files path fi told :
  NoDup (callback <$> told) -> k ∈ callback <$> told -> other_keys share others ->
  indexes idx (share_table share files ∪ others) ->
  indexes (serve share k idx
      ((fun l => mkCall (callback l) path fi (Some (default zero_info (files !! path)))) <$> told))
    (share_table share (updated files path fi) ∪ others).
Proof.
  intros Hnd Hin Ho Hidx. rewrite serve_once by done. rewrite share_table_updated, publish_union by done.
  unfold Server.SetFile. simpl. apply replace_indexes; [done|]. intros f. unfold share_table.
  rewrite lookup_union_l by apply Ho.
  pose proof (share_key_inj share). rewrite lookup_kmap by done. by intros ->.
Qed.

Lemma set_more_pass m0 done acc path fi :
  pass_inv m0 done acc -> path ∉ done -> (fi = None -> is_Some (fileCache m0 !! path)) ->
  exists acc', set_more acc path fi = Done acc' /\ pass_inv m0 (done ++ [path]) acc' /\
    fileCache acc'.1 = updated (fileCache acc.1) path fi.
Proof.
  intros [] Hpath Hwas. destruct acc as [m calls]. simpl in *.
  destruct (set_correct is_done m path fi) as (ls & told & Heq & Hls & Htold).
  unfold Scanner.set_more. cbn [fst snd]. rewrite Heq. cbn [mbind outcome_bind].
  eexists. split; [reflexivity|]. split; [|done].
  pose proof (pass_other0 path Hpath) as Hsame.
  assert (Hcb : callback <$> told ≡ₚ callback <$> live (listeners m0)).
  { apply fmap_Permutation. by rewrite Htold. }
  split; simpl; try done.
  - etrans; [by apply live_idemp|done].
  - intros p Hp. rewrite elem_of_app in Hp. rewrite updated_ne; [naive_solver|].
    intros ->. apply Hp. right. by left.
  - intros c [Hc|(l & -> & Hl)%list_elem_of_fmap]%elem_of_app.
    + destruct (pass_calls0 c Hc) as (H1 & H2 & H3 & H4).
      split_and!; [apply elem_of_app; by left|done| |done].
      rewrite updated_ne; [done|]. congruence.
    + simpl. rewrite Hsame.
      split_and!; [apply elem_of_app; right; by left| |by rewrite updated_eq|done].
      rewrite <-Hcb. by apply list_elem_of_fmap_2.
  - intros p k Hne Hk. apply elem_of_app. destruct (decide (p = path)) as [->|Hp].
    + right. rewrite updated_eq, Hsame. rewrite <-Hcb in Hk. apply list_elem_of_fmap in Hk as (l & -> & Hl).
      by apply (list_elem_of_fmap_2 (fun l => mkCall (callback l) path fi _)).
    + left. rewrite updated_ne in * by done. by apply pass_told0.
  - intros c [Hc|(l & -> & Hl)%list_elem_of_fmap]%elem_of_app; [by apply pass_gone0|exact Hwas].
  - intros Hnd. rewrite fmap_app. apply NoDup_app. split; [by apply pass_once0|]. split.
    + intros x (c & -> & Hc)%list_elem_of_fmap (c' & [= _ Hcc] & (l & -> & _)%list_elem_of_fmap)%list_elem_of_fmap.
      destruct (pass_calls0 c Hc) as [Hin _]. simpl in Hcc. congruence.
    + rewrite <-list_fmap_compose. rewrite <-Hcb in Hnd.
      assert (Inj (=) (=) (fun k : nat => (k, path))) by (by intros ?? [= ->]).
      apply (NoDup_fmap_2 (fun k => (k, path))) in Hnd.
      by rewrite <-list_fmap_compose in Hnd.
  - intros share others k idx Hnd Hk Ho Hidx. unfold serve. rewrite foldl_app. fold (serve share k idx calls).
    apply serve_set; [|by rewrite Hcb|done|by apply pass_index0]. by rewrite Hcb.
Qed.
End passes.

(** The index of the only share. *)
Lemma pass_index_alone `{MapRange} is_done m0 done acc share k idx :
  pass_inv is_done m0 done acc -> NoDup (callback <$> live is_done (listeners m0)) ->
  k ∈ callback <$> live is_done (listeners m0) ->
  indexes idx (share_table share (fileCache m0)) ->
  indexes (serve share k idx acc.2) (share_table share (fileCache acc.1)).
Proof.
  intros Hinv Hnd Hk Hidx. pose proof (pass_index _ _ _ _ Hinv share ∅ k idx Hnd Hk) as Hp.
  rewrite !(right_id_L ∅ (∪)) in Hp. apply Hp; [|done]. intros path. apply lookup_empty.
Qed.

(** ** What a pass makes of the cache *)

Section results.
Context `{MapRange} (is_done : nat -> bool).
Abbreviation live := (live is_done).
Abbreviation pass_inv := (pass_inv is_done).

(** The scanned file with a path. *)
Definition found (root : entry) (path : string) : option stat :=
  (list_to_map (scanFilesystem root) : gmap string stat) !! path.

(** No path is met twice, as in a directory whose entries have distinct names. *)
Definition distinct_paths (root : entry) : Prop := NoDup (scanFilesystem root).*1.

Lemma found_Some root path st :
  distinct_paths root -> found root path = Some st <-> (path, st) ∈ scanFilesystem root.
Proof. intros Hnd. unfold found. by rewrite elem_of_list_to_map. Qed.

Lemma found_None root path : found root path = None <-> path ∉ (scanFilesystem root).*1.
Proof. unfold found. symmetry. apply not_elem_of_list_to_map. Qed.

(** The same size and time as the cached info. *)
Definition same_stat (f : FileInfo) (st : stat) : Prop := Size f = st_size st /\ Mtime f = st_mtime st.

#[export] Instance same_stat_dec f st : Decision (same_stat f st).
Proof. unfold same_stat. apply _. Defined.

(** The entry of a path after [normalPass]: gone if the walk did not meet it,
kept if size and time are as cached, hashed again otherwise, and left alone when
it cannot be hashed. *)
Definition rescanned (hash : string -> error + string) (m : Scanner) (path : string) (st : option stat)
    : option FileInfo :=
  match st with
  | None => None
  | Some st =>
      let hashed :=
        match hash (filepath.Join [baseDir m; path]) with
        | inr h => Some (mkFileInfo (st_size st) h (st_mtime st))
        | inl _ => fileCache m !! path
        end in
      match fileCache m !! path with
      | Some f => if decide (same_stat f st) then Some f else hashed
      | None => hashed
      end
  end.

Lemma normal_file_pass hash m0 done acc path st :
  pass_inv m0 done acc -> path ∉ done ->
  exists acc', normal_file is_done hash acc (path, st) = Done acc' /\ pass_inv m0 (done ++ [path]) acc' /\
    fileCache acc'.1 !! path = rescanned hash m0 path (Some st) /\
    forall p, p <> path -> fileCache acc'.1 !! p = fileCache acc.1 !! p.
Proof.
  intros Hinv Hpath. unfold normal_file, rescanned. cbn [fst snd].
  rewrite (pass_dir _ _ _ _ Hinv), (pass_other _ _ _ _ Hinv path Hpath).
  assert (Hskip : exists acc', Done acc = Done acc' /\ pass_inv m0 (done ++ [path]) acc' /\
    fileCache acc'.1 !! path = fileCache m0 !! path /\
    forall p, p <> path -> fileCache acc'.1 !! p = fileCache acc.1 !! p).
  { exists acc. split_and!; [done|by apply pass_skip|by apply (pass_other _ _ _ _ Hinv)|done]. }
  assert (Hset : forall fi, exists acc', set_more is_done acc path (Some fi) = Done acc' /\
    pass_inv m0 (done ++ [path]) acc' /\ fileCache acc'.1 !! path = Some fi /\
    forall p, p <> path -> fileCache acc'.1 !! p = fileCache acc.1 !! p).
  { intros fi. destruct (set_more_pass is_done m0 done acc path (Some fi) Hinv Hpath ltac:(done)) as (acc' & Heq & Hinv' & Hc).
    exists acc'. rewrite Hc. split_and!; [done|done|apply updated_eq|]. intros p Hp. by apply updated_ne. }
  destruct (fileCache m0 !! path) as [f|] eqn:Hf.
  - unfold same_stat. destruct (decide (Size f = st_size st /\ Mtime f = st_mtime st)); [done|].
    destruct (hash _); [done|apply Hset].
  - destruct (hash _); [done|apply Hset].
Qed.

Lemma report_missing_lookup root names path :
  is_Some (report_missing root names !! path) <->
    is_Some (names !! path) /\ path ∉ (scanFilesystem root).*1.
Proof.
  unfold report_missing. generalize (scanFilesystem root). intros files. revert names.
  induction files as [|[p st] files IH]; intros names; simpl.
  - split; [|by intros [? _]]. intros Hs. split; [done|]. apply not_elem_of_nil.
  - rewrite IH, not_elem_of_cons. rewrite lookup_delete_is_Some. naive_solver.
Qed.

Lemma normalPass_run hash root m :
  distinct_paths root ->
  exists acc, normalPass is_done hash root m = Done acc /\
    (exists done, pass_inv m done acc) /\
    forall path, fileCache acc.1 !! path = rescanned hash m path (found root path).
Proof.
  intros Hnd. unfold normalPass. unfold distinct_paths in Hnd.
  destruct (foldM_total (normal_file is_done hash) (fun done acc => pass_inv m done.*1 acc /\
    forall path st, (path, st) ∈ done -> fileCache acc.1 !! path = rescanned hash m path (Some st))
    (m, []) (scanFilesystem root)) as (acc1 & -> & Hinv1 & Hscan1).
  { split; [apply pass_start|]. intros path st Hin. by apply not_elem_of_nil in Hin. }
  { intros done [path st] todo acc Hl [Hinv Hdone].
    assert (Hpath : path ∉ done.*1).
    { rewrite Hl, fmap_app, NoDup_app in Hnd. destruct Hnd as (_ & Hx & _). intros Hin.
      apply (Hx path Hin). by left. }
    destruct (normal_file_pass hash m done.*1 acc path st Hinv Hpath) as (acc' & Heq & Hinv' & Hp & Hother).
    exists acc'. split; [exact Heq|]. rewrite fmap_app. split; [done|].
    intros p s [Hin|[= -> ->]%list_elem_of_singleton]%elem_of_app; [|done].
    rewrite Hother; [by apply Hdone|]. intros ->. apply Hpath.
    by apply (list_elem_of_fmap_2 fst _ (path, s)). }
  cbn [mbind outcome_bind].
  set (missing := report_missing root (getFileNames m)).
  assert (Hmiss : forall fn, fn ∈ (range_map missing).*1 <->
    is_Some (fileCache m !! fn) /\ fn ∉ (scanFilesystem root).*1).
  { intros fn. rewrite elem_of_range_keys. subst missing. rewrite report_missing_lookup.
    unfold getFileNames. rewrite lookup_fmap, fmap_is_Some. done. }
  destruct (foldM_total (fun acc (fn : string * ()) => set_more is_done acc fn.1 None)
    (fun done acc => pass_inv m ((scanFilesystem root).*1 ++ done.*1) acc /\
      (forall path, path ∉ done.*1 -> fileCache acc.1 !! path = fileCache acc1.1 !! path) /\
      forall path, path ∈ done.*1 -> fileCache acc.1 !! path = None)
    acc1 (range_map missing)) as (acc2 & -> & Hinv2 & Hkeep & Hgone).
  { rewrite app_nil_r. split_and!; [done|done|]. by intros path ?%not_elem_of_nil. }
  { intros done [fn []] todo acc Hl (Hinv & Hkeep & Hgone). simpl.
    pose proof (NoDup_range_map missing) as Hndm. rewrite Hl, fmap_app, NoDup_app in Hndm.
    destruct Hndm as (_ & Hx & _).
    assert (Hfn : fn ∉ done.*1). { intros Hin. apply (Hx fn Hin). by left. }
    assert (Hsc : fn ∉ (scanFilesystem root).*1).
    { apply (Hmiss fn). rewrite Hl, fmap_app. apply elem_of_app. right. by left. }
    destruct (set_more_pass is_done m _ acc fn None Hinv) as (acc' & Heq & Hinv' & Hc).
    { rewrite elem_of_app. tauto. }
    { intros _. apply (Hmiss fn). rewrite Hl, fmap_app. apply elem_of_app. right. by left. }
    exists acc'. split; [exact Heq|]. rewrite fmap_app, (assoc_L (++)), Hc. split_and!; [done| |].
    - intros p Hp. rewrite not_elem_of_app in Hp. destruct Hp as [Hp Hne].
      rewrite updated_ne; [by apply Hkeep|]. intros ->. apply Hne. by left.
    - intros p [Hp|Hp%list_elem_of_singleton]%elem_of_app.
      + rewrite updated_ne; [by apply Hgone|]. intros ->. done.
      + simpl in Hp. subst p. apply updated_eq. }
  exists acc2. split; [done|]. split; [by eexists|]. intros path.
  destruct (found root path) as [st|] eqn:Hfound.
  - apply found_Some in Hfound; [|done]. rewrite Hkeep; [by apply Hscan1|].
    rewrite Hmiss. intros [_ Hn]. apply Hn. by apply (list_elem_of_fmap_2 fst _ (path, st)).
  - apply found_None in Hfound. simpl. destruct (decide (path ∈ (range_map missing).*1)) as [Hin|Hin].
    + by apply Hgone.
    + rewrite Hkeep by done. rewrite (pass_other _ _ _ _ Hinv1 path Hfound).
      rewrite Hmiss in Hin. destruct (fileCache m !! path) eqn:E; [|done].
      destruct Hin. split; [by eexists|done].
Qed.

Lemma normal_file_same hash m calls path st f :
  fileCache m !! path = Some f -> same_stat f st ->
  normal_file is_done hash (m, calls) (path, st) = Done (m, calls).
Proof. intros Hf Hs. unfold normal_file. cbn [fst snd]. rewrite Hf. by rewrite decide_True. Qed.

(** A pass over files that are all cached as they are does nothing. *)
Lemma normalPass_quiet hash root m :
  (forall path st, (path, st) ∈ scanFilesystem root ->
     exists f, fileCache m !! path = Some f /\ same_stat f st) ->
  (forall path, is_Some (fileCache m !! path) -> path ∈ (scanFilesystem root).*1) ->
  normalPass is_done hash root m = Done (m, []).
Proof.
  intros Hcached Hno. unfold normalPass.
  assert (Hempty : range_map (report_missing root (getFileNames m)) = []).
  { destruct (range_map _) as [|[fn u] l] eqn:E; [done|]. exfalso.
    assert (fn ∈ (range_map (report_missing root (getFileNames m))).*1) as Hin by (rewrite E; by left).
    apply elem_of_range_keys, report_missing_lookup in Hin as [Hs Hn].
    unfold getFileNames in Hs. rewrite lookup_fmap, fmap_is_Some in Hs. apply Hn. by apply Hno. }
  rewrite Hempty.
  assert (Hrun : foldM (normal_file is_done hash) (m, []) (scanFilesystem root) = Done (m, [])).
  { clear Hempty Hno. induction (scanFilesystem root) as [|[path st] files IH]; [done|].
    cbn [foldM]. destruct (Hcached path st) as (f & Hf & Hs); [by left|].
    rewrite (normal_file_same hash m [] path st f Hf Hs). cbn [mbind outcome_bind].
    apply IH. intros p s Hin. apply Hcached. by right. }
  by rewrite Hrun.
Qed.

(** The entry of a path after [fastPass]. *)
Definition seeded (seed : cache) (m : Scanner) (path : string) (st : option stat) : option FileInfo :=
  match st, seed !! path with
  | Some st, Some f => if decide (same_stat f st) then Some f else fileCache m !! path
  | _, _ => fileCache m !! path
  end.

Lemma fastPass_run seed root m :
  distinct_paths root ->
  exists acc, fastPass is_done (inr seed) root m = Done acc /\
    (exists done, pass_inv m done acc) /\
    forall path, fileCache acc.1 !! path = seeded seed m path (found root path).
Proof.
  intros Hnd. unfold fastPass. unfold distinct_paths in Hnd.
  destruct (foldM_total (fast_file is_done seed) (fun done acc => pass_inv m done.*1 acc /\
    forall path st, (path, st) ∈ done -> fileCache acc.1 !! path = seeded seed m path (Some st))
    (m, []) (scanFilesystem root)) as (acc & -> & Hinv & Hscan).
  { split; [apply pass_start|]. intros path st Hin. by apply not_elem_of_nil in Hin. }
  { intros done [path st] todo acc Hl [Hinv Hdone].
    assert (Hpath : path ∉ done.*1).
    { rewrite Hl, fmap_app, NoDup_app in Hnd. destruct Hnd as (_ & Hx & _). intros Hin.
      apply (Hx path Hin). by left. }
    assert (Hstep : exists acc', fast_file is_done seed acc (path, st) = Done acc' /\
      pass_inv m (done.*1 ++ [path]) acc' /\
      fileCache acc'.1 !! path = seeded seed m path (Some st) /\
      forall p, p <> path -> fileCache acc'.1 !! p = fileCache acc.1 !! p).
    { unfold fast_file, seeded. cbn [fst snd].
      assert (Hskip : exists acc', Done acc = Done acc' /\ pass_inv m (done.*1 ++ [path]) acc' /\
        fileCache acc'.1 !! path = fileCache m !! path /\
        forall p, p <> path -> fileCache acc'.1 !! p = fileCache acc.1 !! p).
      { exists acc. split_and!; [done|by apply pass_skip|by apply (pass_other _ _ _ _ Hinv)|done]. }
      destruct (seed !! path) as [f|]; [|done]. unfold same_stat.
      destruct (decide (Size f = st_size st /\ Mtime f = st_mtime st)); [|done].
      destruct (set_more_pass is_done m _ acc path (Some f) Hinv Hpath ltac:(done)) as (acc' & Heq & Hinv' & Hc).
      exists acc'. rewrite Hc. split_and!; [done|done|apply updated_eq|]. intros p Hp. by apply updated_ne. }
    destruct Hstep as (acc' & Heq & Hinv' & Hp & Hother).
    exists acc'. split; [exact Heq|]. rewrite fmap_app. split; [done|].
    intros p s [Hin|[= -> ->]%list_elem_of_singleton]%elem_of_app; [|done].
    rewrite Hother; [by apply Hdone|]. intros ->. apply Hpath.
    by apply (list_elem_of_fmap_2 fst _ (path, s)). }
  exists acc. split; [done|]. split; [by eexists|]. intros path.
  destruct (found root path) as [st|] eqn:Hfound.
  - apply found_Some in Hfound; [|done]. by apply Hscan.
  - apply found_None in Hfound. by apply (pass_other _ _ _ _ Hinv).
Qed.
End results.

(** ** The cache file *)

Lemma new_name_differs (s : string) : (s ++ ".new")%string <> s.
Proof.
  intros Heq. apply (f_equal String.length) in Heq. revert Heq.
  assert (Hlen : forall a b : string, String.length (a ++ b)%string = String.length a + String.length b).
  { induction a as [|x a IH]; intros b; [done|].
    change (S (String.length (a ++ b)%string) = S (String.length a + String.length b)). by rewrite IH. }
  rewrite Hlen. simpl. lia.
Qed.
(** Directories that differ in a slash and a dash have one cache file. *)
Lemma cacheFileName_collides cache_dir files ls :
  cacheFileName (mkScanner "/srv/a-b" cache_dir files ls) =
  cacheFileName (mkScanner "/srv/a/b" cache_dir files ls).
Proof. done. Qed.

(** ** Claims *)

Section claims.
Context `{MapRange} (is_done : nat -> bool).

(** [set] always returns: it records the change, forgets exactly the
listeners whose context is done, and tells each of the others once, with the
path, the new info and the old one. *)
Theorem set_tells_live_listeners m path fi :
  exists m' calls, set is_done m path fi = Done (m', calls) /\
    (forall p, fileCache m' !! p = if decide (p = path) then fi else fileCache m !! p) /\
    listeners m' ≡ₚ filter (fun l => is_done (l_ctx l) = false) (listeners m) /\
    calls ≡ₚ (fun l => mkCall (callback l) path fi (Some (default zero_info (fileCache m !! path)))) <$>
      filter (fun l => is_done (l_ctx l) = false) (listeners m).
Proof.
  destruct (set_correct is_done m path fi) as (ls & told & Heq & Hls & Htold).
  eexists _, _. split; [exact Heq|]. split_and!; [|done|by apply fmap_Permutation].
  intros p. simpl. case_decide as Hp; [subst; apply updated_eq|by apply updated_ne].
Qed.

(** C20: [normalPass] always returns, and afterwards the cache is what the
directory says: a path the walk does not meet is gone, one with the cached size
and time is as it was, any other has its new size, time and hash (or stays when
it cannot be read). Every change is told to every live listener with the new and
the old info, and nothing that did not become true is told. *)
Theorem normalPass_correct hash root m :
  distinct_paths root ->
  exists m' calls, normalPass is_done hash root m = Done (m', calls) /\
    (forall path, fileCache m' !! path = rescanned hash m path (found root path)) /\
    (forall path l, l ∈ listeners m -> is_done (l_ctx l) = false ->
       fileCache m' !! path <> fileCache m !! path ->
       mkCall (callback l) path (fileCache m' !! path)
         (Some (default zero_info (fileCache m !! path))) ∈ calls) /\
    (forall c, c ∈ calls -> c_info c = fileCache m' !! c_path c /\
       c_old c = Some (default zero_info (fileCache m !! c_path c))).
Proof.
  intros Hnd. destruct (normalPass_run is_done hash root m Hnd) as ([m' calls] & Hrun & [done Hinv] & Hfiles).
  exists m', calls. split_and!; [done|done| |].
  - intros path l Hl Hlive Hne. apply (pass_told _ _ _ _ Hinv); [done|].
    apply list_elem_of_fmap_2. apply list_elem_of_filter. done.
  - intros c Hc. by destruct (pass_calls _ _ _ _ Hinv c Hc) as (_ & _ & ? & ?).
Qed.

(** A pass settles: when every file could be hashed, a second pass over the
same directory changes nothing and tells nobody anything. *)
Theorem normalPass_settles hash root m :
  distinct_paths root ->
  (forall path st, (path, st) ∈ scanFilesystem root ->
     exists h, hash (filepath.Join [baseDir m; path]) = inr h) ->
  exists m' calls, normalPass is_done hash root m = Done (m', calls) /\
    normalPass is_done hash root m' = Done (m', []).
Proof.
  intros Hnd Hhash. destruct (normalPass_run is_done hash root m Hnd) as ([m' calls] & Hrun & _ & Hfiles).
  exists m', calls. split; [done|]. apply normalPass_quiet; simpl in Hfiles.
  - intros path st Hin. rewrite Hfiles. destruct (Hhash path st Hin) as [h Hh].
    apply (found_Some root path st Hnd) in Hin. rewrite Hin. unfold rescanned. rewrite Hh.
    destruct (fileCache m !! path) as [f|]; [destruct (decide (same_stat f st))|];
      (eexists; split; [done|done]).
  - intros path [f Hf]. rewrite Hfiles in Hf. destruct (found root path) as [st|] eqn:E; [|done].
    apply found_Some in E; [|done]. by apply (list_elem_of_fmap_2 fst _ (path, st)).
Qed.

(** C7: The scanner and the file server fit: when [Server.SetFile] is the
callback of one live listener, [hashToPath] stays the exact inverse of what the
scanner has cached through every fast pass, every normal pass, and every export
to it that is done again after a reconnection, even one that is cut short. *)
Theorem passes_keep_index share k idx m :
  NoDup (callback <$> listeners m) ->
  (exists l, l ∈ listeners m /\ is_done (l_ctx l) = false /\ callback l = k) ->
  indexes idx (share_table share (fileCache m)) ->
  (forall hash root, distinct_paths root -> exists m' calls,
     normalPass is_done hash root m = Done (m', calls) /\
     indexes (serve share k idx calls) (share_table share (fileCache m'))) /\
  (forall seed root, distinct_paths root -> exists m' calls,
     fastPass is_done (inr seed) root m = Done (m', calls) /\
     indexes (serve share k idx calls) (share_table share (fileCache m'))) /\
  (forall ctx_done l, callback l = k ->
     indexes (serve share k idx (ContinuousExport ctx_done l m).2) (share_table share (fileCache m))).
Proof.
  intros Hnd%(live_NoDup is_done) (l & Hl & Hlive & <-) Hidx.
  assert (Hk : callback l ∈ callback <$> live is_done (listeners m)).
  { apply list_elem_of_fmap_2. by apply list_elem_of_filter. }
  split; [|split]; [intros x root Hroot..|].
  - destruct (normalPass_run is_done x root m Hroot) as ([m' calls] & Hrun & [done Hinv] & _).
    exists m', calls. split; [done|]. by eapply pass_index_alone in Hinv.
  - destruct (fastPass_run is_done x root m Hroot) as ([m' calls] & Hrun & [done Hinv] & _).
    exists m', calls. split; [done|]. by eapply pass_index_alone in Hinv.
  - intros ctx_done l' <-. simpl. apply serve_export; [|done].
    intros path fi Hin. by apply elem_of_range_map.
Qed.

(** The fast pass believes the seed exactly for files with its size and time. *)
Lemma fastPass_correct seed root m :
  distinct_paths root ->
  exists m' calls, fastPass is_done (inr seed) root m = Done (m', calls) /\
    forall path, fileCache m' !! path = seeded seed m path (found root path).
Proof.
  intros Hnd. destruct (fastPass_run is_done seed root m Hnd) as ([m' calls] & Hrun & _ & Hfiles).
  by exists m', calls.
Qed.
End claims.

(** Saving is atomic: whichever step of [writeHashCache] fails, the cache
file still reads as before it, and when none fails it reads back what was
saved, provided decoding undoes encoding. *)
Theorem save_is_atomic encode decode io disk m c disk' err :
  decode (encode c) = inr c ->
  writeHashCache encode io disk m c = (disk', err) ->
  match err with
  | Some _ => readHashCache decode disk' m = readHashCache decode disk m
  | None => readHashCache decode disk' m = inr c
  end.
Proof.
  intros Hinv Hw. pose proof (new_name_differs (cacheFileName m)) as Hne.
  unfold writeHashCache, readHashCache in *.
  destruct (create_err io); [by injection Hw as <- <-|].
  destruct (encode_err io) as [[partial e]|].
  { injection Hw as <- <-. by rewrite lookup_insert_ne. }
  destruct (rename_err io); injection Hw as <- <-.
  - by rewrite lookup_insert_ne.
  - by rewrite lookup_insert_eq.
Qed.

(** ** A concrete directory *)

Section demo.
#[local] Open Scope string_scope.
#[local] Open Scope list_scope.

(** Two files, a hidden one, and a link. *)
Definition demo_root : entry := Directory [
  (".git", Directory [("config", Plain (mkStat false 1 1))]);
  ("a.txt", Plain (mkStat false 10 1000));
  ("link", Plain (mkStat true 0 5));
  ("sub", Directory [("b.txt", Plain (mkStat false 20 2000))])].

Example demo_scan : scanFilesystem demo_root =
  [("a.txt", mkStat false 10 1000); ("sub/b.txt", mkStat false 20 2000)].
Proof. reflexivity. Qed.

Definition demo_hash (fn : string) : error + string := inr ("hash of " ++ fn)%string.
(** One listener, and a cached file that was deleted since. *)
Definition demo_scanner : Scanner :=
  mkScanner "/srv" "/var" {["old.txt" := mkFileInfo 1 "h0" 1]} [mkListener 3 0].
Definition nobody_done (ctx : nat) : bool := false.

Lemma demo_distinct : distinct_paths demo_root.
Proof. apply (bool_decide_eq_true_1 (NoDup _)). by vm_compute. Qed.

Lemma normalPass_correct_witness :
  exists m' calls, @normalPass std_range nobody_done demo_hash demo_root demo_scanner = Done (m', calls) /\
    fileCache m' !! "a.txt" = Some (mkFileInfo 10 "hash of /srv/a.txt" 1000) /\
    fileCache m' !! "old.txt" = None /\
    mkCall 3 "old.txt" None (Some (mkFileInfo 1 "h0" 1)) ∈ calls.
Proof.
  destruct (@normalPass_correct std_range nobody_done demo_hash demo_root demo_scanner demo_distinct)
    as (m' & calls & Hrun & Hfiles & Htold & _).
  exists m', calls. split; [exact Hrun|].
  assert (H1 : fileCache m' !! "old.txt" = None) by (rewrite (Hfiles "old.txt"); by vm_compute).
  split; [rewrite (Hfiles "a.txt"); by vm_compute|]. split; [exact H1|].
  specialize (Htold "old.txt" (mkListener 3 0)). rewrite H1 in Htold. apply Htold; [by left|done|done].
Defined.

Lemma normalPass_settles_witness :
  exists m' calls, @normalPass std_range nobody_done demo_hash demo_root demo_scanner = Done (m', calls) /\
    @normalPass std_range nobody_done demo_hash demo_root m' = Done (m', []).
Proof.
  refine (@normalPass_settles std_range nobody_done demo_hash demo_root demo_scanner demo_distinct _).
  intros path st _. by eexists.
Defined.

Lemma passes_keep_index_witness :
  exists m' calls, @normalPass std_range nobody_done demo_hash demo_root (mkScanner "/srv" "/var" ∅ [mkListener 3 0]) =
      Done (m', calls) /\
    indexes (serve "" 3 ∅ calls) (share_table "" (fileCache m')).
Proof.
  refine (proj1 (@passes_keep_index std_range nobody_done "" 3 ∅ (mkScanner "/srv" "/var" ∅ [mkListener 3 0])
    _ _ _) demo_hash demo_root demo_distinct).
  - apply NoDup_singleton.
  - exists (mkListener 3 0). split; [by left|done].
  - unfold share_table. simpl. rewrite kmap_empty. apply indexes_empty.
Defined.

Lemma save_is_atomic_witness :
  readHashCache (fun _ => inr (fileCache demo_scanner))
    (writeHashCache (fun _ => "data") {| create_err := None; encode_err := None; rename_err := None |}
       ∅ demo_scanner (fileCache demo_scanner)).1 demo_scanner = inr (fileCache demo_scanner).
Proof.
  refine (save_is_atomic (fun _ => "data") (fun _ => inr (fileCache demo_scanner))
    {| create_err := None; encode_err := None; rename_err := None |} ∅ demo_scanner
    (fileCache demo_scanner) _ None _ _); done.
Defined.
End demo.

End ScannerTheorems.
