(* ===== verification/ScannerRun.v ===== *)
(** * The life of a scanner ([filescanner/filescanner.go])

[Run]: a fast pass over what the last process saved, a normal pass with a
goroutine that saves meanwhile, and then passes and saves, one after the
other. *)

From S2P Require Import Prelude GoStrings Types Scanner.
Import Scanner.

Module ScannerRun.
Section run.
Context `{MapRange}.
Context (encode : cache -> string) (decode : string -> error + cache).

(** [save]: its error is only logged. *)
Definition save (io : cache_faults) (disk : gmap string string) (m : Scanner) : gmap string string :=
  (writeHashCache encode io disk m (fileCache m)).1.

(** The parts of a normal pass between which a save can come, each with the path
it is about: a file of the walk, then a file that is missing. *)
Definition pass_step : Type := string * (Scanner * list call -> outcome (Scanner * list call)).

Definition pass_steps (is_done : nat -> bool) (hash : string -> error + string) (root : entry) (m : Scanner)
    : list pass_step :=
  ((fun file => (file.1, fun acc => normal_file is_done hash acc file)) <$> scanFilesystem root) ++
  ((fun fn => (fn.1, fun acc => set_more is_done acc fn.1 None)) <$>
     range_map (report_missing root (getFileNames m))).

(** A pass while another goroutine saves: [saves] are the saves before each of
its steps, and after the last. *)
Fixpoint with_saves (steps : list pass_step) (saves : list (list cache_faults))
    (acc : Scanner * list call) (disk : gmap string string)
    : outcome (Scanner * list call * gmap string string) :=
  let disk := foldl (fun disk io => save io disk acc.1) disk (default [] (head saves)) in
  match steps with
  | [] => Done (acc, disk)
  | (_, s) :: steps' => acc ← s acc; with_saves steps' (tail saves) acc disk
  end.

Definition normalPassWithIntermediateAutoSaving (is_done : nat -> bool) (hash : string -> error + string)
    (root : entry) (saves : list (list cache_faults)) (m : Scanner) (disk : gmap string string)
    : outcome (Scanner * list call * gmap string string) :=
  with_saves (pass_steps is_done hash root m) saves (m, []) disk.

(** One pass and the save after it: what the contexts, the files and the disk
are like then. *)
Record round := mkRound {
  rd_done : nat -> bool;
  rd_hash : string -> error + string;
  rd_root : entry;
  rd_save : cache_faults;
}.

(** The body of the loop of [Run], from [normalPass] on. *)
Definition run_round (acc : Scanner * list call * gmap string string) (r : round)
    : outcome (Scanner * list call * gmap string string) :=
  let '(m, calls, disk) := acc in
  '(m, calls') ← normalPass (rd_done r) (rd_hash r) (rd_root r) m;
  Done (m, calls ++ calls', save (rd_save r) disk m).

(** [Run], until its context is done after these [rounds]. [root0] is the
directory during the fast pass, and the [first] round is the one with the saves
in between. *)
Definition Run (root0 : entry) (first : round) (saves : list (list cache_faults)) (rounds : list round)
    (m : Scanner) (disk : gmap string string) : outcome (Scanner * list call * gmap string string) :=
  '(m, calls) ← fastPass (rd_done first) (readHashCache decode disk m) root0 m;
  '(m, calls', disk) ← normalPassWithIntermediateAutoSaving (rd_done first) (rd_hash first) (rd_root first) saves m disk;
  foldM run_round (m, calls ++ calls', save (rd_save first) disk m) rounds.
End run.
End ScannerRun.
