(* ===== verification/ScannerRunTheorems.v ===== *)
(** * What the life of a scanner guarantees

Saves in the middle of a pass change nothing of it and never leave anything but
old and new entries on the disk; and a scanner that is started again resumes
from what the last one saved. *)

From S2P Require Import Prelude GoStrings Types DatabaseBolt DatabaseBoltStore Scanner ScannerTheorems ScannerRun.
Import Scanner ScannerTheorems ScannerRun.

Module ScannerRunTheorems.

Section run.
Context `{MapRange}.
Context (encode : cache -> string) (decode : string -> error + cache).
Context (decode_encode : forall c, decode (encode c) = inr c).
Abbreviation save := (save encode).
Abbreviation with_saves := (with_saves encode).
Abbreviation read := (readHashCache decode).

(** ** Steps of a pass *)

Definition same_dirs (m m' : Scanner) : Prop := baseDir m' = baseDir m /\ cacheDir m' = cacheDir m.

(** A step that returns and changes nothing but the entry of its path. *)
Definition local_step (s : pass_step) : Prop :=
  forall acc, exists acc', s.2 acc = Done acc' /\ same_dirs acc.1 acc'.1 /\
    forall p, p <> s.1 -> fileCache acc'.1 !! p = fileCache acc.1 !! p.

Lemma set_more_local is_done path fi : local_step (path, fun acc => set_more is_done acc path fi).
Proof.
  intros [m calls]. destruct (set_correct is_done m path fi) as (ls & told & Hrun & _).
  unfold set_more. cbn [fst snd]. rewrite Hrun. cbn [mbind outcome_bind].
  eexists. split; [done|]. split; [done|]. intros p Hp. by apply updated_ne.
Qed.

Lemma skip_local path : local_step (path, fun acc => Done acc).
Proof. intros acc. by exists acc. Qed.

Lemma normal_file_local is_done hash file : local_step (file.1, fun acc => normal_file is_done hash acc file).
Proof.
  intros acc. unfold normal_file. cbn [snd fst].
  assert (Hset : exists acc', (match hash (filepath.Join [baseDir acc.1; file.1]) with
      | inl _ => Done acc
      | inr h => set_more is_done acc file.1 (Some (mkFileInfo (st_size file.2) h (st_mtime file.2)))
      end) = Done acc' /\ same_dirs acc.1 acc'.1 /\
      forall p, p <> file.1 -> fileCache acc'.1 !! p = fileCache acc.1 !! p).
  { destruct (hash _) as [err|h]; [by exists acc|].
    exact (set_more_local is_done file.1 (Some (mkFileInfo (st_size file.2) h (st_mtime file.2))) acc). }
  destruct (fileCache acc.1 !! file.1) as [f|]; [|done]. case_decide; [by exists acc|done].
Qed.

Lemma fast_file_local is_done seed file : local_step (file.1, fun acc => fast_file is_done seed acc file).
Proof.
  intros acc. unfold fast_file. cbn [snd fst]. destruct (seed !! file.1) as [f|]; [|by exists acc].
  case_decide; [|by exists acc]. exact (set_more_local is_done file.1 (Some f) acc).
Qed.

Lemma pass_steps_local is_done hash root m : Forall local_step (pass_steps is_done hash root m).
Proof.
  apply Forall_app. split; apply Forall_fmap, Forall_forall; intros x _;
    [apply normal_file_local|apply set_more_local].
Qed.

Lemma pass_steps_distinct is_done hash root m :
  distinct_paths root -> NoDup (pass_steps is_done hash root m).*1.
Proof.
  intros Hnd. unfold pass_steps. rewrite fmap_app, <-!list_fmap_compose. apply NoDup_app. split; [exact Hnd|].
  split; [|apply NoDup_range_map]. intros p Hp Hin.
  apply (elem_of_range_keys (report_missing root (getFileNames m))), report_missing_lookup in Hin as [_ Hn].
  by apply Hn.
Qed.

Definition run_steps (steps : list pass_step) (acc : Scanner * list call) : outcome (Scanner * list call) :=
  foldM (fun acc s => s.2 acc) acc steps.

Lemma foldM_fmap {A B C} (f : C -> B -> outcome C) (g : A -> B) (l : list A) acc :
  foldM f acc (g <$> l) = foldM (fun acc a => f acc (g a)) acc l.
Proof.
  revert acc. induction l as [|a l IH]; intros acc; [done|]. simpl.
  destruct (f acc (g a)); simpl; [apply IH|done..].
Qed.

Lemma foldM_app {A B} (f : B -> A -> outcome B) (l l' : list A) acc :
  foldM f acc (l ++ l') = (acc ← foldM f acc l; foldM f acc l').
Proof.
  revert acc. induction l as [|a l IH]; intros acc; [done|]. simpl.
  destruct (f acc a); simpl; [apply IH|done..].
Qed.

(** Running the steps is the pass. *)
Lemma run_steps_pass is_done hash root m :
  run_steps (pass_steps is_done hash root m) (m, []) = normalPass is_done hash root m.
Proof.
  unfold run_steps, pass_steps, normalPass. rewrite foldM_app, foldM_fmap.
  set (F := foldM (normal_file is_done hash) (m, []) (scanFilesystem root)).
  transitivity (acc ← F; foldM (fun acc s => s.2 acc) acc
    ((fun fn => (fn.1, fun acc => set_more is_done acc fn.1 None)) <$> range_map (report_missing root (getFileNames m)))); [done|].
  destruct F as [acc| |]; [|done..].
  cbn [mbind outcome_bind]. by rewrite foldM_fmap.
Qed.

(** ** Saves *)

Lemma save_read io disk m :
  read (save io disk m) m = read disk m \/ read (save io disk m) m = inr (fileCache m).
Proof.
  unfold ScannerRun.save. destruct (writeHashCache encode io disk m (fileCache m)) as [disk' err] eqn:E.
  pose proof (save_is_atomic encode decode io disk m (fileCache m) disk' err (decode_encode _) E) as Hs.
  simpl. destruct err; auto.
Qed.

Lemma saves_read ios disk m :
  let disk' := foldl (fun disk io => save io disk m) disk ios in
  read disk' m = read disk m \/ read disk' m = inr (fileCache m).
Proof.
  revert disk. induction ios as [|io ios IH]; intros disk; [by left|]. simpl.
  destruct (IH (save io disk m)) as [->| ->]; [apply save_read|by right].
Qed.

Lemma read_same_dirs disk m m' : same_dirs m m' -> read disk m' = read disk m.
Proof. intros [H1 H2]. unfold readHashCache, cacheFileName. by rewrite H1, H2. Qed.

(** A cache with an old or a new entry for every path. *)
Definition mixes (c old new : cache) : Prop := forall p, c !! p = old !! p \/ c !! p = new !! p.

Lemma with_saves_run steps saves acc disk :
  Forall local_step steps -> NoDup steps.*1 ->
  exists acc' disk', with_saves steps saves acc disk = Done (acc', disk') /\
    run_steps steps acc = Done acc' /\ same_dirs acc.1 acc'.1 /\
    (forall p, p ∉ steps.*1 -> fileCache acc'.1 !! p = fileCache acc.1 !! p) /\
    (read disk' acc.1 = read disk acc.1 \/
     exists c, read disk' acc.1 = inr c /\ mixes c (fileCache acc.1) (fileCache acc'.1)).
Proof.
  revert saves acc disk. induction steps as [|[path s] steps IH]; intros saves acc disk Hlocal Hnd; cbn [ScannerRun.with_saves].
  - eexists _, _. split; [done|]. split; [done|]. split; [done|]. split; [done|].
    destruct (saves_read (default [] (head saves)) disk acc.1) as [Hr|Hr]; [by left|right].
    eexists. split; [exact Hr|]. intros p. by left.
  - set (disk1 := foldl _ disk _). apply Forall_cons in Hlocal as [Hs Hlocal]. apply NoDup_cons in Hnd as [Hp Hnd].
    destruct (Hs acc) as (acc1 & Hrun & Hdirs & Hother). cbn [snd fst] in *. rewrite Hrun. cbn [mbind outcome_bind].
    destruct (IH (tail saves) acc1 disk1 Hlocal Hnd) as (acc' & disk' & Hw & Hsteps & Hdirs' & Hkeep & Hread).
    exists acc', disk'. split; [exact Hw|]. split; [unfold run_steps; cbn [foldM snd]; by rewrite Hrun|].
    split; [destruct Hdirs, Hdirs'; split; congruence|]. split.
    { intros p Hn. apply not_elem_of_cons in Hn as [Hne Hn]. by rewrite Hkeep, Hother. }
    rewrite !(read_same_dirs _ _ _ Hdirs) in Hread.
    destruct Hread as [Hr|(c & Hc & Hmix)].
    + rewrite Hr. destruct (saves_read (default [] (head saves)) disk acc.1) as [Hr1|Hr1]; [by left|right].
      eexists. split; [exact Hr1|]. intros p. by left.
    + right. exists c. split; [done|]. intros p. destruct (Hmix p) as [->| ->]; [|by right].
      destruct (decide (p = path)) as [->|Hne]; [right; symmetry; by apply Hkeep|left; by apply Hother].
Qed.

(** ** Rounds *)

Lemma run_steps_dirs steps acc :
  Forall local_step steps -> exists acc', run_steps steps acc = Done acc' /\ same_dirs acc.1 acc'.1.
Proof.
  revert acc. induction steps as [|s steps IH]; intros acc Hl; [by exists acc|].
  apply Forall_cons in Hl as [Hs Hl]. destruct (Hs acc) as (acc1 & Hrun & Hd & _).
  destruct (IH acc1 Hl) as (acc2 & Hrun2 & Hd2). exists acc2. unfold run_steps in *. cbn [foldM]. rewrite Hrun.
  split; [done|]. destruct Hd, Hd2. split; congruence.
Qed.

Lemma normalPass_dirs is_done hash root m :
  exists m' calls, normalPass is_done hash root m = Done (m', calls) /\ same_dirs m m'.
Proof.
  rewrite <-run_steps_pass.
  destruct (run_steps_dirs (pass_steps is_done hash root m) (m, []) (pass_steps_local _ _ _ _)) as ([m' calls] & ? & ?).
  by exists m', calls.
Qed.

Lemma fastPass_dirs is_done seed root m :
  exists m' calls, fastPass is_done seed root m = Done (m', calls) /\ same_dirs m m'.
Proof.
  destruct seed as [err|seed]; [by exists m, []|]. unfold fastPass.
  destruct (run_steps_dirs ((fun file => (file.1, fun acc => fast_file is_done seed acc file)) <$> scanFilesystem root) (m, []))
    as ([m' calls] & Hrun & Hd).
  { apply Forall_fmap, Forall_forall. intros x _. apply fast_file_local. }
  exists m', calls. split; [|done]. unfold run_steps in Hrun. by rewrite foldM_fmap in Hrun.
Qed.

Lemma rounds_dirs rounds m calls disk :
  exists m' calls' disk', foldM (run_round encode) (m, calls, disk) rounds = Done (m', calls', disk') /\ same_dirs m m'.
Proof.
  revert m calls disk. induction rounds as [|r rounds IH]; intros m calls disk; [by eexists _, _, _|].
  cbn [foldM run_round]. destruct (normalPass_dirs (rd_done r) (rd_hash r) (rd_root r) m) as (m1 & c1 & -> & Hd).
  cbn [mbind outcome_bind].
  destruct (IH m1 (calls ++ c1) (save (rd_save r) disk m1)) as (m2 & c2 & d2 & Hrun & Hd2).
  exists m2, c2, d2. split; [exact Hrun|]. destruct Hd, Hd2. split; congruence.
Qed.

(** A cache that is what a directory says. *)
Definition up_to_date (root : entry) (files : cache) : Prop :=
  (forall path st, (path, st) ∈ scanFilesystem root -> exists f, files !! path = Some f /\ same_stat f st) /\
  (forall path, is_Some (files !! path) -> path ∈ (scanFilesystem root).*1).

Lemma normalPass_up_to_date is_done hash root m m' calls :
  distinct_paths root -> (forall fn, exists h, hash fn = inr h) ->
  normalPass is_done hash root m = Done (m', calls) -> up_to_date root (fileCache m').
Proof.
  intros Hnd Hhash Hrun. destruct (normalPass_run is_done hash root m Hnd) as (acc & Hrun' & _ & Hfiles).
  rewrite Hrun in Hrun'. injection Hrun' as <-. simpl in Hfiles. split.
  - intros path st Hin. rewrite Hfiles. destruct (Hhash (filepath.Join [baseDir m; path])) as [h Hh].
    apply (found_Some root path st Hnd) in Hin. rewrite Hin. unfold rescanned. rewrite Hh.
    destruct (fileCache m !! path) as [f|]; [destruct (decide (same_stat f st))|]; by eexists.
  - intros path [f Hf]. rewrite Hfiles in Hf. destruct (found root path) as [st|] eqn:E; [|done].
    apply found_Some in E; [|done]. by apply (list_elem_of_fmap_2 fst _ (path, st)).
Qed.

(** A fast pass over an up-to-date seed gives the seed. *)
Lemma fastPass_up_to_date is_done root (files : cache) baseDir cacheDir :
  distinct_paths root -> up_to_date root files ->
  exists m calls, fastPass is_done (inr files) root (New baseDir cacheDir) = Done (m, calls) /\ fileCache m = files.
Proof.
  intros Hnd [Hin Hno]. destruct (fastPass_run is_done files root (New baseDir cacheDir) Hnd) as ([m calls] & Hrun & _ & Hfiles).
  exists m, calls. split; [done|]. apply map_eq. intros path. simpl in Hfiles. rewrite Hfiles.
  unfold seeded. simpl. rewrite lookup_empty. destruct (found root path) as [st|] eqn:E.
  - apply found_Some in E; [|done]. destruct (Hin path st E) as (f & -> & Hs). by rewrite decide_True.
  - apply found_None in E. destruct (files !! path) as [f|] eqn:Hf; [|done].
    exfalso. apply E, Hno. by eexists.
Qed.

(** ** Claims *)

Definition no_save_fault : cache_faults := {| create_err := None; encode_err := None; rename_err := None |}.

(** the auto-saver does not disturb a pass, and a pass does not spoil the
saves: with any saves, failing or not, between its steps,
[normalPassWithIntermediateAutoSaving] returns what [normalPass] does, and the
cache file afterwards reads as before, or as a cache in which every path has
its entry from before or from after the pass. *)
Theorem autosaves_are_consistent is_done hash root saves m disk :
  distinct_paths root ->
  exists m' calls disk',
    normalPassWithIntermediateAutoSaving encode is_done hash root saves m disk = Done (m', calls, disk') /\
    normalPass is_done hash root m = Done (m', calls) /\
    (read disk' m = read disk m \/
     exists c, read disk' m = inr c /\ mixes c (fileCache m) (fileCache m')).
Proof.
  intros Hnd. destruct (with_saves_run (pass_steps is_done hash root m) saves (m, []) disk) as
    ([m' calls] & disk' & Hrun & Hsteps & _ & _ & Hread);
    [apply pass_steps_local|by apply pass_steps_distinct|].
  rewrite run_steps_pass in Hsteps. by exists m', calls, disk'.
Qed.

(** C21: a restart resumes. However a scanner ran, with whatever saves failed
before, if its last pass could hash the files of the directory and the save
after it succeeded, then a new scanner of the same directory, which is as it was,
has after its fast pass exactly the cache of the old one, and its normal pass
changes nothing, tells nothing and needs no hash. *)
Theorem restart_resumes root0 first saves rounds last m disk :
  distinct_paths (rd_root first) -> distinct_paths (rd_root last) ->
  (forall fn, exists h, rd_hash last fn = inr h) -> rd_save last = no_save_fault ->
  exists m' calls disk', Run encode decode root0 first saves (rounds ++ [last]) m disk = Done (m', calls, disk') /\
    forall is_done hash,
      let m0 := New (baseDir m) (cacheDir m) in
      exists m1 calls1, fastPass is_done (read disk' m0) (rd_root last) m0 = Done (m1, calls1) /\
        fileCache m1 = fileCache m' /\
        normalPass is_done hash (rd_root last) m1 = Done (m1, []).
Proof.
  intros Hnd1 Hnd Hhash Hsave. unfold Run.
  destruct (fastPass_dirs (rd_done first) (read disk m) root0 m) as (ma & ca & -> & Hda). cbn [mbind outcome_bind].
  destruct (with_saves_run (pass_steps (rd_done first) (rd_hash first) (rd_root first) ma) saves (ma, []) disk) as
    ([mb cb] & diskb & Hrun & _ & Hdb & _); [apply pass_steps_local|by apply pass_steps_distinct|].
  unfold normalPassWithIntermediateAutoSaving. rewrite Hrun. cbn [mbind outcome_bind]. rewrite foldM_app.
  destruct (rounds_dirs rounds mb (ca ++ cb) (save (rd_save first) diskb mb)) as (mc & cc & diskc & -> & Hdc).
  cbn [mbind outcome_bind foldM run_round].
  destruct (normalPass_dirs (rd_done last) (rd_hash last) (rd_root last) mc) as (md & cd & Hpass & Hdd).
  rewrite Hpass. cbn [mbind outcome_bind]. eexists _, _, _. split; [done|]. intros is_done hash. set (m0 := New (baseDir m) (cacheDir m)).
  assert (Hdirs : same_dirs md m0).
  { destruct Hda, Hdb, Hdc, Hdd. simpl in *. unfold m0. split; simpl; congruence. }
  assert (Hread : read (save (rd_save last) diskc md) m0 = inr (fileCache md)).
  { rewrite (read_same_dirs _ _ _ Hdirs), Hsave. unfold ScannerRun.save.
    destruct (writeHashCache encode no_save_fault diskc md (fileCache md)) as [disk' err] eqn:E.
    pose proof (save_is_atomic encode decode _ _ _ _ _ _ (decode_encode _) E) as Hs.
    unfold writeHashCache in E. simpl in E. by injection E as <- <-. }
  rewrite Hread. pose proof (normalPass_up_to_date _ _ _ _ _ _ Hnd Hhash Hpass) as Hup.
  destruct (fastPass_up_to_date is_done (rd_root last) (fileCache md) (baseDir m) (cacheDir m) Hnd Hup) as (m1 & c1 & Hf & Hc).
  exists m1, c1. split; [exact Hf|]. split; [done|]. rewrite <-Hc in Hup. destruct Hup. by apply normalPass_quiet.
Qed.

End run.

(** ** Witnesses: a cache file that is the bits of a number *)

Definition triple (f : FileInfo) : Z * string * Z := (Size f, Hash f, Mtime f).
Definition untriple (t : Z * string * Z) : FileInfo := mkFileInfo t.1.1 t.1.2 t.2.

Definition encode0 (c : cache) : string := BoltTree.bits (encode (triple <$> c)).
Definition decode0 (s : string) : error + cache :=
  match BoltTree.of_bits s ≫= decode with
  | Some c => inr (untriple <$> c)
  | None => inl (errors_New "gob: bad data")
  end.

Lemma decode0_encode0 c : decode0 (encode0 c) = inr c.
Proof.
  unfold decode0, encode0. rewrite BoltTree.of_bits_bits. simpl. rewrite decode_encode.
  rewrite <-map_fmap_compose. f_equal. etrans; [|apply map_fmap_id]. apply map_fmap_ext.
  by intros i [] _.
Qed.

Definition failing_save : cache_faults :=
  {| create_err := Some (errors_New "disk full"); encode_err := None; rename_err := None |}.

Lemma autosaves_are_consistent_witness :
  exists m' calls disk',
    @normalPassWithIntermediateAutoSaving std_range encode0 nobody_done demo_hash demo_root
      [[no_save_fault]; [failing_save; no_save_fault]] demo_scanner ∅ = Done (m', calls, disk') /\
    @normalPass std_range nobody_done demo_hash demo_root demo_scanner = Done (m', calls) /\
    (readHashCache decode0 disk' demo_scanner = readHashCache decode0 ∅ demo_scanner \/
     exists c, readHashCache decode0 disk' demo_scanner = inr c /\ mixes c (fileCache demo_scanner) (fileCache m')).
Proof.
  exact (@autosaves_are_consistent std_range encode0 decode0 decode0_encode0 nobody_done demo_hash demo_root
    [[no_save_fault]; [failing_save; no_save_fault]] demo_scanner ∅ demo_distinct).
Defined.

Definition demo_round : round := mkRound nobody_done demo_hash demo_root no_save_fault.

Lemma restart_resumes_witness :
  exists m' calls disk',
    @Run std_range encode0 decode0 demo_root demo_round [] [demo_round] (New "/srv" "/var") ∅ = Done (m', calls, disk') /\
    exists m1 calls1,
      @fastPass nobody_done (readHashCache decode0 disk' (New "/srv" "/var")) demo_root (New "/srv" "/var") = Done (m1, calls1) /\
      fileCache m1 = fileCache m' /\
      @normalPass std_range nobody_done (fun _ => inl (errors_New "unused")) demo_root m1 = Done (m1, []).
Proof.
  destruct (@restart_resumes std_range encode0 decode0 decode0_encode0 demo_root demo_round [] [] demo_round
    (New "/srv" "/var") ∅ demo_distinct demo_distinct) as (m' & calls & disk' & Hrun & Hre).
  - intros fn. by eexists.
  - reflexivity.
  - exists m', calls, disk'. split; [exact Hrun|]. exact (Hre nobody_done (fun _ => inl (errors_New "unused"))).
Defined.

End ScannerRunTheorems.
