(* ===== verification/Publisher.v ===== *)
(** * From the scanners to the master: the publishing goroutines

[Scanner.ContinuousExport] and [Scanner.set] call [Server.SetFile], which hands
a request with a pointer to the info to one of four goroutines
([startSetFileThreads]) over a channel without a buffer; the goroutine reads the
pointer when it encodes the request for the master. When the call fails it logs
that and takes the next request. *)

From S2P Require Import Prelude GoStrings Types Crypto Server Scanner.

Module Publisher.

(** ** The programs of the scanners *)

(** What a goroutine of a scanner does: it stores an info in a variable, or
passes a path and a pointer to a variable (or nil) to [setFileRequestChan]. *)
Inductive action :=
  | Assign (cell : nat) (fi : FileInfo)
  | Send (path : string) (info : option nat).

(** The loop of [ContinuousExport]: one variable [fi] for all passes, and a
pointer to it in every request. *)
Definition export_actions (cell : nat) (files : list (string * FileInfo)) : list action :=
  concat ((fun kv => [Assign cell kv.2; Send kv.1 (Some cell)]) <$> files).

(** A call of [set], whose info is in a variable of its own. *)
Definition set_actions (cell : nat) (path : string) (fi : option FileInfo) : list action :=
  match fi with
  | Some fi => [Assign cell fi; Send path (Some cell)]
  | None => [Send path None]
  end.

(** What a scanner comes to do with the callback of its share, and the variable
it does it with. *)
Inductive job :=
  | Change (cell : nat) (path : string) (fi : option FileInfo)
  | Export (cell : nat) (files : list (string * FileInfo)).

Definition job_actions (j : job) : list action :=
  match j with
  | Change cell path fi => set_actions cell path fi
  | Export cell files => export_actions cell files
  end.

Definition job_cell (j : job) : nat := match j with Change cell _ _ | Export cell _ => cell end.

(** The calls of [set] of one pass, with variables from [cell] on. *)
Fixpoint set_jobs (cell : nat) (changes : list (string * option FileInfo)) : list job :=
  match changes with
  | [] => []
  | (path, fi) :: changes' => Change cell path fi :: set_jobs (S cell) changes'
  end.

(** ** The goroutines *)

(** The number of goroutines [startSetFileThreads] starts. *)
Definition threads : nat := 4.

(** A call of the master's [SetFile]: the request that was received and what the
pointer had when it was encoded; and what the call returned. *)
Record call := mkCall {
  c_request : string * option nat;
  c_info : option FileInfo;
  c_err : option error;
}.

(** [programs] is what each goroutine of the scanners has left to do, [held] the
requests goroutines have received and not encoded yet, and [calls] the calls of
the master that have returned, in the order in which they were encoded. *)
Record state := mkState {
  programs : list (list action);
  cells : gmap nat FileInfo;
  held : list (string * option nat);
  calls : list call;
}.

Definition start (programs : list (list action)) : state := mkState programs ∅ [] [].

(** The program of a goroutine that does these jobs. *)
Definition run_jobs (js : list job) : list action := concat (job_actions <$> js).

Inductive step : state -> state -> Prop :=
  | step_assign before c fi rest after cells held calls :
      step (mkState (before ++ (Assign c fi :: rest) :: after) cells held calls)
           (mkState (before ++ rest :: after) (<[c := fi]> cells) held calls)
  | step_send before path info rest after cells held calls :
      length held < threads ->
      step (mkState (before ++ (Send path info :: rest) :: after) cells held calls)
           (mkState (before ++ rest :: after) cells (held ++ [(path, info)]) calls)
  | step_call path info err programs cells held1 held2 calls :
      step (mkState programs cells (held1 ++ (path, info) :: held2) calls)
           (mkState programs cells (held1 ++ held2)
              (calls ++ [mkCall (path, info) (info ≫= (cells !!.)) err])).

(** Nothing is left to do. *)
Definition finished (s : state) : Prop := Forall (fun p => p = []) (programs s) /\ held s = [].

(** The requests as the master got them. *)
Definition request_of (c : call) : string * option FileInfo := ((c_request c).1, c_info c).
Definition sent (s : state) : list (string * option FileInfo) := request_of <$> calls s.

(** The lines "SetFile(...) failed" of the log: nothing else comes of an error. *)
Definition logged (s : state) : list (string * option FileInfo * error) :=
  omap (fun c => err ← c_err c; Some (request_of c, err)) (calls s).

End Publisher.
