(* ===== verification/PublisherTheorems.v ===== *)
(** * What reaches the master

Changes are put to it complete and unmixed, each once, but not in order; the
requests of an export may get the infos of other files of that export; and what
the master refuses is only logged. *)

From S2P Require Import Prelude GoStrings Types Crypto Server Scanner Publisher.
Import Publisher.

Module PublisherTheorems.

(** ** Finishing *)

Lemma call_all programs cells held calls :
  exists calls', rtc step (mkState programs cells held calls) (mkState programs cells [] calls').
Proof.
  revert calls. induction held as [|[path info] held IH]; intros calls; [by eexists|].
  destruct (IH (calls ++ [mkCall (path, info) (info ≫= (cells !!.)) None])) as [calls' Hrun].
  exists calls'. eapply rtc_l; [apply (step_call path info None programs cells [])|]. exact Hrun.
Qed.

(** A goroutine that is alone does what it has left to do. *)
Lemma run_program before p after cells held calls :
  exists cells' held' calls',
    rtc step (mkState (before ++ p :: after) cells held calls) (mkState (before ++ [] :: after) cells' held' calls').
Proof.
  revert cells held calls. induction p as [|[c fi|path info] p IH]; intros cells held calls; [by eexists _, _, _|..].
  - destruct (IH (<[c := fi]> cells) held calls) as (cells' & held' & calls' & Hrun).
    exists cells', held', calls'. eapply rtc_l; [apply step_assign|exact Hrun].
  - destruct (call_all (before ++ (Send path info :: p) :: after) cells held calls) as [calls1 Hcalls].
    destruct (IH cells [(path, info)] calls1) as (cells' & held' & calls' & Hrun).
    exists cells', held', calls'. etrans; [exact Hcalls|].
    eapply rtc_l; [apply (step_send before path info p after cells []); simpl; unfold threads; lia|exact Hrun].
Qed.

Lemma can_finish s : exists s', rtc step s s' /\ finished s'.
Proof.
  destruct s as [programs cells held calls].
  assert (Hall : forall before after cells held calls, Forall (fun p => p = []) before ->
    exists s', rtc step (mkState (before ++ after) cells held calls) s' /\ Forall (fun p => p = []) (Publisher.programs s')).
  { intros before after. revert before. clear. induction after as [|p after IH]; intros before cells held calls Hb.
    - exists (mkState (before ++ []) cells held calls). split; [apply rtc_refl|]. by rewrite app_nil_r.
    - destruct (run_program before p after cells held calls) as (cells' & held' & calls' & Hrun).
      destruct (IH (before ++ [[]]) cells' held' calls') as (s' & Hrun' & Hs'); [apply Forall_app; split; [done|by repeat constructor]|].
      exists s'. split; [|exact Hs']. etrans; [exact Hrun|]. by rewrite <-(assoc_L (++)) in Hrun'. }
  destruct (Hall [] programs cells held calls ltac:(constructor)) as ([programs' cells' held' calls'] & Hrun & Hp).
  destruct (call_all programs' cells' held' calls') as [calls2 Hrun2].
  eexists. split; [etrans; [exact Hrun|exact Hrun2]|done].
Qed.

(** ** What is put to the master *)

(** The requests that a program still has to make. *)
Definition sends (p : list action) : list (string * option nat) :=
  omap (fun a => match a with Send path info => Some (path, info) | Assign _ _ => None end) p.

(** All requests: called, held and to be made. *)
Definition total (s : state) : list (string * option nat) :=
  (c_request <$> calls s) ++ held s ++ concat (sends <$> programs s).

Lemma total_step s s' : step s s' -> total s' ≡ₚ total s.
Proof.
  destruct 1 as [before c fi rest after cells held calls|before path info rest after cells held calls Hlen
    |path info err programs cells held1 held2 calls]; unfold total; simpl.
  - rewrite !fmap_app, !concat_app. done.
  - rewrite !fmap_app, !concat_app, !fmap_cons. simpl. rewrite <-!(assoc_L (++)). simpl.
    do 2 apply Permutation_app_head. apply Permutation_middle.
  - rewrite fmap_app, <-!(assoc_L (++)). simpl. apply Permutation_app_head. apply Permutation_middle.
Qed.

Lemma total_steps s s' : rtc step s s' -> total s' ≡ₚ total s.
Proof. induction 1 as [|s1 s2 s3 Hstep _ IH]; [done|]. by rewrite IH, (total_step _ _ Hstep). Qed.

(** [allowed c fi]: what the variable [c] may hold. Every variable is set before
a pointer to it is passed on. *)
Section variables.
Context (allowed : nat -> FileInfo -> Prop).

Fixpoint sets_before (ready : nat -> Prop) (p : list action) : Prop :=
  match p with
  | [] => True
  | Assign c fi :: p' => allowed c fi /\ sets_before (fun c' => c' = c \/ ready c') p'
  | Send path info :: p' => (forall c, info = Some c -> ready c) /\ sets_before ready p'
  end.

Lemma sets_before_weaken (ready ready' : nat -> Prop) p :
  (forall c, ready c -> ready' c) -> sets_before ready p -> sets_before ready' p.
Proof.
  revert ready ready'. induction p as [|[c fi|path info] p IH]; intros ready ready' Hr; simpl; [done|..].
  - intros [Ha Hp]. split; [done|]. eapply IH; [|exact Hp]. naive_solver.
  - intros [Hi Hp]. split; [naive_solver|]. by eapply IH.
Qed.

Lemma sets_before_app ready p p' :
  sets_before ready p -> sets_before ready p' -> sets_before ready (p ++ p').
Proof.
  revert ready. induction p as [|[c fi|path info] p IH]; intros ready; simpl; [done|..].
  - intros [Ha Hp] Hp'. split; [done|]. apply IH; [done|]. eapply sets_before_weaken; [|exact Hp']. auto.
  - intros [Hi Hp] Hp'. split; [done|]. by apply IH.
Qed.

Definition set_in (cells : gmap nat FileInfo) (c : nat) : Prop := is_Some (cells !! c).

(** What a pointer may give. *)
Definition may_read (info : option nat) (fi : option FileInfo) : Prop :=
  match info with Some c => exists f, fi = Some f /\ allowed c f | None => fi = None end.

Definition faithful (s : state) : Prop :=
  (forall c f, cells s !! c = Some f -> allowed c f) /\
  Forall (sets_before (set_in (cells s))) (programs s) /\
  Forall (fun r : string * option nat => forall c, r.2 = Some c -> set_in (cells s) c) (held s) /\
  Forall (fun c => may_read (c_request c).2 (c_info c)) (calls s).

Lemma faithful_step s s' : step s s' -> faithful s -> faithful s'.
Proof.
  destruct 1 as [before c fi rest after cells held calls|before path info rest after cells held calls Hlen
    |path info err programs cells held1 held2 calls]; unfold faithful; simpl; intros (Hcells & Hprog & Hheld & Hcalls).
  - apply Forall_app in Hprog as [Hb [[Ha Hr] Haf]%Forall_cons].
    assert (Hmono : forall c', set_in cells c' -> set_in (<[c := fi]> cells) c').
    { intros c' Hc'. unfold set_in. destruct (decide (c = c')) as [->|Hne]; [rewrite lookup_insert_eq; by eexists|].
      by rewrite lookup_insert_ne. }
    split_and!.
    + intros c' f. destruct (decide (c = c')) as [->|Hne].
      * rewrite lookup_insert_eq. by intros [= <-].
      * rewrite lookup_insert_ne by done. apply Hcells.
    + apply Forall_app. split; [|apply Forall_cons; split].
      * eapply Forall_impl; [exact Hb|]. intros p. by apply sets_before_weaken.
      * eapply sets_before_weaken; [|exact Hr]. intros c' [->|Hc']; [|by apply Hmono].
        unfold set_in. rewrite lookup_insert_eq. by eexists.
      * eapply Forall_impl; [exact Haf|]. intros p. by apply sets_before_weaken.
    + eapply Forall_impl; [exact Hheld|]. intros r Hr' c' Hc'. by apply Hmono, Hr'.
    + done.
  - apply Forall_app in Hprog as [Hb [[Hi Hr] Haf]%Forall_cons]. split_and!; [done| | |done].
    + apply Forall_app. split; [done|]. by apply Forall_cons.
    + apply Forall_app. split; [done|]. by apply Forall_cons.
  - apply Forall_app in Hheld as [H1 [Hi H2]%Forall_cons]. split_and!; [done|done|by apply Forall_app|].
    apply Forall_app. split; [done|]. apply Forall_cons. split; [|done]. simpl in *.
    destruct info as [c|]; [|done]. destruct (Hi c eq_refl) as [f Hf]. exists f. simpl. split; [done|]. by eapply Hcells.
Qed.

Lemma faithful_steps programs s :
  Forall (sets_before (fun _ => False)) programs -> rtc step (start programs) s -> faithful s.
Proof.
  intros Hp Hrun. refine (rtc_inv step faithful (start programs) s _ _ Hrun).
  - unfold faithful. simpl. split_and!; [intros c f; by rewrite lookup_empty| |done|done].
    eapply Forall_impl; [exact Hp|]. intros p. by apply sets_before_weaken.
  - intros y z Hstep. by apply faithful_step.
Qed.
End variables.

(** ** Jobs *)

(** The changes and the exported files of jobs. *)
Definition changes (js : list job) : list (string * option FileInfo) :=
  js ≫= fun j => match j with Change _ path fi => [(path, fi)] | Export _ _ => [] end.
Definition exports (js : list job) : list (string * FileInfo) :=
  js ≫= fun j => match j with Change _ _ _ => [] | Export _ files => files end.

(** Their requests. *)
Definition change_sends (js : list job) : list (string * option nat) :=
  js ≫= fun j => match j with Change c path fi => [(path, fi ≫= fun _ => Some c)] | Export _ _ => [] end.
Definition export_sends (js : list job) : list (string * option nat) :=
  js ≫= fun j => match j with Change _ _ _ => [] | Export c files => (fun kv => (kv.1, Some c)) <$> files end.

(** What the variable of a job holds in the course of it. *)
Definition job_info (j : job) (f : FileInfo) : Prop :=
  match j with Change _ _ fi => fi = Some f | Export _ files => f ∈ files.*2 end.

Definition job_allowed (js : list job) (c : nat) (f : FileInfo) : Prop :=
  exists j, j ∈ js /\ job_cell j = c /\ job_info j f.

Lemma sends_app p p' : sends (p ++ p') = sends p ++ sends p'.
Proof. apply omap_app. Qed.

Lemma sends_job j : sends (job_actions j) = change_sends [j] ++ export_sends [j].
Proof.
  destruct j as [c path [fi|]|c files]; [done|done|]. change (export_sends [Export c files]) with
    (((fun kv => (kv.1, Some c)) <$> files) ++ []). rewrite app_nil_r. change (change_sends [Export c files]) with
    (@nil (string * option nat)). unfold job_actions. simpl app.
  induction files as [|[path fi] files IH]; [done|].
  change (sends (export_actions c ((path, fi) :: files))) with ((path, Some c) :: sends (export_actions c files)).
  by rewrite IH.
Qed.

Lemma sends_jobs js : sends (run_jobs js) ≡ₚ change_sends js ++ export_sends js.
Proof.
  induction js as [|j js IH]; [done|]. unfold run_jobs in *. cbn [fmap list_fmap concat]. rewrite sends_app, sends_job, IH.
  unfold change_sends, export_sends. simpl. rewrite !app_nil_r, <-!(assoc_L (++)).
  apply Permutation_app_head. rewrite !(assoc_L (++)). apply Permutation_app_tail, Permutation_app_comm.
Qed.

Lemma sends_all gs :
  concat (sends <$> (run_jobs <$> gs)) ≡ₚ change_sends (concat gs) ++ export_sends (concat gs).
Proof.
  induction gs as [|js gs IH]; [done|]. cbn [fmap list_fmap concat]. rewrite IH, sends_jobs.
  unfold change_sends, export_sends. rewrite !bind_app, <-!(assoc_L (++)).
  apply Permutation_app_head. rewrite !(assoc_L (++)). apply Permutation_app_tail, Permutation_app_comm.
Qed.

Lemma job_sets_before all j ready :
  j ∈ all -> sets_before (job_allowed all) ready (job_actions j).
Proof.
  intros Hj. destruct j as [c path [fi|]|c files]; simpl.
  - split; [by exists (Change c path (Some fi))|]. split; [|done]. intros c' [= <-]. by left.
  - split; [|done]. intros c' [=].
  - unfold export_actions.
    assert (Hsub : forall kv, kv ∈ files -> job_allowed all c kv.2).
    { intros kv Hkv. exists (Export c files). split; [done|]. split; [done|]. by apply list_elem_of_fmap_2. }
    clear Hj. induction files as [|kv files IH]; [done|]. simpl. split; [apply Hsub; by left|].
    split; [intros c' [= <-]; by left|]. eapply sets_before_weaken; [|apply IH].
    + by right.
    + intros kv' Hkv'. apply Hsub. by right.
Qed.

Lemma jobs_set_before all js ready :
  Forall (fun j => j ∈ all) js -> sets_before (job_allowed all) ready (run_jobs js).
Proof.
  intros Hall. unfold run_jobs. induction Hall as [|j js Hj _ IH]; [done|]. simpl.
  apply sets_before_app; [by apply job_sets_before|exact IH].
Qed.

Section runs.
Context (gs : list (list job)).
Abbreviation all := (concat gs).
Context (Hcells : NoDup (job_cell <$> all)).

Lemma job_unique j j' : j ∈ all -> j' ∈ all -> job_cell j = job_cell j' -> j = j'.
Proof.
  intros [i Hi]%list_elem_of_lookup [i' Hi']%list_elem_of_lookup Heq.
  assert (i = i') as <-; [|congruence].
  eapply NoDup_lookup; [exact Hcells|by rewrite list_lookup_fmap, Hi|by rewrite list_lookup_fmap, Hi', Heq].
Qed.

(** Calls of a change give its own info, those of an export one of the export. *)
Lemma calls_of_changes js cs :
  Forall (fun j => j ∈ all) js -> c_request <$> cs = change_sends js ->
  Forall (fun c => may_read (job_allowed all) (c_request c).2 (c_info c)) cs ->
  request_of <$> cs = changes js.
Proof.
  intros Hall. revert cs. induction Hall as [|j js Hj _ IH]; intros cs Hreq Hread.
  - by destruct cs.
  - destruct j as [c path fi|c files]; [|by apply IH].
    destruct cs as [|x cs]; [discriminate Hreq|]. change (change_sends (Change c path fi :: js)) with
      ((path, fi ≫= fun _ => Some c) :: change_sends js) in Hreq. rewrite fmap_cons in Hreq. injection Hreq as Hx Hreq.
    apply Forall_cons in Hread as [Hx' Hread]. rewrite fmap_cons. change (changes (Change c path fi :: js)) with
      ((path, fi) :: changes js). rewrite (IH cs) by done. f_equal. unfold request_of. rewrite Hx. simpl. f_equal.
    rewrite Hx in Hx'. destruct fi as [f|]; simpl in Hx'; [|done].
    destruct Hx' as (f' & -> & j & Hj' & Hc & Hinfo).
    apply (job_unique j (Change c path (Some f))) in Hc; [|done|done]. subst j. simpl in Hinfo. congruence.
Qed.

(** The request for an exported file: its path, and the info of a file of the
same export. *)
Definition export_request (r : string * option FileInfo) (e : string * FileInfo) : Prop :=
  r.1 = e.1 /\ exists c files f, Export c files ∈ all /\ e ∈ files /\ f ∈ files.*2 /\ r.2 = Some f.

Lemma calls_of_exports js cs :
  Forall (fun j => j ∈ all) js -> c_request <$> cs = export_sends js ->
  Forall (fun c => may_read (job_allowed all) (c_request c).2 (c_info c)) cs ->
  Forall2 export_request (request_of <$> cs) (exports js).
Proof.
  intros Hall. revert cs. induction Hall as [|j js Hj _ IH]; intros cs Hreq Hread.
  - destruct cs; [constructor|done].
  - destruct j as [c path fi|c files]; [by apply IH|].
    change (export_sends (Export c files :: js)) with (((fun kv => (kv.1, Some c)) <$> files) ++ export_sends js) in Hreq.
    change (exports (Export c files :: js)) with (files ++ exports js).
    apply fmap_app_inv in Hreq as (cs1 & cs2 & Hreq1 & Hreq2 & ->).
    apply Forall_app in Hread as [Hread1 Hread2]. rewrite fmap_app. apply Forall2_app; [|by apply IH].
    apply Forall2_fmap_l. apply Forall2_same_length_lookup_2.
    { apply (f_equal length) in Hreq1. by rewrite !length_fmap in Hreq1. }
    intros i x e Hx He. apply (f_equal (fun l => l !! i)) in Hreq1. rewrite !list_lookup_fmap, Hx, He in Hreq1.
    injection Hreq1 as Hreq1. apply (Forall_lookup_1 _ _ i x) in Hread1; [|done]. cbv beta in Hread1. rewrite <-Hreq1 in Hread1.
    destruct Hread1 as (f & Hf & j & Hj' & Hc & Hinfo).
    apply (job_unique j (Export c files)) in Hc; [|done|done]. subst j.
    split; [unfold request_of; by rewrite <-Hreq1|]. exists c, files, f.
    split_and!; try done. by eapply list_elem_of_lookup_2.
Qed.

Lemma all_in : Forall (fun j => j ∈ all) all.
Proof. by apply Forall_forall. Qed.

Lemma jobs_faithful s : rtc step (start (run_jobs <$> gs)) s -> faithful (job_allowed all) s.
Proof.
  apply faithful_steps. apply Forall_fmap, Forall_forall. intros js Hjs. apply jobs_set_before.
  apply Forall_forall. intros j Hj. apply list_elem_of_lookup in Hjs as [i Hi]. rewrite <-(take_drop_middle gs i js Hi), concat_app. apply elem_of_app. right. simpl. apply elem_of_app. by left.
Qed.

Lemma jobs_sent s :
  rtc step (start (run_jobs <$> gs)) s -> finished s ->
  exists exported, sent s ≡ₚ changes all ++ exported /\ Forall2 export_request exported (exports all).
Proof.
  intros Hrun [Hp Hh]. destruct (jobs_faithful s Hrun) as (_ & _ & _ & Hread).
  pose proof (total_steps _ _ Hrun) as Ht. unfold total in Ht. rewrite Hh in Ht. simpl in Ht.
  assert (concat (sends <$> programs s) = []) as Hnone.
  { clear Ht. induction Hp as [|p ps -> _ IH]; [done|]. simpl. exact IH. }
  rewrite Hnone, app_nil_r, sends_all in Ht. symmetry in Ht.
  apply Permutation_map_inv in Ht as (cs & Heq & Hperm). symmetry in Heq.
  apply fmap_app_inv in Heq as (cs1 & cs2 & H1 & H2 & ->). rewrite Hperm in Hread.
  apply Forall_app in Hread as [Hr1 Hr2].
  exists (request_of <$> cs2). split.
  - unfold sent. rewrite Hperm, fmap_app. by rewrite (calls_of_changes all cs1 all_in).
  - by apply calls_of_exports; [apply all_in|..].
Qed.
End runs.

Lemma set_jobs_changes n cs : changes (set_jobs n cs) = cs.
Proof. revert n. induction cs as [|[path fi] cs IH]; intros n; [done|]. simpl. unfold changes in *. simpl. by rewrite IH. Qed.

Lemma set_jobs_exports n cs : exports (set_jobs n cs) = [].
Proof. revert n. induction cs as [|[path fi] cs IH]; intros n; [done|]. simpl. apply IH. Qed.

Lemma set_jobs_cells n cs : job_cell <$> set_jobs n cs = seq n (length cs).
Proof. revert n. induction cs as [|[path fi] cs IH]; intros n; [done|]. simpl. by rewrite IH. Qed.

(** One pass, whose changes are all that is put to the master. *)
Lemma pass_sent cs s :
  rtc step (start [run_jobs (set_jobs 0 cs)]) s -> finished s -> sent s ≡ₚ cs.
Proof.
  intros Hrun Hfin. destruct (jobs_sent [set_jobs 0 cs]) with (s := s) as (exported & Hsent & Hex); [|done|done|].
  - simpl. rewrite app_nil_r, set_jobs_cells. apply NoDup_seq.
  - simpl in *. rewrite app_nil_r, set_jobs_exports in Hex. apply Forall2_nil_inv_r in Hex as ->.
    by rewrite Hsent, !app_nil_r, set_jobs_changes.
Qed.

(** ** Claims *)

(** C27: what the goroutines of [startSetFileThreads] put to the master. Let any
number of scanners make changes and exports, each with variables of its own.
However they and the four goroutines interleave, and whatever the calls return:
every run can be brought to its end; each request is put to the master in one
call, and those that it refuses are in the log and are not tried again; at the
end the master has got every change exactly once, with its own info, and every
exported file exactly once, with the info of some file of the same export, in
some order. *)
Theorem changes_reach_master (gs : list (list job)) s :
  NoDup (job_cell <$> concat gs) ->
  rtc step (start (run_jobs <$> gs)) s ->
  (exists s', rtc step s s' /\ finished s') /\
  sent s ≡ₚ (request_of <$> filter (fun c => c_err c = None) (calls s)) ++ (logged s).*1 /\
  (finished s ->
   exists exported, sent s ≡ₚ changes (concat gs) ++ exported /\
     Forall2 (fun r e => r.1 = e.1 /\ exists c files f, Export c files ∈ concat gs /\ e ∈ files /\
       f ∈ files.*2 /\ r.2 = Some f) exported (exports (concat gs))).
Proof.
  intros Hcells Hrun. split; [apply can_finish|]. split; [|by apply jobs_sent].
  unfold sent, logged. clear. induction (calls s) as [|[r i [e|]] cs IH]; [done|..]; simpl.
  - rewrite IH. rewrite Permutation_middle. done.
  - by rewrite IH.
Qed.

(** An initial export may publish a file with the info of another: for any
two files that follow each other in the export there is a run, and it ends, in
which the master gets the path of the first with the hash of the second. Every
request points to the one variable of the loop. *)
Theorem export_mixes_infos p1 f1 p2 f2 files cell :
  exists s, rtc step (start [run_jobs [Export cell ((p1, f1) :: (p2, f2) :: files)]]) s /\
    finished s /\ (p1, Some f2) ∈ sent s.
Proof.
  set (rest := Send p2 (Some cell) :: export_actions cell files).
  set (s := mkState [rest ++ []] (<[cell := f2]> (<[cell := f1]> ∅)) [] [mkCall (p1, Some cell) (Some f2) None]).
  assert (Hrun : rtc step (start [run_jobs [Export cell ((p1, f1) :: (p2, f2) :: files)]]) s).
  { eapply rtc_l; [apply (step_assign [])|].
    eapply rtc_l; [apply (step_send []); simpl; unfold threads; lia|].
    eapply rtc_l; [apply (step_assign [])|]. apply rtc_once.
    pose proof (step_call p1 (Some cell) None [rest ++ []] (<[cell := f2]> (<[cell := f1]> ∅)) [] [] []) as Hs.
    simpl in Hs. rewrite lookup_insert_eq in Hs. exact Hs. }
  destruct (can_finish s) as (s' & Hrun' & Hfin). exists s'.
  split_and!; [by etrans|done|].
  assert (Hgrow : forall s1 s2 r, rtc step s1 s2 -> r ∈ sent s1 -> r ∈ sent s2).
  { clear. intros s1 s2 r. induction 1 as [|s1 s2 s3 Hstep _ IH]; [done|]. intros Hr. apply IH.
    destruct Hstep; unfold sent in *; simpl in *; try done. rewrite fmap_app. apply elem_of_app. by left. }
  eapply Hgrow; [exact Hrun'|]. by left.
Qed.

(** Two changes of one path may reach the master in the wrong order: a file
that is published and then deleted can end up deleted first and published
last, so that the master lists a file that is gone. *)
Theorem changes_may_be_swapped path fi :
  exists s, rtc step (start [run_jobs (set_jobs 0 [(path, Some fi); (path, None)])]) s /\
    finished s /\ sent s = [(path, None); (path, Some fi)].
Proof.
  exists (mkState [[]] (<[0 := fi]> ∅) [] [mkCall (path, None) None None; mkCall (path, Some 0) (Some fi) None]).
  split; [|split; [split; [by constructor|done]|done]].
  eapply rtc_l; [apply (step_assign [])|].
  eapply rtc_l; [apply (step_send []); simpl; unfold threads; lia|].
  eapply rtc_l; [apply (step_send []); simpl; unfold threads; lia|].
  eapply rtc_l; [apply (step_call path None None [[]] _ [(path, Some 0)] [])|]. apply rtc_once.
  pose proof (step_call path (Some 0) None [[]] (<[0 := fi]> ∅) [] [] [mkCall (path, None) None None]) as Hs.
  simpl in Hs. rewrite lookup_insert_eq in Hs. exact Hs.
Qed.

(** *** A change that the master refuses, beside an export of two files *)

Definition info (h : string) : FileInfo := mkFileInfo 1 h 1.
Definition demo_jobs : list (list job) :=
  [[Change 0 "new" (Some (info "h"))]; [Export 1 [("a"%string, info "ha"); ("b"%string, info "hb")]]].
Definition refused : error := errors_New "refused".
Definition demo_end : state :=
  mkState [[]; []] (<[1 := info "hb"]> (<[1 := info "ha"]> (<[0 := info "h"]> ∅))) []
    [mkCall ("new"%string, Some 0) (Some (info "h")) (Some refused);
     mkCall ("a"%string, Some 1) (Some (info "hb")) None; mkCall ("b"%string, Some 1) (Some (info "hb")) None].

Lemma run_demo : rtc step (start (run_jobs <$> demo_jobs)) demo_end.
Proof.
  eapply rtc_l; [apply (step_assign [])|].
  eapply rtc_l; [apply (step_send []); simpl; unfold threads; lia|].
  eapply rtc_l; [apply (step_assign [[]])|].
  eapply rtc_l; [apply (step_send [[]]); simpl; unfold threads; lia|].
  eapply rtc_l; [apply (step_assign [[]])|].
  eapply rtc_l; [apply (step_send [[]]); simpl; unfold threads; lia|].
  eapply rtc_l; [apply (step_call "new" (Some 0) (Some refused) _ _ [])|].
  eapply rtc_l; [apply (step_call "a" (Some 1) None _ _ [])|].
  eapply rtc_l; [apply (step_call "b" (Some 1) None _ _ [])|]. apply rtc_refl.
Qed.

Lemma changes_reach_master_witness :
  (logged demo_end = [(("new"%string, Some (info "h")), refused)]) /\
  exists exported, sent demo_end ≡ₚ [("new"%string, Some (info "h"))] ++ exported /\
    Forall2 (fun r e => r.1 = e.1 /\ exists c files f, Export c files ∈ concat demo_jobs /\ e ∈ files /\
       f ∈ files.*2 /\ r.2 = Some f) exported [("a"%string, info "ha"); ("b"%string, info "hb")].
Proof.
  split; [done|].
  refine (proj2 (proj2 (changes_reach_master demo_jobs demo_end _ run_demo)) _).
  - by apply (bool_decide_eq_true_1 (NoDup _)).
  - split; [by repeat constructor|done].
Defined.

End PublisherTheorems.
