(* ===== verification/RpcLog.v ===== *)
(** * The log of a call ([common.go])

[LogRPC] starts a goroutine that reports a call that is still running, each time
after a longer pause, and answers the function that the handlers defer: it ends
the goroutine and writes the line of the handled call. Times are nanoseconds
since [LogRPC] was called. *)

From S2P Require Import Prelude.

Module RpcLog.

Section log.
(** The values that [%+v] prints. *)
Context {V : Type}.

(** What a handler passes for the reply: a value, or a pointer whose target is
what it is when the line is written. *)
Inductive arg :=
  | ByValue (v : V)
  | ByPointer.

Definition shown (r : arg) (final : V) : V := match r with ByValue v => v | ByPointer => final end.

Inductive line :=
  | StillRunning (name : string) (t : Z) (q : V)
  | Handled (name : string) (t : Z) (q r : V) (err : option error).

(** [time.Duration(i) * time.Second] *)
Definition second : Z := 1000000000.
Definition pause (i : Z) : Z := i64 (i * second).

(** The goroutine: about to select with [i]; in the [select], whose timer fires
at a time; gone. *)
Inductive reporter :=
  | Selecting (i : Z)
  | Waiting (i timer : Z)
  | Gone.

(** The caller, which has the answered function to call [n] more times (once, in a
[defer], everywhere in the program): at work; in the function, after its first
line; after [close(done)]; or panicked. *)
Inductive caller :=
  | Calls (n : nat)
  | Measured (n : nat) (t : Z)
  | Closed (n : nat) (t : Z)
  | Panicked.

#[export] Instance caller_eq_dec : EqDecision caller.
Proof. solve_decision. Defined.

Record state := mkState {
  clock : Z;
  goroutine : reporter;
  deferred : caller;
  done_closed : bool;
  log : list line;
}.

(** After [LogRPC], for a caller that calls the answered function [n] times. *)
Definition LogRPC (n : nat) : state := mkState 0 (Selecting 1) (Calls n) false [].

Context (name : string) (q : V) (r : arg).

(** What the goroutine does. *)
Inductive report : state -> state -> Prop :=
  | report_select c i f d l :
      report (mkState c (Selecting i) f d l) (mkState c (Waiting i (c + pause i)) f d l)
  | report_timer c i timer f d l :
      (timer <= c)%Z ->
      report (mkState c (Waiting i timer) f d l) (mkState c (Selecting (i + 1)) f d (l ++ [StillRunning name c q]))
  | report_done c i timer f l :
      report (mkState c (Waiting i timer) f true l) (mkState c Gone f true l).

(** The answered function, with what [r] points to and [*err] when it prints. *)
Inductive handled : state -> state -> Prop :=
  | handled_measure c g n d l :
      handled (mkState c g (Calls (S n)) d l) (mkState c g (Measured n c) d l)
  | handled_close c g n t l :
      handled (mkState c g (Measured n t) false l) (mkState c g (Closed n t) true l)
  | handled_close_again c g n t l :
      handled (mkState c g (Measured n t) true l) (mkState c g Panicked true l)
  | handled_print c g n t d l final err :
      handled (mkState c g (Closed n t) d l) (mkState c g (Calls n) d (l ++ [Handled name t q (shown r final) err])).

(** Time passes. *)
Inductive elapse : state -> state -> Prop :=
  | elapse_by c g f d l dt :
      (0 < dt)%Z -> elapse (mkState c g f d l) (mkState (c + dt) g f d l).

Definition step (s s' : state) : Prop := report s s' \/ handled s s' \/ elapse s s'.

(** The same on a machine that is not overloaded: time does not pass while the
goroutine could do something or its caller is in the function. *)
Definition prompt_step (s s' : state) : Prop :=
  report s s' \/ handled s s' \/
  (elapse s s' /\ (exists n, deferred s = Calls n) /\
   match goroutine s with
   | Selecting _ => False
   | Waiting _ timer => done_closed s = false /\ (clock s' <= timer)%Z
   | Gone => True
   end).
End log.
Arguments arg V : clear implicits.
Arguments line V : clear implicits.
Arguments state V : clear implicits.

End RpcLog.
