(* ===== verification/RpcLogTheorems.v ===== *)
(** * What the log of a call shows

A call that hangs is reported ever more rarely; one that returns is logged once,
and its goroutine ends. *)

From S2P Require Import Prelude RpcLog.
Import RpcLog.

Module RpcLogTheorems.

Section log.
Context {V : Type} (name : string) (q : V) (r : arg V).
Abbreviation step := (step name q r).
Abbreviation prompt_step := (prompt_step name q r).
Abbreviation report := (report name q).

(** The times of the reports of a running call, and the other lines. *)
Definition running (l : line V) : list Z := match l with StillRunning _ t _ => [t] | Handled _ _ _ _ _ => [] end.
Definition reports (l : list (line V)) : list Z := l ≫= running.
Definition finals (l : list (line V)) : list (line V) :=
  filter (fun x => running x = []) l.

Lemma reports_snoc l x : reports (l ++ [x]) = reports l ++ running x.
Proof. unfold reports. rewrite bind_app. by destruct x. Qed.

Lemma finals_snoc l x : finals (l ++ [x]) = finals l ++ (if decide (running x = []) then [x] else []).
Proof. unfold finals. by rewrite filter_app. Qed.

(** The sum of the first pauses, in seconds. *)
Fixpoint total (n : nat) : Z :=
  match n with O => 0 | S n' => total n' + Z.of_nat n end.

Lemma total_closed n : (2 * total n = Z.of_nat n * (Z.of_nat n + 1))%Z.
Proof. induction n as [|n IH]; [done|]. cbn [total]. nia. Qed.

Lemma total_mono n m : n <= m -> (total n <= total m)%Z.
Proof. pose proof (total_closed n). pose proof (total_closed m). nia. Qed.

Lemma total_nonneg n : (0 <= total n)%Z.
Proof. pose proof (total_closed n). nia. Qed.

(** The pause does not wrap around as long as the clock does not. *)
Lemma pause_small n c : (0 <= c < 2 ^ 63)%Z -> (total n * second <= c)%Z -> pause (Z.of_nat n + 1) = ((Z.of_nat n + 1) * second)%Z.
Proof.
  intros Hc Ht. unfold pause. apply i64_id. pose proof (total_closed n) as Hn. unfold in_i64, second in *.
  assert (Z.of_nat n < 2 ^ 20)%Z; [|lia]. nia.
Qed.

(** ** The invariant of every run *)

(** The [k]-th report comes after the first [k] pauses at the earliest. *)
Definition spaced (ts : list Z) (c : Z) : Prop :=
  (forall k t, ts !! k = Some t -> (total (S k) * second <= t <= c)%Z) /\
  (forall k t t', ts !! k = Some t -> ts !! S k = Some t' -> (t + (Z.of_nat k + 2) * second <= t')%Z).

Definition last_or (ts : list Z) : Z := default 0%Z (last ts).

(** The function is called once: its line is in the log when it has returned. *)
Definition called_once (s : state V) : Prop :=
  match deferred s with
  | Calls 1 => done_closed s = false /\ finals (log s) = []
  | Measured 0 t => done_closed s = false /\ finals (log s) = [] /\ (t <= clock s)%Z
  | Closed 0 t => done_closed s = true /\ finals (log s) = [] /\ (t <= clock s)%Z
  | Calls 0 => done_closed s = true /\
      exists t final err, (t <= clock s)%Z /\ finals (log s) = [Handled name t q (shown r final) err]
  | _ => False
  end.

Definition ok (s : state V) : Prop :=
  (0 <= clock s)%Z /\
  ((clock s < 2 ^ 63)%Z ->
   spaced (reports (log s)) (clock s) /\
   (total (length (reports (log s))) * second <= last_or (reports (log s)) <= clock s)%Z /\
   match goroutine s with
   | Selecting i => i = (Z.of_nat (length (reports (log s))) + 1)%Z
   | Waiting i timer =>
       i = (Z.of_nat (length (reports (log s))) + 1)%Z /\ (last_or (reports (log s)) + i * second <= timer)%Z
   | Gone => True
   end) /\
  called_once s /\ (goroutine s = Gone -> done_closed s = true).

Lemma spaced_later ts c c' : spaced ts c -> (c <= c')%Z -> spaced ts c'.
Proof. intros [H1 H2] Hle. split; [|done]. intros k t Ht. specialize (H1 k t Ht). lia. Qed.

Lemma last_or_snoc ts t : last_or (ts ++ [t]) = t.
Proof. unfold last_or. by rewrite last_snoc. Qed.

Lemma spaced_snoc ts c i timer :
  spaced ts c -> (total (length ts) * second <= last_or ts)%Z ->
  i = (Z.of_nat (length ts) + 1)%Z -> (last_or ts + i * second <= timer <= c)%Z ->
  spaced (ts ++ [c]) c /\ (total (length (ts ++ [c])) * second <= c)%Z.
Proof.
  intros [H1 H2] Hlast -> Htimer.
  assert (Hnew : (total (S (length ts)) * second <= c)%Z) by (cbn [total]; lia).
  split; [|by rewrite length_app, Nat.add_1_r]. split.
  - intros k t Hk. apply lookup_snoc_Some in Hk as [[_ Hk]|[-> <-]]; [by apply H1|]. lia.
  - intros k t t' Hk Hk'. apply lookup_snoc_Some in Hk' as [[Hlt Hk']|[Heq <-]].
    + rewrite lookup_app_l in Hk by lia. by eapply H2.
    + rewrite lookup_app_l in Hk by lia.
      assert (last_or ts = t) as <-; [|lia].
      unfold last_or. rewrite last_lookup. replace (pred (length ts)) with k by lia. by rewrite Hk.
Qed.

Lemma finals_running l t : finals (l ++ [StillRunning name t q]) = finals l.
Proof. rewrite finals_snoc. simpl. by rewrite app_nil_r. Qed.

Lemma report_ok s s' : report s s' -> ok s -> ok s'.
Proof.
  intros Hstep (Hc & Hlive & Hfin & Hgone). destruct Hstep as [c i f d l|c i timer f d l Ht|c i timer f l];
    unfold ok, called_once in *; simpl in *.
  - split; [done|]. split; [|done]. intros Hb. destruct (Hlive Hb) as (Hs & Hl & ->).
    split_and!; try done; try lia. rewrite (pause_small _ c); lia.
  - split; [done|]. rewrite reports_snoc, finals_running. simpl. split; [|done].
    intros Hb. destruct (Hlive Hb) as (Hs & Hl & Hi & Htimer).
    destruct (spaced_snoc _ c i timer Hs ltac:(lia) Hi ltac:(lia)) as [Hs' Ht'].
    rewrite last_or_snoc. split_and!; try done; try lia. rewrite length_app. simpl. lia.
  - split; [done|]. split; [|done]. intros Hb. by destruct (Hlive Hb) as (Hs & Hl & _).
Qed.

Lemma handled_ok s s' : handled name q r s s' -> ok s -> ok s'.
Proof.
  destruct 1 as [c g n d l|c g n t l|c g n t l|c g n t d l final err]; intros (Hc & Hlive & Hfin & Hg);
    unfold ok, called_once in *; simpl in *.
  - destruct n; [|done]. destruct Hfin as [-> Hfin]. by split_and!.
  - destruct n; [|done]. destruct Hfin as (_ & Hfin & Ht). by split_and!.
  - destruct n; naive_solver.
  - destruct n; [|done]. destruct Hfin as (-> & Hfin & Ht).
    rewrite reports_snoc, finals_snoc, Hfin. simpl. rewrite app_nil_r. split_and!; try done. by exists t, final, err.
Qed.

Lemma elapse_ok s s' : elapse s s' -> ok s -> ok s'.
Proof.
  intros [c g f d l dt Hdt] (Hc & Hlive & Hfin & Hg). unfold ok, called_once in *. simpl in *.
  split; [lia|]. split; [|split; [|done]].
  - intros Hb. destruct (Hlive ltac:(lia)) as (Hs & Hl & Hgo).
    split; [eapply spaced_later; [done|lia]|]. split; [lia|done].
  - destruct f as [[|[|n]]|[|n] t|[|n] t|]; try done.
    + destruct Hfin as (-> & t & final & err & Ht & Hf). split; [done|]. exists t, final, err. split; [lia|done].
    + destruct Hfin as (-> & Hf & Ht). split_and!; [done|done|lia].
    + destruct Hfin as (-> & Hf & Ht). split_and!; [done|done|lia].
Qed.

Lemma log_reachable_ok s : rtc step (LogRPC 1) s -> ok s.
Proof.
  intros Hr. refine (rtc_inv step ok (LogRPC 1) s _ _ Hr).
  - unfold ok, spaced. simpl. split_and!; try done.
  - intros y z [Hstep|[Hstep|Hstep]]; [by apply report_ok|by apply handled_ok|by apply elapse_ok].
Qed.

(** ** The end of the goroutine *)

(** What it can still do at this time once [done] is closed. *)
Definition rest (s : state V) : nat :=
  match goroutine s with
  | Selecting _ => 2
  | Waiting _ timer => if decide (timer <= clock s)%Z then 3 else 1
  | Gone => 0
  end.

Lemma report_rest s s' :
  report s s' -> ok s -> (clock s < 2 ^ 63)%Z -> done_closed s = true ->
  clock s' = clock s /\ done_closed s' = true /\ rest s' < rest s /\
  (log s' = log s \/ rest s = 3 /\ log s' = log s ++ [StillRunning name (clock s) q]).
Proof.
  destruct 1 as [c i f d l|c i timer f d l Ht|c i timer f l]; unfold rest; intros (Hc & Hlive & _) Hb Hd; simpl in *.
  - destruct (Hlive Hb) as (_ & Hl & ->). rewrite (pause_small _ c) by lia. rewrite decide_False by (unfold second; lia).
    split_and!; auto with lia.
  - rewrite decide_True by done. split_and!; auto with lia.
  - split_and!; auto with lia. case_decide; lia.
Qed.

Lemma reports_bounded k s s' :
  nsteps report k s s' -> ok s -> (clock s < 2 ^ 63)%Z -> done_closed s = true ->
  ok s' /\ clock s' = clock s /\ done_closed s' = true /\ k + rest s' <= rest s /\
  (log s' = log s \/ rest s = 3 /\ log s' = log s ++ [StillRunning name (clock s) q]).
Proof.
  induction 1 as [s|k s s1 s' Hstep _ IH]; intros Hok Hb Hd; [split_and!; auto with lia|].
  destruct (report_rest s s1 Hstep Hok Hb Hd) as (Hc1 & Hd1 & Hr1 & Hlog1).
  destruct IH as (Hok' & Hc' & Hd' & Hr' & Hlog'); [by eapply report_ok|lia|done|].
  assert (rest s <= 3) as Hmax by (unfold rest; destruct (goroutine s); repeat case_decide; lia).
  split_and!; [done|congruence|done|lia|]. rewrite Hc1 in Hlog'.
  destruct Hlog1 as [Hl1|[Hr Hl1]], Hlog' as [Hl'|[Hr2 Hl']]; rewrite Hl1 in Hl'; [by left|right|by right|].
  - split; [lia|done].
  - lia.
Qed.

Lemma goroutine_goes_on s : done_closed s = true -> goroutine s <> Gone -> exists s', report s s'.
Proof.
  destruct s as [c [i|i timer|] f d l]; simpl; intros -> Hg; [|by eexists; apply report_done|done].
  eexists. apply report_select.
Qed.

(** ** A machine that is not overloaded *)

Definition prompt_ok (s : state V) : Prop :=
  (0 <= clock s)%Z /\
  ((clock s < 2 ^ 63)%Z ->
   let n := length (reports (log s)) in
   reports (log s) = (fun k => (total (S k) * second)%Z) <$> seq 0 n /\
   match goroutine s with
   | Selecting i => i = (Z.of_nat n + 1)%Z /\ clock s = (total n * second)%Z
   | Waiting i timer =>
       i = (Z.of_nat n + 1)%Z /\ timer = (total (S n) * second)%Z /\ (total n * second <= clock s <= timer)%Z
   | Gone => done_closed s = true
   end /\
   match deferred s with
   | Calls 0 => exists t final err, finals (log s) = [Handled name t q (shown r final) err] /\
       (total n * second <= t <= total (S n) * second)%Z /\ (goroutine s = Gone \/ clock s = t)
   | Measured _ t | Closed _ t => finals (log s) = [] /\
       (total n * second <= t <= total (S n) * second)%Z /\ clock s = t
   | _ => finals (log s) = []
   end /\
   match deferred s with Calls 0 | Closed 0 _ => done_closed s = true | Calls 1 | Measured 0 _ => done_closed s = false | _ => False end).

Lemma prompt_times_snoc ts n :
  ts = (fun k => (total (S k) * second)%Z) <$> seq 0 n ->
  ts ++ [(total (S n) * second)%Z] = (fun k => (total (S k) * second)%Z) <$> seq 0 (S n).
Proof. intros ->. rewrite seq_S, fmap_app. done. Qed.

Lemma prompt_report_ok s s' : report s s' -> prompt_ok s -> prompt_ok s'.
Proof.
  destruct 1 as [c i f d l|c i timer f d l Ht|c i timer f l]; intros [Hc Hlive]; unfold prompt_ok in *; simpl in *;
    (split; [done|]); intros Hb; destruct (Hlive Hb) as (Hts & Hg & Hd & Hcl); clear Hlive.
  - destruct Hg as [-> Heq]. split; [done|]. rewrite (pause_small _ c) by lia. split_and!; try done.
    + cbn [total]. unfold second in *. lia.
    + lia.
    + cbn [total]. unfold second in *. lia.
    + by destruct f as [[|n]| | |]; [naive_solver|..].
  - destruct Hg as (-> & -> & Hle). rewrite reports_snoc, finals_running. simpl. rewrite length_app. simpl.
    rewrite Nat.add_1_r. assert (c = (total (S (length (reports l))) * second)%Z) as Heq by (cbn [total]; unfold second in *; lia).
    assert (forall t, c = t -> (total (S (length (reports l))) * second <= t <= total (S (S (length (reports l)))) * second)%Z) as Hle'.
    { intros t <-. rewrite Heq at 1 2. pose proof (total_mono (S (length (reports l))) (S (S (length (reports l)))) ltac:(lia)).
      unfold second in *. lia. }
    split; [rewrite Heq; by apply prompt_times_snoc|]. split; [split; [lia|done]|]. split; [|done].
    destruct f as [[|n]|n t|n t|]; [|done| | |done].
    + destruct Hd as (t & final & err & Hf & _ & [?|Hct]); [done|]. exists t, final, err. split; [done|]. auto.
    + destruct Hd as (Hf & _ & Hct). auto.
    + destruct Hd as (Hf & _ & Hct). auto.
  - split; [done|]. split; [done|]. split; [|done]. destruct f as [[|n]|n t|n t|]; try done.
    destruct Hd as (t & final & err & Hf & Ht' & _). exists t, final, err. auto.
Qed.

Lemma prompt_handled_ok s s' : handled name q r s s' -> prompt_ok s -> prompt_ok s'.
Proof.
  destruct 1 as [c g n d l|c g n t l|c g n t l|c g n t d l final err]; intros [Hc Hlive]; unfold prompt_ok in *;
    simpl in *; (split; [done|]); intros Hb; destruct (Hlive Hb) as (Hts & Hg & Hd & Hcl); clear Hlive.
  - destruct n; [|done]. subst d. split_and!; try done.
    + pose proof (total_mono (length (reports l)) (S (length (reports l))) ltac:(lia)).
      destruct g as [i|i timer|]; [unfold second in *; lia|lia|done].
    + pose proof (total_mono (length (reports l)) (S (length (reports l))) ltac:(lia)).
      destruct g as [i|i timer|]; [unfold second in *; lia|lia|done].
  - destruct n; [|done]. destruct Hd as (Hf & Ht & Hct). split_and!; try lia; try done. by destruct g.
  - by destruct n.
  - destruct n; [|done]. destruct Hd as (Hf & Ht & Hct).
    rewrite reports_snoc, finals_snoc, Hf. simpl. rewrite app_nil_r. split_and!; try done.
    exists t, final, err. split; [done|]. split; [done|by right].
Qed.

Lemma prompt_step_ok s s' : prompt_step s s' -> prompt_ok s -> prompt_ok s'.
Proof.
  intros [Hstep|[Hstep|(Hstep & [m Hm] & Hprompt)]]; [by apply prompt_report_ok|by apply prompt_handled_ok|].
  intros [Hc Hlive]. unfold prompt_ok in *. destruct Hstep as [c g f d l dt Hdt]. simpl in *. subst f.
  split; [lia|]. intros Hb. destruct (Hlive ltac:(lia)) as (Hts & Hg & Hd & Hcl). split; [done|].
  destruct g as [i|i timer|]; [done| |].
  - destruct Hprompt as [-> Hle]. destruct Hg as (-> & -> & Hl). destruct m as [|[|m]]; try done.
    split_and!; done || lia.
  - split; [done|]. split; [|done]. destruct m as [|m]; [|done].
    destruct Hd as (t & final & err & Hf & Ht' & _). exists t, final, err. split; [done|]. split; [done|by left].
Qed.

(** ** Claims *)

(** C34: the log of a call whose handler defers the function of [LogRPC], however
its goroutine is delayed. The [k]-th report that it is still running comes after the
first [k] pauses of one, two, three... seconds, and later than the one before by its
own pause, so that a call that has run for [c] nanoseconds has been reported [n]
times with [n * (n + 1) / 2] seconds within [c] (and [time.Duration] does not
overflow). The function never closes the channel twice; when it has returned the
log has one line that the call was handled, with the time it took and the reply and
error it ended with, and before none. The goroutine does not end before the channel
is closed; from then on, at any time of the clock, it makes at most three steps,
in which it reports at most once more, and stops only by ending. *)
Theorem log_of_call s :
  rtc step (LogRPC 1) s -> (clock s < 2 ^ 63)%Z ->
  let ts := reports (log s) in
  (forall k t, ts !! k = Some t ->
     ((Z.of_nat k + 1) * (Z.of_nat k + 2) * second <= 2 * t)%Z /\ (t <= clock s)%Z /\
     forall t', ts !! S k = Some t' -> (t + (Z.of_nat k + 2) * second <= t')%Z) /\
  (len ts * (len ts + 1) * second <= 2 * clock s)%Z /\
  deferred s <> Panicked /\
  (if decide (deferred s = Calls 0)
   then exists t final err, (t <= clock s)%Z /\ finals (log s) = [Handled name t q (shown r final) err]
   else finals (log s) = []) /\
  (goroutine s = Gone -> done_closed s = true) /\
  (done_closed s = true -> forall k s', nsteps report k s s' ->
     k <= 3 /\
     (log s' = log s \/ log s' = log s ++ [StillRunning name (clock s) q]) /\
     (goroutine s' = Gone \/ exists s'', report s' s'')).
Proof.
  intros Hr Hb ts. pose proof (log_reachable_ok s Hr) as Hok. destruct Hok as (Hc & Hlive & Honce & Hgone).
  destruct (Hlive Hb) as ([H1 H2] & Hl & Hg). split_and!.
  - intros k t Hk. pose proof (H1 k t Hk) as Ht. pose proof (total_closed (S k)) as Htot.
    split_and!; [unfold second in *; nia|lia|]. intros t' Hk'. by eapply H2.
  - pose proof (total_closed (length ts)) as Htot. unfold len. unfold ts, second in *. nia.
  - intros Hp. unfold called_once in Honce. by rewrite Hp in Honce.
  - unfold called_once in Honce. case_decide as Hd; [rewrite Hd in Honce; by destruct Honce|].
    destruct (deferred s) as [[|[|n]]|[|n] t|[|n] t|]; naive_solver.
  - exact Hgone.
  - intros Hd k s' Hrun.
    destruct (reports_bounded k s s' Hrun (log_reachable_ok s Hr) Hb Hd) as (_ & _ & Hd' & Hk & Hlog).
    assert (rest s <= 3) as Hmax by (unfold rest; destruct (goroutine s); repeat case_decide; lia).
    split; [lia|]. split; [naive_solver|].
    assert (goroutine s' = Gone \/ goroutine s' <> Gone) as [?|Hne] by (destruct (goroutine s'); auto); [by left|].
    right. by apply goroutine_goes_on.
Qed.

(** On a machine that is not overloaded the reports come exactly after 1, 3, 6,
10... seconds, and a call that was handled after [t] has been reported [n] times
with [n * (n + 1) / 2] seconds up to [t], but fewer than [t] with one more. *)
Theorem prompt_log s :
  rtc prompt_step (LogRPC 1) s -> (clock s < 2 ^ 63)%Z ->
  let n := length (reports (log s)) in
  reports (log s) = (fun k => (total (S k) * second)%Z) <$> seq 0 n /\
  forall t final err, Handled name t q (shown r final) err ∈ log s ->
    (Z.of_nat n * (Z.of_nat n + 1) * second <= 2 * t <= (Z.of_nat n + 1) * (Z.of_nat n + 2) * second)%Z.
Proof.
  intros Hr Hb n.
  assert (Hok : prompt_ok s).
  { refine (rtc_inv prompt_step prompt_ok (LogRPC 1) s _ _ Hr).
    - unfold prompt_ok. simpl. by split_and!.
    - intros y z Hstep. by apply prompt_step_ok. }
  destruct Hok as [_ Hlive]. destruct (Hlive Hb) as (Hts & _ & Hd & _). split; [done|].
  intros t final err Hin.
  assert (Hfin : Handled name t q (shown r final) err ∈ finals (log s)).
  { unfold finals. by apply list_elem_of_filter. }
  destruct (deferred s) as [[|m]|m t'|m t'|];
    try (rewrite (proj1 Hd) in Hfin || rewrite Hd in Hfin; by apply not_elem_of_nil in Hfin).
  destruct Hd as (t' & final' & err' & Hf & Ht & _). rewrite Hf in Hfin.
  apply list_elem_of_singleton in Hfin. injection Hfin as -> _ _.
  pose proof (total_closed (length (reports (log s)))). pose proof (total_closed (S (length (reports (log s))))).
  unfold n, second in *. lia.
Qed.

(** A second call of the function would panic. *)
Theorem second_call_panics :
  exists s, rtc step (LogRPC 2) s /\ deferred s = Panicked.
Proof.
  eexists. split.
  - eapply rtc_l; [right; left; apply handled_measure|].
    eapply rtc_l; [right; left; apply handled_close|].
    destruct r as [v|].
    + eapply rtc_l; [right; left; apply (handled_print _ _ _ _ _ _ _ _ _ q None)|].
      eapply rtc_l; [right; left; apply handled_measure|]. apply rtc_once. right. left. apply handled_close_again.
    + eapply rtc_l; [right; left; apply (handled_print _ _ _ _ _ _ _ _ _ q None)|].
      eapply rtc_l; [right; left; apply handled_measure|]. apply rtc_once. right. left. apply handled_close_again.
  - done.
Qed.
End log.
(** ** Witnesses: a call of a second and a half that fails *)

Definition slow_log : list (line string) :=
  [StillRunning "ftp.Stat" second "bob"; Handled "ftp.Stat" (second + second / 2) "bob" "" (Some (errors_New "File not found"))].

Definition slow_call : state string := mkState (second + second / 2) Gone (Calls 0) true slow_log.

(** The same when the channel has just been closed. *)
Definition ending_call : state string :=
  mkState (second + second / 2) (Waiting 2 (3 * second)) (Closed 0 (second + second / 2)) true (take 1 slow_log).

Lemma run_ending_call : rtc (step "ftp.Stat" "bob" (ByValue "")) (LogRPC 1) ending_call.
Proof.
  eapply rtc_l; [left; apply report_select|].
  eapply rtc_l; [right; right; by apply (elapse_by _ _ _ _ _ second)|].
  eapply rtc_l; [left; apply report_timer; by vm_compute|].
  eapply rtc_l; [left; apply report_select|].
  eapply rtc_l; [right; right; by apply (elapse_by _ _ _ _ _ (second / 2))|].
  eapply rtc_l; [right; left; apply handled_measure|]. apply rtc_once. right. left. apply handled_close.
Qed.

Lemma run_slow_call : rtc (step "ftp.Stat" "bob" (ByValue "")) (LogRPC 1) slow_call.
Proof.
  etrans; [apply run_ending_call|].
  eapply rtc_l; [left; apply report_done|]. apply rtc_once. right. left.
  exact (handled_print "ftp.Stat" "bob" (ByValue "") (second + second / 2) Gone 0 (second + second / 2) true
    (take 1 slow_log) "dir" (Some (errors_New "File not found"))).
Qed.

Lemma log_of_call_witness :
  (exists t final err, (t <= clock slow_call)%Z /\
     finals (log slow_call) = [Handled "ftp.Stat" t "bob" (shown (ByValue "") final) err]) /\
  (finals (log ending_call) = []) /\
  forall k s', nsteps (report "ftp.Stat" "bob") k ending_call s' ->
     k <= 3 /\
     (log s' = log ending_call \/ log s' = log ending_call ++ [StillRunning "ftp.Stat" (clock ending_call) "bob"]) /\
     (goroutine s' = Gone \/ exists s'', report "ftp.Stat" "bob" s' s'').
Proof.
  destruct (log_of_call "ftp.Stat" "bob" (ByValue "") slow_call run_slow_call eq_refl) as (_ & _ & _ & Hlog & _).
  destruct (log_of_call "ftp.Stat" "bob" (ByValue "") ending_call run_ending_call eq_refl) as (_ & _ & _ & Hlog' & _ & Hend).
  split; [exact Hlog|]. split; [exact Hlog'|by apply Hend].
Defined.

End RpcLogTheorems.
