(* ===== verification/Frontend.v ===== *)
(** * The frontends ([felib.go], [fuse.go], [ftp.go])

The directory cache both frontends keep, the nodes of the FUSE file system and
the driver of the FTP server. The master is what it answers to a directory or a
hash; block handles are the fetcher's. *)

From S2P Require Import Prelude GoStrings Types Fetcher.

Module Frontend.

(** ** The directory cache *)

Record FrontendLib := mkFrontendLib {
  cache : gmap string GetDirReply;
  cacheExpiry : gmap string Z;
}.

(** The frontend of [newFuseMnt] and [newFTPd]. *)
Definition new_frontend : FrontendLib := mkFrontendLib ∅ ∅.

Section purger.
Context `{MapRange}.

(** One entry of the loop of [cachePurger]. *)
Definition expire (f : FrontendLib) (kv : string * Z) : FrontendLib :=
  let '(dn, exp) := kv in
  if decide (exp <= 1)%Z then mkFrontendLib (delete dn (cache f)) (delete dn (cacheExpiry f))
  else mkFrontendLib (cache f) (<[dn := (default 0 (cacheExpiry f !! dn) - 1)%Z]> (cacheExpiry f)).

(** [cachePurger] at one tick of its timer. *)
Definition cachePurger_tick (f : FrontendLib) : FrontendLib :=
  foldl expire f (range_map (cacheExpiry f)).
End purger.

Definition purgeCacheEntry (f : FrontendLib) (dn : string) : FrontendLib :=
  match cache f !! dn with
  | Some _ => mkFrontendLib (delete dn (cache f)) (delete dn (cacheExpiry f))
  | None => f
  end.

(** [FrontendLib.GetDirCached]; [master] is the answer of [master.GetDir]. *)
Definition GetDirCached (master : string -> error + GetDirReply) (f : FrontendLib) (dn : string)
    : FrontendLib * (error + GetDirReply) :=
  let dn := strings.Trim dn slash in
  match cache f !! dn with
  | Some gdr => (f, inr gdr)
  | None =>
      match master dn with
      | inl err => (f, inl err)
      | inr ret => (mkFrontendLib (<[dn := ret]> (cache f)) (<[dn := 3%Z]> (cacheExpiry f)), inr ret)
      end
  end.

(** [FrontendLib.GetFileInfo] *)
Definition GetFileInfo (master : string -> error + GetDirReply) (f : FrontendLib) (fn : string)
    : FrontendLib * (error + FileInfo) :=
  let '(dn, fn) := filepath.Split fn in
  match GetDirCached master f dn with
  | (f, inl err) => (f, inl err)
  | (f, inr ret) =>
      match Files ret !! fn with
      | Some fi => (f, inr fi)
      | None => (f, inl (errors_New "file not found"))
      end
  end.

(** ** FUSE *)

(** The error numbers of [bazil.org/fuse] the code answers. *)
Definition errno (name : string) : error := Errorf "errno" [errors_New name].
Definition fuse_ENOENT : error := errno "ENOENT".
Definition fuse_EPERM : error := errno "EPERM".
Definition fuse_EINTR : error := errno "EINTR".
Definition fuse_ENOSYS : error := errno "ENOSYS".

(** [FuseMnt.GetDirCached]: as the library's, but an error that reads "ENOENT"
becomes the error number. *)
Definition fuse_GetDirCached (master : string -> error + GetDirReply) (f : FrontendLib) (dn : string)
    : FrontendLib * (error + GetDirReply) :=
  let dn := strings.Trim dn slash in
  match cache f !! dn with
  | Some gdr => (f, inr gdr)
  | None =>
      match master dn with
      | inl err => (f, inl (if error_is err "ENOENT" then fuse_ENOENT else err))
      | inr ret => (mkFrontendLib (<[dn := ret]> (cache f)) (<[dn := 3%Z]> (cacheExpiry f)), inr ret)
      end
  end.

(** [FuseMnt.GetFileInfo] *)
Definition fuse_GetFileInfo (master : string -> error + GetDirReply) (f : FrontendLib) (fn : string)
    : FrontendLib * (error + FileInfo) :=
  let '(dn, fn) := filepath.Split fn in
  match fuse_GetDirCached master f dn with
  | (f, inl err) => (f, inl err)
  | (f, inr ret) =>
      match Files ret !! fn with
      | Some fi => (f, inr fi)
      | None => (f, inl fuse_ENOENT)
      end
  end.

(** [checkAccess]; [allowedUsers] is nil when the flag is not set. *)
Definition checkAccess (allowedUsers : option (gset Z)) (uid : Z) : option error :=
  match allowedUsers with
  | None => None
  | Some users => if decide (uid ∈ users) then None else Some fuse_EPERM
  end.

(** [os.ModeDir] *)
Definition ModeDir : Z := Z.shiftl 1 31.

(** What [Attr] fills in: a directory, or a file with its size and time. The
size is converted to [uint64]. *)
Inductive attr := DirAttr | FileAttr (size mtime : Z).

(** The mode that goes with it: 0755 and the bit of directories, or 0644. *)
Definition attr_Mode (a : attr) : Z := match a with DirAttr => Z.lor 493 ModeDir | FileAttr _ _ => 420 end.

(** [node.Attr] of the node at [path]. *)
Definition Attr (master : string -> error + GetDirReply) (f : FrontendLib) (path : string)
    : FrontendLib * (error + attr) :=
  if decide (path = "") then (f, inr DirAttr)
  else
    let '(dn, fn) := filepath.Split path in
    match fuse_GetDirCached master f dn with
    | (f, inl err) => (f, inl err)
    | (f, inr ret) =>
        match Files ret !! fn with
        | Some fi => (f, inr (FileAttr (Size fi `mod` 2 ^ 64) (Mtime fi)))
        | None => if decide (fn ∈ Dirs ret) then (f, inr DirAttr) else (f, inl fuse_ENOENT)
        end
    end.

(** A node [Lookup] answers: a file or a directory, at a path. *)
Inductive fuse_node := FileNode (path : string) | DirNode (path : string).

(** [dir.Lookup] in the directory at [path]. *)
Definition Lookup (master : string -> error + GetDirReply) (f : FrontendLib) (path name : string)
    : FrontendLib * (error + fuse_node) :=
  let child := filepath.Join [path; name] in
  match fuse_GetDirCached master f path with
  | (f, inl err) => (f, inl err)
  | (f, inr ret) =>
      match Files ret !! name with
      | Some _ => (f, inr (FileNode child))
      | None =>
          if decide (name ∈ Dirs ret) then (f, inr (DirNode child))
          else (purgeCacheEntry f path, inl fuse_ENOENT)
      end
  end.

Inductive dirent_type := DT_Dir | DT_File.

Section listing.
Context `{MapRange}.

(** [dir.ReadDirAll] of the directory at [path]. *)
Definition ReadDirAll (master : string -> error + GetDirReply) (f : FrontendLib) (path : string)
    : FrontendLib * (error + list (string * dirent_type)) :=
  match fuse_GetDirCached master f path with
  | (f, inl err) => (f, inl err)
  | (f, inr ret) =>
      (f, inr (((fun d => (d, DT_Dir)) <$> Dirs ret) ++ ((fun kv => (kv.1, DT_File)) <$> range_map (Files ret))))
  end.
End listing.

(** [file.Open] of the file at [path]: [owners] is the answer of
[master.GetOwners]; the block fetcher dials the peers. *)
Definition Open (master : string -> error + GetDirReply) (owners : string -> error + list string)
    (netw : Fetcher.PeerNetwork) (allowedUsers : option (gset Z)) (uid : Z)
    (fetcher : Fetcher.Fetcher) (f : FrontendLib) (path : string)
    : outcome (FrontendLib * Fetcher.Fetcher * (error + Fetcher.pfHandle)) :=
  match checkAccess allowedUsers uid with
  | Some err => Done (f, fetcher, inl err)
  | None =>
      let '(f, fi) := fuse_GetFileInfo master f path in
      let ret := match fi with
                 | inl err => inl err
                 | inr fi => match owners (Hash fi) with inl err => inl err | inr os => inr (fi, os) end
                 end in
      match ret with
      | inl err =>
          Done (purgeCacheEntry f path, fetcher, inl (if error_is err "ENOENT" then fuse_ENOENT else err))
      | inr (fi, os) =>
          '(fetcher, h) ← Fetcher.NewHandle netw fetcher (Hash fi) (Size fi) os;
          Done (f, fetcher, h)
      end
  end.

(** [handle.Read] around the answer of the block handle. *)
Definition handle_Read (answer : list Byte.byte * option error) : list Byte.byte * option error :=
  match answer with
  | (data, Some err) => (data, Some (if error_same err Fetcher.ErrInterrupted then fuse_EINTR else err))
  | (data, None) => (data, None)
  end.

(** ** FTP *)

Record FTPFileInfo := mkFTPFileInfo {
  ftp_name : string;
  ftp_info : option FileInfo;
  ftp_dir : bool;
}.

(** [FTPFileInfo.Size] and [FTPFileInfo.ModTime]; a file without info is a nil
dereference. *)
Definition ftp_Size (i : FTPFileInfo) : outcome Z :=
  if ftp_dir i then Done 0%Z
  else match ftp_info i with Some fi => Done (Size fi) | None => Panic nil_dereference end.

Definition ftp_ModTime (i : FTPFileInfo) : outcome Z :=
  if ftp_dir i then Done 0%Z
  else match ftp_info i with Some fi => Done (Mtime fi) | None => Panic nil_dereference end.

(** [FTPFileInfo.Mode]: 0444, and the bit of directories. *)
Definition ftp_Mode (i : FTPFileInfo) : Z := if ftp_dir i then Z.lor 292 ModeDir else 292.

(** [FTPDriver.Stat] *)
Definition Stat (master : string -> error + GetDirReply) (f : FrontendLib) (path : string)
    : FrontendLib * (error + FTPFileInfo) :=
  let path := strings.Trim path slash in
  if decide (path = "") then (f, inr (mkFTPFileInfo "/" None true))
  else
    let '(dn, fn) := filepath.Split path in
    match GetDirCached master f dn with
    | (f, inl err) => (f, inl err)
    | (f, inr ret) =>
        match Files ret !! fn with
        | Some fi => (f, inr (mkFTPFileInfo fn (Some fi) false))
        | None =>
            if decide (fn ∈ Dirs ret) then (f, inr (mkFTPFileInfo fn None true))
            else (f, inl (errors_New "File not found"))
        end
    end.

(** [FTPDriver.ChangeDir] *)
Definition ChangeDir (master : string -> error + GetDirReply) (f : FrontendLib) (dir : string)
    : FrontendLib * option error :=
  match Stat master f dir with
  | (f, inl err) => (f, Some err)
  | (f, inr info) => (f, if ftp_dir info then None else Some (errors_New "not a directory"))
  end.

(** [sort.StringSlice.Sort] *)
Definition StringSlice_Sort (l : list string) : list string := merge_sort String.le l.

(** A loop that calls [cb] on the items until it fails: the items it was called
with, and the error. *)
Fixpoint call_back {A} (cb : A -> option error) (items : list A) : list A * option error :=
  match items with
  | [] => ([], None)
  | i :: items' =>
      match cb i with
      | Some err => ([i], Some err)
      | None => let '(called, err) := call_back cb items' in (i :: called, err)
      end
  end.

Section ftp.
Context `{MapRange}.

(** [FTPDriver.ListDir]: the items [cb] is called with, and the error. *)
Definition ListDir (master : string -> error + GetDirReply) (f : FrontendLib) (dir : string)
    (cb : FTPFileInfo -> option error) : FrontendLib * (list FTPFileInfo * option error) :=
  match GetDirCached master f dir with
  | (f, inl err) => (f, ([], Some err))
  | (f, inr ret) =>
      let dns := StringSlice_Sort (Dirs ret) in
      let '(called, err) := call_back cb ((fun dn => mkFTPFileInfo dn None true) <$> dns) in
      match err with
      | Some err => (f, (called, Some err))
      | None =>
          let fns := StringSlice_Sort (range_map (Files ret)).*1 in
          let item fn := mkFTPFileInfo fn (Some (default (mkFileInfo 0 "" 0) (Files ret !! fn))) false in
          let '(called', err) := call_back cb (item <$> fns) in
          (f, (called ++ called', err))
      end
  end.
End ftp.

(** [FTPDriver.GetFile]: the size and the stream at [offset] of a handle. *)
Definition GetFile (master : string -> error + GetDirReply) (owners : string -> error + list string)
    (netw : Fetcher.PeerNetwork) (fetcher : Fetcher.Fetcher) (f : FrontendLib) (fn : string) (offset : Z)
    : outcome (FrontendLib * Fetcher.Fetcher * (error + (Z * Fetcher.pfHandle * Fetcher.pfStream))) :=
  let '(f, fi) := GetFileInfo master f fn in
  let ret := match fi with
             | inl err => inl err
             | inr fi => match owners (Hash fi) with inl err => inl err | inr os => inr (fi, os) end
             end in
  match ret with
  | inl err => Done (f, fetcher, inl err)
  | inr (fi, os) =>
      '(fetcher, h) ← Fetcher.NewHandle netw fetcher (Hash fi) (Size fi) os;
      match h with
      | inl err => Done (f, fetcher, inl err)
      | inr h => Done (f, fetcher, inr (Size fi, h, Fetcher.Stream offset))
      end
  end.

(** [CheckPasswd], and the operations that change files. *)
Definition CheckPasswd (user username pass : string) : bool := bool_decide (user = username).
Definition ftp_readonly : error := errors_New "RUFS FTP is readonly".

End Frontend.
