(* ===== verification/FrontendTheorems.v ===== *)
(** * What the frontends guarantee

How old a cached directory can be, that the views of a FUSE directory agree, and
what an FTP listing shows. *)

From S2P Require Import Prelude GoStrings Types Frontend.
Import Frontend.

Module FrontendTheorems.

(** ** One tick of the purger *)

Section tick.
Context `{MapRange}.

Lemma expire_other f l dn :
  dn ∉ l.*1 ->
  cache (foldl expire f l) !! dn = cache f !! dn /\
  cacheExpiry (foldl expire f l) !! dn = cacheExpiry f !! dn.
Proof.
  revert f. induction l as [|[k e] l IH]; intros f Hn; [done|].
  cbn [foldl]. rewrite fmap_cons in Hn. cbn [fst] in Hn. apply not_elem_of_cons in Hn as [Hne Hn].
  destruct (IH (expire f (k, e)) Hn) as [-> ->]. unfold expire. case_decide; simpl.
  - by rewrite !lookup_delete_ne.
  - by rewrite lookup_insert_ne.
Qed.

Lemma expire_listed f l dn e :
  NoDup l.*1 -> (dn, e) ∈ l -> cacheExpiry f !! dn = Some e ->
  cache (foldl expire f l) !! dn = (if decide (e <= 1)%Z then None else cache f !! dn) /\
  cacheExpiry (foldl expire f l) !! dn = (if decide (e <= 1)%Z then None else Some (e - 1)%Z).
Proof.
  revert f. induction l as [|[k e'] l IH]; intros f Hnd Hin He; [by apply not_elem_of_nil in Hin|].
  rewrite fmap_cons in Hnd. apply NoDup_cons in Hnd as [Hnot Hnd]. cbn [foldl fst] in *.
  destruct (decide (k = dn)) as [->|Hne].
  - assert (e' = e) as ->.
    { apply elem_of_cons in Hin as [[= ->]|Hin]; [done|]. destruct Hnot.
      by apply (list_elem_of_fmap_2 fst _ (dn, e)). }
    destruct (expire_other (expire f (dn, e)) l dn Hnot) as [-> ->].
    unfold expire. destruct (decide (e <= 1)%Z); simpl.
    + by rewrite !lookup_delete_eq.
    + by rewrite lookup_insert_eq, He.
  - apply elem_of_cons in Hin as [[= -> ->]|Hin]; [done|].
    assert (Hk : cache (expire f (k, e')) !! dn = cache f !! dn /\
      cacheExpiry (expire f (k, e')) !! dn = cacheExpiry f !! dn).
    { apply (expire_other f [(k, e')]). simpl. intros Hk%list_elem_of_singleton. done. }
    destruct Hk as [Hc Hx]. destruct (IH (expire f (k, e')) Hnd Hin) as [-> ->]; [by rewrite Hx|].
    by rewrite Hc.
Qed.

Lemma tick_cached f dn e :
  cacheExpiry f !! dn = Some e ->
  cache (cachePurger_tick f) !! dn = (if decide (e <= 1)%Z then None else cache f !! dn) /\
  cacheExpiry (cachePurger_tick f) !! dn = (if decide (e <= 1)%Z then None else Some (e - 1)%Z).
Proof.
  intros He. apply expire_listed; [apply NoDup_range_map|by apply elem_of_range_map|done].
Qed.

Lemma tick_absent f dn :
  cacheExpiry f !! dn = None ->
  cache (cachePurger_tick f) !! dn = cache f !! dn /\ cacheExpiry (cachePurger_tick f) !! dn = None.
Proof.
  intros He. unfold cachePurger_tick.
  destruct (expire_other f (range_map (cacheExpiry f)) dn) as [-> ->]; [|done].
  rewrite elem_of_range_keys, He. by intros [].
Qed.
End tick.

(** ** Histories *)

Section history.
Context `{MapRange}.

(** What happens to the cache: a tick, a query while the master answers as
given, or a purge of one entry. *)
Inductive event :=
  | Tick
  | Query (master : string -> error + GetDirReply) (dn : string)
  | Purge (dn : string).

Definition react (f : FrontendLib) (e : event) : FrontendLib :=
  match e with
  | Tick => cachePurger_tick f
  | Query master dn => (GetDirCached master f dn).1
  | Purge dn => purgeCacheEntry f dn
  end.

Definition run (es : list event) : FrontendLib := foldl react new_frontend es.

Fixpoint ticks (es : list event) : nat :=
  match es with
  | [] => 0
  | Tick :: es' => S (ticks es')
  | _ :: es' => ticks es'
  end.

(** The entry of a directory: absent, or answered so many ticks ago. *)
Definition dated (es : list event) (f : FrontendLib) (dn : string) : Prop :=
  (cache f !! dn = None /\ cacheExpiry f !! dn = None) \/
  exists r e pre post master dn',
    cache f !! dn = Some r /\ cacheExpiry f !! dn = Some e /\
    es = pre ++ Query master dn' :: post /\ strings.Trim dn' slash = dn /\ master dn = inr r /\
    (1 <= e)%Z /\ (e + Z.of_nat (ticks post) = 3)%Z.

Lemma ticks_snoc es e : ticks (es ++ [e]) = ticks es + match e with Tick => 1 | _ => 0 end.
Proof. induction es as [|x es IH]; [by destruct e|]. destruct x; simpl; lia. Qed.

Lemma dated_later es f f' dn e :
  dated es f dn -> e <> Tick -> cache f' !! dn = cache f !! dn ->
  cacheExpiry f' !! dn = cacheExpiry f !! dn -> dated (es ++ [e]) f' dn.
Proof.
  intros Hd He Hc Hx. destruct Hd as [[H1 H2]|(r & x & pre & post & m & dn' & H1 & H2 & -> & H4 & H5 & H6 & H7)].
  - left. split; congruence.
  - right. exists r, x, pre, (post ++ [e]), m, dn'. rewrite Hc, Hx. split_and!; try done.
    + by rewrite <-(assoc_L (++)).
    + rewrite ticks_snoc. destruct e; [done|lia|lia].
Qed.

Lemma run_dated es dn : dated es (run es) dn.
Proof.
  unfold run. induction es as [|e es IH] using rev_ind; [by left|].
  rewrite foldl_app. simpl. set (f := foldl react new_frontend es) in *. destruct e as [|master dn'|dn']; simpl.
  - destruct IH as [[H1 H2]|(r & x & pre & post & m & dn' & H1 & H2 & -> & H4 & H5 & H6 & H7)].
    + left. destruct (tick_absent f dn H2) as [-> ->]. done.
    + destruct (tick_cached f dn x H2) as [Hc Hx]. destruct (decide (x <= 1)%Z) as [Hle|Hle].
      * left. done.
      * right. exists r, (x - 1)%Z, pre, (post ++ [Tick]), m, dn'. rewrite Hc, Hx.
        split_and!; try done; [by rewrite <-(assoc_L (++))|lia|].
        rewrite ticks_snoc. lia.
  - unfold GetDirCached. destruct (cache f !! strings.Trim dn' slash) as [g|] eqn:Hg.
    { by eapply dated_later. }
    destruct (master (strings.Trim dn' slash)) as [err|r] eqn:Hm; [by eapply dated_later|].
    simpl. destruct (decide (strings.Trim dn' slash = dn)) as [Heq|Hne].
    + right. exists r, 3%Z, es, [], master, dn'. simpl. rewrite Heq in *.
      rewrite !lookup_insert_eq. split_and!; try done.
    + eapply dated_later; [exact IH|done|by simpl; rewrite lookup_insert_ne..].
  - unfold purgeCacheEntry. destruct (cache f !! dn') as [g|] eqn:Hg; [|by eapply dated_later].
    destruct (decide (dn' = dn)) as [->|Hne].
    + left. simpl. by rewrite !lookup_delete_eq.
    + eapply dated_later; [exact IH|done|by simpl; rewrite lookup_delete_ne..].
Qed.
End history.

(** ** Paths *)

Lemma filepath_Split_join dir name :
  strings.Contains name slash = false ->
  filepath.Split (dir ++ String slash name)%string = ((dir ++ "/")%string, name).
Proof.
  intros Hn.
  assert (Hname : filepath.Split name = ("", name)).
  { clear dir. induction name as [|a s IH]; [done|]. simpl in Hn.
    apply orb_false_iff in Hn as [Ha Hs]. apply bool_decide_eq_false in Ha.
    cbn [filepath.Split]. rewrite (IH Hs). by rewrite decide_False. }
  induction dir as [|a s IH].
  - change ("" ++ String slash name)%string with (String slash name). cbn [filepath.Split].
    rewrite Hname. by rewrite decide_True.
  - change (String a s ++ String slash name)%string with (String a (s ++ String slash name)).
    change (String a s ++ "/")%string with (String a (s ++ "/")).
    cbn [filepath.Split]. rewrite IH. case_decide; [done|].
    destruct (s ++ "/")%string eqn:E; [destruct s; discriminate E|]. done.
Qed.

Lemma TrimRight_slash s : strings.TrimRight (s ++ "/")%string slash = strings.TrimRight s slash.
Proof.
  induction s as [|a s IH]; [done|].
  change (String a s ++ "/")%string with (String a (s ++ "/")). cbn [strings.TrimRight]. by rewrite IH.
Qed.

Lemma TrimLeft_head a s : a <> slash -> strings.TrimLeft (String a s) slash = String a s.
Proof. intros Ha. cbn [strings.TrimLeft]. by rewrite decide_False. Qed.

(** The path of a directory and of what is in it. *)
Lemma child_path ps name :
  Forall plain_part ps -> plain_part name ->
  filepath.Join [strings.Join ps "/"; name] = strings.Join (ps ++ [name]) "/" /\
  exists dn, filepath.Split (strings.Join (ps ++ [name]) "/") = (dn, name) /\
    strings.Trim dn slash = strings.Join ps "/".
Proof.
  intros Hps Hname. split.
  { apply (filepath_Join_parts ps [name]); [done|done|]. by constructor. }
  pose proof Hname as (Hn1 & _ & _ & Hc). destruct (decide (ps = [])) as [->|Hne].
  { exists "". split; [|done]. simpl. pose proof (filepath_Split_app name) as Happ.
    pose proof (filepath_Split_join "" name Hc) as Hs. simpl in Hs.
    clear Happ. change (filepath.Split (String slash name) = ("/", name)) in Hs.
    cbn [filepath.Split] in Hs. destruct (filepath.Split name) as [d fl].
    rewrite decide_True in Hs by done. by injection Hs as -> ->. }
  exists (strings.Join ps "/" ++ "/")%string. rewrite <-(Join_app ps [name]) by done.
  split; [by apply filepath_Split_join|].
  assert (Htrim : strings.Trim (strings.Join ps "/") slash = strings.Join ps "/").
  { apply (Trim_Join slash). eapply Forall_impl; [exact Hps|]. by intros p (? & _ & _ & ?). }
  pose proof (Join_parts_not_empty ps Hne Hps) as Hj. pose proof (Join_parts_prefix ps Hps) as Hpre.
  destruct (strings.Join ps "/") as [|a s] eqn:E; [done|].
  assert (a <> slash) as Ha.
  { intros ->. unfold strings.HasPrefix in Hpre. change "/"%string with (str1 slash) in Hpre.
    rewrite prefix_char in Hpre. by apply bool_decide_eq_false in Hpre. }
  unfold strings.Trim in *. change (String a s ++ "/")%string with (String a (s ++ "/")).
  rewrite TrimLeft_head in * by done.
  change (String a (s ++ "/"))%string with ((String a s) ++ "/")%string. by rewrite TrimRight_slash.
Qed.

Lemma cached_after master f dn f' ret :
  fuse_GetDirCached master f dn = (f', inr ret) -> cache f' !! strings.Trim dn slash = Some ret.
Proof.
  unfold fuse_GetDirCached. destruct (cache f !! _) as [g|] eqn:Hg; [by intros [= <- <-]|].
  destruct (master _) as [|r]; [done|]. intros [= <- <-]. cbn [cache]. by rewrite lookup_insert_eq.
Qed.

Lemma call_back_app {A} (cb : A -> option error) l1 l2 :
  call_back cb (l1 ++ l2) =
    match call_back cb l1 with
    | (called, Some err) => (called, Some err)
    | (called, None) => let '(called', err) := call_back cb l2 in (called ++ called', err)
    end.
Proof.
  induction l1 as [|x l1 IH]; simpl; [by destruct (call_back cb l2)|].
  destruct (cb x); [done|]. rewrite IH. destruct (call_back cb l1) as [c [e|]]; [done|].
  by destruct (call_back cb l2).
Qed.

(** ** Claims *)

Section claims.
Context `{MapRange}.

(** A cached directory is never older than three ticks of the purger: after
any history of queries, purges and ticks, what the cache answers for a directory
is what the master answered to a query for it with fewer than three ticks
since; and an entry leaves the cache and its expiry together. *)
Theorem cache_is_fresh es dn :
  (cache (run es) !! dn = None <-> cacheExpiry (run es) !! dn = None) /\
  forall r, cache (run es) !! dn = Some r ->
    exists pre post master dn', es = pre ++ Query master dn' :: post /\
      strings.Trim dn' slash = dn /\ master dn = inr r /\ ticks post < 3.
Proof.
  destruct (run_dated es dn) as [[H1 H2]|(r & e & pre & post & m & dn' & H1 & H2 & H3 & H4 & H5 & H6 & H7)].
  - rewrite H1, H2. split; [done|]. by intros r.
  - rewrite H1, H2. split; [done|]. intros r' [= <-]. exists pre, post, m, dn'.
    split_and!; try done. lia.
Qed.

(** C33: The views of a FUSE directory agree: in a directory the master lists,
[ReadDirAll] shows exactly its files and directories; [Lookup] of a name finds
it exactly when it is shown, as a file if there is one, and otherwise answers
ENOENT and drops the cached listing; and [Attr] of the node found reports the
size and time of that file, or a directory. *)
Theorem directory_views_agree master f ps name f' ret :
  Forall plain_part ps -> plain_part name ->
  fuse_GetDirCached master f (strings.Join ps "/") = (f', inr ret) ->
  let path := strings.Join ps "/" in
  let child := strings.Join (ps ++ [name]) "/" in
  (exists entries, ReadDirAll master f path = (f', inr entries) /\
     ((name, DT_File) ∈ entries <-> is_Some (Files ret !! name)) /\
     ((name, DT_Dir) ∈ entries <-> name ∈ Dirs ret)) /\
  match Files ret !! name with
  | Some fi =>
      Lookup master f path name = (f', inr (FileNode child)) /\
      Attr master f' child = (f', inr (FileAttr (Size fi `mod` 2 ^ 64) (Mtime fi)))
  | None =>
      if decide (name ∈ Dirs ret) then
        Lookup master f path name = (f', inr (DirNode child)) /\
        Attr master f' child = (f', inr DirAttr)
      else
        Lookup master f path name = (purgeCacheEntry f' path, inl fuse_ENOENT) /\
        cache (purgeCacheEntry f' path) !! path = None
  end.
Proof.
  intros Hps Hname Hget path child. subst path child.
  destruct (child_path ps name Hps Hname) as (Hjoin & dn & Hsplit & Htrim).
  pose proof (cached_after _ _ _ _ _ Hget) as Hcached.
  assert (Hself : strings.Trim (strings.Join ps "/") slash = strings.Join ps "/").
  { apply (Trim_Join slash). eapply Forall_impl; [exact Hps|]. by intros p (? & _ & _ & ?). }
  assert (Hattr : fuse_GetDirCached master f' dn = (f', inr ret)).
  { unfold fuse_GetDirCached. rewrite Hself in Hcached. by rewrite Htrim, Hcached. }
  assert (Hnonempty : strings.Join (ps ++ [name]) "/" <> "").
  { apply Join_parts_not_empty; [by destruct ps|]. apply Forall_app. split; [done|]. by constructor. }
  split.
  - unfold ReadDirAll. rewrite Hget. eexists. split; [reflexivity|].
    rewrite !elem_of_app, !list_elem_of_fmap. split.
    + split.
      * intros [(d & [=] & _)|([k v] & [= ->] & Hin)]. exists v. by apply elem_of_range_map.
      * intros [v Hv]. right. exists (name, v). split; [done|]. by apply elem_of_range_map.
    + split; [intros [(d & [= ->] & ?)|([k v] & [=] & _)]; done|]. intros Hd. left. eauto.
  - unfold Lookup, Attr. rewrite Hget, Hjoin.
    rewrite (decide_False (P := strings.Join (ps ++ [name]) "/" = "")) by done. rewrite Hsplit, Hattr.
    destruct (Files ret !! name) as [fi|]; [done|]. destruct (decide (name ∈ Dirs ret)); [done|].
    split; [done|]. unfold purgeCacheEntry. rewrite Hself in Hcached. rewrite Hcached. simpl.
    by rewrite lookup_delete_eq.
Qed.

(** An FTP listing shows the directories first and then the files, each in
byte order, every one once and each file with its info; it stops at the first
item the callback refuses, with that error. *)
Theorem ListDir_correct master f dir cb f' ret :
  GetDirCached master f dir = (f', inr ret) ->
  exists ds fs items,
    ds ≡ₚ Dirs ret /\ Sorted String.le ds /\
    fs ≡ₚ (map_to_list (Files ret)).*1 /\ Sorted String.le fs /\
    items = ((fun d => mkFTPFileInfo d None true) <$> ds) ++
            ((fun fn => mkFTPFileInfo fn (Files ret !! fn) false) <$> fs) /\
    ListDir master f dir cb = (f', call_back cb items) /\
    ((forall i, i ∈ items -> cb i = None) -> ListDir master f dir cb = (f', (items, None))).
Proof.
  intros Hget. set (fs := StringSlice_Sort (range_map (Files ret)).*1).
  exists (StringSlice_Sort (Dirs ret)), fs.
  assert (Hfs : fs ≡ₚ (map_to_list (Files ret)).*1).
  { subst fs. unfold StringSlice_Sort. rewrite merge_sort_Permutation. by rewrite range_map_perm. }
  assert (Hitems : (fun fn => mkFTPFileInfo fn (Some (default (mkFileInfo 0 "" 0) (Files ret !! fn))) false) <$> fs =
    (fun fn => mkFTPFileInfo fn (Files ret !! fn) false) <$> fs).
  { apply list_fmap_ext. intros i fn Hfn. apply list_elem_of_lookup_2 in Hfn. rewrite Hfs in Hfn.
    apply list_elem_of_fmap in Hfn as ([k v] & -> & Hkv). apply elem_of_map_to_list in Hkv.
    simpl. by rewrite Hkv. }
  eexists. split; [apply merge_sort_Permutation|]. split; [apply Sorted_merge_sort; apply _|].
  split; [done|]. split; [apply Sorted_merge_sort; apply _|]. split; [reflexivity|].
  assert (Heq : ListDir master f dir cb = (f', call_back cb
    (((fun d => mkFTPFileInfo d None true) <$> StringSlice_Sort (Dirs ret)) ++
     ((fun fn => mkFTPFileInfo fn (Files ret !! fn) false) <$> fs)))).
  { unfold ListDir. rewrite Hget, call_back_app. fold fs.
    destruct (call_back cb ((fun dn => mkFTPFileInfo dn None true) <$> _)) as [called [err|]]; [done|].
    rewrite Hitems. by destruct (call_back cb _). }
  split; [done|]. intros Hok. rewrite Heq. f_equal. clear Heq.
  induction (_ ++ _) as [|x l IH]; [done|]. simpl. rewrite Hok by (by left).
  rewrite IH; [done|]. intros i Hi. apply Hok. by right.
Qed.
End claims.

(** ** A concrete listing *)

Section demo.
#[local] Open Scope string_scope.
#[local] Open Scope list_scope.

Definition demo_reply : GetDirReply :=
  mkGetDirReply ["sub"; "art"] {["b.txt" := mkFileInfo 5 "h" 7; "a.txt" := mkFileInfo 6 "g" 8]}.
Definition demo_master (dn : string) : error + GetDirReply :=
  if decide (dn = "bob/docs") then inr demo_reply else inl (errors_New "ENOENT").

Lemma directory_views_agree_witness :
  Lookup demo_master new_frontend "bob/docs" "a.txt" =
    ((fuse_GetDirCached demo_master new_frontend "bob/docs").1, inr (FileNode "bob/docs/a.txt")) /\
  Attr demo_master (fuse_GetDirCached demo_master new_frontend "bob/docs").1 "bob/docs/a.txt" =
    ((fuse_GetDirCached demo_master new_frontend "bob/docs").1, inr (FileAttr 6 8)).
Proof.
  refine (proj2 (@directory_views_agree std_range demo_master new_frontend ["bob"; "docs"] "a.txt"
    (fuse_GetDirCached demo_master new_frontend "bob/docs").1 demo_reply _ _ _)).
  - by repeat constructor.
  - by repeat constructor.
  - by vm_compute.
Defined.

Lemma cache_is_fresh_witness :
  exists pre post master dn', [Query demo_master "/bob/docs/"; Tick; Tick] = pre ++ Query master dn' :: post /\
    strings.Trim dn' slash = "bob/docs" /\ master "bob/docs" = inr demo_reply /\ ticks post < 3.
Proof.
  refine (proj2 (@cache_is_fresh std_range [Query demo_master "/bob/docs/"; Tick; Tick] "bob/docs")
    demo_reply _). by vm_compute.
Defined.

Lemma ListDir_correct_witness :
  exists ds fs items,
    ds ≡ₚ ["sub"; "art"] /\ Sorted String.le ds /\
    fs ≡ₚ (map_to_list (Files demo_reply)).*1 /\ Sorted String.le fs /\
    items = ((fun d => mkFTPFileInfo d None true) <$> ds) ++
            ((fun fn => mkFTPFileInfo fn (Files demo_reply !! fn) false) <$> fs) /\
    @ListDir std_range demo_master new_frontend "bob/docs" (fun _ => None) =
      ((GetDirCached demo_master new_frontend "bob/docs").1, call_back (fun _ => None) items) /\
    ((forall i, i ∈ items -> @None error = None) ->
     @ListDir std_range demo_master new_frontend "bob/docs" (fun _ => None) =
       ((GetDirCached demo_master new_frontend "bob/docs").1, (items, None))).
Proof.
  refine (@ListDir_correct std_range demo_master new_frontend "bob/docs" (fun _ => None)
    (GetDirCached demo_master new_frontend "bob/docs").1 demo_reply _). by vm_compute.
Defined.
End demo.

End FrontendTheorems.
