(* ===== verification/FrontendCalls.v ===== *)
(** * Concurrent calls of a frontend ([felib.go], [fuse.go])

A frontend serves requests in parallel, and [GetDirCached] does not hold the
mutex while it asks the master. A call is split where the mutex is released:
it looks into the cache; it waits for the master; it stores the reply. The
purger and [purgeCacheEntry] run in between. *)

From S2P Require Import Prelude GoStrings Types Frontend.
Import Frontend.

Module FrontendCalls.

(** A call of [GetDirCached] for the directory [dn] (trimmed): waiting for the
master; holding a reply given at a tick; answered at a tick. *)
Inductive call :=
  | Asking (dn : string)
  | Storing (dn : string) (ret : GetDirReply) (replied : nat)
  | Answered (dn : string) (r : error + GetDirReply) (at_tick : nat).

(** The cache, the ticks of the purger so far, and the calls. *)
Record state := mkState {
  lib : FrontendLib;
  now : nat;
  calls : gmap nat call;
}.

Definition start : state := mkState new_frontend 0 ∅.

Definition set_call (s : state) (f : FrontendLib) (t : nat) (c : call) : state :=
  mkState f (now s) (<[t := c]> (calls s)).

Section steps.
Context `{MapRange}.
(** What the frontend makes of an error of the master: [GetDirCached] of
[felib.go] nothing, that of [fuse.go] a number. *)
Context (on_error : error -> error).
(** What the master may answer to a directory at a tick, and how many ticks a
goroutine may take from the reply to the mutex. *)
Context (may_answer : nat -> string -> error + GetDirReply -> Prop) (delay : nat).

Inductive step : state -> state -> Prop :=
  (* the first locked part *)
  | step_hit s t dn gdr :
      calls s !! t = None ->
      cache (lib s) !! strings.Trim dn slash = Some gdr ->
      step s (set_call s (lib s) t (Answered (strings.Trim dn slash) (inr gdr) (now s)))
  | step_miss s t dn :
      calls s !! t = None ->
      cache (lib s) !! strings.Trim dn slash = None ->
      step s (set_call s (lib s) t (Asking (strings.Trim dn slash)))
  (* the master's answer *)
  | step_error s t dn err :
      calls s !! t = Some (Asking dn) ->
      may_answer (now s) dn (inl err) ->
      step s (set_call s (lib s) t (Answered dn (inl (on_error err)) (now s)))
  | step_reply s t dn ret :
      calls s !! t = Some (Asking dn) ->
      may_answer (now s) dn (inr ret) ->
      step s (set_call s (lib s) t (Storing dn ret (now s)))
  (* the second locked part *)
  | step_store s t dn ret replied :
      calls s !! t = Some (Storing dn ret replied) ->
      now s <= replied + delay ->
      step s (set_call s
        (mkFrontendLib (<[dn := ret]> (cache (lib s))) (<[dn := 3%Z]> (cacheExpiry (lib s))))
        t (Answered dn (inr ret) (now s)))
  (* the purger, and the purge of an entry *)
  | step_tick s :
      step s (mkState (cachePurger_tick (lib s)) (S (now s)) (calls s))
  | step_purge s dn :
      step s (mkState (purgeCacheEntry (lib s) dn) (now s) (calls s)).
End steps.

(** [FuseMnt.GetDirCached] turns an error that reads "ENOENT" into a number. *)
Definition fuse_error (err : error) : error := if error_is err "ENOENT" then fuse_ENOENT else err.
Definition felib_error (err : error) : error := err.

End FrontendCalls.
