(* ===== verification/FrontendCallsTheorems.v ===== *)
(** * What concurrent calls of a frontend may answer

However calls of [GetDirCached], purges and ticks interleave, an answer is what
the master answered for that directory a bounded time ago; and a call that
nothing interferes with is the sequential function. *)

From S2P Require Import Prelude GoStrings Types Frontend FrontendTheorems FrontendCalls.
Import Frontend FrontendTheorems FrontendCalls.

Module FrontendCallsTheorems.

Section calls.
Context `{MapRange}.
Context (on_error : error -> error).
Context (may_answer : nat -> string -> error + GetDirReply -> Prop) (delay : nat).

Abbreviation step := (step on_error may_answer delay).

(** ** The invariant *)

(** The master gave [r] for [dn] at a tick, less than [age] ticks before [t]. *)
Definition given (dn : string) (r : GetDirReply) (age t : nat) : Prop :=
  exists tr, may_answer tr dn (inr r) /\ tr <= t < tr + age.

Lemma given_later dn r age age' t :
  given dn r age t -> age <= age' -> given dn r age' t.
Proof. intros (tr & Hr & Ht) Hle. exists tr. split; [done|lia]. Qed.

(** An entry and its expiry are there together, and the expiry tells the age. *)
Definition entry_ok (s : state) (dn : string) : Prop :=
  match cache (lib s) !! dn, cacheExpiry (lib s) !! dn with
  | None, None => True
  | Some r, Some e => (1 <= e <= 3)%Z /\ given dn r (delay + (4 - Z.to_nat e)) (now s)
  | _, _ => False
  end.

Definition call_ok (s : state) (c : call) : Prop :=
  match c with
  | Asking _ => True
  | Storing dn ret replied => may_answer replied dn (inr ret) /\ replied <= now s
  | Answered dn (inr r) at_tick => given dn r (delay + 3) at_tick /\ at_tick <= now s
  | Answered dn (inl e) at_tick => exists err, may_answer at_tick dn (inl err) /\ e = on_error err
  end.

Definition ok (s : state) : Prop :=
  (forall dn, entry_ok s dn) /\ (forall t c, calls s !! t = Some c -> call_ok s c).

Lemma entry_hit s dn r :
  entry_ok s dn -> cache (lib s) !! dn = Some r -> given dn r (delay + 3) (now s).
Proof.
  unfold entry_ok. intros Hok Hr. rewrite Hr in Hok.
  destruct (cacheExpiry (lib s) !! dn) as [e|]; [|done]. destruct Hok as [He Hg].
  eapply given_later; [exact Hg|lia].
Qed.

Lemma call_ok_now f cs s t c :
  call_ok s c -> call_ok (mkState f (now s + t) cs) c.
Proof. destruct c as [dn|dn ret tr|dn [e|r] at_]; simpl; try done; intros [? ?]; (split; [done|lia]). Qed.

(** A step that starts or advances the call [t] and leaves the cache. *)
Lemma ok_set_call s t c : ok s -> call_ok s c -> ok (set_call s (lib s) t c).
Proof.
  intros [He Hc] Hcall. split; [exact He|]. intros t' c'. simpl.
  destruct (decide (t = t')) as [->|Hne].
  - rewrite lookup_insert_eq. intros [= <-]. done.
  - rewrite lookup_insert_ne by done. apply Hc.
Qed.

Lemma entry_tick s dn :
  entry_ok s dn -> entry_ok (mkState (cachePurger_tick (lib s)) (S (now s)) (calls s)) dn.
Proof.
  unfold entry_ok. simpl. intros Hok.
  destruct (cacheExpiry (lib s) !! dn) as [e|] eqn:Hx.
  - destruct (tick_cached (lib s) dn e Hx) as [-> ->].
    destruct (cache (lib s) !! dn) as [r|]; [|done]. destruct Hok as [He (tr & Hr & Ht)].
    case_decide as Hle; [done|]. split; [lia|]. exists tr. split; [done|].
    replace (Z.to_nat (e - 1)) with (Z.to_nat e - 1) by lia. lia.
  - destruct (tick_absent (lib s) dn Hx) as [-> ->]. by destruct (cache (lib s) !! dn).
Qed.

Lemma entry_purge s dn' dn :
  entry_ok s dn -> entry_ok (mkState (purgeCacheEntry (lib s) dn') (now s) (calls s)) dn.
Proof.
  unfold entry_ok, purgeCacheEntry. simpl. destruct (cache (lib s) !! dn') eqn:Hc; [|done]. simpl.
  destruct (decide (dn' = dn)) as [->|Hne]; [by rewrite !lookup_delete_eq|].
  by rewrite !lookup_delete_ne.
Qed.

Lemma entry_store s t dn ret replied dn' :
  entry_ok s dn' -> may_answer replied dn (inr ret) -> replied <= now s <= replied + delay ->
  entry_ok (set_call s (mkFrontendLib (<[dn := ret]> (cache (lib s))) (<[dn := 3%Z]> (cacheExpiry (lib s))))
              t (Answered dn (inr ret) (now s))) dn'.
Proof.
  unfold entry_ok. simpl. intros Hok Hm Ht. destruct (decide (dn = dn')) as [->|Hne].
  - rewrite !lookup_insert_eq. split; [lia|]. exists replied. split; [done|].
    change (Z.to_nat 3) with 3. lia.
  - by rewrite !lookup_insert_ne.
Qed.

Lemma calls_step_ok s s' : step s s' -> ok s -> ok s'.
Proof.
  intros Hstep Hok. pose proof Hok as [He Hc].
  destruct Hstep as [s t dn gdr Hn Hg|s t dn Hn Hg|s t dn err Ht Hm|s t dn ret Ht Hm
    |s t dn ret replied Ht Hd|s|s dn].
  - apply ok_set_call; [done|]. split; [by apply entry_hit|done].
  - by apply ok_set_call.
  - apply ok_set_call; [done|]. by exists err.
  - apply ok_set_call; [done|]. by split.
  - destruct (Hc t _ Ht) as [Hm Hr]. split.
    + intros dn'. by apply (entry_store _ _ _ _ replied).
    + intros t' c'. simpl. destruct (decide (t = t')) as [->|Hne].
      * rewrite lookup_insert_eq. intros [= <-]. split; [|done]. exists replied. split; [done|lia].
      * rewrite lookup_insert_ne by done. apply Hc.
  - split; [intros dn; by apply entry_tick|]. intros t c Ht.
    replace (S (now s)) with (now s + 1) by lia. by apply call_ok_now, (Hc t).
  - split; [intros dn'; by apply entry_purge|]. intros t c Ht. by apply (Hc t).
Qed.

Lemma calls_reachable_ok s : rtc step start s -> ok s.
Proof.
  intros Hr. refine (rtc_inv step ok start s _ _ Hr).
  - split; [intros dn|intros t c]; unfold entry_ok; simpl; by rewrite ?lookup_empty.
  - intros y z Hstep. by apply calls_step_ok.
Qed.

(** ** Ticks *)

(** An entry stays as many ticks as its expiry says. *)
Lemma iter_ticks f dn r e k :
  cache f !! dn = Some r -> cacheExpiry f !! dn = Some e -> (1 <= e)%Z ->
  cache (Nat.iter k cachePurger_tick f) !! dn = (if decide (Z.of_nat k < e)%Z then Some r else None) /\
  cacheExpiry (Nat.iter k cachePurger_tick f) !! dn
    = (if decide (Z.of_nat k < e)%Z then Some (e - Z.of_nat k)%Z else None).
Proof.
  intros Hc Hx He. induction k as [|k [IH1 IH2]].
  - simpl. rewrite !decide_True by lia. rewrite Hc, Hx. split; [done|]. f_equal. lia.
  - rewrite Nat.iter_succ. set (g := Nat.iter k cachePurger_tick f) in *.
    destruct (decide (Z.of_nat k < e)%Z) as [Hlt|Hge].
    + destruct (tick_cached g dn _ IH2) as [-> ->]. rewrite IH1.
      destruct (decide (e - Z.of_nat k <= 1)%Z).
      * by rewrite !decide_False by lia.
      * rewrite !decide_True by lia. split; [done|]. f_equal. lia.
    + destruct (tick_absent g dn IH2) as [-> ->]. rewrite IH1. by rewrite !decide_False by lia.
Qed.

(** ** Claims *)

(** C28: in every interleaving of any number of calls of [GetDirCached], of
purges and of ticks of the purger, a call is answered with what the master
answered for its directory fewer than three ticks, and the ticks a goroutine
may take to the mutex, before; or with an error the master gave to this very
call; and a directory is in the cache exactly when it has an expiry, from 1 to
3, which is how many ticks it has left. *)
Theorem concurrent_answers_are_fresh s :
  rtc step start s ->
  (forall t dn r at_tick, calls s !! t = Some (Answered dn (inr r) at_tick) ->
     exists tr, may_answer tr dn (inr r) /\ tr <= at_tick < tr + delay + 3) /\
  (forall t dn e at_tick, calls s !! t = Some (Answered dn (inl e) at_tick) ->
     exists err, may_answer at_tick dn (inl err) /\ e = on_error err) /\
  dom (cache (lib s)) = dom (cacheExpiry (lib s)) /\
  (forall dn e, cacheExpiry (lib s) !! dn = Some e ->
     (1 <= e <= 3)%Z /\
     forall k, is_Some (cache (Nat.iter k cachePurger_tick (lib s)) !! dn) <-> (Z.of_nat k < e)%Z).
Proof.
  intros Hr. destruct (calls_reachable_ok s Hr) as [He Hc]. split_and!.
  - intros t dn r a Ht. destruct (Hc t _ Ht) as [(tr & Hm & Hle) _]. exists tr. split; [done|lia].
  - intros t dn e a Ht. apply (Hc t _ Ht).
  - apply set_eq. intros dn. rewrite !elem_of_dom. specialize (He dn). unfold entry_ok in He.
    destruct (cache (lib s) !! dn), (cacheExpiry (lib s) !! dn); naive_solver.
  - intros dn e Hx. specialize (He dn). unfold entry_ok in He. rewrite Hx in He.
    destruct (cache (lib s) !! dn) as [r|] eqn:Hcd; [|done]. destruct He as [He _]. split; [done|].
    intros k. destruct (iter_ticks (lib s) dn r e k Hcd Hx) as [-> _]; [lia|]. case_decide; [by split; [|eexists]|].
    split; [by intros []|done].
Qed.

(** An answer with its error as the frontend passes it on. *)
Definition passed (r : error + GetDirReply) : error + GetDirReply :=
  match r with inl err => inl (on_error err) | inr ret => inr ret end.

(** A call that nothing interferes with does what the sequential [GetDirCached]
does, for any answer of the master. *)
Theorem call_alone_is_sequential s t master dn :
  calls s !! t = None ->
  may_answer (now s) (strings.Trim dn slash) (master (strings.Trim dn slash)) ->
  rtc step s (set_call s (GetDirCached master (lib s) dn).1 t
                (Answered (strings.Trim dn slash) (passed (GetDirCached master (lib s) dn).2) (now s))).
Proof.
  intros Hn Hm. unfold GetDirCached.
  destruct (cache (lib s) !! strings.Trim dn slash) as [g|] eqn:Hg.
  { apply rtc_once. by apply step_hit. }
  set (d := strings.Trim dn slash) in *.
  assert (Hover : forall f c c', set_call (set_call s (lib s) t c) f t c' = set_call s f t c').
  { intros f c c'. unfold set_call. simpl. by rewrite insert_insert_eq. }
  destruct (master d) as [err|ret] eqn:Hmd; cbn [fst snd passed].
  - eapply rtc_l; [by apply step_miss|]. rewrite <-(Hover _ (Asking d) (Answered _ _ _)).
    apply rtc_once, (step_error _ _ _ (set_call s (lib s) t (Asking d)) t d err); [|done].
    simpl. by rewrite lookup_insert_eq.
  - eapply rtc_l; [by apply step_miss|].
    eapply rtc_l; [apply (step_reply _ _ _ _ t d ret); [simpl; by rewrite lookup_insert_eq|done]|].
    rewrite Hover, <-(Hover _ (Storing d ret (now s)) (Answered _ _ _)).
    apply rtc_once, (step_store _ _ _ (set_call s (lib s) t (Storing d ret (now s))) t d ret (now s));
      [simpl; by rewrite lookup_insert_eq|simpl; lia].
Qed.
End calls.

(** The two copies of [GetDirCached] are the two ways to pass errors on. *)
Lemma fuse_passes master f dn :
  fuse_GetDirCached master f dn =
    ((GetDirCached master f dn).1,
     match (GetDirCached master f dn).2 with inl err => inl (fuse_error err) | r => r end).
Proof.
  unfold fuse_GetDirCached, GetDirCached, fuse_error.
  destruct (cache f !! _) as [g|] eqn:Hg; [done|]. by destruct (master _).
Qed.

(** ** An older listing can replace a newer one *)

Section demo.
#[local] Open Scope string_scope.

Definition old_listing : GetDirReply := mkGetDirReply [] {["a.txt" := mkFileInfo 1 "h" 1]}.
Definition new_listing : GetDirReply := mkGetDirReply [] {["a.txt" := mkFileInfo 2 "g" 2]}.

(** The master changes its answer after the first tick. *)
Definition changing (t : nat) (dn : string) (r : error + GetDirReply) : Prop :=
  r = inr (if decide (t = 0) then old_listing else new_listing).

(** Two calls miss; the first has the old reply when the second stores the new
one; the first then stores the old one, and a third call is answered with it. *)
Definition overtaken : state :=
  mkState (mkFrontendLib {["bob" := old_listing]} {["bob" := 3%Z]}) 1
    {[ 0 := Answered "bob" (inr old_listing) 1; 1 := Answered "bob" (inr new_listing) 1;
       2 := Answered "bob" (inr old_listing) 1 ]}.

Lemma run_overtaken : rtc (@step std_range felib_error changing 1) start overtaken.
Proof.
  eapply rtc_l; [by apply (step_miss _ _ _ _ 0 "bob")|].
  eapply rtc_l; [by apply (step_reply _ _ _ _ 0 "bob" old_listing)|].
  eapply rtc_l; [apply step_tick|].
  eapply rtc_l; [by apply (step_miss _ _ _ _ 1 "bob")|].
  eapply rtc_l; [by apply (step_reply _ _ _ _ 1 "bob" new_listing)|].
  eapply rtc_l; [apply (step_store _ _ _ _ 1 "bob" new_listing 1); [done|simpl; lia]|].
  eapply rtc_l; [apply (step_store _ _ _ _ 0 "bob" old_listing 0); [done|simpl; lia]|].
  eapply rtc_l; [by apply (step_hit _ _ _ _ 2 "bob" old_listing)|].
  vm_compute. apply rtc_refl.
Qed.

Lemma concurrent_answers_are_fresh_witness :
  exists tr, changing tr "bob" (inr old_listing) /\ tr <= 1 < tr + 1 + 3.
Proof.
  exact (proj1 (@concurrent_answers_are_fresh std_range felib_error changing 1 overtaken run_overtaken)
    2 "bob" old_listing 1 eq_refl).
Defined.
End demo.

End FrontendCallsTheorems.
