(* ===== verification/FrontendModules.v ===== *)
(** * The frontends as modules ([fuse.go], [ftp.go])

How the FUSE mount and the FTP server are made from the flags and the server,
what they answer to the operations that would change files, and the copies
[fuse.go] has of the cache's operations. *)

From S2P Require Import Prelude GoStrings Types Fetcher Frontend.
Import Frontend.

Module FrontendModules.

(** ** FUSE *)

(** The users of [--allow_users]: [lookup] is [osUser.Lookup], with the [Uid] of
the user. The error of [ParseUint] is dropped. *)
Fixpoint allow_users (lookup : string -> error + string) (users : list string) (allowed : gset Z)
    : error + gset Z :=
  match users with
  | [] => inr allowed
  | u :: users' =>
      match lookup u with
      | inl err => inl err
      | inr Uid =>
          let '(s, _) := strconv.ParseUint32 Uid in
          allow_users lookup users' ({[s]} ∪ allowed)
      end
  end.

(** [allowedUsers]: nil when the flag is not set. *)
Definition allowedUsers (lookup : string -> error + string) (allowUsers : string) : error + option (gset Z) :=
  if decide (allowUsers = "") then inr None
  else
    match allow_users lookup (strings.Split allowUsers ",") ∅ with
    | inl err => inl err
    | inr users => inr (Some users)
    end.

Record FuseMnt := mkFuseMnt {
  mnt_lib : FrontendLib;
  mnt_fetcher : Fetcher.Fetcher;
  mnt_mountpoint : string;
  mnt_allowedUsers : option (gset Z);
}.

(** [newFuseMnt]; [fetcher] is what [GetFetcher] answers for the server. *)
Definition newFuseMnt (lookup : string -> error + string) (allowUsers mountpoint : string)
    (fetcher : error + Fetcher.Fetcher) : error + FuseMnt :=
  match allowedUsers lookup allowUsers with
  | inl err => inl err
  | inr users =>
      match fetcher with
      | inl err => inl err
      | inr f => inr (mkFuseMnt new_frontend f mountpoint users)
      end
  end.

(** The module that [fuse.go] registers: none without [--mountpoint]. *)
Definition fuse_module (lookup : string -> error + string) (allowUsers mountpoint : string)
    (fetcher : error + Fetcher.Fetcher) : error + option FuseMnt :=
  if decide (mountpoint <> "") then
    match newFuseMnt lookup allowUsers mountpoint fetcher with inl err => inl err | inr m => inr (Some m) end
  else inr None.

(** Whether [Run] mounts for other users too. *)
Definition allow_other (m : FuseMnt) : bool :=
  match mnt_allowedUsers m with Some users => negb (bool_decide (size users = 0)) | None => false end.

(** [node.Access] *)
Definition Access (allowed : option (gset Z)) (uid : Z) : option error := checkAccess allowed uid.

(** [FuseMnt.Root] *)
Definition Root : fuse_node := DirNode "".

(** The operations of nodes, of directories and of handles that would change
something, and [Getxattr]. *)
Definition node_Setattr : error := fuse_ENOSYS.
Definition node_Getxattr : error := fuse_ENOSYS.
Definition node_Setxattr : error := fuse_ENOSYS.
Definition dir_Create : error := fuse_ENOSYS.
Definition dir_Mkdir : error := fuse_ENOSYS.
Definition dir_Remove : error := fuse_ENOSYS.
Definition handle_Write : error := fuse_ENOSYS.
Definition handle_Fsync : error := fuse_ENOSYS.

(** [handle.Release] closes the block handle. *)
Definition handle_Release (h : Fetcher.pfHandle) : Fetcher.pfHandle * option error := (Fetcher.Close h, None).

Section purger.
Context `{MapRange}.

(** The copies of [cachePurger] and [purgeCacheEntry]. *)
Definition fuse_expire (f : FrontendLib) (kv : string * Z) : FrontendLib :=
  let '(dn, exp) := kv in
  if decide (exp <= 1)%Z then
    let cacheExpiry := delete dn (cacheExpiry f) in
    mkFrontendLib (delete dn (cache f)) cacheExpiry
  else mkFrontendLib (cache f) (<[dn := (default 0 (cacheExpiry f !! dn) - 1)%Z]> (cacheExpiry f)).

Definition fuse_cachePurger_tick (f : FrontendLib) : FrontendLib :=
  foldl fuse_expire f (range_map (cacheExpiry f)).

Definition fuse_purgeCacheEntry (f : FrontendLib) (dn : string) : FrontendLib :=
  match cache f !! dn with
  | Some _ =>
      let cacheExpiry := delete dn (cacheExpiry f) in
      mkFrontendLib (delete dn (cache f)) cacheExpiry
  | None => f
  end.
End purger.

(** ** FTP *)

(** What [newFTPd] passes to the FTP server. *)
Record ServerOpts := mkServerOpts {
  Auth : string;
  Hostname : string;
  PublicIp : string;
  Port : Z;
  WelcomeMessage : string;
}.

Record FTPd := mkFTPd {
  ftpd_lib : FrontendLib;
  ftpd_fetcher : Fetcher.Fetcher;
  ftpd_opts : ServerOpts;
}.

Definition newFTPd (user : string) (port : Z) (fetcher : error + Fetcher.Fetcher) : error + FTPd :=
  match fetcher with
  | inl err => inl err
  | inr f =>
      inr (mkFTPd new_frontend f
             (mkServerOpts user "127.0.0.1" "127.0.0.1" port "Thanks for using RUFS"))
  end.

(** The module that [ftp.go] registers: none without [--ftp_port]. *)
Definition ftp_module (user : string) (port : Z) (fetcher : error + Fetcher.Fetcher) : error + option FTPd :=
  if decide (port > 0)%Z then
    match newFTPd user port fetcher with inl err => inl err | inr m => inr (Some m) end
  else inr None.

(** The operations of the driver that would change files; [PutFile] answers a
count too. *)
Inductive ftp_op := DeleteDir | DeleteFile | Rename | MakeDir.

Definition ftp_answer (op : ftp_op) : error := ftp_readonly.
Definition PutFile : Z * option error := (0%Z, Some ftp_readonly).

(** [NewDriver]: a driver is the frontend. *)
Definition NewDriver (f : FTPd) : FTPd * option error := (f, None).

(** The other methods of [FTPFileInfo]. *)
Definition ftp_Name (i : FTPFileInfo) : string := ftp_name i.
Definition ftp_IsDir (i : FTPFileInfo) : bool := ftp_dir i.
Definition ftp_Owner (i : FTPFileInfo) : string := "rufs".
Definition ftp_Group (i : FTPFileInfo) : string := "rufs".
Definition ftp_Sys (i : FTPFileInfo) : option unit := None.

End FrontendModules.
