(* ===== verification/FrontendModulesTheorems.v ===== *)
(** * What the frontends as modules guarantee

Who may open files through the mount, and that the FUSE and the FTP frontend
see the same tree. *)

From S2P Require Import Prelude GoStrings Types Fetcher Frontend FrontendTheorems FrontendModules.
Import Frontend FrontendModules.

Module FrontendModulesTheorems.

(** ** Access *)

Lemma allow_users_spec lookup users allowed r :
  allow_users lookup users allowed = inr r ->
  forall uid, uid ∈ r <-> uid ∈ allowed \/
    exists u s, u ∈ users /\ lookup u = inr s /\ uid = (strconv.ParseUint32 s).1.
Proof.
  revert allowed. induction users as [|u users IH]; intros allowed; simpl.
  { intros [= <-] uid. split; [by left|]. intros [?|(u & s & Hu & _)]; [done|by apply not_elem_of_nil in Hu]. }
  destruct (lookup u) as [err|Uid] eqn:Hl; [done|].
  destruct (strconv.ParseUint32 Uid) as [s e] eqn:Hs. intros Hrun uid. rewrite (IH _ Hrun uid).
  rewrite elem_of_union, elem_of_singleton. split.
  - intros [[->|?]|(u' & s' & Hu' & Hl' & ->)]; [right|by left|right].
    + exists u, Uid. rewrite Hs. split; [by left|done].
    + exists u', s'. split; [by right|done].
  - intros [?|(u' & s' & [->|Hu']%elem_of_cons & Hl' & ->)]; [by left; right| |right; by exists u', s'].
    left; left. rewrite Hl in Hl'. injection Hl' as <-. by rewrite Hs.
Qed.

Lemma allow_users_lookup lookup users allowed err :
  allow_users lookup users allowed = inl err -> exists u, u ∈ users /\ lookup u = inl err.
Proof.
  revert allowed. induction users as [|u users IH]; intros allowed; simpl; [done|].
  destruct (lookup u) as [err'|Uid] eqn:Hl.
  - intros [= ->]. exists u. split; [by left|done].
  - destruct (strconv.ParseUint32 Uid) as [s e]. intros (u' & Hu' & ?)%IH. exists u'. split; [by right|done].
Qed.

(** ** Claims *)

(** C36: who may open files through the mount. Without [--allow_users] everybody;
with it, [newFuseMnt] fails if one of the users does not exist, and otherwise
exactly the users whose number is that of one of the named users. [Open] refuses
the others with EPERM, before it looks at the file or talks to the master; to those
users it gives the handle of the fetcher for the file's hash, size and owners, when
the master knows the file and its owners, and otherwise the master's error, ENOENT
as the error number, and forgets the listing under the path. [Access] lets in
exactly the same users. *)
Theorem open_checks_users lookup allowUsers mountpoint fetcher0 :
  match newFuseMnt lookup allowUsers mountpoint (inr fetcher0) with
  | inl err => exists u, u ∈ strings.Split allowUsers "," /\ lookup u = inl err
  | inr m =>
      let granted uid := allowUsers = "" \/
        exists u s, u ∈ strings.Split allowUsers "," /\ lookup u = inr s /\ uid = (strconv.ParseUint32 s).1 in
      (forall uid, (granted uid /\ Access (mnt_allowedUsers m) uid = None) \/
                   (~ granted uid /\ Access (mnt_allowedUsers m) uid = Some fuse_EPERM)) /\
      forall master owners netw fetcher f path uid,
        let opened := Open master owners netw (mnt_allowedUsers m) uid fetcher f path in
        let failed f' err :=
          Done (purgeCacheEntry f' path, fetcher, inl (if error_is err "ENOENT" then fuse_ENOENT else err)) in
        (~ granted uid -> opened = Done (f, fetcher, inl fuse_EPERM)) /\
        (granted uid ->
           (forall f' err, fuse_GetFileInfo master f path = (f', inl err) -> opened = failed f' err) /\
           (forall f' fi err, fuse_GetFileInfo master f path = (f', inr fi) -> owners (Hash fi) = inl err ->
              opened = failed f' err) /\
           (forall f' fi os fetcher' h, fuse_GetFileInfo master f path = (f', inr fi) -> owners (Hash fi) = inr os ->
              Fetcher.NewHandle netw fetcher (Hash fi) (Size fi) os = Done (fetcher', h) ->
              opened = Done (f', fetcher', h)))
  end.
Proof.
  assert (Hopen : forall allowed master owners netw fetcher f path uid, checkAccess allowed uid = None ->
    let opened := Open master owners netw allowed uid fetcher f path in
    let failed f' err :=
      Done (purgeCacheEntry f' path, fetcher, inl (if error_is err "ENOENT" then fuse_ENOENT else err)) in
    (forall f' err, fuse_GetFileInfo master f path = (f', inl err) -> opened = failed f' err) /\
    (forall f' fi err, fuse_GetFileInfo master f path = (f', inr fi) -> owners (Hash fi) = inl err ->
       opened = failed f' err) /\
    (forall f' fi os fetcher' h, fuse_GetFileInfo master f path = (f', inr fi) -> owners (Hash fi) = inr os ->
       Fetcher.NewHandle netw fetcher (Hash fi) (Size fi) os = Done (fetcher', h) -> opened = Done (f', fetcher', h))).
  { intros allowed master owners netw fetcher f path uid Hok. unfold Open. rewrite Hok. split_and!.
    - intros f' err ->. done.
    - intros f' fi err -> ->. done.
    - intros f' fi os fetcher' h -> -> ->. done. }
  unfold newFuseMnt, allowedUsers. case_decide as Hf.
  - simpl. split; [intros uid; left; naive_solver|]. intros. split; [naive_solver|]. intros _. by apply (Hopen None).
  - destruct (allow_users _ _ ∅) as [err|users] eqn:Hrun; [by eapply allow_users_lookup|].
    pose proof (allow_users_spec _ _ _ _ Hrun) as Hin. cbn [mnt_allowedUsers].
    assert (Hcheck : forall uid, ~ (allowUsers = "" \/ exists u s, u ∈ strings.Split allowUsers "," /\
              lookup u = inr s /\ uid = (strconv.ParseUint32 s).1) <-> uid ∉ users).
    { intros uid. rewrite Hin. set_solver. }
    split; [|intros master owners netw fetcher f path uid; split].
    + intros uid. unfold Access, checkAccess. case_decide as Hu.
      * left. split; [|done]. apply Hin in Hu as [Hu|Hu]; [set_solver|by right].
      * right. by rewrite Hcheck.
    + intros Hno%Hcheck. unfold Open, checkAccess. by rewrite decide_False.
    + intros Hgr. apply (Hopen (Some users)). unfold checkAccess. apply decide_True.
      destruct (decide (uid ∈ users)) as [?|Hno]; [done|]. by apply Hcheck in Hno.
Qed.

(** *** The two frontends *)

(** What happens to a frontend: somebody lists a directory, while the master
answers like this, or asks for a file; its timer ticks; an entry is purged. *)
Inductive frontend_event :=
  | ListDirectory (master : string -> error + GetDirReply) (dn : string)
  | FindFile (master : string -> error + GetDirReply) (fn : string)
  | Tick
  | Purge (dn : string).

Inductive frontend_answer :=
  | Listed (r : error + GetDirReply)
  | Found (r : error + FileInfo)
  | Silent.

Section agree.
Context `{MapRange}.

Definition fuse_react (f : FrontendLib) (ev : frontend_event) : FrontendLib * frontend_answer :=
  match ev with
  | ListDirectory master dn => let '(f, r) := fuse_GetDirCached master f dn in (f, Listed r)
  | FindFile master fn => let '(f, r) := fuse_GetFileInfo master f fn in (f, Found r)
  | Tick => (fuse_cachePurger_tick f, Silent)
  | Purge dn => (fuse_purgeCacheEntry f dn, Silent)
  end.

Definition lib_react (f : FrontendLib) (ev : frontend_event) : FrontendLib * frontend_answer :=
  match ev with
  | ListDirectory master dn => let '(f, r) := GetDirCached master f dn in (f, Listed r)
  | FindFile master fn => let '(f, r) := GetFileInfo master f fn in (f, Found r)
  | Tick => (cachePurger_tick f, Silent)
  | Purge dn => (purgeCacheEntry f dn, Silent)
  end.

(** The answers of a frontend to events, and where it ends. *)
Fixpoint reactions (react : FrontendLib -> frontend_event -> FrontendLib * frontend_answer)
    (f : FrontendLib) (evs : list frontend_event) : FrontendLib * list frontend_answer :=
  match evs with
  | [] => (f, [])
  | ev :: evs' =>
      let '(f, a) := react f ev in
      let '(f, l) := reactions react f evs' in (f, a :: l)
  end.

(** The same answer, but for the error numbers of FUSE. *)
Definition same_error (e e' : error) : Prop :=
  e = e' \/ (e = fuse_ENOENT /\ (error_is e' "ENOENT" \/ e' = errors_New "file not found")).

Definition same_answer (a a' : frontend_answer) : Prop :=
  match a, a' with
  | Listed (inl e), Listed (inl e') | Found (inl e), Found (inl e') => same_error e e'
  | _, _ => a = a'
  end.

Lemma GetDirCached_agree master f dn :
  (fuse_GetDirCached master f dn).1 = (GetDirCached master f dn).1 /\
  match (fuse_GetDirCached master f dn).2, (GetDirCached master f dn).2 with
  | inl e, inl e' => e = e' \/ e = fuse_ENOENT /\ error_is e' "ENOENT"
  | r, r' => r = r'
  end.
Proof.
  unfold fuse_GetDirCached, GetDirCached. destruct (cache f !! _); [done|].
  destruct (master _) as [err|r]; [|done]. split; [done|]. simpl.
  destruct (error_is err "ENOENT") eqn:E; [right|left]; by rewrite ?E.
Qed.

Lemma react_agree f ev :
  (fuse_react f ev).1 = (lib_react f ev).1 /\ same_answer (fuse_react f ev).2 (lib_react f ev).2.
Proof.
  destruct ev as [master dn|master fn| |dn]; try done; simpl.
  - pose proof (GetDirCached_agree master f dn) as [Hf Hr].
    destruct (fuse_GetDirCached master f dn) as [f1 r1], (GetDirCached master f dn) as [f2 r2]. simpl in *.
    split; [done|]. destruct r1, r2; try done; [unfold same_error; naive_solver|by injection Hr as ->].
  - unfold fuse_GetFileInfo, GetFileInfo. destruct (filepath.Split fn) as [dn n].
    pose proof (GetDirCached_agree master f dn) as [Hf Hr].
    destruct (fuse_GetDirCached master f dn) as [f1 r1], (GetDirCached master f dn) as [f2 r2]. simpl in *.
    subst f2. destruct r1, r2; try done; simpl; [split; [done|unfold same_error; naive_solver]|].
    injection Hr as ->. destruct (Files _ !! n); [done|]. split; [done|]. right. split; [done|by right].
Qed.

(** the copies [fuse.go] has of the cache's operations are the same program
as the library's that the FTP server uses: for every sequence of listings,
lookups, ticks and purges, with whatever the master answers at each, both
frontends keep the same cache and expiries and give the same answers, but for
the errors that FUSE numbers. *)
Theorem frontends_agree f evs :
  (reactions fuse_react f evs).1 = (reactions lib_react f evs).1 /\
  Forall2 same_answer (reactions fuse_react f evs).2 (reactions lib_react f evs).2.
Proof.
  revert f. induction evs as [|ev evs IH]; intros f; [done|]. simpl.
  destruct (react_agree f ev) as [Hf Ha].
  destruct (fuse_react f ev) as [f1 a1], (lib_react f ev) as [f2 a2]. simpl in *. subst f2.
  destruct (IH f1) as [Hf1 Hl].
  destruct (reactions fuse_react f1 evs) as [f3 l3], (reactions lib_react f1 evs) as [f4 l4]. simpl in *.
  split; [done|]. by constructor.
Qed.
End agree.

(** ** Witnesses *)

Definition uids (u : string) : error + string :=
  if decide (u = "bob") then inr "1001" else inl (errors_New "unknown user").

(** A mount that user [bob] may use, and a master that knows one file. *)
Definition bobs_mount : FuseMnt := mkFuseMnt new_frontend (Fetcher.mkFetcher ∅ 1024 "" 0) "/mnt" (Some {[1001%Z]}).
Definition one_file (dn : string) : error + GetDirReply :=
  if decide (dn = "bob") then inr (mkGetDirReply [] {["f" := mkFileInfo 6 "h" 8]}) else inl (errors_New "ENOENT").

Lemma open_checks_users_witness :
  newFuseMnt uids "bob" "/mnt" (inr (Fetcher.mkFetcher ∅ 1024 "" 0)) = inr bobs_mount /\
  Access (mnt_allowedUsers bobs_mount) 1001 = None /\ Access (mnt_allowedUsers bobs_mount) 1002 = Some fuse_EPERM /\
  (forall netw fetcher, Open one_file (fun _ => inr []) netw (mnt_allowedUsers bobs_mount) 1002 fetcher new_frontend "bob/f"
     = Done (new_frontend, fetcher, inl fuse_EPERM)) /\
  (forall netw fetcher fetcher' h, Fetcher.NewHandle netw fetcher "h" 6 ["o"] = Done (fetcher', h) ->
     Open one_file (fun _ => inr ["o"]) netw (mnt_allowedUsers bobs_mount) 1001 fetcher new_frontend "bob/f"
     = Done ((fuse_GetFileInfo one_file new_frontend "bob/f").1, fetcher', h)).
Proof.
  assert (newFuseMnt uids "bob" "/mnt" (inr (Fetcher.mkFetcher ∅ 1024 "" 0)) = inr bobs_mount) as Hnew by reflexivity.
  pose proof (open_checks_users uids "bob" "/mnt" (Fetcher.mkFetcher ∅ 1024 "" 0)) as H. rewrite Hnew in H.
  destruct H as [Haccess Hopen].
  assert (Hbob : "bob" = "" \/ exists u s, u ∈ strings.Split "bob" "," /\ uids u = inr s /\ 1001%Z = (strconv.ParseUint32 s).1).
  { right. exists "bob", "1001". split; [by left|done]. }
  assert (Heve : ~ ("bob" = "" \/ exists u s, u ∈ strings.Split "bob" "," /\ uids u = inr s /\ 1002%Z = (strconv.ParseUint32 s).1)).
  { intros [?|(u & s & [->|[]%not_elem_of_nil]%elem_of_cons & [= <-] & Hs)]; [done|]. by vm_compute in Hs. }
  split_and!; [done| | | |].
  - destruct (Haccess 1001%Z) as [[_ ?]|[Hn _]]; [done|]. by destruct Hn.
  - destruct (Haccess 1002%Z) as [[Hg _]|[_ ?]]; [|done]. by destruct Heve.
  - intros netw fetcher. by apply Hopen.
  - intros netw fetcher fetcher' h Hh.
    destruct (Hopen one_file (fun _ => inr ["o"]) netw fetcher new_frontend "bob/f" 1001%Z) as [_ [_ [_ Hok]]]; [exact Hbob|].
    by apply (Hok _ (mkFileInfo 6 "h" 8) ["o"]).
Defined.

End FrontendModulesTheorems.
