(* ===== verification/FrontendRun.v ===== *)
(** * Running the frontends ([fuse.go], [ftp.go])

[Setup] and [Run] of the two modules: what they ask of the FUSE and FTP
packages, and the goroutines that end them when the context is done. The
packages are what they answer; what they may do is in the steps. Of
[bazil.org/fuse] it is assumed that the kernel is cut off by [conn.Close], by an
[Unmount] that succeeds and by a mount that fails, and that [fs.Serve] returns
without an error once it is. *)

From S2P Require Import Prelude GoStrings Types Fetcher Frontend FrontendModules.
Import Frontend FrontendModules.

Module FrontendRun.

(** ** The mount *)

Inductive MountOption :=
  | FSName (name : string)
  | Subtype (name : string)
  | VolumeName (name : string)
  | ReadOnly
  | MaxReadahead (n : Z)
  | AllowOther.

(** The options [Run] mounts with. *)
Definition mount_options (m : FuseMnt) : list MountOption :=
  [FSName "rufs"; Subtype "rufs"; VolumeName "rufs"; ReadOnly; MaxReadahead (1024 * 1024)]
    ++ (if allow_other m then [AllowOther] else []).

(** [Setup] of both modules: the client of the server becomes the frontend's. *)
Definition Setup {Client : Type} (server_master : Client) : Client * option error := (server_master, None).

(** [Run] itself: in [fs.Serve]; waiting for [Ready]; in the deferred
[conn.Close] with [retErr]; in the deferred [close(fsDone)]; returned. *)
Inductive run_pc :=
  | Serving
  | AwaitReady
  | ClosingConn (retErr : option error)
  | ClosingDone (retErr : option error)
  | Returned (retErr : option error).

(** The goroutine that waits for the context: on [ctx.Done()]; in the [select]
on [Ready] and the timer; in [fuse.Unmount]; gone. *)
Inductive watcher_pc :=
  | AwaitCtx
  | Select
  | Unmounting
  | WatcherGone.

(** [ctx_done]: the context; [Ready] is closed with this [MountError] in place;
[connected]: the kernel still talks to the connection; [conn_closes] and
[unmounts]: the calls of [conn.Close] and of [fuse.Unmount] that were made;
[unmount_err]: what [fuse.Unmount] answered; [fsDone]: closed; [purging]: the
goroutine of [cachePurger] runs. *)
Record mount := mkMount {
  ctx_done : bool;
  Ready : option (option error);
  connected : bool;
  conn_closes : nat;
  unmounts : nat;
  unmount_err : option error;
  fsDone : bool;
  purging : bool;
  watcher : watcher_pc;
  run : run_pc;
}.

(** [Run] up to [fs.Serve]: [fuse.Mount] fails, or there is a connection. *)
Definition Run_start (mount_answer : option error) (cancelled : bool) : error + mount :=
  match mount_answer with
  | Some err => inl err
  | None => inr (mkMount cancelled None true 0 0 None false true AwaitCtx Serving)
  end.

Definition set_run (p : run_pc) (m : mount) : mount :=
  mkMount (ctx_done m) (Ready m) (connected m) (conn_closes m) (unmounts m) (unmount_err m)
    (fsDone m) (purging m) (watcher m) p.
Definition set_watcher (p : watcher_pc) (m : mount) : mount :=
  mkMount (ctx_done m) (Ready m) (connected m) (conn_closes m) (unmounts m) (unmount_err m)
    (fsDone m) (purging m) p (run m).

(** [conn.Close()]: the kernel is cut off. *)
Definition close_conn (m : mount) : mount :=
  mkMount (ctx_done m) (Ready m) false (S (conn_closes m)) (unmounts m) (unmount_err m)
    (fsDone m) (purging m) (watcher m) (run m).

(** [fuse.Unmount] with its answer: without an error the mount is gone. *)
Definition unmount (err : option error) (m : mount) : mount :=
  mkMount (ctx_done m) (Ready m) (if err is Some _ then connected m else false) (conn_closes m)
    (S (unmounts m)) err (fsDone m) (purging m) (watcher m) (run m).

(** What is outside: the context is cancelled, the mount completes or fails,
somebody else may unmount it, and [fs.Serve] may meet an unexpected error. *)
Inductive outside : mount -> mount -> Prop :=
  | out_cancel m :
      outside m (mkMount true (Ready m) (connected m) (conn_closes m) (unmounts m) (unmount_err m)
                   (fsDone m) (purging m) (watcher m) (run m))
  | out_ready m MountError :
      Ready m = None ->
      outside m (mkMount (ctx_done m) (Some MountError)
                   (if MountError is Some _ then false else connected m) (conn_closes m) (unmounts m)
                   (unmount_err m) (fsDone m) (purging m) (watcher m) (run m))
  | out_gone m :
      outside m (mkMount (ctx_done m) (Ready m) false (conn_closes m) (unmounts m) (unmount_err m)
                   (fsDone m) (purging m) (watcher m) (run m))
  | out_serve_error m err :
      run m = Serving -> outside m (set_run (ClosingConn (Some err)) m).

(** What the goroutines of the program do. *)
Inductive step : mount -> mount -> Prop :=
  (* fs.Serve ends with the connection, which is the package's doing *)
  | step_served m :
      run m = Serving -> connected m = false -> step m (set_run AwaitReady m)
  | step_ready m MountError :
      run m = AwaitReady -> Ready m = Some MountError -> step m (set_run (ClosingConn MountError) m)
  (* the deferred functions, the last one first *)
  | step_close m retErr close_err :
      run m = ClosingConn retErr ->
      step m (set_run (ClosingDone (if retErr is Some _ then retErr else close_err)) (close_conn m))
  | step_fsDone m retErr :
      run m = ClosingDone retErr ->
      step m (mkMount (ctx_done m) (Ready m) (connected m) (conn_closes m) (unmounts m) (unmount_err m)
                true (purging m) (watcher m) (Returned retErr))
  (* the goroutine that waits for the context *)
  | step_ctx m :
      watcher m = AwaitCtx -> ctx_done m = true -> step m (set_watcher Select m)
  | step_mount_failed m err :
      watcher m = Select -> Ready m = Some (Some err) -> step m (set_watcher WatcherGone m)
  | step_mounted m :
      watcher m = Select -> Ready m = Some None -> step m (set_watcher Unmounting m)
  | step_unmount m err :
      watcher m = Unmounting -> step m (set_watcher WatcherGone (unmount err m))
  | step_timeout m :
      watcher m = Select -> step m (set_watcher WatcherGone (close_conn m))
  (* cachePurger *)
  | step_purger m :
      purging m = true -> fsDone m = true ->
      step m (mkMount (ctx_done m) (Ready m) (connected m) (conn_closes m) (unmounts m) (unmount_err m)
                (fsDone m) false (watcher m) (run m)).

Definition any_step (m m' : mount) : Prop := step m m' \/ outside m m'.

(** ** The FTP server *)

(** [Run] of [ftp.go]: in [ListenAndServe] until it answers; the goroutine that
calls [Shutdown] when the context is done; [cachePurger] until then. *)
Record ftp_run := mkFtpRun {
  ftp_ctx_done : bool;
  shutdowns : nat;
  ftp_purging : bool;
  ftp_returned : option (option error);
}.

Definition ftp_start (cancelled : bool) : ftp_run := mkFtpRun cancelled 0 true None.

Inductive ftp_step : ftp_run -> ftp_run -> Prop :=
  | ftp_cancel r :
      ftp_step r (mkFtpRun true (shutdowns r) (ftp_purging r) (ftp_returned r))
  | ftp_shutdown r :
      ftp_ctx_done r = true -> shutdowns r = 0 ->
      ftp_step r (mkFtpRun (ftp_ctx_done r) 1 (ftp_purging r) (ftp_returned r))
  | ftp_purger r :
      ftp_ctx_done r = true ->
      ftp_step r (mkFtpRun (ftp_ctx_done r) (shutdowns r) false (ftp_returned r))
  | ftp_listened r err :
      ftp_returned r = None ->
      ftp_step r (mkFtpRun (ftp_ctx_done r) (shutdowns r) (ftp_purging r) (Some err)).

End FrontendRun.
