(* ===== verification/FrontendRunTheorems.v ===== *)
(** * How the frontends run and stop

Who can reach the mount; that [Run] of the mount leaves nothing behind and
reports failures; and exactly when it comes to an end after the context is
done. *)

From S2P Require Import Prelude GoStrings Types Fetcher Frontend FrontendModules FrontendModulesTheorems FrontendRun.
Import Frontend FrontendModules FrontendModulesTheorems FrontendRun.

Module FrontendRunTheorems.

(** ** Options *)

Lemma allow_users_size lookup users allowed r :
  allow_users lookup users allowed = inr r -> users <> [] -> size r <> 0.
Proof.
  intros Hrun Hne Hsz. destruct users as [|u users]; [done|].
  assert (Hu : exists s, lookup u = inr s).
  { simpl in Hrun. destruct (lookup u) as [err|s]; [discriminate|by exists s]. }
  destruct Hu as [s Hs]. apply size_empty_inv in Hsz.
  assert (Hin : (strconv.ParseUint32 s).1 ∈ r); [|set_solver].
  apply (allow_users_spec _ _ _ _ Hrun). right. exists u, s. split; [by left|done].
Qed.

(** The kernel lets the users other than the one who mounts reach the mount
exactly when [--allow_users] is given, and the mount is read-only always. *)
Theorem mount_reachable_by_others lookup allowUsers mountpoint fetcher m :
  newFuseMnt lookup allowUsers mountpoint (inr fetcher) = inr m ->
  (AllowOther ∈ mount_options m <-> allowUsers <> "") /\ ReadOnly ∈ mount_options m.
Proof.
  intros Hnew. split; [|by apply elem_of_app; left; do 3 right; left].
  assert (Hother : AllowOther ∈ mount_options m <-> allow_other m = true).
  { unfold mount_options. destruct (allow_other m); [set_solver|]. split; [|done].
    simpl. rewrite !elem_of_cons. set_solver. }
  rewrite Hother. unfold newFuseMnt, allowedUsers in Hnew. destruct (decide (allowUsers = "")) as [->|Hne].
  - injection Hnew as <-. by split.
  - destruct (allow_users _ _ ∅) as [err|users] eqn:Hu; [done|]. injection Hnew as <-.
    split; [done|intros _]. unfold allow_other. simpl. apply negb_true_iff, bool_decide_eq_false.
    eapply allow_users_size; [exact Hu|]. apply (Split_not_nil ","%char).
Qed.

(** ** The invariant of a mount *)

Definition run_ok (m : mount) : Prop :=
  match run m with
  | Serving => fsDone m = false
  | AwaitReady => connected m = false /\ fsDone m = false
  | ClosingConn e => (e = None -> Ready m = Some None) /\ fsDone m = false
  | ClosingDone e => (e = None -> Ready m = Some None) /\ fsDone m = false /\ connected m = false /\ 0 < conn_closes m
  | Returned e => (e = None -> Ready m = Some None) /\ fsDone m = true /\ connected m = false /\ 0 < conn_closes m
  end.

Definition watcher_ok (m : mount) : Prop :=
  match watcher m with
  | AwaitCtx => unmounts m = 0 /\ unmount_err m = None
  | Select => ctx_done m = true /\ unmounts m = 0 /\ unmount_err m = None
  | Unmounting => ctx_done m = true /\ Ready m = Some None /\ unmounts m = 0 /\ unmount_err m = None
  | WatcherGone =>
      ctx_done m = true /\ unmounts m <= 1 /\ (0 < unmounts m -> Ready m = Some None) /\
      (connected m = false \/ unmount_err m <> None)
  end.

(** The calls of [conn.Close]: one of the goroutine, one of [Run]. *)
Definition closes_ok (m : mount) : Prop :=
  conn_closes m <= (match run m with ClosingDone _ | Returned _ => 1 | _ => 0 end) +
                   (match watcher m with WatcherGone => 1 - unmounts m | _ => 0 end).

Definition ok (m : mount) : Prop :=
  run_ok m /\ watcher_ok m /\ closes_ok m /\ (fsDone m = false -> purging m = true) /\
  (forall err, Ready m = Some (Some err) -> connected m = false).

Lemma mount_step_ok m m' : any_step m m' -> ok m -> ok m'.
Proof.
  unfold ok, run_ok, watcher_ok, closes_ok.
  intros Hstep (Hrun & Hw & Hc & Hp & Hr).
  destruct Hstep as [Hstep|Hout]; [destruct Hstep|destruct Hout];
    destruct m as [ctx rdy conn closes ums umerr fd pur w r]; simpl in *; simplify_eq;
    destruct_and?; repeat case_match; simplify_eq; split_and!; try done; try lia; try naive_solver lia.
Qed.

Lemma start_ok c m : Run_start None c = inr m -> ok m.
Proof. intros [= <-]. unfold ok, run_ok, watcher_ok, closes_ok. simpl. split_and!; done || lia. Qed.

Lemma mount_reachable_ok c m0 m : Run_start None c = inr m0 -> rtc any_step m0 m -> ok m.
Proof.
  intros Hs Hr. refine (rtc_inv any_step ok m0 m _ _ Hr); [by eapply start_ok|].
  intros y z Hstep. by apply mount_step_ok.
Qed.

(** ** Progress *)

(** How many steps the goroutines have left at most. *)
Definition left_run (p : run_pc) : nat :=
  match p with Serving => 4 | AwaitReady => 3 | ClosingConn _ => 2 | ClosingDone _ => 1 | Returned _ => 0 end.
Definition left_watcher (p : watcher_pc) : nat :=
  match p with AwaitCtx => 3 | Select => 2 | Unmounting => 1 | WatcherGone => 0 end.
Definition to_do (m : mount) : nat :=
  left_run (run m) + left_watcher (watcher m) + (if purging m then 1 else 0).

Lemma mount_step_to_do m m' : step m m' -> to_do m' < to_do m.
Proof.
  intros Hstep. destruct Hstep; destruct m as [ctx rdy conn closes ums umerr fd pur w r]; simpl in *;
    subst; unfold to_do; simpl; lia.
Qed.

Lemma outside_to_do m m' : outside m m' -> to_do m' <= to_do m.
Proof.
  intros Hout. destruct Hout; destruct m as [ctx rdy conn closes ums umerr fd pur w r]; simpl in *;
    subst; unfold to_do; simpl; lia.
Qed.

(** The three ways in which nothing is left to do. *)
Definition stopped (m : mount) : Prop :=
  (exists e, run m = Returned e) /\ watcher m = WatcherGone /\ purging m = false.
(** [fuse.Unmount] failed, and the kernel keeps the connection. *)
Definition busy (m : mount) : Prop :=
  run m = Serving /\ watcher m = WatcherGone /\ connected m = true /\ exists err, unmount_err m = Some err.
(** The connection is gone, but the mount neither completed nor failed. *)
Definition never_ready (m : mount) : Prop :=
  run m = AwaitReady /\ watcher m = WatcherGone /\ Ready m = None.

Lemma stuck_cases m :
  ok m -> ctx_done m = true -> (forall m', ~ step m m') -> stopped m \/ busy m \/ never_ready m.
Proof.
  intros (Hrun & Hw & _ & Hp & _) Hctx Hno. unfold stopped, busy, never_ready, run_ok, watcher_ok in *.
  assert (Hgone : watcher m = WatcherGone).
  { destruct (watcher m) eqn:E; try done; exfalso; eapply Hno.
    - by apply step_ctx.
    - by apply step_timeout.
    - by apply (step_unmount m None). }
  rewrite Hgone in *. destruct Hw as (_ & _ & _ & Hgone').
  destruct (run m) as [| |e|e|e] eqn:E.
  - destruct (connected m) eqn:Ec; [|exfalso; eapply Hno; by apply step_served].
    right; left. split_and!; try done. destruct Hgone' as [?|Hu]; [done|]. destruct (unmount_err m); [eauto|done].
  - destruct (Ready m) as [e|] eqn:Er; [exfalso; eapply Hno; by apply (step_ready m e)|]. by right; right.
  - exfalso. eapply Hno. by apply (step_close m e None).
  - exfalso. eapply Hno. by apply (step_fsDone m e).
  - left. split_and!; [by eexists|done|]. destruct (purging m) eqn:Epur; [|done].
    exfalso. eapply Hno. apply step_purger; [done|]. naive_solver.
Qed.

Lemma stopped_stuck m : ok m -> stopped m \/ busy m \/ never_ready m -> forall m', ~ step m m'.
Proof.
  intros (Hrun & Hw & _ & Hp & _) Hcase m' Hstep. unfold stopped, busy, never_ready, run_ok in *.
  destruct Hcase as [([e He] & Hg & Hpur)|[(He & Hg & Hcn & _)|(He & Hg & Hr)]];
    rewrite He in Hrun; destruct_and?; destruct Hstep; congruence.
Qed.

(** ** Claims *)

(** C29: how the mount ends. From wherever its [Run] has come to, its goroutines
make at most eight more steps of their own; when the context is done, they
have all come to an end with [Run] returned, the connection closed and the
purger stopped, unless [fuse.Unmount] failed and nobody else unmounted, in which
case [Run] is still in [fs.Serve] for as long as that lasts, or the mount neither
completed nor failed. *)
Theorem mount_stops_or_blocks c m0 m :
  Run_start None c = inr m0 -> rtc any_step m0 m ->
  (forall k m', nsteps step k m m' -> k <= 8) /\
  (ctx_done m = true ->
     ((forall m', ~ step m m') <-> stopped m \/ busy m \/ never_ready m)) /\
  (stopped m -> connected m = false /\ 0 < conn_closes m /\ fsDone m = true) /\
  (busy m -> forall m', any_step m m' -> busy m' \/ connected m' = false \/ run m' <> Serving).
Proof.
  intros Hs Hr. pose proof (mount_reachable_ok c m0 m Hs Hr) as Hok. split_and!.
  - intros k m' Hk. enough (k + to_do m' <= to_do m /\ to_do m <= 8) by lia. split.
    + clear Hr Hok. induction Hk as [m|k m1 m2 m3 Hstep Hk IH]; [lia|].
      pose proof (mount_step_to_do _ _ Hstep). lia.
    + unfold to_do. destruct (run m), (watcher m), (purging m); simpl; lia.
  - intros Hctx. split; [by apply stuck_cases|by apply stopped_stuck].
  - intros ([e He] & _ & _). destruct Hok as [Hrun _]. unfold run_ok in Hrun. rewrite He in Hrun. naive_solver.
  - intros Hb m' [Hstep|Hout].
    + exfalso. by eapply (stopped_stuck m Hok); [right; left|].
    + destruct Hb as (He & Hg & Hcn & err & Hu). unfold busy.
      destruct Hout; simpl; try (left; split_and!; eauto; fail); try (by right; left); try (by right; right).
      destruct MountError; [by right; left|]. left. split_and!; eauto.
Qed.

(** What [Run] of the mount tells: nil only if the mount completed without an
error, so that a [MountError] is never lost; and however it ends,
[fuse.Unmount] is called at most once, after the context is done and for a
mount that completed, and [conn.Close] at most twice. *)
Theorem mount_tells_failures c m0 m :
  Run_start None c = inr m0 -> rtc any_step m0 m ->
  (run m = Returned None -> Ready m = Some None) /\
  (forall err, Ready m = Some (Some err) -> connected m = false /\ unmounts m = 0) /\
  (unmounts m <= 1 /\ (0 < unmounts m -> ctx_done m = true /\ Ready m = Some None)) /\
  conn_closes m <= 2.
Proof.
  intros Hs Hr. destruct (mount_reachable_ok c m0 m Hs Hr) as (Hrun & Hw & Hcl & _ & Hready).
  unfold run_ok, watcher_ok, closes_ok in *.
  assert (Hun : unmounts m <= 1 /\ (0 < unmounts m -> ctx_done m = true /\ Ready m = Some None)).
  { destruct (watcher m); naive_solver lia. }
  split_and!; try naive_solver.
  - intros He. rewrite He in Hrun. naive_solver.
  - intros err He. split; [by eapply Hready|]. destruct Hun as [_ Hun].
    destruct (unmounts m) as [|n]; [done|]. destruct Hun as [_ Hun]; [lia|]. congruence.
  - destruct (run m), (watcher m); simpl in *; lia.
Qed.

Definition ftp_ok (r : ftp_run) : Prop :=
  shutdowns r <= 1 /\ (0 < shutdowns r -> ftp_ctx_done r = true) /\
  (ftp_ctx_done r = false -> ftp_purging r = true).

(** The FTP server: [Shutdown] is called at most once, and only when the context
is done; until then the purger runs; and [Run] returns what [ListenAndServe]
answers, once. *)
Theorem ftp_stops c r :
  rtc ftp_step (ftp_start c) r ->
  ftp_ok r /\ (forall r', ftp_step r r' -> is_Some (ftp_returned r) -> ftp_returned r' = ftp_returned r).
Proof.
  intros Hr. split; [|intros r' Hstep [e He]; by destruct Hstep; simpl in *; congruence].
  refine (rtc_inv ftp_step ftp_ok (ftp_start c) r _ _ Hr).
  - unfold ftp_ok. simpl. split_and!; done || lia.
  - intros y z Hstep (H1 & H2 & H3). unfold ftp_ok. destruct Hstep; simpl in *; split_and!;
      first [done | lia | tauto | congruence | (intros; congruence)].
Qed.

(** ** Witnesses: a mount that is busy when the context is done *)

Definition EBUSY : option error := Some (errors_New "device or resource busy").

Definition mounted : mount := mkMount false None true 0 0 None false true AwaitCtx Serving.
Definition busy_mount : mount := mkMount true (Some None) true 0 1 EBUSY false true WatcherGone Serving.

Lemma run_busy : rtc any_step mounted busy_mount.
Proof.
  eapply rtc_l; [right; by apply (out_ready _ None)|].
  eapply rtc_l; [right; apply out_cancel|].
  eapply rtc_l; [left; by apply step_ctx|].
  eapply rtc_l; [left; by apply step_mounted|].
  apply rtc_once. left. simpl.
  exact (step_unmount (mkMount true (Some None) true 0 0 None false true Unmounting Serving) EBUSY eq_refl).
Qed.

Lemma mount_stops_or_blocks_witness :
  (forall k m', nsteps step k busy_mount m' -> k <= 8) /\
  (ctx_done busy_mount = true ->
     ((forall m', ~ step busy_mount m') <-> stopped busy_mount \/ busy busy_mount \/ never_ready busy_mount)) /\
  (stopped busy_mount -> connected busy_mount = false /\ 0 < conn_closes busy_mount /\ fsDone busy_mount = true) /\
  (busy busy_mount -> forall m', any_step busy_mount m' -> busy m' \/ connected m' = false \/ run m' <> Serving).
Proof. exact (mount_stops_or_blocks false mounted busy_mount eq_refl run_busy). Defined.

End FrontendRunTheorems.
