(* ===== verification/Client.v ===== *)
(** * The client of the master ([types.go])

[RUFSMasterClient.Call] reconnects when the connection is shut down: it dials,
replaces the connection, runs the reconnect callback (which signs in again) with
the callback disabled, and tries again. First as a function over a world that
answers calls and dials, then with several callers at once. *)

From S2P Require Import Prelude GoStrings Types.

Module Client.

(** ** One caller *)

Section call.
(** The world: what [rpc.Client.Call] answers on a connection, and what
[tls.Dial] gives. Requests and replies are whatever the methods exchange. *)
Context {World Conn Request Reply : Type}.
Context (rpc_Call : World -> Conn -> Request -> World * (error + Reply)).
Context (tls_Dial : World -> World * (error + Conn)).

Definition ErrShutdown : error := error_var "connection is shut down".

(** What a reconnect callback does: it makes a call, and gives up with an error
made of the call's if that fails, or changes something of the process. *)
Inductive callback_action :=
  | CbCall (q : Request) (wrap : error -> error)
  | CbDo (f : World -> World).

(** The client: its connection ([Client] and [Conn]) and its callback. *)
Record RUFSMasterClient := mkClient { client : Conn; reconnCb : list callback_action }.

(** [SetReconnectCallback] and [AppendReconnectCallback] *)
Definition SetReconnectCallback (c : RUFSMasterClient) (cb : list callback_action) : RUFSMasterClient :=
  mkClient (client c) cb.
Definition AppendReconnectCallback (c : RUFSMasterClient) (cb : list callback_action) : RUFSMasterClient :=
  mkClient (client c) (reconnCb c ++ cb).

Definition reconnect_failed (err : error) : error :=
  Errorf "reconnecting to master failed: %v" [err].

(** The actions of a callback, up to the first that fails; its calls are made
with [call]. *)
Fixpoint run_callback (call : World -> RUFSMasterClient -> Request -> outcome (World * RUFSMasterClient * (error + Reply)))
    (w : World) (c : RUFSMasterClient) (cb : list callback_action)
    : outcome (World * RUFSMasterClient * option error) :=
  match cb with
  | [] => Done (w, c, None)
  | CbCall q wrap :: cb' =>
      '(w, c, r) ← call w c q;
      match r with
      | inl err => Done (w, c, Some (wrap err))
      | inr _ => run_callback call w c cb'
      end
  | CbDo f :: cb' => run_callback call (f w) c cb'
  end.

(** [RUFSMasterClient.Call]. The callback calls it again, with the callback
disabled; [fuel] bounds that. *)
Fixpoint Call (fuel : nat) (w : World) (c : RUFSMasterClient) (q : Request)
    : outcome (World * RUFSMasterClient * (error + Reply)) :=
  match fuel with
  | O => NoFuel
  | S fuel' =>
      let '(w, r) := rpc_Call w (client c) q in
      match r with
      | inr reply => Done (w, c, inr reply)
      | inl err =>
          if error_same err ErrShutdown then
            match tls_Dial w with
            | (w, inl err) => Done (w, c, inl (reconnect_failed err))
            | (w, inr conn) =>
                let cb := reconnCb c in
                '(w, c, r) ← run_callback (Call fuel') w (mkClient conn []) cb;
                match r with
                | Some err => Done (w, mkClient (client c) cb, inl (reconnect_failed err))
                | None =>
                    let '(w, r) := rpc_Call w (client c) q in
                    Done (w, mkClient (client c) cb, r)
                end
            end
          else Done (w, c, inl err)
      end
  end.
End call.

(** ** Several callers

The goroutines of [startSetFileThreads], the frontends and the scanner share one
client, without a lock. [reconnect] is whether [reconnCb] is the callback that
signs in, rather than the one that does nothing. Connections are numbers;
[signed] are those on which Signin succeeded. *)

(** Where a caller is in [Call]: in the RPC, on the connection it read from
[c.Client]; past the dial; in the callback it took from [c.reconnCb]; or about
to try again. *)
Inductive caller :=
  | InRpc (conn : nat)
  | Dialed
  | InCallback (cb : bool)
  | Retry (cb : bool).

Record shared := mkShared {
  current : nat;
  reconnect : bool;
  next_conn : nat;
  alive : gset nat;
  signed : gset nat;
  callers : gmap nat caller;
}.

Definition with_callers (s : shared) (cs : gmap nat caller) : shared :=
  mkShared (current s) (reconnect s) (next_conn s) (alive s) (signed s) cs.

(** A new connection becomes the current one. *)
Definition dialed (s : shared) (cs : gmap nat caller) : shared :=
  mkShared (next_conn s) (reconnect s) (S (next_conn s)) ({[next_conn s]} ∪ alive s) (signed s) cs.

Definition with_reconnect (s : shared) (cb : bool) (cs : gmap nat caller) : shared :=
  mkShared (current s) cb (next_conn s) (alive s) (signed s) cs.

Definition signed_in (s : shared) (cs : gmap nat caller) : shared :=
  mkShared (current s) (reconnect s) (next_conn s) (alive s) ({[current s]} ∪ signed s) cs.

(** One step of caller [t] that is in the midst of [Call]. *)
Inductive call_step (t : nat) : shared -> shared -> Prop :=
  (* the RPC is answered *)
  | call_answered s conn :
      callers s !! t = Some (InRpc conn) -> conn ∈ alive s ->
      call_step t s (with_callers s (delete t (callers s)))
  (* ErrShutdown, and the dial fails *)
  | call_no_dial s conn :
      callers s !! t = Some (InRpc conn) -> conn ∉ alive s ->
      call_step t s (with_callers s (delete t (callers s)))
  (* ErrShutdown, and the dial gives a new connection *)
  | call_dialed s conn :
      callers s !! t = Some (InRpc conn) -> conn ∉ alive s ->
      call_step t s (dialed s (<[t := Dialed]> (callers s)))
  (* cb := c.reconnCb, and the callback that does nothing in its place *)
  | call_take s :
      callers s !! t = Some Dialed ->
      call_step t s (with_reconnect s false (<[t := InCallback (reconnect s)]> (callers s)))
  (* the callback that does nothing *)
  | call_noop s :
      callers s !! t = Some (InCallback false) ->
      call_step t s (with_callers s (<[t := Retry false]> (callers s)))
  (* the callback signs in on the current connection *)
  | call_signin s :
      callers s !! t = Some (InCallback true) -> current s ∈ alive s ->
      call_step t s (signed_in s (<[t := Retry true]> (callers s)))
  (* the current connection is shut down as well: the Call of the callback dials
     again, with the callback that does nothing *)
  | call_signin_dials s :
      callers s !! t = Some (InCallback true) -> current s ∉ alive s ->
      call_step t s (dialed s (callers s))
  (* the callback fails; the deferred function restores it *)
  | call_callback_fails s :
      callers s !! t = Some (InCallback true) -> current s ∉ alive s ->
      call_step t s (with_reconnect s true (delete t (callers s)))
  (* the second try, with whatever result; the deferred function restores the
     callback *)
  | call_retry s cb :
      callers s !! t = Some (Retry cb) ->
      call_step t s (with_reconnect s cb (delete t (callers s))).

(** [conn] is shut down. *)
Definition shut (s : shared) (conn : nat) : shared :=
  mkShared (current s) (reconnect s) (next_conn s) (alive s ∖ {[conn]}) (signed s) (callers s).

(** [may_start] restricts who may call when. *)
Inductive step (may_start : shared -> Prop) : shared -> shared -> Prop :=
  | step_start s t :
      may_start s -> callers s !! t = None ->
      step may_start s (with_callers s (<[t := InRpc (current s)]> (callers s)))
  | step_call s s' t : call_step t s s' -> step may_start s s'
  | step_shut s conn : step may_start s (shut s conn).

(** After [Server.Setup]: signed in on the first connection. *)
Definition start : shared := mkShared 0 true 1 {[0]} {[0]} ∅.

End Client.
