(* ===== verification/ClientTheorems.v ===== *)
(** * What the client of the master guarantees

A call always returns and leaves the callback as it was; one caller at a time
stays signed in; several may lose the sign-in for good. *)

From S2P Require Import Prelude GoStrings Types Client.
Import Client.

Module ClientTheorems.

(** ** One caller *)

Section call.
Context {World Conn Request Reply : Type}.
Context (rpc_Call : World -> Conn -> Request -> World * (error + Reply)).
Context (tls_Dial : World -> World * (error + Conn)).
Abbreviation Call := (Call rpc_Call tls_Dial).
Abbreviation master_client := (RUFSMasterClient (World := World) (Conn := Conn) (Request := Request)).

(** A call that returns and keeps the callback. *)
Definition keeps_callback
    (call : World -> master_client -> Request -> outcome (World * master_client * (error + Reply)))
    (c : master_client) : Prop :=
  forall w q, exists w' (c' : master_client) r, call w c q = Done (w', c', r) /\ reconnCb c' = reconnCb c.

Lemma run_callback_total call w c cb :
  (forall c', reconnCb c' = reconnCb c -> keeps_callback call c') ->
  exists w' c' r, run_callback call w c cb = Done (w', c', r) /\ reconnCb c' = reconnCb c.
Proof.
  revert w c. induction cb as [|[q wrap|f] cb IH]; intros w c Hcall;
    [by eexists _, _, _| |by apply IH].
  cbn [run_callback]. destruct (Hcall c eq_refl w q) as (w' & c' & r & -> & Hc). cbn [mbind outcome_bind].
  destruct r as [err|reply]; [by eexists _, _, _|].
  destruct (IH w' c') as (w2 & c2 & r2 & -> & Hc2).
  { intros c3 H3. apply Hcall. congruence. }
  eexists _, _, _. split; [done|]. congruence.
Qed.

(** One level more than the callback needs. *)
Lemma Call_keeps fuel c :
  (forall c', reconnCb c' = [] -> reconnCb c = [] \/ keeps_callback (Call fuel) c') ->
  keeps_callback (Call (S fuel)) c.
Proof.
  intros Hcb w q. cbn [Client.Call].
  destruct (rpc_Call w (client c) q) as [w1 [err|reply]]; [|by eexists _, _, _].
  destruct (error_same err ErrShutdown); [|by eexists _, _, _].
  destruct (tls_Dial w1) as [w2 [err2|conn]]; [by eexists _, _, _|].
  assert (Hrun : exists w3 c3 r3, run_callback (Call fuel) w2 (mkClient conn []) (reconnCb c) = Done (w3, c3, r3)).
  { assert (reconnCb c = [] \/ reconnCb c <> []) as [->|Hne] by (destruct (reconnCb c); auto);
      [by eexists _, _, _|].
    destruct (run_callback_total (Call fuel) w2 (mkClient conn []) (reconnCb c)) as (w3 & c3 & r3 & H3 & _).
    - intros c' Hc'. by destruct (Hcb c' Hc').
    - by eexists _, _, _. }
  destruct Hrun as (w3 & c3 & r3 & ->). cbn [mbind outcome_bind].
  destruct r3 as [err3|]; [by eexists _, _, _|].
  destruct (rpc_Call w3 (client c3) q) as [w4 r4]. by eexists _, _, _.
Qed.
End call.

(** ** Claims *)

(** [Call] always returns, two levels of calls deep at most, whatever the
master and the network answer and whatever the callback does; it restores the
callback; and it reconnects only after ErrShutdown, any other answer is passed
on with the client as it was. *)
Theorem Call_returns {World Conn Request Reply}
    (rpc_Call : World -> Conn -> Request -> World * (error + Reply))
    (tls_Dial : World -> World * (error + Conn)) fuel w c q :
  exists w' c' r, Call rpc_Call tls_Dial (S (S fuel)) w c q = Done (w', c', r) /\
    reconnCb c' = reconnCb c /\
    (match (rpc_Call w (client c) q).2 with inl err => error_same err ErrShutdown = false | inr _ => True end ->
     c' = c /\ (w', r) = rpc_Call w (client c) q).
Proof.
  destruct (Call_keeps rpc_Call tls_Dial (S fuel) c) with (w := w) (q := q) as (w' & c' & r & Heq & Hc).
  { intros c' Hc'. right. apply Call_keeps. by left. }
  exists w', c', r. split_and!; [done|done|]. cbn [Client.Call] in Heq.
  destruct (rpc_Call w (client c) q) as [w1 [err|reply]]; simpl.
  - intros Hs. rewrite Hs in Heq. by injection Heq as <- <- <-.
  - intros _. by injection Heq as <- <- <-.
Qed.

(** *** A caller at a time *)

(** What holds of the client, by where its only caller is. *)
Definition sole (s : shared) : Prop :=
  (callers s = ∅ /\ reconnect s = true /\ (current s ∈ signed s \/ current s ∉ alive s)) \/
  exists t p, callers s = {[t := p]} /\
    match p with
    | InRpc conn => reconnect s = true /\ conn = current s /\ (current s ∈ signed s \/ current s ∉ alive s)
    | Dialed => reconnect s = true
    | InCallback cb => cb = true /\ reconnect s = false
    | Retry cb => cb = true /\ (current s ∈ signed s \/ current s ∉ alive s)
    end.

Lemma sole_caller s t p :
  sole s -> callers s !! t = Some p ->
  callers s = {[t := p]} /\
    match p with
    | InRpc conn => reconnect s = true /\ conn = current s /\ (current s ∈ signed s \/ current s ∉ alive s)
    | Dialed => reconnect s = true
    | InCallback cb => cb = true /\ reconnect s = false
    | Retry cb => cb = true /\ (current s ∈ signed s \/ current s ∉ alive s)
    end.
Proof.
  intros [(He & _)|(t' & p' & Hc & Hp)] Ht.
  - by rewrite He, lookup_empty in Ht.
  - rewrite Hc in Ht. apply lookup_singleton_Some in Ht as [-> ->]. done.
Qed.

Lemma sole_call t s s' : call_step t s s' -> sole s -> sole s'.
Proof.
  intros Hstep Hs. destruct Hstep; destruct (sole_caller _ _ _ Hs H) as [Hc Hp]; simpl in *.
  - left. simpl. rewrite Hc, delete_singleton_eq. naive_solver.
  - left. simpl. rewrite Hc, delete_singleton_eq. naive_solver.
  - right. exists t, Dialed. simpl. rewrite Hc, insert_singleton_eq. naive_solver.
  - right. exists t, (InCallback (reconnect s)). simpl. rewrite Hc, insert_singleton_eq. naive_solver.
  - naive_solver.
  - right. exists t, (Retry true). simpl. rewrite Hc, insert_singleton_eq. set_solver.
  - right. exists t, (InCallback true). simpl. naive_solver.
  - left. simpl. rewrite Hc, delete_singleton_eq. naive_solver.
  - left. simpl. rewrite Hc, delete_singleton_eq. naive_solver.
Qed.

Lemma sole_step s s' : step (fun s => callers s = ∅) s s' -> sole s -> sole s'.
Proof.
  intros Hstep Hs. destruct Hstep as [s t Hempty Hnone|s s' t Hcall|s conn].
  - destruct Hs as [(_ & Hr & Hc)|(t' & p & Hc & _)].
    + right. exists t, (InRpc (current s)). simpl. rewrite Hempty. done.
    + rewrite Hempty in Hc. exfalso. apply (map_non_empty_singleton t' p). done.
  - by eapply sole_call.
  - destruct Hs as [(He & Hr & Hc)|(t' & p & Hc & Hp)].
    + left. simpl. set_solver.
    + right. exists t', p. simpl. split; [done|]. destruct p; set_solver.
Qed.

Lemma sole_steps s s' : rtc (step (fun s => callers s = ∅)) s s' -> sole s -> sole s'.
Proof. induction 1 as [|s1 s2 s3 Hstep _ IH]; [done|]. intros Hs. apply IH. by eapply sole_step. Qed.

(** With one caller at a time the client stays signed in: in every reachable
state without a call under way, however often connections break and dials and
callbacks fail, the callback is in place and the current connection is signed in
unless it is broken, in which case the next call finds out. *)
Theorem single_caller_stays_signed_in s :
  rtc (step (fun s => callers s = ∅)) start s -> callers s = ∅ ->
  reconnect s = true /\ (current s ∈ signed s \/ current s ∉ alive s).
Proof.
  intros Hrun Hempty.
  assert (sole s) as [(_ & H)|(t & p & Hc & _)].
  { apply (sole_steps _ _ Hrun). left. split_and!; [done|done|]. left. unfold start. simpl. set_solver. }
  - done.
  - rewrite Hempty in Hc. exfalso. by apply (map_non_empty_singleton t p).
Qed.

(** *** Several callers *)

(** The callback is lost and nobody will put it back. *)
Definition lost (s : shared) : Prop :=
  reconnect s = false /\ (forall t cb, callers s !! t = Some (InCallback cb) -> cb = false) /\
  (forall t cb, callers s !! t = Some (Retry cb) -> cb = false) /\
  (forall c, c ∈ signed s -> c < current s) /\ current s < next_conn s.

Lemma lost_call t s s' : call_step t s s' -> lost s -> lost s'.
Proof.
  intros Hstep (Hr & Hi & Hy & Hs & Hn).
  destruct Hstep as [s conn Ht|s conn Ht|s conn Ht|s Ht|s Ht|s Ht|s Ht|s Ht|s cb Ht]; unfold lost; simpl;
    try (by specialize (Hi t true Ht)).
  - split_and!; try done; intros t' cb [_ Hl]%lookup_delete_Some; eauto.
  - split_and!; try done; intros t' cb [_ Hl]%lookup_delete_Some; eauto.
  - split_and!; try done; try lia.
    + intros t' cb [[_ ?]|[_ Hl]]%lookup_insert_Some; [done|eauto].
    + intros t' cb [[_ ?]|[_ Hl]]%lookup_insert_Some; [done|eauto].
    + intros c Hc. specialize (Hs c Hc). lia.
  - split_and!; try done.
    + intros t' cb [[_ ?]|[_ Hl]]%lookup_insert_Some; [naive_solver|eauto].
    + intros t' cb [[_ ?]|[_ Hl]]%lookup_insert_Some; [done|eauto].
  - split_and!; try done.
    + intros t' cb [[_ ?]|[_ Hl]]%lookup_insert_Some; [done|eauto].
    + intros t' cb [[_ ?]|[_ Hl]]%lookup_insert_Some; [naive_solver|eauto].
  - assert (cb = false) as -> by eauto.
    split_and!; try done; intros t' cb [_ Hl]%lookup_delete_Some; eauto.
Qed.

Lemma lost_steps s s' : rtc (step (fun _ => True)) s s' -> lost s -> lost s'.
Proof.
  induction 1 as [|s1 s2 s3 Hstep _ IH]; [done|]. intros Hl. apply IH.
  destruct Hstep as [s t _ Hnone|s s' t Hcall|s conn]; [|by eapply lost_call|done].
  destruct Hl as (Hr & Hi & Hy & Hs & Hn). unfold lost. simpl.
  split_and!; try done; intros t' cb [[_ ?]|[_ Hl]]%lookup_insert_Some; (done || eauto).
Qed.

(** The end of a run with two callers. *)
Definition lost_end : shared := mkShared 2 false 3 {[1; 2]} {[0; 1]} ∅.

(** Two callers can lose the sign-in for good: when both find the
connection shut down and the second takes the callback while the first has it,
a state is reached in which nobody is calling, the current connection is alive
and not signed in, and the callback is the one that does nothing; in every
later state, through any further reconnections, the current connection is never
signed in again, so that the master refuses whatever the peer publishes. *)
Theorem two_callers_lose_signin :
  exists s, rtc (step (fun _ => True)) start s /\
    callers s = ∅ /\ current s ∈ alive s /\
    forall s', rtc (step (fun _ => True)) s s' -> reconnect s' = false /\ current s' ∉ signed s'.
Proof.
  set (s1 := with_callers start {[1 := InRpc 0]}).
  set (s2 := with_callers start {[1 := InRpc 0; 2 := InRpc 0]}).
  set (s3 := shut s2 0).
  set (s4 := dialed s3 {[1 := Dialed; 2 := InRpc 0]}).
  set (s5 := with_reconnect s4 false {[1 := InCallback true; 2 := InRpc 0]}).
  set (s6 := signed_in s5 {[1 := Retry true; 2 := InRpc 0]}).
  set (s7 := dialed s6 {[1 := Retry true; 2 := Dialed]}).
  set (s8 := with_reconnect s7 false {[1 := Retry true; 2 := InCallback false]}).
  set (s9 := with_reconnect s8 true {[2 := InCallback false]}).
  set (s10 := with_callers s9 {[2 := Retry false]}).
  exists (with_reconnect s10 false ∅). split_and!; [|done|set_solver|].
  - eapply (rtc_l _ _ s1); [apply (step_start _ start 1); done|].
    eapply (rtc_l _ _ s2); [apply (step_start _ s1 2); done|].
    eapply (rtc_l _ _ s3); [apply step_shut|].
    eapply (rtc_l _ _ s4); [apply (step_call _ _ _ 1), (call_dialed 1 s3 0); [done|set_solver]|].
    eapply (rtc_l _ _ s5); [by apply (step_call _ _ _ 1), (call_take 1 s4)|].
    eapply (rtc_l _ _ s6); [apply (step_call _ _ _ 1), (call_signin 1 s5); [done|set_solver]|].
    eapply (rtc_l _ _ s7); [apply (step_call _ _ _ 2), (call_dialed 2 s6 0); [done|set_solver]|].
    eapply (rtc_l _ _ s8); [by apply (step_call _ _ _ 2), (call_take 2 s7)|].
    eapply (rtc_l _ _ s9); [by apply (step_call _ _ _ 1), (call_retry 1 s8 true)|].
    eapply (rtc_l _ _ s10); [by apply (step_call _ _ _ 2), (call_noop 2 s9)|].
    apply rtc_once. by apply (step_call _ _ _ 2), (call_retry 2 s10 false).
  - intros s' Hrun. apply lost_steps in Hrun as (Hr & _ & _ & Hs & _).
    + split; [done|]. intros Hc. specialize (Hs _ Hc). lia.
    + unfold lost. simpl. split_and!; try done; try lia.
      intros c Hc. set_unfold in Hc. destruct Hc as [->| ->]; lia.
Qed.

Lemma single_caller_stays_signed_in_witness :
  reconnect (shut start 0) = true /\
  (current (shut start 0) ∈ signed (shut start 0) \/ current (shut start 0) ∉ alive (shut start 0)).
Proof.
  refine (single_caller_stays_signed_in (shut start 0) _ _); [|done].
  apply rtc_once, step_shut.
Defined.

End ClientTheorems.
