(* ===== verification/Rpc.v ===== *)
(** * The remote procedures ([types.go])

The requests and replies of the two services, the methods of the clients that
fill in a request and make the call, and the client of a peer, which reconnects
without a callback. *)

From S2P Require Import Prelude GoStrings Types Client.
Import Client.

Module Rpc.

(** ** The master's service *)

(** The arguments of the methods of [RUFSMasterService]. *)
Inductive master_request :=
  | CallRegister (q : RegisterRequest)
  | CallSignin (q : SigninRequest)
  | CallSetFile (q : SetFileRequest)
  | CallGetDir (q : GetDirRequest)
  | CallGetOwners (q : GetOwnersRequest).

(** Their replies; those of Signin and SetFile are empty. *)
Inductive master_reply :=
  | ReplyRegister (Certificate : string)
  | ReplySignin
  | ReplySetFile
  | ReplyGetDir (r : GetDirReply)
  | ReplyGetOwners (Owners : list string).

(** The name a call is made by. *)
Definition method (q : master_request) : string :=
  match q with
  | CallRegister _ => "RUFSMasterService.Register"
  | CallSignin _ => "RUFSMasterService.Signin"
  | CallSetFile _ => "RUFSMasterService.SetFile"
  | CallGetDir _ => "RUFSMasterService.GetDir"
  | CallGetOwners _ => "RUFSMasterService.GetOwners"
  end.

(** The error of [net/rpc] for a reply that does not decode into the result. *)
Definition err_reading_body : error := errors_New "reading body".

(** What [net/rpc] makes of the error of a handler: the client gets an error of
its own with the text. *)
Definition ServerError (err : error) : error :=
  match err with error_var text => errors_New text | err => err end.

(** An answer that leaves nothing in the result. *)
Definition no_reply (r : error + master_reply) : option error :=
  match r with inl err => Some err | inr _ => Some err_reading_body end.

Section master_client.
Context {World Conn : Type}.
Context (rpc_Call : World -> Conn -> master_request -> World * (error + master_reply)).
Context (tls_Dial : World -> World * (error + Conn)).

Abbreviation master_client := (RUFSMasterClient (World := World) (Conn := Conn) (Request := master_request)).
Abbreviation Call := (Client.Call rpc_Call tls_Dial).

(** [NewRUFSMasterClient]; its callback does nothing. *)
Definition NewRUFSMasterClient (w : World) : World * (error + master_client) :=
  match tls_Dial w with
  | (w, inl err) => (w, inl err)
  | (w, inr conn) => (w, inr (mkClient conn []))
  end.

(** [RUFSMasterClient.Register]: the certificate of the reply. *)
Definition Register (fuel : nat) (w : World) (c : master_client) (user token pub : string)
    : outcome (World * master_client * (string * option error)) :=
  let q := {| Register_User := user; Register_Token := token; Register_PublicKey := pub |} in
  '(w, c, r) ← Call fuel w c (CallRegister q);
  Done (w, c, match r with inr (ReplyRegister crt) => (crt, None) | r => ("", no_reply r) end).

(** The request of [Signin] for an address and a user. *)
Definition signin_request (addr user : string) : master_request :=
  CallSignin {| Signin_ProtocolVersion := 1; Signin_User := user; Signin_Address := addr |}.

(** [RUFSMasterClient.Signin] *)
Definition Signin (fuel : nat) (w : World) (c : master_client) (addr user : string)
    : outcome (World * master_client * option error) :=
  '(w, c, r) ← Call fuel w c (signin_request addr user);
  Done (w, c, match r with inr ReplySignin => None | r => no_reply r end).

(** [RUFSMasterClient.SetFile] *)
Definition SetFile (fuel : nat) (w : World) (c : master_client) (q : SetFileRequest)
    : outcome (World * master_client * option error) :=
  '(w, c, r) ← Call fuel w c (CallSetFile q);
  Done (w, c, match r with inr ReplySetFile => None | r => no_reply r end).

(** [RUFSMasterClient.GetDir]; the reply is a pointer, nil on an error. *)
Definition GetDir (fuel : nat) (w : World) (c : master_client) (path : string)
    : outcome (World * master_client * (option GetDirReply * option error)) :=
  '(w, c, r) ← Call fuel w c (CallGetDir {| GetDir_Path := path |});
  Done (w, c, match r with inr (ReplyGetDir d) => (Some d, None) | r => (None, no_reply r) end).

(** [RUFSMasterClient.GetOwners] *)
Definition GetOwners (fuel : nat) (w : World) (c : master_client) (hash : string)
    : outcome (World * master_client * (option (list string) * option error)) :=
  '(w, c, r) ← Call fuel w c (CallGetOwners {| GetOwners_Hash := hash |});
  Done (w, c, match r with inr (ReplyGetOwners os) => (Some os, None) | r => (None, no_reply r) end).
End master_client.

(** ** The service of a peer *)

Inductive peer_request :=
  | CallPing
  | CallRead (q : ReadRequest).

Inductive peer_reply :=
  | ReplyPing
  | ReplyRead (Data : list Byte.byte).

Definition peer_method (q : peer_request) : string :=
  match q with
  | CallPing => "RUFSService.Ping"
  | CallRead _ => "RUFSService.Read"
  end.

Definition no_peer_reply (r : error + peer_reply) : option error :=
  match r with inl err => Some err | inr _ => Some err_reading_body end.

Section peer_client.
Context {World Conn : Type}.
Context (rpc_Call : World -> Conn -> peer_request -> World * (error + peer_reply)).
Context (tls_Dial : World -> World * (error + Conn)).

(** [RUFSClient]: its connection, [Client] and [Conn] of the code. *)
Record RUFSClient := mkRUFSClient { connection : Conn }.

Definition NewRUFSClient (w : World) : World * (error + RUFSClient) :=
  match tls_Dial w with
  | (w, inl err) => (w, inl err)
  | (w, inr conn) => (w, inr (mkRUFSClient conn))
  end.

(** [RUFSClient.Call] *)
Definition peer_Call (w : World) (c : RUFSClient) (q : peer_request)
    : World * RUFSClient * (error + peer_reply) :=
  let '(w, r) := rpc_Call w (connection c) q in
  match r with
  | inr reply => (w, c, inr reply)
  | inl err =>
      if error_same err ErrShutdown then
        match NewRUFSClient w with
        | (w, inl err) => (w, c, inl err)
        | (w, inr rc) =>
            let c := mkRUFSClient (connection rc) in
            let '(w, r) := rpc_Call w (connection c) q in (w, c, r)
        end
      else (w, c, inl err)
  end.

(** [RUFSClient.Ping] *)
Definition Ping (w : World) (c : RUFSClient) : World * RUFSClient * option error :=
  let '(w, c, r) := peer_Call w c CallPing in
  (w, c, match r with inr ReplyPing => None | r => no_peer_reply r end).

(** [RUFSClient.Read]; the reply is a pointer, nil on an error. *)
Definition Read (w : World) (c : RUFSClient) (hash : string) (offset size : Z)
    : World * RUFSClient * (option (list Byte.byte) * option error) :=
  let q := {| Read_Hash := hash; Read_Offset := offset; Read_Size := size |} in
  let '(w, c, r) := peer_Call w c (CallRead q) in
  (w, c, match r with inr (ReplyRead d) => (Some d, None) | r => (None, no_peer_reply r) end).
End peer_client.

End Rpc.
