(* ===== verification/Session.v ===== *)
(** * A peer and the master over connections that break

The client of the master ([types.go]) put together with the handlers of the
master ([master.go]): what a call on a connection does to the master, and what
the master does when it notices that a connection has ended. *)

From S2P Require Import Prelude GoStrings Types Crypto DatabaseSpec Master Client Rpc.
Import Crypto Client Rpc.

Module Session.
Section session.
Context `{X509} {ops : DatabaseOps}.

(** What [Register] is called with: randomness, serial numbers and times. *)
Record signing := { sign_rnd : Z; sign_serial : error + Z; sign_now : Z; sign_now' : Z }.

Context (vault : MasterVault) (sgn : signing).
(** The network from the master to the peer; what the master sees of the peer's
connections; and the errors of [tls.Dial], by the number of the attempt. *)
Context (netw : Master.Network) (conn_of : Master.Conn) (dial_err : nat -> option error).

(** The result of a handler without a reply. *)
Definition reply_or (reply : master_reply) (e : option error) : error + master_reply :=
  match e with Some err => inl (ServerError err) | None => inr reply end.

(** The methods of [RUFSMasterService], and the one that [rpc.Server] finds by a
name: that of the type, a dot and that of the method. *)
Inductive service_method := Register_method | Signin_method | SetFile_method | GetDir_method | GetOwners_method.

Definition find_method (name : string) : option service_method :=
  match name with
  | "RUFSMasterService.Register" => Some Register_method
  | "RUFSMasterService.Signin" => Some Signin_method
  | "RUFSMasterService.SetFile" => Some SetFile_method
  | "RUFSMasterService.GetDir" => Some GetDir_method
  | "RUFSMasterService.GetOwners" => Some GetOwners_method
  | _ => None
  end.

(** The errors of [rpc.Server] for a name without a method, and for a request that
is not the argument of the method: there is none with the names of [types.go]. *)
Definition err_no_method (name : string) : error :=
  Errorf "rpc: can't find method %s" [errors_New name].
Definition err_bad_argument : error := errors_New "gob: type mismatch".

(** A call on the connection [id]: the method of the name, called with the
argument that was sent. *)
Definition serve (st : Master.state) (id : nat) (conn : Master.Conn) (peer : Master.Peer)
    (q : master_request) : outcome (Master.state * (error + master_reply)) :=
  match find_method (method q), q with
  | Some Register_method, CallRegister q =>
      '(crt, e) ← Master.Register (sign_rnd sgn) (sign_serial sgn) (sign_now sgn) (sign_now' sgn) vault q;
      Done (st, reply_or (ReplyRegister crt) e)
  | Some Signin_method, CallSignin q =>
      '(peer, e) ← Master.Signin netw conn peer q;
      Done (Master.mkState (Master.database st) (<[id := (conn, peer)]> (Master.peers st)), reply_or ReplySignin e)
  | Some SetFile_method, CallSetFile q =>
      '(d, e) ← Master.SetFile peer (Master.database st) q;
      Done (Master.mkState d (Master.peers st), reply_or ReplySetFile e)
  | Some GetDir_method, CallGetDir q =>
      '(d, r, e) ← Master.GetDir peer (Master.database st) (GetDir_Path q);
      Done (Master.mkState d (Master.peers st), reply_or (ReplyGetDir (default (mkGetDirReply [] ∅) r)) e)
  | Some GetOwners_method, CallGetOwners q =>
      '(os, e) ← Master.GetOwners peer (Master.database st) (GetOwners_Hash q);
      Done (st, reply_or (ReplyGetOwners os) e)
  | Some _, _ => Done (st, inl err_bad_argument)
  | None, _ => Done (st, inl (err_no_method (method q)))
  end.

(** The master, or none after a handler has panicked; the connections that the
peer can use; and the number of the next one. *)
Record World := mkWorld {
  master : option Master.state;
  alive : gset nat;
  next_conn : nat;
}.

(** [rpc.Client.Call] on a connection. *)
Definition rpc_Call (w : World) (id : nat) (q : master_request) : World * (error + master_reply) :=
  if decide (id ∈ alive w) then
    match master w with
    | None => (w, inl ErrShutdown)
    | Some st =>
        match Master.peers st !! id with
        | None => (w, inl ErrShutdown)
        | Some (conn, peer) =>
            match serve st id conn peer q with
            | Done (st, r) => (mkWorld (Some st) (alive w) (next_conn w), r)
            | _ => (mkWorld None ∅ (next_conn w), inl (errors_New "unexpected EOF"))
            end
        end
    end
  else (w, inl ErrShutdown).

(** [tls.Dial], and the [Accept] of the master's [Run]. *)
Definition tls_Dial (w : World) : World * (error + nat) :=
  let id := next_conn w in
  match master w, dial_err id with
  | None, _ => (mkWorld None (alive w) (S id), inl (errors_New "connection refused"))
  | Some st, Some err => (mkWorld (Some st) (alive w) (S id), inl err)
  | Some st, None =>
      (mkWorld (Some (Master.mkState (Master.database st) (<[id := (conn_of, Master.new_peer)]> (Master.peers st))))
         ({[id]} ∪ alive w) (S id), inr id)
  end.

(** The client of the peer, with callbacks over this world. *)
Definition master_client := RUFSMasterClient (World := World) (Conn := nat) (Request := master_request).

(** The error of the callback that [Server.Setup] sets. *)
Definition signin_failed (err : error) : error := Errorf "Signin failed: %v" [err].

(** The callback of [Server.Setup]: to sign in with this request. *)
Definition signs_in (sq : SigninRequest) : list (callback_action (World := World) (Request := master_request)) :=
  [CbCall (CallSignin sq) signin_failed].

(** [RUFSMasterClient.Call] on this master; the fuel is for the two levels of
calls that there can be ([Call_returns]). *)
Definition call (w : World) (c : master_client) (q : master_request)
    : outcome (World * master_client * (error + master_reply)) :=
  Call rpc_Call tls_Dial 2 w c q.

Definition publish (w : World) (c : master_client) (q : SetFileRequest)
    : outcome (World * master_client * option error) :=
  SetFile rpc_Call tls_Dial 2 w c q.

(** What happens to connections without the peer's doing. One breaks: *)
Definition break (w : World) (id : nat) : World :=
  mkWorld (master w) (alive w ∖ {[id]}) (next_conn w).

(** and, maybe much later, the master notices and runs the deferred
[Disconnected]. *)
Definition notice (w : World) (id : nat) : World :=
  match master w with
  | None => w
  | Some st =>
      match Master.peers st !! id with
      | None => w
      | Some (_, peer) =>
          match Master.Disconnected peer (Master.database st) with
          | Done d => mkWorld (Some (Master.mkState d (delete id (Master.peers st)))) (alive w ∖ {[id]}) (next_conn w)
          | _ => mkWorld None ∅ (next_conn w)
          end
      end
  end.

(** The life of one peer: its calls, with what happens to its connections. *)
Inductive life : World * master_client -> World * master_client -> Prop :=
  | life_call w c q w' c' r : call w c q = Done (w', c', r) -> life (w, c) (w', c')
  | life_break w c id : life (w, c) (break w id, c)
  | life_notice w c id : life (w, c) (notice w id, c).

(** A master that was just started, and the client that [NewRUFSMasterClient]
gives on its first connection. *)
Definition first_world (d0 : db) : World :=
  mkWorld (Some (Master.mkState d0 {[0 := (conn_of, Master.new_peer)]})) {[0]} 1.

End session.
End Session.
