(* ===== verification/SessionTheorems.v ===== *)
(** * What a peer and the master guarantee together

The calls of a peer are steps of the master; a publication survives a
connection that broke; and a master that notices the old connection late takes
the publication back. *)

From S2P Require Import Prelude GoStrings Types Crypto DatabaseSpec DatabaseInmem.
From S2P Require Import DatabaseInmemTree DatabaseInmemProofs DatabaseInmemTheorems.
From S2P Require Import DatabaseInmemInterface Master MasterTheorems CryptoTheorems Client.
From S2P Require Import ClientTheorems Rpc Session.
Import Crypto Client Rpc Session MasterTheorems ClientTheorems.

Module SessionTheorems.

Section theorems.
Context `{X509} {ops : DatabaseOps}.
Context (vault : MasterVault) (sgn : signing) (netw : Master.Network) (conn_of : Master.Conn)
  (dial_err : nat -> option error).
Abbreviation serve := (serve vault sgn netw).
Abbreviation rpc_Call := (rpc_Call vault sgn netw).
Abbreviation tls_Dial := (tls_Dial conn_of dial_err).
Abbreviation call := (call vault sgn netw conn_of dial_err).
Abbreviation publish := (publish vault sgn netw conn_of dial_err).
Abbreviation life := (life vault sgn netw conn_of dial_err).
Implicit Types (w : World) (c : master_client) (st : Master.state).

(** ** Steps of the master *)

(** The numbers from [next_conn] on are not taken, and the others are the
peer's. *)
Definition fresh w : Prop :=
  forall st, master w = Some st ->
    (forall id, next_conn w <= id -> Master.peers st !! id = None) /\
    (forall id conn peer, Master.peers st !! id = Some (conn, peer) -> conn = conn_of).

(** What is left of the master in [w'] it has reached from [w] by its steps. *)
Definition moves w w' : Prop :=
  (fresh w -> fresh w') /\
  forall st', master w' = Some st' -> fresh w -> exists st, master w = Some st /\ rtc Master.step st st'.

Lemma moves_refl w : moves w w.
Proof. split; [done|]. intros st Hst _. exists st. by split; [|apply rtc_refl]. Qed.

Lemma moves_trans w1 w2 w3 : moves w1 w2 -> moves w2 w3 -> moves w1 w3.
Proof.
  intros [Hf1 H1] [Hf2 H2]. split; [auto|]. intros st3 H3 Hf.
  destruct (H2 st3 H3 (Hf1 Hf)) as (st2 & Hst2 & Hs2).
  destruct (H1 st2 Hst2 Hf) as (st1 & Hst1 & Hs1). exists st1. split; [done|]. by etrans.
Qed.

Lemma moves_crash w n : moves w (mkWorld None ∅ n).
Proof. split; [by intros _ st|]. by intros st'. Qed.

(** [st'] has no connection that [st] does not have. *)
Definition same_conns st st' : Prop :=
  forall id conn peer', Master.peers st' !! id = Some (conn, peer') ->
    exists peer, Master.peers st !! id = Some (conn, peer).

(** One step, on a connection that is there. *)
Lemma moves_step w st st' al :
  master w = Some st -> st' = st \/ Master.step st st' -> same_conns st st' ->
  moves w (mkWorld (Some st') al (next_conn w)).
Proof.
  intros Hst Hstep Hdom. split.
  - intros Hf st2 [= <-]. destruct (Hf st Hst) as [Hn Hc]. split.
    + intros id Hid. apply eq_None_not_Some. intros [[conn peer] Hs].
      apply Hdom in Hs as [peer' Hs]. by rewrite Hn in Hs.
    + intros id conn peer [peer' Hs]%Hdom. by eapply Hc.
  - intros st2 [= <-] _. exists st. split; [done|].
    destruct Hstep as [->|Hstep]; [apply rtc_refl|by apply rtc_once].
Qed.

Lemma serve_step st id conn peer q st' r :
  Master.peers st !! id = Some (conn, peer) -> serve st id conn peer q = Done (st', r) ->
  (st' = st \/ Master.step st st') /\ same_conns st st'.
Proof.
  intros Hp Hrun. destruct q as [q|q|q|q|q]; unfold Session.serve in Hrun.
  - destruct (Master.Register _ _ _ _ _ q) as [[crt e]| |]; simpl in Hrun; try done.
    injection Hrun as <- _. split; [by left|intros i; eauto].
  - destruct (Master.Signin netw conn peer q) as [[peer' e]| |] eqn:E; simpl in Hrun; try done.
    injection Hrun as <- _. split; [right; by eapply Master.step_signin|]. intros i conn2 peer2 Hi.
    simpl in Hi. destruct (decide (i = id)) as [->|Hne].
    + rewrite lookup_insert_eq in Hi. injection Hi as <- _. eauto.
    + rewrite lookup_insert_ne in Hi by done. eauto.
  - destruct (Master.SetFile peer _ q) as [[d e]| |] eqn:E; simpl in Hrun; try done.
    injection Hrun as <- _. split; [right; by eapply Master.step_setfile|intros i; eauto].
  - destruct (Master.GetDir peer _ _) as [[[d r'] e]| |] eqn:E; simpl in Hrun; try done.
    injection Hrun as <- _. split; [right; by eapply Master.step_getdir|intros i; eauto].
  - destruct (Master.GetOwners peer _ _) as [[os e]| |]; simpl in Hrun; try done.
    injection Hrun as <- _. split; [by left|intros i; eauto].
Qed.

Lemma rpc_Call_moves w id q : moves w (rpc_Call w id q).1.
Proof.
  unfold Session.rpc_Call. case_decide; [|apply moves_refl].
  destruct (master w) as [st|] eqn:Hst; [|apply moves_refl].
  destruct (Master.peers st !! id) as [[conn peer]|] eqn:Hp; [|apply moves_refl].
  destruct (serve st id conn peer q) as [[st' r]| |] eqn:Hrun; [|apply moves_crash..].
  destruct (serve_step st id conn peer q st' r Hp Hrun) as [Hstep Hdom]. by eapply moves_step.
Qed.

Lemma tls_Dial_moves w : moves w (tls_Dial w).1.
Proof.
  unfold Session.tls_Dial. destruct (master w) as [st|] eqn:Hst; [|by split; [intros _ ?|intros ?]].
  destruct (dial_err (next_conn w)) as [err|]; simpl; split.
  - intros Hf st' [= <-]. destruct (Hf st Hst) as [Hn Hc]. split; [|done].
    intros id Hid. apply Hn. simpl in Hid. lia.
  - intros st' [= <-] _. exists st. by split; [|apply rtc_refl].
  - intros Hf st' [= <-]. destruct (Hf st Hst) as [Hn Hc]. simpl. split; intros id.
    + intros Hid. rewrite lookup_insert_ne by lia. apply Hn. lia.
    + intros conn peer. destruct (decide (id = next_conn w)) as [->|Hne].
      * rewrite lookup_insert_eq. by intros [= <- _].
      * rewrite lookup_insert_ne by done. apply Hc.
  - intros st' [= <-] Hf. exists st. split; [done|]. apply rtc_once, Master.step_accept. by apply (Hf st).
Qed.

(** What the callback does itself is elsewhere in the process. *)
Definition elsewhere (cb : list (callback_action (World := World) (Request := master_request))) : Prop :=
  Forall (fun a => match a with CbCall _ _ => True | CbDo f => forall w, f w = w end) cb.

Definition call_moves (f : World -> master_client -> master_request -> outcome (World * master_client * (error + master_reply))) : Prop :=
  forall w c q w' c' r, elsewhere (reconnCb c) -> f w c q = Done (w', c', r) ->
    moves w w' /\ elsewhere (reconnCb c').

Lemma run_callback_moves f w c cb w' c' e :
  call_moves f -> elsewhere cb -> elsewhere (reconnCb c) ->
  run_callback f w c cb = Done (w', c', e) -> moves w w'.
Proof.
  intros Hf. revert w c. induction cb as [|[q wrap|g] cb IH]; intros w c Hcb Hc Hrun; cbn [run_callback] in Hrun.
  - injection Hrun as <- _ _. apply moves_refl.
  - apply Forall_cons in Hcb as [_ Hcb].
    destruct (f w c q) as [[[w1 c1] r]| |] eqn:Hq; cbn [mbind outcome_bind] in Hrun; try done.
    apply Hf in Hq as [Hq Hc1]; [|done]. destruct r as [err|reply]; [injection Hrun as <- _ _; done|].
    eapply moves_trans; [exact Hq|]. by eapply IH.
  - apply Forall_cons in Hcb as [Hg Hcb]. rewrite Hg in Hrun. by eapply IH.
Qed.

Lemma Call_moves fuel : call_moves (Call rpc_Call tls_Dial fuel).
Proof.
  induction fuel as [|fuel IH]; intros w c q w' c' r Hc Hrun; cbn [Call] in Hrun; [done|].
  pose proof (rpc_Call_moves w (client c) q) as Hm.
  destruct (rpc_Call w (client c) q) as [w1 [err|reply]]; simpl in Hm; [|injection Hrun as <- <- _; done].
  destruct (error_same err ErrShutdown); [|injection Hrun as <- <- _; done].
  pose proof (moves_trans _ _ _ Hm (tls_Dial_moves w1)) as Hm1.
  destruct (tls_Dial w1) as [w2 [err2|conn]]; simpl in Hm1; [injection Hrun as <- <- _; done|].
  destruct (run_callback _ w2 _ (reconnCb c)) as [[[w3 c3] e3]| |] eqn:Hcb;
    cbn [mbind outcome_bind] in Hrun; try done.
  apply (run_callback_moves _ w2 _ _ w3 c3 e3 IH) in Hcb; [|done|constructor].
  pose proof (moves_trans _ _ _ Hm1 Hcb) as Hm3.
  destruct e3; [injection Hrun as <- <- _; done|].
  pose proof (rpc_Call_moves w3 (client c3) q) as Hm4.
  destruct (rpc_Call w3 (client c3) q) as [w4 r4]. injection Hrun as <- <- _.
  split; [by eapply moves_trans|done].
Qed.

Lemma notice_moves w id : moves w (notice w id).
Proof.
  unfold notice. destruct (master w) as [st|] eqn:Hst; [|apply moves_refl].
  destruct (Master.peers st !! id) as [[conn peer]|] eqn:Hp; [|apply moves_refl].
  destruct (Master.Disconnected peer _) as [d| |] eqn:Hrun; [|apply moves_crash..].
  eapply moves_step; [done|right; by eapply Master.step_disconnect|]. intros i conn' peer' Hi. simpl in Hi.
  apply lookup_delete_Some in Hi as [_ Hi]. eauto.
Qed.

Lemma break_moves w id : moves w (break w id).
Proof.
  split; [done|]. intros st Hst _. exists st. by split; [|apply rtc_refl].
Qed.

Lemma life_moves w c w' c' :
  elsewhere (reconnCb c) -> life (w, c) (w', c') -> moves w w' /\ elsewhere (reconnCb c').
Proof.
  intros Hc Hl. inversion Hl as [? ? q ? ? r Hrun| |]; subst; [by eapply Call_moves|split..];
    [apply break_moves|done|apply notice_moves|done].
Qed.

(** ** Reconnecting *)

(** The world after a reconnection: a new connection, signed in as [peer]. *)
Definition reconnected w st (peer : Master.Peer) : World :=
  let id := next_conn w in
  mkWorld (Some (Master.mkState (Master.database st) (<[id := (conn_of, peer)]> (Master.peers st))))
    ({[id]} ∪ alive w) (S id).

Lemma rpc_Call_broken w id q : id ∉ alive w -> rpc_Call w id q = (w, inl ErrShutdown).
Proof. intros Hid. unfold Session.rpc_Call. by rewrite decide_False. Qed.

Lemma rpc_Call_alive w st id conn peer q :
  id ∈ alive w -> master w = Some st -> Master.peers st !! id = Some (conn, peer) ->
  rpc_Call w id q =
    match serve st id conn peer q with
    | Done (st, r) => (mkWorld (Some st) (alive w) (next_conn w), r)
    | _ => (mkWorld None ∅ (next_conn w), inl (errors_New "unexpected EOF"))
    end.
Proof. intros Hid Hst Hp. unfold Session.rpc_Call. by rewrite decide_True, Hst, Hp by done. Qed.

Lemma call_reconnects w c st q sq peer :
  master w = Some st -> client c ∉ alive w -> dial_err (next_conn w) = None ->
  reconnCb c = signs_in sq -> Master.Signin netw conn_of Master.new_peer sq = Done (peer, None) ->
  call w c q =
    let '(w', r) := rpc_Call (reconnected w st peer) (next_conn w) q in
    Done (w', mkClient (next_conn w) (reconnCb c), r).
Proof.
  intros Hst Hc Hdial Hcb Hsign. set (id := next_conn w).
  set (st1 := Master.mkState (Master.database st) (<[id := (conn_of, Master.new_peer)]> (Master.peers st))).
  set (w1 := mkWorld (Some st1) ({[id]} ∪ alive w) (S id)).
  assert (Hd : tls_Dial w = (w1, inr id)) by (unfold Session.tls_Dial; by rewrite Hst, Hdial).
  assert (Hs : rpc_Call w1 id (CallSignin sq) = (reconnected w st peer, inr ReplySignin)).
  { rewrite (rpc_Call_alive w1 st1 id conn_of Master.new_peer); [|simpl; set_solver|done|apply lookup_insert_eq].
    unfold Session.serve, st1. rewrite Hsign. cbn [mbind outcome_bind Master.database Master.peers reply_or].
    rewrite insert_insert_eq. done. }
  unfold Session.call. cbn [Call]. rewrite rpc_Call_broken by done. cbn [error_same ErrShutdown].
  rewrite bool_decide_eq_true_2 by done. rewrite Hd, Hcb. unfold signs_in. cbn [run_callback Call mbind outcome_bind client].
  rewrite Hs. cbn [mbind outcome_bind client]. fold id.
  by destruct (rpc_Call (reconnected w st peer) id q) as [w' r].
Qed.

(** [SetFile] of a client whose connection broke, on a database that takes the
publication. *)
Lemma publish_reconnects {laws : DatabaseLaws ops} {full : DatabaseComplete ops laws}
    owner_of w c st S q f sq peer :
  master w = Some st -> client c ∉ alive w -> dial_err (next_conn w) = None ->
  reconnCb c = signs_in sq -> Master.Signin netw conn_of Master.new_peer sq = Done (peer, None) ->
  db_holds owner_of (Master.database st) S ->
  Master.address peer <> "" -> good_part (Master.user peer) ->
  SetFile_Info q = Some f ->
  Forall (fun p => bad_part p = false) (strings.Split (SetFile_Path q) "/") ->
  let p := path_of (Master.user peer) (SetFile_Path q) in
  owner_of p = Master.ident peer ->
  exists d, publish w c q =
      Done (mkWorld (Some (Master.mkState d (Master.peers (default st (master (reconnected w st peer))))))
              ({[next_conn w]} ∪ alive w) (next_conn w + 1), mkClient (next_conn w) (reconnCb c), None) /\
    db_holds owner_of d (FileTable.set S p (Some (db_stored f))).
Proof.
  intros Hst Hc Hdial Hcb Hsign HR Ha Hu Hinfo Hparts p Howner.
  assert (Hex : Forall db_name_ok (FileTable.fnEx p)).
  { unfold p. rewrite fnEx_path_of. constructor; [by apply db_good_ok|].
    eapply Forall_impl; [by apply Split_good|apply db_good_ok]. }
  destruct (db_publish owner_of (Master.database st) S p f HR Hex) as (d & Hrun).
  exists d. split; [|by apply (db_set owner_of _ S p (Some f) d None HR Hex Hrun)].
  assert (Hset : Master.SetFile peer (Master.database st) q = Done (d, None)).
  { rewrite SetFile_calls; [by rewrite Hinfo, <-Howner|done|]. constructor; [apply Hu|done]. }
  pose proof (call_reconnects w c st (CallSetFile q) sq peer Hst Hc Hdial Hcb Hsign) as Hcall.
  rewrite (rpc_Call_alive _ (default st (master (reconnected w st peer))) (next_conn w) conn_of peer) in Hcall;
    [|simpl; set_solver|done|apply lookup_insert_eq].
  unfold Session.serve in Hcall. cbn [reconnected master default Master.database Master.peers] in Hcall.
  simpl in Hcall. rewrite Hset in Hcall. cbn [mbind outcome_bind reply_or] in Hcall.
  unfold Session.publish, SetFile. unfold Session.call in Hcall. rewrite Hcall. cbn [mbind outcome_bind].
  by rewrite Nat.add_1_r.
Qed.

(** An error of a handler is no ErrShutdown to the client. *)
Lemma ServerError_same err : error_same (ServerError err) ErrShutdown = false.
Proof. by destruct err. Qed.

(** A client whose callback is refused is left on a new connection that is not
signed in. *)
Lemma call_refused w c st q sq peer err :
  master w = Some st -> client c ∉ alive w -> dial_err (next_conn w) = None ->
  reconnCb c = signs_in sq -> Master.Signin netw conn_of Master.new_peer sq = Done (peer, Some err) ->
  call w c q = Done (reconnected w st Master.new_peer, mkClient (next_conn w) (reconnCb c),
                     inl (reconnect_failed (signin_failed (ServerError err)))).
Proof.
  intros Hst Hc Hdial Hcb Hsign.
  assert (peer = Master.new_peer) as ->.
  { by apply Signin_run in Hsign as [[_ ?]|[? _]]. }
  assert (Hd : tls_Dial w = (reconnected w st Master.new_peer, inr (next_conn w)))
    by (unfold Session.tls_Dial; by rewrite Hst, Hdial).
  assert (Hs : rpc_Call (reconnected w st Master.new_peer) (next_conn w) (CallSignin sq) =
                 (reconnected w st Master.new_peer, inl (ServerError err))).
  { rewrite (rpc_Call_alive _ (default st (master (reconnected w st Master.new_peer))) _ conn_of Master.new_peer);
      [|simpl; set_solver|done|apply lookup_insert_eq].
    unfold Session.serve, reconnected. rewrite Hsign.
    cbn [mbind outcome_bind Master.database Master.peers master from_option id alive next_conn reply_or].
    by rewrite insert_insert_eq. }
  unfold Session.call. cbn [Call]. rewrite rpc_Call_broken by done. cbn [error_same ErrShutdown].
  rewrite bool_decide_eq_true_2 by done. rewrite Hd, Hcb. unfold signs_in.
  cbn [run_callback Call mbind outcome_bind client]. rewrite Hs. cbn [mbind outcome_bind client].
  by rewrite ServerError_same.
Qed.

Lemma publish_unsigned w c st conn q :
  master w = Some st -> client c ∈ alive w ->
  Master.peers st !! client c = Some (conn, Master.new_peer) ->
  publish w c q = Done (w, c, Some Master.err_signin_first).
Proof.
  intros Hst Hc Hp. unfold Session.publish, SetFile. cbn [Call].
  rewrite (rpc_Call_alive w st _ conn Master.new_peer) by done.
  change (serve st (client c) conn Master.new_peer (CallSetFile q)) with
    (Done (Master.mkState (Master.database st) (Master.peers st), inl Master.err_signin_first)
      : outcome (Master.state * (error + master_reply))).
  cbn [mbind outcome_bind]. destruct w as [m al n], st. simpl in Hst. by subst m.
Qed.

(** ** Replies *)

(** The reply of the method that was called. *)
Definition reply_of (q : master_request) (r : master_reply) : Prop :=
  match q, r with
  | CallRegister _, ReplyRegister _ | CallSignin _, ReplySignin | CallSetFile _, ReplySetFile
  | CallGetDir _, ReplyGetDir _ | CallGetOwners _, ReplyGetOwners _ => True
  | _, _ => False
  end.

Lemma reply_or_typed q reply e r : reply_of q reply -> reply_or reply e = inr r -> reply_of q r.
Proof. intros Hq. destruct e; simpl; [done|]. by intros [= <-]. Qed.

Lemma serve_typed st id conn peer q st' r :
  serve st id conn peer q = Done (st', inr r) -> reply_of q r.
Proof.
  destruct q as [q|q|q|q|q]; unfold Session.serve; intros Hrun.
  - destruct (Master.Register _ _ _ _ _ q) as [[crt e]| |]; simpl in Hrun; try done.
    injection Hrun as _ Hr. by eapply reply_or_typed; [|exact Hr].
  - destruct (Master.Signin netw conn peer q) as [[peer' e]| |]; simpl in Hrun; try done.
    injection Hrun as _ Hr. by eapply reply_or_typed; [|exact Hr].
  - destruct (Master.SetFile peer _ q) as [[d e]| |]; simpl in Hrun; try done.
    injection Hrun as _ Hr. by eapply reply_or_typed; [|exact Hr].
  - destruct (Master.GetDir peer _ _) as [[[d r'] e]| |]; simpl in Hrun; try done.
    injection Hrun as _ Hr. by eapply reply_or_typed; [|exact Hr].
  - destruct (Master.GetOwners peer _ _) as [[os e]| |]; simpl in Hrun; try done.
    injection Hrun as _ Hr. by eapply reply_or_typed; [|exact Hr].
Qed.

Lemma rpc_Call_typed w id q w' r : rpc_Call w id q = (w', inr r) -> reply_of q r.
Proof.
  unfold Session.rpc_Call. case_decide; [|done].
  destruct (master w) as [st|]; [|done]. destruct (Master.peers st !! id) as [[conn peer]|]; [|done].
  destruct (serve st id conn peer q) as [[st' r']| |] eqn:Hrun; intros [= _ ->]. by eapply serve_typed.
Qed.

Lemma Call_typed fuel w c q w' c' r :
  Call rpc_Call tls_Dial fuel w c q = Done (w', c', inr r) -> reply_of q r.
Proof.
  destruct fuel as [|fuel]; cbn [Call]; [done|]. destruct (rpc_Call w (client c) q) as [w1 r1] eqn:E1.
  destruct r1 as [err|reply].
  - destruct (error_same err ErrShutdown); [|done]. destruct (tls_Dial w1) as [w2 [err2|conn]]; [done|].
    destruct (run_callback _ _ _ _) as [[[w3 c3] e3]| |]; cbn [mbind outcome_bind]; [|done..].
    destruct e3; [done|]. destruct (rpc_Call w3 (client c3) q) as [w4 r4] eqn:E4. intros [= _ _ ->].
    by eapply rpc_Call_typed.
  - intros [= _ _ <-]. by eapply rpc_Call_typed.
Qed.

Lemma serve_error st id conn peer q st' err :
  serve st id conn peer q = Done (st', inl err) -> error_same err ErrShutdown = false.
Proof.
  assert (Hor : forall reply e err, reply_or reply e = inl err -> error_same err ErrShutdown = false).
  { intros reply [e|] err'; [|done]. intros [= <-]. apply ServerError_same. }
  destruct q as [q|q|q|q|q]; unfold Session.serve; cbn [method find_method]; intros Hrun;
    match type of Hrun with mbind _ ?f = _ => destruct f as [x| |]; [|done..] end;
    repeat match goal with x : _ * _ |- _ => destruct x end;
    cbn [mbind outcome_bind] in Hrun; injection Hrun as _ Hr; by eapply Hor.
Qed.

(** A call on a live connection is one of the method there; a method that panics
takes the master with it. *)
Lemma call_alive w c st conn peer q :
  master w = Some st -> client c ∈ alive w -> Master.peers st !! client c = Some (conn, peer) ->
  call w c q =
    match serve st (client c) conn peer q with
    | Done (st', r) => Done (mkWorld (Some st') (alive w) (next_conn w), c, r)
    | _ => Done (mkWorld None ∅ (next_conn w), c, inl (errors_New "unexpected EOF"))
    end.
Proof.
  intros Hst Hal Hp. unfold Session.call. cbn [Call].
  rewrite (rpc_Call_alive w st (client c) conn peer) by done.
  destruct (serve st (client c) conn peer q) as [[st' [err|r]]| |] eqn:Hrun; try done.
  by rewrite (serve_error _ _ _ _ _ _ _ Hrun).
Qed.

(** ** The methods on a live connection *)

Section alive.
Context (w : World) (c : master_client) (st : Master.state) (conn : Master.Conn) (peer : Master.Peer).
Context (Hst : master w = Some st) (Hal : client c ∈ alive w)
  (Hp : Master.peers st !! client c = Some (conn, peer)).

(** The world with what a handler has made of the state, and after it panicked. *)
Definition after (d : db) (ps : gmap nat (Master.Conn * Master.Peer)) : World :=
  mkWorld (Some (Master.mkState d ps)) (alive w) (next_conn w).
Definition crashed : World := mkWorld None ∅ (next_conn w).
Definition broken : error := errors_New "unexpected EOF".

Lemma world_eq : mkWorld (Some st) (alive w) (next_conn w) = w.
Proof. rewrite <-Hst. by destruct w. Qed.

Lemma state_eq : after (Master.database st) (Master.peers st) = w.
Proof. rewrite <-world_eq. unfold after. by destruct st. Qed.

Ltac in_handler :=
  match goal with |- context [Client.Call _ _ 2 w c ?q] =>
    pose proof (call_alive w c st conn peer q Hst Hal Hp) as Hcall; unfold Session.call in Hcall; rewrite Hcall
  end;
  unfold Session.serve; cbn [method find_method GetDir_Path GetOwners_Hash];
  match goal with |- context [mbind _ ?f] => destruct f as [x| |]; [|done..] end;
  repeat match goal with x : _ * _ |- _ => destruct x end;
  match goal with e : option error |- _ => destruct e end; cbn; by rewrite ?world_eq.

Lemma Register_alive user token pub :
  Register rpc_Call tls_Dial 2 w c user token pub =
    match Master.Register (sign_rnd sgn) (sign_serial sgn) (sign_now sgn) (sign_now' sgn) vault
            {| Register_User := user; Register_Token := token; Register_PublicKey := pub |} with
    | Done (crt, e) => Done (w, c, (if e is None then crt else "", ServerError <$> e))
    | _ => Done (crashed, c, ("", Some broken))
    end.
Proof using Hst Hal Hp. unfold Register. in_handler. Qed.

Lemma Signin_alive addr user :
  Signin rpc_Call tls_Dial 2 w c addr user =
    match Master.Signin netw conn peer
            {| Signin_ProtocolVersion := 1; Signin_User := user; Signin_Address := addr |} with
    | Done (peer', e) => Done (after (Master.database st) (<[client c := (conn, peer')]> (Master.peers st)), c, ServerError <$> e)
    | _ => Done (crashed, c, Some broken)
    end.
Proof using Hst Hal Hp. unfold Signin, signin_request. in_handler. Qed.

Lemma SetFile_alive q :
  SetFile rpc_Call tls_Dial 2 w c q =
    match Master.SetFile peer (Master.database st) q with
    | Done (d, e) => Done (after d (Master.peers st), c, ServerError <$> e)
    | _ => Done (crashed, c, Some broken)
    end.
Proof using Hst Hal Hp. unfold SetFile. in_handler. Qed.

Lemma GetDir_alive path :
  GetDir rpc_Call tls_Dial 2 w c path =
    match Master.GetDir peer (Master.database st) path with
    | Done (d, r, e) => Done (after d (Master.peers st), c,
        (if e is None then Some (default (mkGetDirReply [] ∅) r) else None, ServerError <$> e))
    | _ => Done (crashed, c, (None, Some broken))
    end.
Proof using Hst Hal Hp. unfold GetDir. in_handler. Qed.

Lemma GetOwners_alive h :
  GetOwners rpc_Call tls_Dial 2 w c h =
    match Master.GetOwners peer (Master.database st) h with
    | Done (os, e) => Done (w, c, (if e is None then Some os else None, ServerError <$> e))
    | _ => Done (crashed, c, (None, Some broken))
    end.
Proof using Hst Hal Hp. unfold GetOwners. in_handler. Qed.
End alive.

(** ** Claims *)

(** every call of the master's client returns, and the reply has the type of
the method that was called, through reconnections too: [GetDir], [GetOwners]
and [Register] answer either the reply of the master or its error, never an
error of decoding. *)
Theorem calls_are_typed w c :
  (forall q, exists w' c' r, call w c q = Done (w', c', r) /\ reconnCb c' = reconnCb c /\
     match r with inr reply => reply_of q reply | inl _ => True end) /\
  (forall path, exists w' c' r, call w c (CallGetDir {| GetDir_Path := path |}) = Done (w', c', r) /\
     ((exists e, r = inl e /\ GetDir rpc_Call tls_Dial 2 w c path = Done (w', c', (None, Some e))) \/
      (exists d, r = inr (ReplyGetDir d) /\ GetDir rpc_Call tls_Dial 2 w c path = Done (w', c', (Some d, None))))) /\
  (forall h, exists w' c' r, call w c (CallGetOwners {| GetOwners_Hash := h |}) = Done (w', c', r) /\
     ((exists e, r = inl e /\ GetOwners rpc_Call tls_Dial 2 w c h = Done (w', c', (None, Some e))) \/
      (exists os, r = inr (ReplyGetOwners os) /\ GetOwners rpc_Call tls_Dial 2 w c h = Done (w', c', (Some os, None))))) /\
  (forall user token pub, exists w' c' r,
     call w c (CallRegister {| Register_User := user; Register_Token := token; Register_PublicKey := pub |})
       = Done (w', c', r) /\
     ((exists e, r = inl e /\ Register rpc_Call tls_Dial 2 w c user token pub = Done (w', c', ("", Some e))) \/
      (exists crt, r = inr (ReplyRegister crt) /\ Register rpc_Call tls_Dial 2 w c user token pub = Done (w', c', (crt, None))))).
Proof.
  assert (Hall : forall q, exists w' c' r, call w c q = Done (w', c', r) /\ reconnCb c' = reconnCb c /\
            match r with inr reply => reply_of q reply | inl _ => True end).
  { intros q. destruct (Call_keeps rpc_Call tls_Dial 1 c) with (w := w) (q := q) as (w' & c' & r & Heq & Hc).
    { intros c' Hc'. right. apply Call_keeps. by left. }
    exists w', c', r. split; [done|]. split; [done|]. destruct r; [done|]. by eapply Call_typed. }
  split; [done|]. split_and!; intros;
    match goal with |- context [call w c ?q] => destruct (Hall q) as (w' & c' & [e|reply] & Hrun & _ & Hty) end;
    exists w', c'; eexists; (split; [exact Hrun|]);
    unfold GetDir, GetOwners, Register; unfold Session.call in Hrun; rewrite Hrun;
    first [left; by eexists|right; destruct reply; try done; by eexists].
Qed.

(** C35: the methods of the master's client are those of the master. On a live
connection each of them answers what the handler of its name answers to the
same arguments for the peer of that connection, an error as its text, with the
handler's effect on the database and the peer; a handler that panics ends the
master, and the caller is told that the connection broke. *)
Theorem calls_reach_handlers w c st conn peer :
  master w = Some st -> client c ∈ alive w -> Master.peers st !! client c = Some (conn, peer) ->
  (forall user token pub, Register rpc_Call tls_Dial 2 w c user token pub =
     match Master.Register (sign_rnd sgn) (sign_serial sgn) (sign_now sgn) (sign_now' sgn) vault
             {| Register_User := user; Register_Token := token; Register_PublicKey := pub |} with
     | Done (crt, e) => Done (w, c, (if e is None then crt else "", ServerError <$> e))
     | _ => Done (crashed w, c, ("", Some broken))
     end) /\
  (forall addr user, Signin rpc_Call tls_Dial 2 w c addr user =
     match Master.Signin netw conn peer
             {| Signin_ProtocolVersion := 1; Signin_User := user; Signin_Address := addr |} with
     | Done (peer', e) => Done (after w (Master.database st) (<[client c := (conn, peer')]> (Master.peers st)), c, ServerError <$> e)
     | _ => Done (crashed w, c, Some broken)
     end) /\
  (forall q, SetFile rpc_Call tls_Dial 2 w c q =
     match Master.SetFile peer (Master.database st) q with
     | Done (d, e) => Done (after w d (Master.peers st), c, ServerError <$> e)
     | _ => Done (crashed w, c, Some broken)
     end) /\
  (forall path, GetDir rpc_Call tls_Dial 2 w c path =
     match Master.GetDir peer (Master.database st) path with
     | Done (d, r, e) => Done (after w d (Master.peers st), c,
         (if e is None then Some (default (mkGetDirReply [] ∅) r) else None, ServerError <$> e))
     | _ => Done (crashed w, c, (None, Some broken))
     end) /\
  (forall h, GetOwners rpc_Call tls_Dial 2 w c h =
     match Master.GetOwners peer (Master.database st) h with
     | Done (os, e) => Done (w, c, (if e is None then Some os else None, ServerError <$> e))
     | _ => Done (crashed w, c, (None, Some broken))
     end).
Proof.
  intros Hst Hal Hp.
  split_and!; intros; by first
    [eapply (Register_alive w c st conn peer)|eapply (Signin_alive w c st conn peer)
    |eapply (SetFile_alive w c st conn peer)|eapply (GetDir_alive w c st conn peer)
    |eapply (GetOwners_alive w c st conn peer)].
Qed.

(** C23: whatever a peer does in its life, calls of any kind, also those made
while it reconnects, connections that break and that the master notices late,
the master only makes steps of its own state machine, and each of the peer's
connections speaks for nobody or for the name in the peer's certificate. *)
Theorem life_is_steps_of_master d0 cb w c st :
  elsewhere cb -> rtc life (first_world conn_of d0, mkClient 0 cb) (w, c) -> master w = Some st ->
  Master.reachable d0 st /\
  forall id conn peer, Master.peers st !! id = Some (conn, peer) ->
    conn = conn_of /\ (Master.user peer = "" \/ leaf_of conn_of = Some (Master.user peer)).
Proof.
  intros Hcb Hlife Hst.
  assert (Hm : moves (first_world conn_of d0) w).
  { change (moves (first_world conn_of d0) (w, c).1).
    refine (proj1 (rtc_inv life (fun z => moves (first_world conn_of d0) z.1 /\ elsewhere (reconnCb z.2))
      _ _ _ _ Hlife)); [split; [apply moves_refl|done]|].
    intros [w1 c1] [w2 c2] Hl [Hm Hc1]. destruct (life_moves w1 c1 w2 c2 Hc1 Hl) as [Hm2 Hc2].
    split; [by eapply moves_trans|done]. }
  assert (Hf : fresh (first_world conn_of d0)).
  { intros st0 [= <-]. simpl. split.
    - intros id Hid. by rewrite lookup_singleton_ne by lia.
    - intros id conn peer [_ Hp]%lookup_singleton_Some. by injection Hp as <- _. }
  destruct Hm as [Hfr Hm]. destruct (Hm st Hst Hf) as (st0 & [= <-] & Hsteps).
  assert (Hr : Master.reachable d0 st).
  { eapply rtc_l; [|exact Hsteps]. exact (Master.step_accept (Master.mkState d0 ∅) 0 conn_of eq_refl). }
  split; [done|]. intros id conn peer Hp. pose proof (reachable_peers_ok d0 st Hr id conn peer Hp) as Hok.
  destruct (Hfr Hf st Hst) as [_ Hown]. rewrite (Hown id conn peer Hp) in Hok |- *. split; [done|].
  destruct Hok as [(? & _)|(_ & ? & _)]; auto.
Qed.

(** C6: a publication survives the loss of the connection: when the client's
connection is shut down, [SetFile] dials again, signs in again and publishes;
it answers nil, the database has the file, and the client is left on a new
connection that speaks for the same peer, with its callback in place. *)
Theorem publication_survives_reconnect {laws : DatabaseLaws ops} {full : DatabaseComplete ops laws}
    owner_of w c st S q f sq peer :
  master w = Some st -> client c ∉ alive w -> dial_err (next_conn w) = None ->
  reconnCb c = signs_in sq -> Master.Signin netw conn_of Master.new_peer sq = Done (peer, None) ->
  db_holds owner_of (Master.database st) S ->
  Master.address peer <> "" -> good_part (Master.user peer) ->
  SetFile_Info q = Some f ->
  Forall (fun p => bad_part p = false) (strings.Split (SetFile_Path q) "/") ->
  let p := path_of (Master.user peer) (SetFile_Path q) in
  owner_of p = Master.ident peer ->
  exists w' c' st', publish w c q = Done (w', c', None) /\ master w' = Some st' /\
    db_holds owner_of (Master.database st') (FileTable.set S p (Some (db_stored f))) /\
    client c' ∈ alive w' /\ Master.peers st' !! client c' = Some (conn_of, peer) /\
    reconnCb c' = reconnCb c.
Proof.
  intros Hst Hc Hdial Hcb Hsign HR Ha Hu Hinfo Hparts p Howner.
  destruct (publish_reconnects owner_of w c st S q f sq peer) as (d & Hrun & HR'); try done.
  eexists _, _, _. split; [exact Hrun|]. split; [done|]. split; [exact HR'|]. simpl.
  split; [set_solver|]. split; [apply lookup_insert_eq|done].
Qed.

End theorems.

(** ** A callback that fails *)

Section refused.
Context `{X509} {ops : DatabaseOps}.

(** when the sign-in of the callback is refused, for instance because the
master cannot connect back at that moment, the call reports it, but the client
keeps the new connection without a sign-in: from then on every publication is
denied, whatever the network has become, as long as that connection lives. *)
Theorem refused_signin_sticks vault sgn netw conn_of dial_err w (c : master_client) (st : Master.state) q sq peer err :
  master w = Some st -> client c ∉ alive w -> dial_err (next_conn w) = None ->
  reconnCb c = signs_in sq -> Master.Signin netw conn_of Master.new_peer sq = Done (peer, Some err) ->
  exists w' c', publish vault sgn netw conn_of dial_err w c q =
      Done (w', c', Some (reconnect_failed (signin_failed (ServerError err)))) /\
    reconnCb c' = signs_in sq /\
    forall netw' q', publish vault sgn netw' conn_of dial_err w' c' q' =
      Done (w', c', Some Master.err_signin_first).
Proof.
  intros Hst Hc Hdial Hcb Hsign.
  pose proof (call_refused vault sgn netw conn_of dial_err w c st (CallSetFile q) sq peer err
    Hst Hc Hdial Hcb Hsign) as Hrun.
  eexists _, _. split; [unfold publish, SetFile; unfold call in Hrun; by rewrite Hrun|]. split; [done|].
  intros netw' q'. eapply publish_unsigned; [done|simpl; set_solver|apply lookup_insert_eq].
Qed.
End refused.

(** ** The old connection *)

Section late.
Context `{X509} `{MapRange}.
#[local] Existing Instances InmemInterface.inmem_ops InmemInterface.inmem_laws InmemInterface.inmem_complete.

(** C39: the master may undo a publication that it has acknowledged. When the
client reconnects before the master has noticed that the old connection is
gone, both connections stand for the same identity; the [Disconnected] of the
old one then takes the file that [SetFile] has just published out of the
in-memory database, if nobody else has it, although its publisher is connected
and signed in. *)
Theorem late_notice_unpublishes vault sgn netw conn_of dial_err
    owner_of w (c : master_client) (st : Master.state) S q f sq peer :
  master w = Some st -> client c ∉ alive w -> client c <> next_conn w -> dial_err (next_conn w) = None ->
  reconnCb c = signs_in sq -> Master.Signin netw conn_of Master.new_peer sq = Done (peer, None) ->
  Master.peers st !! client c = Some (conn_of, peer) ->
  InmemProofs.represents owner_of (Master.database st) S ->
  Master.address peer <> "" -> good_part (Master.user peer) ->
  SetFile_Info q = Some f ->
  Forall (fun p => bad_part p = false) (strings.Split (SetFile_Path q) "/") ->
  let p := path_of (Master.user peer) (SetFile_Path q) in
  owner_of p = Master.ident peer ->
  (forall o, FileTable.owns owner_of S (Hash f) o -> o = Master.ident peer) ->
  (forall p' f', FileTable.set S p (Some f) !! p' = Some f' -> 2 <= length p'.1) ->
  exists w' c' st' st'' S'', publish vault sgn netw conn_of dial_err w c q = Done (w', c', None) /\
    master w' = Some st' /\
    InmemProofs.represents owner_of (Master.database st') (FileTable.set S p (Some f)) /\
    let w'' := notice w' (client c) in
    master w'' = Some st'' /\
    InmemProofs.represents owner_of (Master.database st'') S'' /\ S'' !! p = None /\
    client c' ∈ alive w'' /\ Master.peers st'' !! client c' = Some (conn_of, peer).
Proof.
  intros Hst Hc Hne Hdial Hcb Hsign Hold HR Ha Hu Hinfo Hparts p Howner Hsole Hdeep.
  destruct (publish_reconnects vault sgn netw conn_of dial_err owner_of w c st S q f sq peer)
    as (d & Hrun & HR'); try done.
  change (InmemProofs.represents owner_of d (FileTable.set S p (Some f))) in HR'.
  destruct (InmemTheorems.disconnect_total owner_of d _ (Master.ident peer) HR')
    as (d2 & S2 & Hdis & HR2 & HS2); [by intros; eapply Hdeep|].
  eexists _, _, _, _, S2. split; [exact Hrun|]. split; [done|]. split; [exact HR'|].
  unfold notice. cbn [master from_option id reconnected Master.peers Master.database client].
  rewrite lookup_insert_ne by done. rewrite Hold. unfold Master.Disconnected. rewrite decide_False by done.
  change (db_PeerDisconnected d (Master.ident peer)) with (Inmem.PeerDisconnected d (Master.ident peer)).
  rewrite Hdis. cbn [mbind outcome_bind master alive]. split; [done|]. split; [exact HR2|]. split.
  - destruct (S2 !! p) as [g|] eqn:Hg; [|done]. apply HS2 in Hg as [Hg Hn]. exfalso. apply Hn.
    rewrite FileTable.lookup_set, decide_True in Hg by done. injection Hg as <-. split.
    + exists p, f. rewrite FileTable.lookup_set, decide_True by done. done.
    + intros o (p' & f' & Hp' & Hh & Ho). rewrite FileTable.lookup_set in Hp'. case_decide as Heq.
      * by subst.
      * apply Hsole. by exists p', f'.
  - split; [set_solver|]. cbn [Master.peers client]. rewrite lookup_delete_ne by done. apply lookup_insert_eq.
Qed.
End late.

(** ** Witnesses: the peer of the master's examples, whose connection broke *)

Definition vault0 := CryptoTheorems.demo_vault.
Definition sgn0 : signing := {| sign_rnd := 1; sign_serial := inr 5%Z; sign_now := 0; sign_now' := 0 |}.
Definition client0 : @master_client ops0 := mkClient 0 (@signs_in ops0 signin_a).
Definition signed_in0 : @World ops0 := mkWorld (Some st2) {[0]} 1.
Definition broken0 : @World ops0 := break signed_in0 0.

Lemma life_is_steps_of_master_witness :
  @Master.reachable ops0 db0 st2 /\
  (conn_a = conn_a /\ (Master.user peer_a = "" \/ leaf_of conn_a = Some "a")).
Proof.
  destruct (@life_is_steps_of_master CryptoTheorems.demo_x509 ops0 vault0 sgn0 open_network conn_a
    (fun _ => None) db0 (@signs_in ops0 signin_a) broken0 client0 st2) as [Hr Hp].
  - by repeat constructor.
  - eapply rtc_l; [|apply rtc_once, (life_break vault0 sgn0 open_network conn_a _ signed_in0 client0 0)].
    apply (life_call (H := CryptoTheorems.demo_x509) vault0 sgn0 open_network conn_a _ _ _ (CallSignin signin_a) _ _ (inr ReplySignin)).
    reflexivity.
  - reflexivity.
  - split; [exact Hr|]. exact (Hp 0 conn_a peer_a eq_refl).
Defined.

Lemma calls_reach_handlers_witness :
  let conn := rpc_Call vault0 sgn0 open_network in
  let dial := tls_Dial conn_a (fun _ => None) in
  Signin conn dial 2 signed_in0 client0 ":1667" "b"
    = Done (signed_in0, client0, Some (ServerError (errors_New "User does not match certificate"))) /\
  SetFile conn dial 2 signed_in0 client0 q_a = Done (mkWorld (Some st3) {[0]} 1, client0, None) /\
  SetFile conn dial 2 signed_in0 client0 {| SetFile_Path := "docs/../x"; SetFile_Info := None |}
    = Done (signed_in0, client0, Some (ServerError (err_bad_part ".."))).
Proof.
  simpl. edestruct (@calls_reach_handlers CryptoTheorems.demo_x509 ops0 vault0 sgn0 open_network conn_a
    (fun _ => None) signed_in0 client0 st2 conn_a peer_a) as (_ & HI & HS & _); [reflexivity|simpl; set_solver|reflexivity|].
  split; [|split].
  - rewrite HI. reflexivity.
  - rewrite (HS q_a). reflexivity.
  - rewrite HS. reflexivity.
Defined.

Lemma publication_survives_reconnect_witness :
  let p := path_of "a" "docs/readme" in
  exists w' c' st',
    @publish CryptoTheorems.demo_x509 ops0 vault0 sgn0 open_network conn_a (fun _ => None) broken0 client0 q_a
      = Done (w', c', None) /\ master w' = Some st' /\
    @db_holds ops0 laws0 owner_a (Master.database st')
      (FileTable.set ∅ p (Some (@db_stored ops0 laws0 (mkFileInfo 3 "h" 0)))) /\
    client c' ∈ alive w' /\ Master.peers st' !! client c' = Some (conn_a, peer_a) /\
    reconnCb c' = @signs_in ops0 signin_a.
Proof.
  apply (@publication_survives_reconnect CryptoTheorems.demo_x509 ops0 vault0 sgn0 open_network conn_a
    (fun _ => None) laws0 full0 owner_a broken0 client0 st2 ∅ q_a (mkFileInfo 3 "h" 0) signin_a peer_a).
  - reflexivity.
  - simpl. set_solver.
  - reflexivity.
  - reflexivity.
  - reflexivity.
  - apply InmemProofs.represents_new.
  - discriminate.
  - by split.
  - reflexivity.
  - by repeat constructor.
  - reflexivity.
Defined.

Lemma late_notice_unpublishes_witness :
  let p := path_of "a" "docs/readme" in
  exists w' c' st' st'' S'',
    @publish CryptoTheorems.demo_x509 ops0 vault0 sgn0 open_network conn_a (fun _ => None) broken0 client0 q_a
      = Done (w', c', None) /\ master w' = Some st' /\
    InmemProofs.represents owner_a (Master.database st') (FileTable.set ∅ p (Some (mkFileInfo 3 "h" 0))) /\
    let w'' := notice w' 0 in
    master w'' = Some st'' /\
    InmemProofs.represents owner_a (Master.database st'') S'' /\ S'' !! p = None /\
    client c' ∈ alive w'' /\ Master.peers st'' !! client c' = Some (conn_a, peer_a).
Proof.
  apply (@late_notice_unpublishes CryptoTheorems.demo_x509 std_range vault0 sgn0 open_network conn_a
    (fun _ => None) owner_a broken0 client0 st2 ∅ q_a (mkFileInfo 3 "h" 0) signin_a peer_a).
  - reflexivity.
  - simpl. set_solver.
  - discriminate.
  - reflexivity.
  - reflexivity.
  - reflexivity.
  - reflexivity.
  - apply InmemProofs.represents_new.
  - discriminate.
  - by split.
  - reflexivity.
  - by repeat constructor.
  - reflexivity.
  - intros o (p & f & Hp & _). by rewrite lookup_empty in Hp.
  - intros p' f'. rewrite FileTable.lookup_set. case_decide as Hp; [|by rewrite lookup_empty].
    intros _. subst p'. vm_compute. lia.
Defined.

(** The master cannot ping the peer back. *)
Definition one_way : Master.Network :=
  {| Master.connect := fun _ _ => None; Master.ping := fun _ _ => Some (errors_New "timeout") |}.

Lemma refused_signin_sticks_witness :
  exists w' c', @publish CryptoTheorems.demo_x509 ops0 vault0 sgn0 one_way conn_a (fun _ => None) broken0 client0 q_a =
      Done (w', c', Some (reconnect_failed (signin_failed
        (Errorf "Failed to ping to %q: %v" [errors_New "10.0.0.7:1667"; errors_New "timeout"])))) /\
    reconnCb c' = @signs_in ops0 signin_a /\
    forall netw' q', @publish CryptoTheorems.demo_x509 ops0 vault0 sgn0 netw' conn_a (fun _ => None) w' c' q' =
      Done (w', c', Some Master.err_signin_first).
Proof.
  by apply (@refused_signin_sticks CryptoTheorems.demo_x509 ops0 vault0 sgn0 one_way conn_a
    (fun _ => None) broken0 client0 st2 q_a signin_a Master.new_peer
    (Errorf "Failed to ping to %q: %v" [errors_New "10.0.0.7:1667"; errors_New "timeout"])).
Defined.

End SessionTheorems.
