(* ===== verification/Startup.v ===== *)
(** * Starting the modules ([master.go], [server.go])

What [genMasterKeys], [newMaster] and the [Setup] of the master and of the file
server do before their [Run]: keys and certificates on the disk, the sockets and
their TLS configurations, the registration of a peer and its first sign-in. And
the exports that the [Run] of the file server keeps alive through reconnections. *)

From stdpp Require Import pretty.
From S2P Require Import Prelude GoStrings Types Crypto DatabaseSpec Server Client Rpc Session Scanner.
Import Crypto Client Rpc.

Module Startup.

(** How a [Setup] ends: the process exits, having printed lines, or it returns. *)
Inductive setup (A : Type) :=
  | Exits (code : Z) (printed : list string)
  | Returns (a : A).
Arguments Exits {A} code printed.
Arguments Returns {A} a.

(** A listening socket: its port and configuration. *)
Section startup.
Context `{X509}.

Record socket := mkSocket { sock_port : Z; sock_config : tlsConfig }.

(** [tls.Listen] on a port; [listen] is its error. *)
Definition tls_Listen (listen : Z -> option error) (port : Z) (cfg : tlsConfig) : error + socket :=
  match listen port with Some err => inl err | None => inr (mkSocket port cfg) end.

(** ** The master *)

Section master.
Context {ops : DatabaseOps}.

Record Master := mkMaster {
  port : Z;
  dir : string;
  sock : option socket;
  vault : MasterVault;
  database : db;
}.

(** [newMaster]: [path_of] is [getPath], [masterDir] the flag, [mkdir] the error
of [os.MkdirAll], and [opened] what the [newDatabase] of the build gives. *)
Definition newMaster (path_of : string -> outcome string) (masterDir : string) (mkdir : option error)
    (disk : gmap string string) (opened : error + db) (port : Z) : outcome (error + Master) :=
  dir ← path_of masterDir;
  _ ← Server.ensureDirExists mkdir;
  match loadMasterVault disk dir with
  | inl err => Done (inl err)
  | inr vault =>
      match opened with
      | inl err => Done (inl err)
      | inr db => Done (inr (mkMaster port dir None vault db))
      end
  end.

(** [Master.Setup]: with [--get_auth_token] it prints the token and exits. *)
Definition Master_Setup (listen : Z -> option error) (getAuthToken : string) (m : Master)
    : setup (error + Master) :=
  if decide (getAuthToken <> "") then Exits 0 [createAuthToken (vault m) getAuthToken]
  else
    let tlsCfg := getTlsConfig TlsConfigMaster (ca (vault m)) (Some (getTlsCert (vault m))) "rufs-master" in
    Returns
      (match tls_Listen listen (port m) tlsCfg with
       | inl err => inl err
       | inr sock => inr (mkMaster (port m) (dir m) (Some sock) (vault m) (database m))
       end).
End master.

(** [genMasterKeys]; the arguments after [mkdir] are those of [createCA]. *)
Definition genMasterKeys (path_of : string -> outcome string) (masterDir : string) (mkdir : option error)
    (io_key io_crt : io_faults) (rnd rnd' : Z) (serial : error + Z) (now now' : Z)
    (disk : gmap string string) : outcome (gmap string string * option error) :=
  dir ← path_of masterDir;
  _ ← Server.ensureDirExists mkdir;
  '(disk, err) ← createCA io_key io_crt rnd rnd' serial now now' disk dir "rufs-master";
  match err with
  | Some err => Done (disk, Some err)
  | None =>
      match loadMasterVault disk dir with
      | inl err => Done (disk, Some err)
      | inr _ => Done (disk, None)
      end
  end.

(** ** The file server *)

(** The flags that [Setup] reads. *)
Record flags := mkFlags {
  f_user : string;
  f_port : Z;
  f_extIp : string;
  f_share : string;
  f_registerToken : string;
  f_varStorage : string;
}.

Section server.
Context {World Conn : Type}.
Context (rpc_Call : World -> Conn -> master_request -> World * (error + master_reply)).
Context (tls_Dial : tlsConfig -> World -> World * (error + Conn)).

Abbreviation master_client := (RUFSMasterClient (World := World) (Conn := Conn) (Request := master_request)).

(** What [Setup] adds to the [Server]. *)
Record running := mkRunning {
  r_sock : option socket;
  r_master : option master_client;
}.

(** The address to sign in with. *)
Definition signin_addr (fl : flags) : string :=
  if decide (f_share fl <> "" \/ f_extIp fl <> "") then (f_extIp fl ++ ":" ++ pretty (f_port fl))%string
  else "".

(** [Server.Setup]: [listen], [mkdir], [io], [write] and [rnd] are the faults and
the randomness of what it calls. *)
Definition Setup (fl : flags) (listen : Z -> option error) (path_of : string -> outcome string)
    (mkdir : option error) (io : io_faults) (write : string -> option string * option error) (rnd : Z)
    (s : Server.Server) (w : World) (disk : gmap string string)
    : outcome (World * gmap string string * setup (option error * running)) :=
  let sock :=
    match Server.server_cert s with
    | Some cert =>
        let tlsCfg := getTlsConfig TlsConfigServer (Server.server_ca s) (Some cert) (f_user fl) in
        match tls_Listen listen (f_port fl) tlsCfg with inl err => inl err | inr k => inr (Some k) end
    | None => inr None
    end in
  match sock with
  | inl err => Done (w, disk, Returns (Some err, mkRunning None None))
  | inr sock =>
      let tlsCfg := getTlsConfig TlsConfigMasterClient (Server.server_ca s) (Server.server_cert s) "rufs-master" in
      let dial := tls_Dial tlsCfg in
      match NewRUFSMasterClient dial w with
      | (w, inl err) => Done (w, disk, Returns (Some err, mkRunning sock None))
      | (w, inr client) =>
          if decide (f_registerToken fl <> "") then
            let register w pub :=
              '(w, _, (crt, err)) ← Register rpc_Call dial 2 w client (f_user fl) (f_registerToken fl) pub;
              Done (w, match err with Some err => inl err | None => inr crt end) in
            '(w, disk, err) ← Server.getCertificates path_of mkdir io write rnd register
                                (f_varStorage fl) (f_user fl) w disk;
            match err with
            | Some err => Done (w, disk, Returns (Some err, mkRunning sock (Some client)))
            | None => Done (w, disk, Exits 0 [])
            end
          else if decide (Server.server_cert s = None) then
            Done (w, disk, Returns
              (Some (errors_New "client certificate not found. Maybe you're looking for --register_token?"),
               mkRunning sock (Some client)))
          else
            let addr := signin_addr fl in
            '(w, client, err) ← Signin rpc_Call dial 2 w client addr (f_user fl);
            match err with
            | Some err => Done (w, disk, Returns (Some (Session.signin_failed err), mkRunning sock (Some client)))
            | None =>
                let signin := [CbCall (signin_request addr (f_user fl)) Session.signin_failed] in
                Done (w, disk, Returns (None, mkRunning sock (Some (SetReconnectCallback client signin))))
            end
      end
  end.
End server.
End startup.
End Startup.
