(* ===== verification/StartupTheorems.v ===== *)
(** * What starting the modules guarantees

Registration from the master's keys to the peer's certificate, and what the
[Setup] of the file server leaves behind. *)

From stdpp Require Import pretty.
From S2P Require Import Prelude GoStrings Types Crypto DatabaseSpec Master MasterTheorems.
From S2P Require Import CryptoTheorems Server Client Rpc Session SessionTheorems Startup.
Import Crypto Client Rpc Startup CryptoTheorems SessionTheorems.

Module StartupTheorems.

Section startup.
Context `{X509}.

(** ** Files of a user *)

Lemma plain_file user ext :
  strings.Contains user slash = false -> strings.Contains ext slash = false -> 3 <= String.length ext ->
  plain_part (user ++ ext).
Proof.
  intros Hu He Hlen.
  assert (Hl : 3 <= String.length (user ++ ext)).
  { induction user as [|a user IH]; [done|]. simpl in *. apply le_S, IH.
    unfold strings.Contains in *. simpl in Hu. by apply orb_false_iff in Hu as [_ ?]. }
  split_and!; try (intros Heq; rewrite Heq in Hl; simpl in Hl; lia).
  by rewrite Contains_app, Hu, He.
Qed.

Lemma append_neq user : (user ++ ".key")%string <> (user ++ ".crt")%string.
Proof. intros Heq. by apply (inj (String.append user)) in Heq. Qed.

Lemma key_crt_differ dir user :
  strings.Contains user slash = false ->
  filepath.Join [dir; (user ++ ".key")%string] <> filepath.Join [dir; (user ++ ".crt")%string].
Proof.
  intros Hu Heq. apply Join_file_inj in Heq; [by apply append_neq in Heq| |];
    (apply plain_file; [done|done|simpl; lia]).
Qed.

(** ** Certificates of a peer *)

(** The pair of files of a peer on a disk, for a certificate over its key. *)
Definition has_pair (disk : gmap string string) (crtFile keyFile der : string) (key : PrivateKey) : Prop :=
  disk !! crtFile = Some (pem_Encode "CERTIFICATE" der) /\
    disk !! keyFile = Some (pem_Encode "RSA PRIVATE KEY" (MarshalPKCS1PrivateKey key)).

(** What the code relies on in [crypto/tls] and [crypto/x509]: a pair of a
certificate and its key can be loaded, and a public key is read as it was
written. *)
Record LoadLaws (load : gmap string string -> string -> string -> error + tlsCertificate) : Prop := {
  load_pair disk crtFile keyFile rnd t parent key parent_key der :
    has_pair disk crtFile keyFile der key ->
    CreateCertificate rnd t parent (Public key) parent_key = inr der ->
    load disk crtFile keyFile = inr {| tls_Certificate := [der]; tls_PrivateKey := key |};
  pkix_roundtrip (pk : PublicKey) pub : MarshalPKIXPublicKey pk = inr pub -> ParsePKIXPublicKey pub = inr pk;
}.

Definition no_faults : io_faults := {| open_err := None; write_err := None; close_err := None |}.

(** [ioutil.WriteFile] on a healthy disk. *)
Definition writes (crt : string) : option string * option error := (Some crt, None).

Lemma createKeyPair_run rnd disk fn key :
  GenerateKey rnd = inr key -> disk !! fn = None ->
  createKeyPair no_faults rnd disk fn =
    (<[fn := pem_Encode "RSA PRIVATE KEY" (MarshalPKCS1PrivateKey key)]> disk, inr key).
Proof.
  intros Hkey Hfn. unfold createKeyPair, pemToFile. rewrite Hkey. cbn [no_faults open_err write_err close_err].
  rewrite Hfn. by rewrite insert_insert_eq.
Qed.

Lemma Register_run vault rnd serial now now' user pub pk t der :
  ParsePKIXPublicKey pub = inr pk -> createCertTemplate (inr serial) now now' false user = Done t ->
  CreateCertificate rnd t (ca vault) pk (priv vault) = inr der ->
  Master.Register rnd (inr serial) now now' vault
    {| Register_User := user; Register_Token := createAuthToken vault user; Register_PublicKey := pub |}
    = Done (pem_Encode "CERTIFICATE" der, None).
Proof.
  intros Hpk Ht Hder. unfold Master.Register. cbn [Register_User Register_Token Register_PublicKey].
  rewrite decide_False by naive_solver. unfold signClient. rewrite Hpk, Ht. cbn [mbind outcome_bind].
  by rewrite Hder.
Qed.

(** [newServer] on two disks with the same certificate of the master. *)
Lemma newServer_inv path_of load (disk : gmap string string) masterCert varStorage user share master s :
  Server.newServer path_of (load disk) disk masterCert varStorage user share master = Done (inr s) ->
  exists caFile dir sh, path_of masterCert = Done caFile /\ path_of varStorage = Done dir /\
    is_Some (disk !! caFile) /\ loadCertificate disk caFile = inr (Server.server_ca s) /\
    Server.parse_shares path_of share = Done (inr sh) /\ Server.shares s = sh /\
    Server.masterAddr s = master /\ Server.hashToPath s = ∅ /\
    (Server.server_cert s = None ->
       ~ (is_Some (disk !! filepath.Join [dir; (user ++ ".crt")%string]) /\
    is_Some (disk !! filepath.Join [dir; (user ++ ".key")%string]))).
Proof.
  unfold Server.newServer. intros Hrun.
  destruct (path_of masterCert) as [caFile| |]; simpl in Hrun; try done.
  destruct (loadCertificate disk caFile) as [err|ca] eqn:Hca; [done|].
  destruct (path_of varStorage) as [dir| |]; simpl in Hrun; try done.
  destruct (Server.parse_shares path_of share) as [[err|sh]| |] eqn:Hsh; simpl in Hrun;
    try by (repeat case_match).
  assert (Hex : is_Some (disk !! caFile)).
  { unfold loadCertificate, pemFromFile in Hca. destruct (disk !! caFile); [by eexists|done]. }
  exists caFile, dir, sh. case_decide as Hboth.
  - destruct (load disk _ _) as [err|crt]; [done|]. injection Hrun as <-. by split_and!.
  - injection Hrun as <-. by split_and!.
Qed.

Lemma newServer_run path_of load (disk : gmap string string) masterCert varStorage user share master caFile dir ca sh crt :
  path_of masterCert = Done caFile -> path_of varStorage = Done dir ->
  loadCertificate disk caFile = inr ca -> Server.parse_shares path_of share = Done (inr sh) ->
  is_Some (disk !! filepath.Join [dir; (user ++ ".crt")%string]) ->
  is_Some (disk !! filepath.Join [dir; (user ++ ".key")%string]) ->
  load disk (filepath.Join [dir; (user ++ ".crt")%string]) (filepath.Join [dir; (user ++ ".key")%string]) = inr crt ->
  Server.newServer path_of (load disk) disk masterCert varStorage user share master =
    Done (inr (Server.mkServer _ master sh ca (Some crt) ∅)).
Proof.
  intros Hc Hd Hca Hsh H1 H2 Hl. unfold Server.newServer. rewrite Hc. cbn [mbind outcome_bind]. rewrite Hca, Hd.
  cbn [mbind outcome_bind]. rewrite decide_True by done. rewrite Hl, Hsh. done.
Qed.

(** A token is never empty. *)
Lemma token_not_empty mv user : createAuthToken mv user <> "".
Proof.
  unfold createAuthToken, sha1.Sum. destruct (sha1.blocks _ _ _) as [[[[a b] c] d] e]. done.
Qed.

(** ** Registering *)

Section peer.
Context {ops : DatabaseOps}.
Context (vault : MasterVault) (sgn : Session.signing) (netw : Master.Network) (conn_of : Master.Conn)
  (dial_err : nat -> option error).
Abbreviation rpc_Call := (Session.rpc_Call vault sgn netw).
Abbreviation tls_Dial := (Session.tls_Dial conn_of dial_err).
Abbreviation Setup := (Setup rpc_Call (fun _ => tls_Dial)).

Lemma dial_run (w : Session.World) st :
  Session.master w = Some st -> dial_err (Session.next_conn w) = None ->
  tls_Dial w = (reconnected conn_of w st Master.new_peer, inr (Session.next_conn w)).
Proof. intros Hst Hd. unfold Session.tls_Dial. by rewrite Hst, Hd. Qed.

(** The first call on a new connection. *)
Lemma Register_new (w : Session.World) st user token pub :
  Session.master w = Some st ->
  let w1 := reconnected conn_of w st Master.new_peer in
  let c := mkClient (Session.next_conn w) [] in
  Rpc.Register rpc_Call tls_Dial 2 w1 c user token pub =
    match Master.Register (Session.sign_rnd sgn) (Session.sign_serial sgn) (Session.sign_now sgn)
            (Session.sign_now' sgn) vault
            {| Register_User := user; Register_Token := token; Register_PublicKey := pub |} with
    | Done (crt, e) => Done (w1, c, (if e is None then crt else "", ServerError <$> e))
    | _ => Done (crashed w1, c, ("", Some broken))
    end.
Proof.
  intros Hst w1 c. eapply (Register_alive vault sgn netw conn_of dial_err w1 c); [done|simpl; set_solver|].
  apply lookup_insert_eq.
Qed.

Lemma Signin_new (w : Session.World) st user addr :
  Session.master w = Some st ->
  let c := mkClient (Session.next_conn w) [] in
  Rpc.Signin rpc_Call tls_Dial 2 (reconnected conn_of w st Master.new_peer) c addr user =
    match Master.Signin netw conn_of Master.new_peer
            {| Signin_ProtocolVersion := 1; Signin_User := user; Signin_Address := addr |} with
    | Done (peer, e) => Done (reconnected conn_of w st peer, c, ServerError <$> e)
    | _ => Done (crashed (reconnected conn_of w st Master.new_peer), c, Some broken)
    end.
Proof.
  intros Hst c. set (w1 := reconnected conn_of w st Master.new_peer).
  rewrite (Signin_alive vault sgn netw conn_of dial_err w1 c (default st (Session.master w1)) conn_of Master.new_peer);
    [|done|simpl; set_solver|apply lookup_insert_eq].
  destruct (Master.Signin _ _ _ _) as [[peer e]| |]; [|done..].
  unfold after. cbn. by rewrite insert_insert_eq.
Qed.

Lemma Setup_registers fl listen path_of rnd s (w : Session.World) st disk dir key pub t serial der :
  Session.master w = Some st -> dial_err (Session.next_conn w) = None ->
  Server.server_cert s = None -> f_registerToken fl = createAuthToken vault (f_user fl) ->
  f_registerToken fl <> "" ->
  path_of (f_varStorage fl) = Done dir ->
  disk !! filepath.Join [dir; (f_user fl ++ ".key")%string] = None ->
  GenerateKey rnd = inr key -> MarshalPKIXPublicKey (Public key) = inr pub ->
  ParsePKIXPublicKey pub = inr (Public key) ->
  Session.sign_serial sgn = inr serial ->
  createCertTemplate (inr serial) (Session.sign_now sgn) (Session.sign_now' sgn) false (f_user fl) = Done t ->
  CreateCertificate (Session.sign_rnd sgn) t (ca vault) (Public key) (priv vault) = inr der ->
  Setup fl listen path_of None no_faults writes rnd s w disk =
    Done (reconnected conn_of w st Master.new_peer,
          <[filepath.Join [dir; (f_user fl ++ ".crt")%string] := pem_Encode "CERTIFICATE" der]>
            (<[filepath.Join [dir; (f_user fl ++ ".key")%string] :=
                 pem_Encode "RSA PRIVATE KEY" (MarshalPKCS1PrivateKey key)]> disk),
          Exits 0 []).
Proof.
  intros Hst Hdial Hcert Htok Htok' Hdir Hkey Hgen Hpub Hpk Hserial Ht Hder.
  unfold Startup.Setup, NewRUFSMasterClient. rewrite Hcert, (dial_run w st) by done.
  rewrite decide_True by done. unfold Server.getCertificates. rewrite Hdir.
  cbn [mbind outcome_bind Server.ensureDirExists].
  rewrite (createKeyPair_run rnd disk _ key) by done. unfold serializePubKey. rewrite Hpub, Htok.
  rewrite (Register_new w st) by done. rewrite Hserial, (Register_run vault _ serial _ _ _ pub (Public key) t der) by done. done.
Qed.
End peer.

(** ** Claims *)

(** C10: registration works from end to end. When [genMasterKeys] succeeds, the
master starts from what it wrote, and prints, for [--get_auth_token], a token;
a peer that is started with this token, on a disk without a key for its user,
dials the master, has the public half of a new key certified by [Register], and
exits with 0; started again without the token on the disk it left, it has a
certificate the master issued for its user and its own key, and the same shares
and master's certificate as before. *)
Theorem registration_end_to_end {ops : DatabaseOps} load
    (path_m : string -> outcome string) masterDir io_key io_crt rnd0 rnd1 serial0 now0 now1 disk_m0 disk_m
    (d0 : db) mport listen_m user :
  LoadLaws load ->
  genMasterKeys path_m masterDir None io_key io_crt rnd0 rnd1 serial0 now0 now1 disk_m0 = Done (disk_m, None) ->
  user <> "" -> strings.Contains user slash = false ->
  exists m, newMaster path_m masterDir None disk_m (inr d0) mport = Done (inr m) /\
    Startup.database m = d0 /\
    let token := createAuthToken (vault m) user in
    Master_Setup listen_m user m = Exits 0 [token] /\
    forall sgn netw conn_of dial_err (w : Session.World) st
      fl listen path_of masterCert disk s rnd caFile vdir key pub t serial der,
    f_user fl = user -> f_registerToken fl = token ->
    path_of masterCert = Done caFile -> path_of (f_varStorage fl) = Done vdir ->
    caFile <> filepath.Join [vdir; (user ++ ".crt")%string] ->
    disk !! filepath.Join [vdir; (user ++ ".key")%string] = None ->
    Server.newServer path_of (load disk) disk masterCert (f_varStorage fl) user (f_share fl) "master" = Done (inr s) ->
    Session.master w = Some st -> dial_err (Session.next_conn w) = None ->
    GenerateKey rnd = inr key -> MarshalPKIXPublicKey (Public key) = inr pub ->
    Session.sign_serial sgn = inr serial ->
    createCertTemplate (inr serial) (Session.sign_now sgn) (Session.sign_now' sgn) false user = Done t ->
    CreateCertificate (Session.sign_rnd sgn) t (ca (vault m)) (Public key) (priv (vault m)) = inr der ->
    exists w' disk' s',
      Setup (Session.rpc_Call (vault m) sgn netw) (fun _ => Session.tls_Dial conn_of dial_err)
        fl listen path_of None no_faults writes rnd s w disk = Done (w', disk', Exits 0 []) /\
      Server.newServer path_of (load disk') disk' masterCert (f_varStorage fl) user (f_share fl) "master" = Done (inr s') /\
      Server.server_cert s' = Some {| tls_Certificate := [der]; tls_PrivateKey := key |} /\
      Server.server_ca s' = Server.server_ca s /\ Server.shares s' = Server.shares s.
Proof.
  intros HL Hgen Hu Hslash. unfold genMasterKeys in Hgen. unfold newMaster.
  destruct (path_m masterDir) as [mdir| |]; simpl in Hgen; try done. cbn [mbind outcome_bind Server.ensureDirExists].
  destruct (createCA _ _ _ _ _ _ _ _ _ _) as [[disk1 [err|]]| |]; simpl in Hgen; try done.
  destruct (loadMasterVault disk1 mdir) as [err|mv] eqn:Hv; [done|]. injection Hgen as ->. rewrite Hv.
  eexists. split; [done|]. split; [done|]. cbn [vault].
  split; [unfold Master_Setup; by rewrite decide_True|].
  intros * Hfu Htok Hca Hdir Hne Hkey Hns Hst Hdial Hkg Hpub Hserial Ht Hder. cbn [vault] in *. subst user.
  destruct (newServer_inv path_of load disk _ _ _ _ _ s Hns)
    as (caFile' & vdir' & sh & Hca' & Hdir' & Hex & Hload & Hsh & Hs & _ & _ & Hcert).
  rewrite Hca in Hca'. rewrite Hdir in Hdir'. injection Hca' as <-. injection Hdir' as <-.
  assert (Hnocert : Server.server_cert s = None).
  { unfold Server.newServer in Hns. rewrite Hca in Hns. cbn [mbind outcome_bind] in Hns. rewrite Hload, Hdir in Hns.
    cbn [mbind outcome_bind] in Hns. rewrite decide_False in Hns by (rewrite Hkey; intros [_ [? ?]]; done).
    rewrite Hsh in Hns. cbn [mbind outcome_bind] in Hns. by injection Hns as <-. }
  set (keyFile := filepath.Join [vdir; (f_user fl ++ ".key")%string]) in *.
  set (crtFile := filepath.Join [vdir; (f_user fl ++ ".crt")%string]) in *.
  assert (Hkc : keyFile <> crtFile) by (by apply key_crt_differ).
  eexists _, _, _. split.
  { eapply (Setup_registers mv sgn netw conn_of dial_err fl listen path_of rnd s w st disk vdir key pub t serial der);
      try done; [|by eapply pkix_roundtrip]. rewrite Htok. apply token_not_empty. }
  fold keyFile crtFile.
  set (disk' := <[crtFile := _]> (<[keyFile := _]> disk)).
  assert (Hpair : has_pair disk' crtFile keyFile der key).
  { unfold disk'. split; [apply lookup_insert_eq|]. rewrite lookup_insert_ne by done. apply lookup_insert_eq. }
  split.
  - apply (newServer_run path_of load disk' _ _ _ _ _ caFile vdir (Server.server_ca s) sh
      {| tls_Certificate := [der]; tls_PrivateKey := key |}); try done.
    + unfold loadCertificate, pemFromFile, disk' in *. rewrite !lookup_insert_ne; [done| |done].
      intros Heq. rewrite <-Heq, Hkey in Hex. by destruct Hex.
    + fold crtFile. destruct Hpair as [-> _]. by eexists.
    + fold keyFile. destruct Hpair as [_ ->]. by eexists.
    + by eapply load_pair.
  - cbn. by subst sh.
Qed.

(** C26: what [Setup] of the file server does, on every branch. When it cannot
listen it returns that error and has not touched the master. When it cannot dial
it returns that error. With a registration token it never signs in: in the storage
directory, when that resolves and can be made, it makes a key pair, asks the master to register the public key, and exits with 0 when the
certificate is written; it returns the error of the step that fails, that of the
master among them, and what is on the disk by then stays. Without a token and
without a certificate it says that there is none. Otherwise it signs in: when
the master refuses it returns that; when the master takes it, the server listens
with the peer's certificate, demanding certificates of its clients, and its
client of the master is on a live connection on which the master knows the peer
that the sign-in gives, with the callback that signs in like that again. A
master that panics is gone, and [Setup] returns an error. *)
Theorem Setup_signs_in {ops : DatabaseOps} vault sgn netw conn_of dial_err fl listen path_of mkdir io write rnd s
    (w : Session.World) disk :
  let sq := {| Signin_ProtocolVersion := 1; Signin_User := f_user fl; Signin_Address := signin_addr fl |} in
  let result := Setup (Session.rpc_Call vault sgn netw) (fun _ => Session.tls_Dial conn_of dial_err)
                  fl listen path_of mkdir io write rnd s w disk in
  (forall cert err, Server.server_cert s = Some cert -> listen (f_port fl) = Some err ->
     result = Done (w, disk, Returns (Some err, mkRunning None None))) /\
  (Server.server_cert s = None \/ listen (f_port fl) = None ->
   (forall w1 err, Session.tls_Dial conn_of dial_err w = (w1, inl err) -> exists sock, result =
      Done (w1, disk, Returns (Some err, mkRunning sock None)) /\ Session.master w1 = Session.master w) /\
   (forall st, Session.master w = Some st -> dial_err (Session.next_conn w) = None ->
     let w1 := reconnected conn_of w st Master.new_peer in
     let broken w' := Session.master w' = None in
     (forall dir, f_registerToken fl <> "" -> path_of (f_varStorage fl) = Done dir -> mkdir = None -> exists r,
        match createKeyPair io rnd disk (filepath.Join [dir; (f_user fl ++ ".key")%string]) with
        | (disk1, inl err) => result = Done (w1, disk1, Returns (Some err, r))
        | (disk1, inr priv) =>
            match serializePubKey priv with
            | inl err => result = Done (w1, disk1, Returns (Some err, r))
            | inr pub =>
                match Master.Register (Session.sign_rnd sgn) (Session.sign_serial sgn) (Session.sign_now sgn)
                        (Session.sign_now' sgn) vault
                        {| Register_User := f_user fl; Register_Token := f_registerToken fl; Register_PublicKey := pub |} with
                | Done (_, Some err) => result = Done (w1, disk1, Returns (Some (ServerError err), r))
                | Done (crt, None) =>
                    let file := filepath.Join [dir; (f_user fl ++ ".crt")%string] in
                    let disk2 := match (write crt).1 with Some content => <[file := content]> disk1 | None => disk1 end in
                    result = Done (w1, disk2,
                      match (write crt).2 with Some err => Returns (Some err, r) | None => Exits 0 [] end)
                | _ => exists w' err, result = Done (w', disk1, Returns (Some err, r)) /\ broken w'
                end
            end
        end) /\
     (f_registerToken fl = "" -> Server.server_cert s = None -> exists r, result =
        Done (w1, disk, Returns (Some (errors_New "client certificate not found. Maybe you're looking for --register_token?"), r))) /\
     (forall cert, f_registerToken fl = "" -> Server.server_cert s = Some cert ->
        match Master.Signin netw conn_of Master.new_peer sq with
        | Done (_, Some err) => exists r, result =
            Done (w1, disk, Returns (Some (Session.signin_failed (ServerError err)), r))
        | Done (peer, None) =>
            exists w' st' sock c, result = Done (w', disk, Returns (None, mkRunning (Some sock) (Some c))) /\
              sock_port sock = f_port fl /\ ClientAuth (sock_config sock) = RequireAndVerifyClientCert /\
              Certificates (sock_config sock) = [cert] /\
              Session.master w' = Some st' /\ client c ∈ Session.alive w' /\
              Master.peers st' !! client c = Some (conn_of, peer) /\
              reconnCb c = Session.signs_in sq
        | _ => exists w' err r, result = Done (w', disk, Returns (Some err, r)) /\ broken w'
        end))).
Proof.
  intros sq result. unfold result, Startup.Setup, NewRUFSMasterClient, tls_Listen.
  split; [intros cert err -> ->; done|]. intros Hl.
  assert (Hl' : forall cert, Server.server_cert s = Some cert -> listen (f_port fl) = None) by naive_solver.
  split.
  { intros w1 err Hd. assert (Hsame : Session.master w1 = Session.master w).
    { revert Hd. unfold Session.tls_Dial. destruct (Session.master w), (dial_err (Session.next_conn w)); by intros [= <- _]. }
    destruct (Server.server_cert s) as [cert|]; [rewrite (Hl' cert eq_refl)|]; rewrite Hd; eauto. }
  intros st Hst Hd. set (id := Session.next_conn w). split; [|split].
  - intros dir Htok Hdir ->.
    set (sock := match Server.server_cert s with Some cert => _ | None => _ end).
    assert (exists k, sock = inr k) as [k ->].
    { unfold sock. destruct (Server.server_cert s) as [cert|]; [rewrite (Hl' cert eq_refl)|]; by eexists. }
    exists (mkRunning k (Some (mkClient id []))).
    rewrite (dial_run conn_of dial_err w st) by done. rewrite decide_True by done.
    unfold Server.getCertificates. rewrite Hdir. cbn [mbind outcome_bind Server.ensureDirExists].
    destruct (createKeyPair _ _ _ _) as [disk1 [err|priv]]; [done|].
    destruct (serializePubKey priv) as [err|pub]; [done|].
    rewrite (Register_new vault sgn netw conn_of dial_err w st) by done.
    destruct (Master.Register _ _ _ _ _ _) as [[crt [err|]]| |]; cbn [mbind outcome_bind]; try done; try (by eexists _, _).
    cbn [fmap option_fmap option_map]. by destruct (write crt) as [content [err|]].
  - intros Htok Hcert. rewrite Hcert, (dial_run conn_of dial_err w st) by done.
    rewrite decide_False by naive_solver. rewrite decide_True by done. eauto.
  - intros cert Htok Hcert. rewrite Hcert, (Hl' cert Hcert), (dial_run conn_of dial_err w st) by done.
    rewrite decide_False by naive_solver. rewrite decide_False by done.
    rewrite (Signin_new vault sgn netw conn_of dial_err w st) by done. fold sq.
    destruct (Master.Signin _ _ _ _) as [[peer [err|]]| |] eqn:Hs; cbn [mbind outcome_bind fmap option_fmap option_map].
    + assert (peer = Master.new_peer) as -> by (by apply MasterTheorems.Signin_run in Hs as [[_ ?]|[? _]]).
      eexists. done.
    + eexists _, _, _, _. split; [done|]. split_and!; try done; [simpl; set_solver|apply lookup_insert_eq].
    + eexists _, _, _. by split.
    + eexists _, _, _. by split.
Qed.

End startup.

(** ** Witnesses *)

Section demo.
Import MasterTheorems.
#[local] Existing Instances CryptoTheorems.demo_x509 CryptoTheorems.demo_laws.
#[local] Open Scope string_scope.

(** [tls.LoadX509KeyPair] *)
Definition load0 (disk : gmap string string) (crtFile keyFile : string) : error + tlsCertificate :=
  match disk !! crtFile ≫= pem_Decode, disk !! keyFile ≫= pem_Decode with
  | Some (_, der), Some (_, key) => inr {| tls_Certificate := [der]; tls_PrivateKey := (key : PrivateKey) |}
  | _, _ => inl (errors_New "no pair")
  end.

Lemma load0_laws : LoadLaws load0.
Proof.
  split.
  - intros disk crtFile keyFile rnd t parent key pk der [H1 H2] _. unfold load0. rewrite H1, H2.
    cbn [mbind option_bind]. by rewrite !pem_roundtrip by auto.
  - by intros pk pub [= <-].
Qed.

Definition flags0 : flags := mkFlags "bob" 1667 "" "" (createAuthToken demo_vault "bob") "/home/bob".
Definition disk0 : gmap string string := {["/etc/ca.crt" := pem_Encode "CERTIFICATE" "rufs-master"]}.
Definition server0 : Server.Server := Server.mkServer _ "master" ∅ (ca demo_vault) None ∅.
Definition master0 : Startup.Master (ops := ops0) := mkMaster 1666 "/var/master" None demo_vault db0.

Lemma registration_end_to_end_witness :
  newMaster (fun p => Done p) "/var/master" None demo_created (inr db0) 1666 = Done (inr master0) /\
  Master_Setup (fun _ => None) "bob" master0 = Exits 0 [createAuthToken demo_vault "bob"] /\
  exists w' disk' s',
    Setup (Session.rpc_Call (ops := ops0) demo_vault sgn0 open_network) (fun _ => Session.tls_Dial conn_a (fun _ => None))
      flags0 (fun _ => None) (fun p => Done p) None no_faults writes 1 server0 signed_in0 disk0 = Done (w', disk', Exits 0 []) /\
    Server.newServer (fun p => Done p) (load0 disk') disk' "/etc/ca.crt" "/home/bob" "bob" "" "master" = Done (inr s') /\
    Server.server_cert s' = Some {| tls_Certificate := ["bob"]; tls_PrivateKey := "secret" |} /\
    Server.server_ca s' = Server.server_ca server0 /\ Server.shares s' = Server.shares server0.
Proof.
  destruct (registration_end_to_end (ops := ops0) load0 (fun p => Done p) "/var/master" no_faults no_faults 1 2
    (inr 5%Z) 0 0 ∅ demo_created db0 1666 (fun _ => None) "bob") as (m & Hm & _ & Htok & Hreg).
  - apply load0_laws.
  - vm_cast_no_check (@eq_refl (outcome (gmap string string * option error)) (Done (demo_created, None))).
  - discriminate.
  - reflexivity.
  - assert (Hm' : newMaster (ops := ops0) (fun p => Done p) "/var/master" None demo_created (inr db0) 1666 = Done (inr master0))
      by reflexivity.
    rewrite Hm in Hm'. injection Hm' as ->. split; [exact Hm|]. split; [exact Htok|].
    eapply (Hreg sgn0 open_network conn_a (fun _ => None) signed_in0 st2 flags0 (fun _ => None) (fun p => Done p)
      "/etc/ca.crt" disk0 server0 1%Z "/etc/ca.crt" "/home/bob"); try reflexivity; discriminate.
Defined.

(** The peer [a], started with the certificate it has. *)
Definition flags_a : flags := mkFlags "a" 1667 "" "/srv/music" "" "/home/a".
Definition cert_a : tlsCertificate := {| tls_Certificate := ["a"]; tls_PrivateKey := "secret" |}.
Definition server_a : Server.Server := Server.mkServer _ "master" {["" := "/srv/music"]} (ca demo_vault) (Some cert_a) ∅.
Definition world_a : Session.World (ops := ops0) := Session.mkWorld (Some st0) ∅ 0.

Lemma Setup_signs_in_witness :
  exists w' st' sock c,
    Setup (Session.rpc_Call (ops := ops0) demo_vault sgn0 open_network) (fun _ => Session.tls_Dial conn_a (fun _ => None))
      flags_a (fun _ => None) (fun p => Done p) None no_faults writes 1 server_a world_a ∅
      = Done (w', ∅, Returns (None, mkRunning (Some sock) (Some c))) /\
    sock_port sock = 1667%Z /\ ClientAuth (sock_config sock) = RequireAndVerifyClientCert /\
    Certificates (sock_config sock) = [cert_a] /\
    Session.master w' = Some st' /\ client c ∈ Session.alive w' /\
    Master.peers st' !! client c = Some (conn_a, peer_a) /\ reconnCb c = Session.signs_in signin_a.
Proof.
  destruct (Setup_signs_in (ops := ops0) demo_vault sgn0 open_network conn_a (fun _ => None)
    flags_a (fun _ => None) (fun p => Done p) None no_faults writes 1 server_a world_a ∅) as [_ H].
  destruct (H (or_intror eq_refl)) as [_ H'].
  destruct (H' st0 eq_refl eq_refl) as (_ & _ & Hin). exact (Hin cert_a eq_refl eq_refl).
Defined.
End demo.
End StartupTheorems.
