(* ===== verification/Process.v ===== *)
(** * The process ([main.go])

How [main] puts the modules together, and how it waits for them: the goroutines
that run the modules, the channel they answer on, the signals, and the exit
code. *)

From S2P Require Import Prelude GoStrings Startup.
Import Startup.

Module Process.

(** ** Starting *)

Record flags := mkFlags {
  masterPort : Z;
  masterAddr : string;
  masterGenKeys : bool;
  getAuthToken : string;
}.

(** What [main] comes to before it waits: the process ends with a code
([log.Fatalln] exits with 1), or modules are launched. *)
Inductive started (M : Type) :=
  | Ended (code : Z)
  | Launched (mods : list M).
Arguments Ended {M} code.
Arguments Launched {M} mods.

Section main.
(** Modules, and the state that starting them works on. *)
Context {M W : Type}.
(** [genMasterKeys], [newMaster] and [newServer]; [Setup] of a module. *)
Context (genMasterKeys : W -> outcome (W * option error)).
Context (newMaster newServer : W -> outcome (W * (error + M))).
Context (Setup : M -> W -> outcome (W * setup (option error))).

(** A function that [registerServerModule] takes: a module for the server, none,
or an error. *)
Definition constructor : Type := M -> W -> outcome (W * (error + option M)).

Definition registerServerModule (serverMods : list constructor) (f : constructor) : list constructor :=
  serverMods ++ [f].

(** The loop over [serverMods]: the modules after it, or the first error. *)
Fixpoint server_modules (m : M) (fs : list constructor) (mods : list M) (w : W)
    : outcome (W * (error + list M)) :=
  match fs with
  | [] => Done (w, inr mods)
  | f :: fs' =>
      '(w, sm) ← f m w;
      match sm with
      | inl err => Done (w, inl err)
      | inr None => server_modules m fs' mods w
      | inr (Some sm) => server_modules m fs' (mods ++ [sm]) w
      end
  end.

(** The loop of [Setup]: nothing, or the code the process ends with. *)
Fixpoint setup_all (mods : list M) (w : W) : outcome (W * option Z) :=
  match mods with
  | [] => Done (w, None)
  | m :: mods' =>
      '(w, r) ← Setup m w;
      match r with
      | Exits code _ => Done (w, Some code)
      | Returns (Some _) => Done (w, Some 1%Z)
      | Returns None => setup_all mods' w
      end
  end.

(** [main] up to the goroutines. *)
Definition start (serverMods : list constructor) (fl : flags) (w : W) : outcome (W * started M) :=
  if masterGenKeys fl then
    '(w, err) ← genMasterKeys w;
    Done (w, Ended (match err with Some _ => 1%Z | None => 0%Z end))
  else
    '(w, mods) ←
      (if decide (masterPort fl <> 0%Z \/ getAuthToken fl <> "") then
         '(w, m) ← newMaster w;
         Done (w, match m with inl err => inl err | inr m => inr [m] end)
       else Done (w, inr []));
    match mods with
    | inl err => Done (w, Ended 1)
    | inr mods =>
        '(w, mods) ←
          (if decide (masterAddr fl <> "") then
             '(w, m) ← newServer w;
             match m with
             | inl err => Done (w, inl err)
             | inr m => server_modules m serverMods (mods ++ [m]) w
             end
           else Done (w, inr mods));
        match mods with
        | inl err => Done (w, Ended 1)
        | inr mods =>
            if decide (len mods = 0%Z) then Done (w, Ended 1)
            else
              '(w, code) ← setup_all mods w;
              Done (w, match code with Some code => Ended code | None => Launched mods end)
        end
    end.
End main.

(** ** Waiting *)

(** A module's goroutine: in [Run]; about to send what [Run] returned; done. *)
Inductive goroutine :=
  | Running
  | Sending (result : option error)
  | Finished (result : option error).

(** [main] itself: in the [select]; past a signal, receiving; in the loop with
[i], [err] and [ec]; receiving in the loop; exited. *)
Inductive main_pc :=
  | Selecting
  | Signalled
  | Loop (i : nat) (err : option error) (ec : Z)
  | Receiving (i : nat) (ec : Z)
  | Exited (ec : Z).

(** The modules' goroutines, what is in the channel [ret], whether [cancel] was
called, and [main]. *)
Record state := mkState {
  modules : list goroutine;
  ret : list (option error);
  cancelled : bool;
  main : main_pc;
}.

(** After the goroutines are started. *)
Definition launched (n : nat) : state := mkState (replicate n Running) [] false Selecting.

(** The capacity of [ret]. *)
Definition ret_cap : nat := 1.

Inductive step : state -> state -> Prop :=
  (* a module's Run returns; its goroutine sends the result *)
  | step_return ms r c p k e :
      ms !! k = Some Running ->
      step (mkState ms r c p) (mkState (<[k := Sending e]> ms) r c p)
  | step_send ms r c p k e :
      ms !! k = Some (Sending e) -> length r < ret_cap ->
      step (mkState ms r c p) (mkState (<[k := Finished e]> ms) (r ++ [e]) c p)
  (* the select *)
  | step_signal ms r c :
      step (mkState ms r c Selecting) (mkState ms r true Signalled)
  | step_first ms r c e :
      step (mkState ms (e :: r) c Selecting) (mkState ms r true (Loop (length ms - 1) e 0))
  | step_after_signal ms r c e :
      step (mkState ms (e :: r) c Signalled) (mkState ms r c (Loop (length ms - 1) e 0))
  (* the loop *)
  | step_loop ms r c i err ec :
      step (mkState ms r c (Loop (S i) err ec))
           (mkState ms r c (Receiving (S i) (if err is Some _ then 1 else ec)%Z))
  | step_receive ms r c i ec e :
      step (mkState ms (e :: r) c (Receiving (S i) ec)) (mkState ms r c (Loop i e ec))
  | step_exit ms r c err ec :
      step (mkState ms r c (Loop 0 err ec)) (mkState ms r c (Exited (if err is Some _ then 1 else ec)%Z)).

End Process.
