(* ===== verification/ProcessTheorems.v ===== *)
(** * What the process guarantees

[main] waits for every module, its exit code tells whether one of them failed,
and it always comes to exit when the modules return. *)

From S2P Require Import Prelude GoStrings Startup Process.
Import Process.

Module ProcessTheorems.

(** ** Starting *)

Section start.
Context {M W : Type}.
Context (genMasterKeys : W -> outcome (W * option error)).
Context (newMaster newServer : W -> outcome (W * (error + M))).
Context (Setup : M -> W -> outcome (W * Startup.setup (option error))).
Abbreviation start := (start genMasterKeys newMaster newServer Setup).

Lemma server_modules_grow m (fs : list (constructor (M := M) (W := W))) mods w w' mods' :
  server_modules m fs mods w = Done (w', inr mods') -> exists more, mods' = mods ++ more.
Proof.
  revert mods w. induction fs as [|f fs IH]; intros mods w; simpl.
  - intros [= _ <-]. exists []. by rewrite app_nil_r.
  - destruct (f m w) as [[w1 [err|[sm|]]]| |]; simpl; try done; [|apply IH].
    intros [more ->]%IH. exists (sm :: more). by rewrite <-(assoc_L (++)).
Qed.

(** What [main] launches: at least one module, the master first if the flags ask
for it, then the file server and what is registered for it if they ask for
that, and the [Setup] of every one of them, in this order, returned nil. *)
Theorem start_launches serverMods fl w w' mods :
  start serverMods fl w = Done (w', Launched mods) ->
  Process.masterGenKeys fl = false /\ mods <> [] /\
  (exists ms ss, mods = ms ++ ss /\
     (masterPort fl = 0%Z -> getAuthToken fl = "" -> ms = []) /\
     (masterPort fl <> 0%Z \/ getAuthToken fl <> "" -> exists m, ms = [m]) /\
     (masterAddr fl = "" -> ss = []) /\ (masterAddr fl <> "" -> ss <> [])) /\
  exists w0, setup_all Setup mods w0 = Done (w', None).
Proof.
  unfold Process.start. destruct (masterGenKeys fl); [by destruct (genMasterKeys w) as [[? []]| |]|].
  intros Hrun.
  assert (Hmaster : exists w1 ms,
    (if decide (masterPort fl <> 0%Z \/ getAuthToken fl <> "") then
       '(w, m) ← newMaster w; Done (w, match m with inl err => inl err | inr m => inr [m] end)
     else Done (w, inr [])) = Done (w1, inr ms : error + list M) /\
    (masterPort fl = 0%Z -> getAuthToken fl = "" -> ms = []) /\
    (masterPort fl <> 0%Z \/ getAuthToken fl <> "" -> exists m, ms = [m])).
  { destruct (decide (masterPort fl <> 0%Z \/ getAuthToken fl <> "")) as [Hm|Hm].
    - destruct (newMaster w) as [[w1 [err|m]]| |]; simpl in Hrun; try done.
      exists w1, [m]. split; [done|]. split; [|by eexists]. intros H1 H2. by destruct Hm.
    - exists w, []. split; [done|]. by split. }
  destruct Hmaster as (w1 & ms & Hms & Hms1 & Hms2). rewrite Hms in Hrun. cbn [mbind outcome_bind] in Hrun.
  assert (Hserver : exists w2 ss,
    (if decide (masterAddr fl <> "") then
       '(w, m) ← newServer w1;
       match m with inl err => Done (w, inl err) | inr m => server_modules m serverMods (ms ++ [m]) w end
     else Done (w1, inr ms)) = Done (w2, inr (ms ++ ss) : error + list M) /\
    (masterAddr fl = "" -> ss = []) /\ (masterAddr fl <> "" -> ss <> [])).
  { destruct (decide (masterAddr fl <> "")) as [Ha|Ha].
    - destruct (newServer w1) as [[w2 [err|m]]| |]; simpl in Hrun; try done.
      destruct (server_modules m serverMods (ms ++ [m]) w2) as [[w3 [err|mods']]| |] eqn:E; simpl in Hrun; try done.
      destruct (server_modules_grow _ _ _ _ _ _ E) as [more ->]. exists w3, (m :: more).
      split; [simpl; rewrite E; by rewrite <-(assoc_L (++))|]. by split.
    - exists w1, []. rewrite app_nil_r. split; [done|]. by split; [|intros ?]. }
  destruct Hserver as (w2 & ss & Hss & Hss1 & Hss2). rewrite Hss in Hrun. cbn [mbind outcome_bind] in Hrun.
  clear Hms Hss. case_decide as Hne; [done|].
  destruct (setup_all Setup (ms ++ ss) w2) as [[w3 [code|]]| |] eqn:E; simpl in Hrun; try done.
  injection Hrun as <- <-. split; [done|]. split; [by intros Hnil; rewrite Hnil in Hne|].
  split; [by exists ms, ss|by exists w2].
Qed.
End start.

(** ** Results *)

(** What the goroutines have sent. *)
Definition sent (g : goroutine) : list (option error) :=
  match g with Finished e => [e] | _ => [] end.
Definition results (ms : list goroutine) : list (option error) := flat_map sent ms.

Lemma results_replicate n : results (replicate n Running) = [].
Proof. induction n; [done|]. simpl. done. Qed.

Lemma results_insert ms k g g' :
  ms !! k = Some g -> sent g = [] -> results (<[k := g']> ms) ≡ₚ results ms ++ sent g'.
Proof.
  intros Hk Hg. rewrite insert_take_drop by (by eapply lookup_lt_Some).
  rewrite <-(take_drop_middle ms k g Hk) at 3. unfold results. rewrite !flat_map_app.
  cbn [flat_map]. rewrite Hg, <-(assoc_L (++)). apply Permutation_app_head, Permutation_app_comm.
Qed.

Lemma length_results ms : length (results ms) <= length ms.
Proof.
  unfold results. induction ms as [|g ms IH]; [done|]. cbn [flat_map]. rewrite length_app.
  destruct g; cbn [sent length]; lia.
Qed.

(** The goroutine has sent its result. *)
Definition done_with (g : goroutine) : Prop := exists e, g = Finished e.

Lemma results_all ms : length (results ms) = length ms -> Forall done_with ms.
Proof.
  induction ms as [|g ms IH]; intros Hlen; [done|]. pose proof (length_results ms) as Hle.
  change (results (g :: ms)) with (sent g ++ results ms) in Hlen. rewrite length_app in Hlen.
  destruct g as [|e|e]; cbn [sent length] in Hlen; try lia. constructor; [by exists e|]. apply IH. lia.
Qed.

Lemma results_errors ms : Exists (fun e => e <> None) (results ms) <-> exists err, Finished (Some err) ∈ ms.
Proof.
  rewrite Exists_exists. unfold results. split.
  - intros (e & Hin & He). apply list_elem_of_In, in_flat_map in Hin as (g & Hg & Hin). apply list_elem_of_In in Hg.
    destruct g as [|e'|e']; [done|done|]. destruct Hin as [->|[]]. destruct e as [err|]; [|done]. by exists err.
  - intros [err Hin]. exists (Some err). split; [|done]. apply list_elem_of_In, in_flat_map.
    exists (Finished (Some err)). split; [by apply list_elem_of_In|]. by left.
Qed.

(** ** The invariant *)

(** Whether an exit code tells of the errors among [taken]. *)
Definition tells (ec : Z) (taken : list (option error)) : Prop :=
  (ec = 0 \/ ec = 1)%Z /\ (ec = 1%Z <-> Exists (fun e => e <> None) taken).

Lemma tells_nil : tells 0 [].
Proof. split; [by left|]. split; [done|]. by intros ?%Exists_nil. Qed.

Lemma tells_snoc ec taken (e : option error) :
  tells ec taken -> tells (if e is Some _ then 1 else ec) (taken ++ [e]).
Proof.
  intros [Hec Hex]. split; [by destruct e; [right|]|]. rewrite Exists_app, Exists_cons, Exists_nil.
  destruct e as [e|]; naive_solver.
Qed.

(** What [main] has received, by where it is. *)
Definition main_ok (n : nat) (p : main_pc) (taken : list (option error)) : Prop :=
  match p with
  | Selecting | Signalled => taken = []
  | Loop i err ec => length taken + i = n /\ exists before, taken = before ++ [err] /\ tells ec before
  | Receiving i ec => 0 < i /\ length taken + i = n /\ tells ec taken
  | Exited ec => length taken = n /\ tells ec taken
  end.

Definition ok (n : nat) (s : state) : Prop :=
  length (modules s) = n /\ 0 < n /\
  (cancelled s = true \/ main s = Selecting) /\
  exists taken, taken ++ ret s ≡ₚ results (modules s) /\ main_ok n (main s) taken.

Lemma ok_launched n : 0 < n -> ok n (launched n).
Proof.
  intros Hn. unfold ok. simpl. rewrite length_replicate, results_replicate. split_and!; auto. by exists [].
Qed.

Lemma step_ok n s s' : step s s' -> ok n s -> ok n s'.
Proof.
  intros Hstep (Hlen & Hn & Hc & taken & Hperm & Hmain).
  destruct Hstep as [ms r c p k e Hk|ms r c p k e Hk Hr|ms r c|ms r c e|ms r c e|ms r c i err ec
    |ms r c i ec e|ms r c err ec]; unfold ok; simpl in *; (split; [by rewrite ?length_insert|]);
    (split; [done|]).
  - split; [done|]. exists taken. rewrite (results_insert ms k Running) by done. simpl.
    by rewrite app_nil_r.
  - split; [done|]. exists taken. rewrite (results_insert ms k (Sending e)) by done. simpl.
    by rewrite (assoc_L (++)), Hperm.
  - split; [by left|]. by exists taken.
  - split; [by left|]. subst taken. exists [e]. split; [done|]. split; [simpl; lia|].
    exists []. split; [done|apply tells_nil].
  - split; [naive_solver|]. subst taken. exists [e]. split; [done|]. split; [simpl; lia|].
    exists []. split; [done|apply tells_nil].
  - split; [naive_solver|]. exists taken. split; [done|]. destruct Hmain as (Hi & before & -> & Htells).
    split; [lia|]. split; [done|]. by apply tells_snoc.
  - split; [naive_solver|]. exists (taken ++ [e]). split; [by rewrite <-(assoc_L (++))|].
    destruct Hmain as (_ & Hi & Htells). split; [rewrite length_app; simpl; lia|]. by exists taken.
  - split; [naive_solver|]. exists taken. split; [done|]. destruct Hmain as (Hi & before & -> & Htells).
    split; [lia|]. by apply tells_snoc.
Qed.

Lemma reachable_ok n s : 0 < n -> rtc step (launched n) s -> ok n s.
Proof.
  intros Hn Hr. refine (rtc_inv step (ok n) (launched n) s _ _ Hr); [by apply ok_launched|].
  intros y z Hstep. by apply step_ok.
Qed.

(** ** Progress *)

(** How far the goroutines and [main] are from the end. *)
Definition left_of (g : goroutine) : nat :=
  match g with Running => 2 | Sending _ => 1 | Finished _ => 0 end.

Definition left_main (n : nat) (p : main_pc) : nat :=
  match p with
  | Selecting => 2 * n + 2
  | Signalled => 2 * n + 1
  | Loop i _ _ => 2 * i + 2
  | Receiving i _ => 2 * i + 1
  | Exited _ => 0
  end.

Definition to_do (s : state) : nat :=
  sum_list_with left_of (modules s) + left_main (length (modules s)) (main s).

Lemma sum_insert (ms : list goroutine) k g g' :
  ms !! k = Some g -> sum_list_with left_of (<[k := g']> ms) + left_of g = sum_list_with left_of ms + left_of g'.
Proof.
  intros Hk. rewrite insert_take_drop by (by eapply lookup_lt_Some).
  rewrite <-(take_drop_middle ms k g Hk) at 3. rewrite !sum_list_with_app. simpl. lia.
Qed.

Lemma step_to_do s s' : 0 < length (modules s) -> step s s' -> to_do s' < to_do s.
Proof.
  intros Hn Hstep. destruct Hstep as [ms r c p k e Hk|ms r c p k e Hk Hr|ms r c|ms r c e|ms r c e|ms r c i err ec
    |ms r c i ec e|ms r c err ec]; unfold to_do; simpl in *; rewrite ?length_insert; try lia.
  - pose proof (sum_insert ms k Running (Sending e) Hk). simpl in *. lia.
  - pose proof (sum_insert ms k (Sending e) (Finished e) Hk). simpl in *. lia.
Qed.

Lemma sum_left (ms : list goroutine) : sum_list_with left_of ms <= 2 * length ms.
Proof. induction ms as [|g ms IH]; [done|]. simpl. destruct g; simpl; lia. Qed.

Lemma all_results ms : Forall done_with ms -> length (results ms) = length ms.
Proof.
  induction 1 as [|g ms [e ->] _ IH]; [done|].
  change (results (Finished e :: ms)) with (e :: results ms). simpl. by rewrite IH.
Qed.

#[local] Instance done_with_dec g : Decision (done_with g).
Proof. destruct g as [|e|e]; [right; by intros [? ?]..|left; by exists e]. Defined.

Lemma not_done_sending ms :
  ~ Forall done_with ms -> Forall (fun g => g <> Running) ms -> exists k e, ms !! k = Some (Sending e).
Proof.
  intros Hn Hall. apply not_Forall_Exists in Hn; [|apply _].
  apply Exists_exists in Hn as (g & Hin & Hg). apply list_elem_of_lookup in Hin as [k Hk].
  pose proof (Forall_lookup_1 _ _ _ _ Hall Hk) as Hr.
  destruct g as [|e|e]; [done|by exists k, e|]. exfalso. apply Hg. by exists e.
Qed.

(** ** Claims *)

(** C24: when the process exits, every module has returned and its result was
taken, whatever the order in which modules return and signals come; the context
was cancelled; and the exit code is 1 exactly when some module returned an
error, and 0 otherwise. *)
Theorem exit_code_tells n s ec :
  0 < n -> rtc step (launched n) s -> main s = Exited ec ->
  length (modules s) = n /\ Forall done_with (modules s) /\ ret s = [] /\ cancelled s = true /\
  (ec = 0 \/ ec = 1)%Z /\ (ec = 1%Z <-> exists err, Finished (Some err) ∈ modules s).
Proof.
  intros Hn Hr Hmain. destruct (reachable_ok n s Hn Hr) as (Hlen & _ & Hc & taken & Hperm & Hok).
  rewrite Hmain in Hok, Hc. destruct Hok as [Ht [Hec Htells]].
  pose proof (Permutation_length Hperm) as Hl. rewrite length_app in Hl.
  pose proof (length_results (modules s)) as Hle.
  assert (Hret : ret s = []) by (apply length_zero_iff_nil; lia).
  rewrite Hret, app_nil_r in Hperm.
  split_and!; [done|apply results_all; lia|done|naive_solver|done|].
  rewrite Htells, <-results_errors. by rewrite Hperm.
Qed.

(** C25: the process does not hang: no run is longer than four steps for each
module and two more, and as long as it has not exited something can happen, a
signal aside, once the modules have returned. *)
Theorem main_always_exits n s :
  0 < n -> rtc step (launched n) s ->
  (forall k s', nsteps step k s s' -> k <= 4 * n + 2) /\
  (Forall (fun g => g <> Running) (modules s) ->
   (exists ec, main s = Exited ec) \/
   exists s', step s s' /\ (main s' = main s \/ main s' <> Signalled)).
Proof.
  intros Hn Hr. pose proof (reachable_ok n s Hn Hr) as Hok. split.
  - intros k s' Hk. enough (k + to_do s' <= to_do s /\ to_do s <= 4 * n + 2) by lia. split.
    + clear Hr. induction Hk as [s|k s1 s2 s3 Hstep Hk IH]; [lia|].
      pose proof (step_ok n s1 s2 Hstep Hok) as Hok2. specialize (IH Hok2).
      destruct Hok as (Hlen & _). pose proof (step_to_do s1 s2 ltac:(lia) Hstep). lia.
    + destruct Hok as (Hlen & _ & _ & taken & _ & Hm). unfold to_do. rewrite Hlen.
      pose proof (sum_left (modules s)) as Hs. rewrite Hlen in Hs.
      destruct (main s); simpl in *; try lia; destruct Hm as [? ?]; lia.
  - intros Hall. destruct Hok as (Hlen & _ & _ & taken & Hperm & Hm). destruct s as [ms r c p]. simpl in *.
    destruct (decide (Forall done_with ms)) as [Hd|Hd].
    + assert (Hlr : length (taken ++ r) = n) by (rewrite Hperm, (all_results ms Hd); lia).
      rewrite length_app in Hlr.
      destruct p as [| |[|i] err ec|[|i] ec|ec]; simpl in Hm.
      * subst taken. destruct r as [|e r]; [simpl in Hlr; lia|]. right. eexists. split; [apply step_first|]. by right.
      * subst taken. destruct r as [|e r]; [simpl in Hlr; lia|]. right. eexists. split; [apply step_after_signal|]. by right.
      * right. eexists. split; [apply step_exit|]. by right.
      * right. eexists. split; [apply step_loop|]. by right.
      * lia.
      * destruct r as [|e r]; [simpl in Hlr; lia|]. right. eexists. split; [apply step_receive|]. by right.
      * left. by eexists.
    + apply not_done_sending in Hd as (k & e & Hk); [|done]. destruct r as [|e0 r].
      * right. eexists. split; [eapply step_send; [done|simpl; unfold ret_cap; lia]|]. by left.
      * destruct p as [| |[|i] err ec|[|i] ec|ec]; simpl in Hm.
        -- right. eexists. split; [apply step_first|]. by right.
        -- right. eexists. split; [apply step_after_signal|]. by right.
        -- right. eexists. split; [apply step_exit|]. by right.
        -- right. eexists. split; [apply step_loop|]. by right.
        -- lia.
        -- right. eexists. split; [apply step_receive|]. by right.
        -- left. by eexists.
Qed.

(** ** Witnesses: two modules, a signal, and an error *)

Definition failed : option error := Some (errors_New "bind: address already in use").

Lemma demo_exit :
  rtc step (launched 2) (mkState [Finished None; Finished failed] [] true (Exited 1)).
Proof.
  eapply rtc_l; [apply step_signal|].
  eapply rtc_l; [apply (step_return _ _ _ _ 1 failed); reflexivity|].
  eapply rtc_l; [apply (step_send _ _ _ _ 1 failed); [reflexivity|simpl; unfold ret_cap; lia]|].
  eapply rtc_l; [apply step_after_signal|].
  eapply rtc_l; [apply step_loop|].
  eapply rtc_l; [apply (step_return _ _ _ _ 0 None); reflexivity|].
  eapply rtc_l; [apply (step_send _ _ _ _ 0 None); [reflexivity|simpl; unfold ret_cap; lia]|].
  eapply rtc_l; [apply step_receive|]. apply rtc_once. apply step_exit.
Qed.

Lemma exit_code_tells_witness :
  let s := mkState [Finished None; Finished failed] [] true (Exited 1) in
  length (modules s) = 2 /\ Forall done_with (modules s) /\ ret s = [] /\ cancelled s = true /\
  (1 = 0 \/ 1 = 1)%Z /\ (1%Z = 1%Z <-> exists err, Finished (Some err) ∈ modules s).
Proof. apply (exit_code_tells 2); [lia|apply demo_exit|reflexivity]. Defined.

(** A signal; both modules have returned and neither has sent its result. *)
Definition signalled : state := mkState [Sending None; Sending failed] [] true Signalled.

Lemma demo_signalled : rtc step (launched 2) signalled.
Proof.
  eapply rtc_l; [apply step_signal|].
  eapply rtc_l; [apply (step_return _ _ _ _ 1 failed); reflexivity|].
  apply rtc_once. exact (step_return [Running; Sending failed] [] true Signalled 0 None eq_refl).
Qed.

Lemma main_always_exits_witness :
  (forall k s', nsteps step k signalled s' -> k <= 10) /\
  exists s', step signalled s' /\ (main s' = main signalled \/ main s' <> Signalled).
Proof.
  destruct (main_always_exits 2 signalled) as [Hk Hgo]; [lia|apply demo_signalled|].
  split; [exact Hk|]. destruct Hgo as [[ec [=]]|Hgo]; [by repeat constructor|exact Hgo].
Defined.

End ProcessTheorems.
