(* ===== verification/Exports.v ===== *)
(** * The exports of a running file server ([server.go], [filescanner/filescanner.go])

[Server.Run] starts a scanner for every share, exports what it finds to the
master, and appends a callback to the master's client that, after every
reconnection, cancels the export and starts it again. Last, [set] and
[ContinuousExport] at once: they share the list of listeners, and [set] does not
take the lock for it. *)

From S2P Require Import Prelude GoStrings Types Crypto Server Client Scanner.

Module Exports.

(** ** One share *)

(** A share as [Run] keeps it: its scanner; the contexts that are cancelled;
[ectx], the context of the current export; and, for the model, the calls of the
callback so far. *)
Record exporter := mkExporter {
  scanner : Scanner.Scanner;
  cancelled : gset nat;
  ectx : nat;
  told : list Scanner.call;
}.

Definition is_done (e : exporter) (ctx : nat) : bool := bool_decide (ctx ∈ cancelled e).

(** The listener with the callback [setFile] and the context [ctx]. *)
Definition setFile_listener (ctx : nat) : Scanner.listener := Scanner.mkListener 0 ctx.

Section export.
Context `{MapRange}.

(** [mc.ContinuousExport(ectx, setFile)] *)
Definition export (e : exporter) : exporter :=
  let '(m, calls) := Scanner.ContinuousExport (fun _ => false) (setFile_listener (ectx e)) (scanner e) in
  mkExporter m (cancelled e) (ectx e) (told e ++ calls).

(** A new share: [New], a context, and the export. *)
Definition start_export (baseDir cacheDir : string) : exporter :=
  export (mkExporter (Scanner.New baseDir cacheDir) ∅ 0 []).

(** The callback [Run] appends: the context is cancelled, and a new one exports
again. *)
Definition renew (e : exporter) : exporter :=
  export (mkExporter (scanner e) ({[ectx e]} ∪ cancelled e) (S (ectx e)) (told e)).

(** A change that a pass of the scanner reports with [set]. *)
Definition change (e : exporter) (path : string) (fi : option FileInfo) : outcome exporter :=
  '(m, calls) ← Scanner.set (is_done e) (scanner e) path fi;
  Done (mkExporter m (cancelled e) (ectx e) (told e ++ calls)).

(** ** [Server.Run] *)

Section run.
Context {World Conn Request : Type}.
(** The exporters of the process, by the name of the share. *)
Context (exporters : World -> gmap string exporter) (with_exporters : World -> gmap string exporter -> World).
Abbreviation master_client := (Client.RUFSMasterClient (World := World) (Conn := Conn) (Request := Request)).

Definition renew_share (share : string) (w : World) : World :=
  with_exporters w (alter renew share (exporters w)).

(** One share of the loop of [Run]. *)
Definition run_share (cacheDir : string) (wc : World * master_client) (kv : string * string)
    : World * master_client :=
  let '(share, baseDir) := kv in
  (with_exporters wc.1 (<[share := start_export baseDir cacheDir]> (exporters wc.1)),
   Client.AppendReconnectCallback wc.2 [Client.CbDo (renew_share share)]).

(** [Run] up to where it waits for the context; the scanners then run in
goroutines of their own. *)
Definition Run `{Crypto.X509} (path_of : string -> outcome string) (varStorage : string) (s : Server.Server)
    (w : World) (c : master_client) : outcome (World * master_client) :=
  foldM (fun wc kv => cacheDir ← path_of varStorage; Done (run_share cacheDir wc kv))
    (w, c) (range_map (Server.shares s)).
End run.
End export.

(** ** [set] and [ContinuousExport] at once *)

(** Where the goroutine of [set] is in its loop: at the test of the loop; about
to overwrite the done listener [i] with the last one; about to cut the slice,
which it reads and then stores; or finished. *)
Inductive set_pc :=
  | AtTest (i : nat)
  | Overwrite (i : nat)
  | Cut (i : nat)
  | Assign (i : nat) (ls : list Scanner.listener)
  | SetReturned.

(** [adding] is the listener that a [ContinuousExport] is about to append, and
[called] the listeners that were told. *)
Record both := mkBoth {
  ls : list Scanner.listener;
  pc : set_pc;
  adding : option Scanner.listener;
  called : list Scanner.listener;
}.

Inductive both_step (done : nat -> bool) : both -> both -> Prop :=
  | both_end l i a told :
      length l <= i -> both_step done (mkBoth l (AtTest i) a told) (mkBoth l SetReturned a told)
  | both_call l i x a told :
      l !! i = Some x -> done (Scanner.l_ctx x) = false ->
      both_step done (mkBoth l (AtTest i) a told) (mkBoth l (AtTest (S i)) a (told ++ [x]))
  | both_done l i x a told :
      l !! i = Some x -> done (Scanner.l_ctx x) = true ->
      both_step done (mkBoth l (AtTest i) a told) (mkBoth l (Overwrite i) a told)
  | both_overwrite l i x a told :
      last l = Some x ->
      both_step done (mkBoth l (Overwrite i) a told) (mkBoth (<[i := x]> l) (Cut i) a told)
  | both_cut l i a told :
      both_step done (mkBoth l (Cut i) a told) (mkBoth l (Assign i (removelast l)) a told)
  | both_assign l i l' a told :
      both_step done (mkBoth l (Assign i l') a told) (mkBoth l' (AtTest i) a told)
  | both_append l p x told :
      both_step done (mkBoth l p (Some x) told) (mkBoth (l ++ [x]) p None told).

End Exports.
