(* ===== verification/ExportsTheorems.v ===== *)
(** * What the exports of a file server guarantee

Through reconnections the master is told the whole cache again and every change
once; and how a reconnection at the wrong moment loses the listener. *)

From S2P Require Import Prelude GoStrings Types Crypto DatabaseSpec Master CryptoTheorems.
From S2P Require Import Server Client Scanner ScannerTheorems Exports.
Import Crypto Exports ScannerTheorems.

Module ExportsTheorems.

(** ** What was told *)

(** The files that calls of the callback, in order, tell of. *)
Definition tell (files : Scanner.cache) (c : Scanner.call) : Scanner.cache :=
  updated files (Scanner.c_path c) (Scanner.c_info c).
Definition telling (files : Scanner.cache) (calls : list Scanner.call) : Scanner.cache := foldl tell files calls.

Lemma telling_app files l l' : telling files (l ++ l') = telling (telling files l) l'.
Proof. apply foldl_app. Qed.

(** The calls of an initial export. *)
Definition export_calls (files : list (string * FileInfo)) : list Scanner.call :=
  (fun kv => Scanner.mkCall 0 kv.1 (Some kv.2) None) <$> files.

Lemma export_loop_all files : Scanner.export_loop (fun _ => false) 0 files = export_calls files.
Proof. induction files as [|[fn fi] files IH]; simpl; [done|]. by rewrite IH. Qed.

Lemma telling_export files files0 :
  NoDup files.*1 ->
  telling files0 (export_calls files) = list_to_map files ∪ files0.
Proof.
  revert files0. induction files as [|[fn fi] files IH]; intros files0 Hnd.
  { simpl. by rewrite (left_id_L ∅ (∪)). }
  cbn in Hnd. apply NoDup_cons in Hnd as [Hfn Hnd].
  change (telling (<[fn := fi]> files0) (export_calls files) = <[fn := fi]> (list_to_map files) ∪ files0).
  rewrite IH by done. rewrite <-insert_union_r by (by apply not_elem_of_list_to_map).
  by rewrite insert_union_l.
Qed.

Section exports.
Context `{MapRange}.

Lemma telling_range_map (files : Scanner.cache) : telling ∅ (export_calls (range_map files)) = files.
Proof.
  rewrite telling_export by apply NoDup_range_map. rewrite (right_id_L ∅ (∪)).
  apply map_eq. intros p. apply option_eq. intros f.
  rewrite <-elem_of_list_to_map by apply NoDup_range_map. apply elem_of_range_map.
Qed.

(** ** One live listener *)

(** The listener of the current export is the only one that is not cancelled,
and later contexts are not cancelled either. *)
Definition one_live (e : exporter) : Prop :=
  live (is_done e) (Scanner.listeners (scanner e)) = [setFile_listener (ectx e)] /\
  forall ctx, ectx e <= ctx -> ctx ∉ cancelled e.

Lemma export_scanner (e : exporter) :
  export e = mkExporter
    (Scanner.mkScanner (Scanner.baseDir (scanner e)) (Scanner.cacheDir (scanner e)) (Scanner.fileCache (scanner e))
       (Scanner.listeners (scanner e) ++ [setFile_listener (ectx e)]))
    (cancelled e) (ectx e) (told e ++ export_calls (range_map (Scanner.fileCache (scanner e)))).
Proof. unfold export, Scanner.ContinuousExport. by rewrite export_loop_all. Qed.

Lemma is_done_false (e : exporter) ctx : is_done e ctx = false <-> ctx ∉ cancelled e.
Proof. unfold is_done. by rewrite bool_decide_eq_false. Qed.

Lemma start_one_live baseDir cacheDir : one_live (start_export baseDir cacheDir).
Proof. split; [done|]. intros ctx _. simpl. set_solver. Qed.

Lemma live_renewed (e : exporter) :
  one_live e ->
  live (is_done (renew e)) (Scanner.listeners (scanner e)) = [].
Proof.
  intros [Hlive Hctx]. unfold renew. rewrite export_scanner. unfold is_done. cbn [cancelled].
  apply list.nil_length_inv. unfold live.
  destruct (filter _ _) as [|l ls] eqn:E; [done|exfalso].
  assert (Hl : l ∈ l :: ls) by constructor. rewrite <-E in Hl.
  apply list_elem_of_filter in Hl as [Hl Hin]. apply bool_decide_eq_false in Hl.
  assert (l ∈ live (is_done e) (Scanner.listeners (scanner e))) as Hl2.
  { apply list_elem_of_filter. split; [|done]. apply is_done_false. set_solver. }
  rewrite Hlive in Hl2. apply list_elem_of_singleton in Hl2 as ->. apply Hl. simpl. set_solver.
Qed.

Lemma renew_one_live (e : exporter) : one_live e -> one_live (renew e).
Proof.
  intros He. pose proof (live_renewed e He) as Hold. destruct He as [_ Hctx]. split.
  - unfold renew at 2. rewrite export_scanner. cbn [scanner Scanner.listeners]. rewrite live_app, Hold.
    unfold live. rewrite filter_cons_True; [done|]. apply is_done_false.
    unfold renew. rewrite export_scanner. cbn [cancelled Scanner.l_ctx setFile_listener ectx].
    intros [Heq%elem_of_singleton|Hin]%elem_of_union; [lia|]. by apply (Hctx (S (ectx e))); [lia|].
  - unfold renew. rewrite export_scanner. cbn [cancelled ectx]. intros ctx Hle.
    intros [Heq%elem_of_singleton|Hin]%elem_of_union; [lia|]. by apply (Hctx ctx); [lia|].
Qed.

Lemma change_run (e : exporter) path fi :
  one_live e ->
  exists e', change e path fi = Done e' /\ one_live e' /\
    Scanner.fileCache (scanner e') = updated (Scanner.fileCache (scanner e)) path fi /\
    told e' = told e ++ [Scanner.mkCall 0 path fi (Some (default Scanner.zero_info (Scanner.fileCache (scanner e) !! path)))].
Proof.
  intros [Hlive Hctx]. destruct (set_correct (is_done e) (scanner e) path fi) as (ls & who & Hrun & Hls & Hwho).
  rewrite Hlive in Hwho, Hls. apply Permutation_singleton_r in Hwho as ->, Hls as ->.
  unfold change. rewrite Hrun. cbn [mbind outcome_bind].
  eexists. split; [done|]. split; [|done]. split; [|done].
  cbn [scanner Scanner.listeners]. unfold live. rewrite filter_cons_True; [done|].
  apply is_done_false. apply Hctx. simpl. lia.
Qed.

(** What happens to a share: a change is found, or the client reconnects. *)
Inductive event :=
  | Changed (path : string) (fi : option FileInfo)
  | Reconnected.

Definition react (e : exporter) (ev : event) : outcome exporter :=
  match ev with
  | Changed path fi => change e path fi
  | Reconnected => Done (renew e)
  end.

Lemma react_one_live (e : exporter) ev : one_live e -> exists e', react e ev = Done e' /\ one_live e'.
Proof.
  intros He. destruct ev as [path fi|]; simpl.
  - destruct (change_run e path fi He) as (e' & ? & ? & _). eauto.
  - eexists. split; [done|]. by apply renew_one_live.
Qed.

Lemma changes_told (changes : list (string * option FileInfo)) (e : exporter) before since :
  one_live e -> told e = before ++ since -> telling ∅ since = Scanner.fileCache (scanner e) ->
  exists e' since', foldM react e ((fun c => Changed c.1 c.2) <$> changes) = Done e' /\ one_live e' /\
    told e' = before ++ since' /\ telling ∅ since' = Scanner.fileCache (scanner e') /\
    length since' = length since + length changes.
Proof.
  revert e since. induction changes as [|[path fi] changes IH]; intros e since He Ht Htell.
  { exists e, since. simpl. split_and!; [done..|lia]. }
  destruct (change_run e path fi He) as (e1 & Hrun & He1 & Hc & Ht1).
  edestruct (IH e1) as (e' & since' & Hrun' & He' & Ht' & Htell' & Hlen); [done| | |].
  - rewrite Ht1, Ht, <-(assoc_L (++)). done.
  - rewrite telling_app, Htell, Hc. done.
  - exists e', since'. rewrite fmap_cons. cbn [foldM react fst snd]. rewrite Hrun. cbn [mbind outcome_bind].
    split_and!; [done..|]. rewrite Hlen, length_app. simpl. lia.
Qed.

(** ** Callbacks of [Run] *)

Section run.
Context {World Conn Request Reply : Type}.
Context (exporters : World -> gmap string exporter) (with_exporters : World -> gmap string exporter -> World).
Context (get_put : forall w es, exporters (with_exporters w es) = es).
Abbreviation master_client := (Client.RUFSMasterClient (World := World) (Conn := Conn) (Request := Request)).
Abbreviation renew_share := (renew_share exporters with_exporters).
Abbreviation run_share := (run_share exporters with_exporters (Conn := Conn) (Request := Request)).

Definition renewals (shares : list string) : list (Client.callback_action (World := World) (Request := Request)) :=
  (fun share => Client.CbDo (renew_share share)) <$> shares.

Lemma run_renewals (call : World -> master_client -> Request -> outcome (World * master_client * (error + Reply))) shares w c :
  NoDup shares ->
  exists w', Client.run_callback call w c (renewals shares) = Done (w', c, None) /\
    forall share, exporters w' !! share =
      if decide (share ∈ shares) then renew <$> exporters w !! share else exporters w !! share.
Proof.
  revert w. induction shares as [|s shares IH]; intros w Hnd; [by exists w|].
  apply NoDup_cons in Hnd as [Hs Hnd]. destruct (IH (renew_share s w) Hnd) as (w' & Hrun & Hw').
  exists w'. split; [done|]. intros share. rewrite Hw'. unfold Exports.renew_share. rewrite get_put.
  destruct (decide (share = s)) as [->|Hne].
  - rewrite decide_False by done. rewrite decide_True by (by constructor). by rewrite lookup_alter_eq.
  - rewrite lookup_alter_ne by done. by repeat case_decide; try done; set_solver.
Qed.

Lemma run_shares (path_of : string -> outcome string) varStorage cacheDir shares w (c : master_client) :
  path_of varStorage = Done cacheDir -> NoDup shares.*1 ->
  exists w', foldM (fun wc kv => cacheDir ← path_of varStorage; Done (run_share cacheDir wc kv)) (w, c) shares =
      Done (w', Client.mkClient (Client.client c) (Client.reconnCb c ++ renewals shares.*1)) /\
    (forall share, share ∉ shares.*1 -> exporters w' !! share = exporters w !! share) /\
    forall share baseDir, (share, baseDir) ∈ shares ->
      exporters w' !! share = Some (start_export baseDir cacheDir).
Proof.
  intros Hpath.
  set (F := fun (wc : World * master_client) kv => cacheDir ← path_of varStorage; Done (run_share cacheDir wc kv)).
  assert (HF : forall wc kv, F wc kv = Done (run_share cacheDir wc kv)) by (intros; unfold F; by rewrite Hpath).
  clearbody F. revert w c. induction shares as [|[s d] shares IH]; intros w c Hnd.
  { exists w. simpl. rewrite app_nil_r. split; [by destruct c|]. split; [done|].
    intros ? ? Hin. by apply not_elem_of_nil in Hin. }
  cbn in Hnd. apply NoDup_cons in Hnd as [Hs Hnd]. cbn [foldM]. rewrite HF. cbn [mbind outcome_bind].
  set (w1 := with_exporters w (<[s := start_export d cacheDir]> (exporters w))).
  set (c1 := Client.AppendReconnectCallback c [Client.CbDo (renew_share s)]).
  change (run_share cacheDir (w, c) (s, d)) with (w1, c1).
  destruct (IH w1 c1 Hnd) as (w' & Hrun & Hother & Hin).
  exists w'. split; [|split].
  - rewrite Hrun. simpl. by rewrite <-(assoc_L (++)).
  - intros share Hshare. cbn in Hshare. apply not_elem_of_cons in Hshare as [Hne Hshare].
    rewrite Hother by done. unfold w1. rewrite get_put. by rewrite lookup_insert_ne.
  - intros share baseDir [Heq|Hsh]%elem_of_cons; [|by apply Hin].
    injection Heq as -> ->. rewrite Hother by done. unfold w1. rewrite get_put. apply lookup_insert_eq.
Qed.
End run.

(** ** Claims *)

(** C11: whatever happened to a share before, changes and reconnections in any
order, what the callback is told from the last reconnection on is exactly the
scanner's cache: every file that is in the cache then once, and every later
change once, and played back in order they give the cache as it is at the end.
Nothing of this panics, and one listener stays alive. *)
Theorem reconnect_tells_whole_cache baseDir cacheDir (before : list event)
    (changes : list (string * option FileInfo)) :
  exists e1 e2 since, foldM react (start_export baseDir cacheDir) before = Done e1 /\
    foldM react (renew e1) ((fun c => Changed c.1 c.2) <$> changes) = Done e2 /\
    told e2 = told e1 ++ since /\
    telling ∅ since = Scanner.fileCache (scanner e2) /\
    length since = size (Scanner.fileCache (scanner e1)) + length changes /\
    live (is_done e2) (Scanner.listeners (scanner e2)) = [setFile_listener (ectx e2)].
Proof.
  destruct (foldM_total react (fun _ e => one_live e) (start_export baseDir cacheDir) before)
    as (e1 & Hrun1 & He1); [apply start_one_live|by intros; apply react_one_live|].
  set (files := range_map (Scanner.fileCache (scanner e1))).
  destruct (changes_told changes (renew e1) (told e1) (export_calls files))
    as (e2 & since & Hrun2 & [He2 _] & Ht & Htell & Hlen).
  - by apply renew_one_live.
  - unfold renew. by rewrite export_scanner.
  - unfold renew. rewrite export_scanner. apply telling_range_map.
  - exists e1, e2, since. split_and!; try done. rewrite Hlen. f_equal.
    unfold export_calls, files. rewrite length_fmap. rewrite range_map_perm. apply length_map_to_list.
Qed.

(** [Server.Run] exports every share and arranges that a reconnection does it
again: the callback it leaves first signs in, and only if that succeeds renews
the export of every share, each one once; if the sign-in fails nothing is
exported and the call reports it. *)
Theorem Run_renews_exports `{Crypto.X509} {World Conn Request Reply}
    (exporters : World -> gmap string exporter) (with_exporters : World -> gmap string exporter -> World)
    (call : World -> Client.RUFSMasterClient (World := World) (Conn := Conn) (Request := Request) -> Request ->
       outcome (World * Client.RUFSMasterClient (World := World) (Conn := Conn) (Request := Request) * (error + Reply)))
    path_of varStorage cacheDir s w
    (c : Client.RUFSMasterClient (World := World) (Conn := Conn) (Request := Request)) q wrap :
  (forall w es, exporters (with_exporters w es) = es) ->
  path_of varStorage = Done cacheDir -> exporters w = ∅ -> Client.reconnCb c = [Client.CbCall q wrap] ->
  exists w1 c1, Run exporters with_exporters path_of varStorage s w c = Done (w1, c1) /\
    exporters w1 = (fun baseDir => start_export baseDir cacheDir) <$> Server.shares s /\
    forall w2 c2 w3 c3 r, call w2 c2 q = Done (w3, c3, r) -> dom (exporters w3) = dom (Server.shares s) ->
      exists w4, Client.run_callback call w2 c2 (Client.reconnCb c1) =
          Done (w4, c3, match r with inl err => Some (wrap err) | inr _ => None end) /\
        exporters w4 = match r with inl _ => exporters w3 | inr _ => renew <$> exporters w3 end.
Proof.
  intros Hget Hpath Hempty Hcb.
  destruct (run_shares exporters with_exporters Hget path_of varStorage cacheDir (range_map (Server.shares s)) w c
    Hpath (NoDup_range_map _)) as (w1 & Hrun & Hother & Hin).
  eexists _, _. split; [exact Hrun|]. split.
  { apply map_eq. intros share. rewrite lookup_fmap. destruct (Server.shares s !! share) as [dir|] eqn:E.
    - apply Hin. by apply elem_of_range_map.
    - rewrite Hother, Hempty; [apply lookup_empty|]. rewrite elem_of_range_keys, E. apply is_Some_None. }
  intros w2 c2 w3 c3 r Hcall Hdom. cbn [Client.reconnCb]. rewrite Hcb. cbn [app Client.run_callback].
  rewrite Hcall. cbn [mbind outcome_bind]. destruct r as [err|reply]; [by exists w3|].
  destruct (run_renewals exporters with_exporters Hget call (range_map (Server.shares s)).*1 w3 c3)
    as (w4 & Hrun4 & Hw4); [apply NoDup_range_map|].
  exists w4. split; [done|]. apply map_eq. intros share. rewrite Hw4, lookup_fmap.
  case_decide as Hs; [done|]. rewrite elem_of_range_keys in Hs.
  assert (exporters w3 !! share = None) as ->; [|done].
  apply not_elem_of_dom. rewrite Hdom. by rewrite elem_of_dom.
Qed.

End exports.
(** [set] works on the listeners without the lock, so a reconnection at the
wrong moment loses the listener it adds: there is an interleaving of [set],
which drops the cancelled listener, with the [ContinuousExport] of the
reconnection after which no listener is left, and from then on no change is
told to anybody; one after the other, in both orders, the new listener
stays. *)
Theorem reconnect_can_lose_listener (done : nat -> bool) old new :
  done (Scanner.l_ctx old) = true -> done (Scanner.l_ctx new) = false ->
  rtc (both_step done) (mkBoth [old] (AtTest 0) (Some new) []) (mkBoth [] SetReturned None []) /\
  (forall m path fi, Scanner.listeners m = [] -> exists m', Scanner.set done m path fi = Done (m', [])) /\
  rtc (both_step done) (mkBoth [old] (AtTest 0) (Some new) []) (mkBoth [new] SetReturned None []) /\
  rtc (both_step done) (mkBoth [old] (AtTest 0) (Some new) []) (mkBoth [new] SetReturned None [new]).
Proof.
  intros Hold Hnew. split_and!.
  - eapply rtc_l; [by eapply both_done|]. eapply rtc_l; [by eapply both_overwrite|].
    eapply rtc_l; [by apply both_cut|]. eapply rtc_l; [by apply both_append|].
    eapply rtc_l; [by apply both_assign|]. apply rtc_once. by apply both_end.
  - intros m path fi Hm. destruct (set_correct done m path fi) as (ls & who & Hrun & _ & Hwho).
    rewrite Hm in Hwho. apply Permutation_nil_r in Hwho as ->. by eexists.
  - eapply rtc_l; [by eapply both_done|]. eapply rtc_l; [by eapply both_overwrite|].
    eapply rtc_l; [by apply both_cut|]. eapply rtc_l; [by apply both_assign|].
    eapply rtc_l; [by apply both_end|]. apply rtc_once. apply both_append.
  - eapply rtc_l; [by apply both_append|]. eapply rtc_l; [by eapply both_done|].
    eapply rtc_l; [by eapply both_overwrite|]. eapply rtc_l; [by apply both_cut|].
    eapply rtc_l; [by apply both_assign|]. eapply rtc_l; [by eapply both_call|].
    apply rtc_once. by apply both_end.
Qed.

(** ** Witnesses *)

(** A world with nothing but the exporters. *)
Definition demo_server : @Server.Server CryptoTheorems.demo_x509 :=
  @Server.mkServer CryptoTheorems.demo_x509 "master:1666" {["music" := "/srv/music"]}
    (ca CryptoTheorems.demo_vault) None ∅.

Definition demo_client := Client.RUFSMasterClient (World := gmap string exporter) (Conn := nat) (Request := nat).

Definition accepting (w : gmap string exporter) (c : demo_client) (q : nat)
    : outcome (gmap string exporter * demo_client * (error + unit)) := Done (w, c, inr tt).

Lemma Run_renews_exports_witness :
  exists w1 c1,
    @Run std_range (gmap string exporter) nat nat (fun w => w) (fun _ es => es) CryptoTheorems.demo_x509
      (fun p => Done p) "/var" demo_server ∅ (Client.mkClient 0 [Client.CbCall 7 (fun e => e)]) = Done (w1, c1) /\
    w1 = {["music" := @start_export std_range "/srv/music" "/var"]} /\
    exists w4, Client.run_callback accepting w1 c1 (Client.reconnCb c1) = Done (w4, c1, None) /\
      w4 = {["music" := @renew std_range (@start_export std_range "/srv/music" "/var")]}.
Proof.
  destruct (@Run_renews_exports std_range CryptoTheorems.demo_x509 (gmap string exporter) nat nat unit
    (fun w => w) (fun _ es => es) accepting (fun p => Done p) "/var" "/var" demo_server ∅
    (Client.mkClient 0 [Client.CbCall 7 (fun e => e)]) 7 (fun e => e)) as (w1 & c1 & Hrun & Hw1 & Hcall);
    [done|done|done|done|].
  exists w1, c1. split; [exact Hrun|].
  change (w1 = (fun baseDir => @start_export std_range baseDir "/var") <$> ({["music" := "/srv/music"]} : gmap string string))
    in Hw1.
  rewrite map_fmap_singleton in Hw1. split; [exact Hw1|].
  destruct (Hcall w1 c1 w1 c1 (inr tt) eq_refl) as (w4 & Hrun4 & Hw4).
  { rewrite Hw1. simpl. by rewrite !dom_singleton_L. }
  exists w4. split; [exact Hrun4|]. by rewrite Hw4, Hw1, map_fmap_singleton.
Defined.

Lemma reconnect_can_lose_listener_witness :
  let done := fun n : nat => bool_decide (n = 0) in
  let old := setFile_listener 0 in
  let new := setFile_listener 1 in
  rtc (both_step done) (mkBoth [old] (AtTest 0) (Some new) []) (mkBoth [] SetReturned None []) /\
  (forall m path fi, Scanner.listeners m = [] -> exists m', Scanner.set done m path fi = Done (m', [])) /\
  rtc (both_step done) (mkBoth [old] (AtTest 0) (Some new) []) (mkBoth [new] SetReturned None []) /\
  rtc (both_step done) (mkBoth [old] (AtTest 0) (Some new) []) (mkBoth [new] SetReturned None [new]).
Proof.
  by apply (reconnect_can_lose_listener (fun n : nat => bool_decide (n = 0)) (setFile_listener 0) (setFile_listener 1)).
Defined.

End ExportsTheorems.
