(* ===== verification/System.v ===== *)
(** * The whole system at work

What a user of the mount or of the FTP server gets: the frontends ([fuse.go],
[ftp.go]) put on top of the client of the master ([types.go]), which calls the
handlers of the master ([master.go]), and of the fetcher ([fetch.go]), which
reads from the file servers of the peers ([server.go]). *)

From S2P Require Import Prelude GoStrings Types Crypto DatabaseSpec Master Client Rpc Session.
From S2P Require Import Server Fetcher FetcherRuns Frontend.
Import Crypto Client Session Frontend.

Module System.

(** ** The peers *)

Section peers.
Context `{MapRange} `{Server.OS}.

(** What [r.client.Read] of [realFetch] answers: the [Read] of the peer's server,
with these shares and this index; a peer that panics drops the connection. *)
Definition client_Read (shares : gmap string string) (m : Server.index) (hash : string) (bs offset : Z)
    : error + Fetcher.bytes :=
  match Server.Read shares m {| Read_Hash := hash; Read_Offset := offset; Read_Size := bs |} with
  | Done (data, None) => inr data
  | Done (_, Some err) => inl (Rpc.ServerError err)
  | _ => inl (errors_New "unexpected EOF")
  end.

(** The answers that [realFetch] of a handle gets for the block at an offset. *)
Definition fetch_blocks (peer_shares : string -> gmap string string) (peer_index : string -> Server.index)
    (fetcher : Fetcher.Fetcher) (h : Fetcher.pfHandle) (offset : Z) : error + Fetcher.bytes :=
  Fetcher.realFetch (dom (Fetcher.peers fetcher))
    (fun p => client_Read (peer_shares p) (peer_index p) (Fetcher.h_hash h) (Fetcher.h_blockSize h) offset)
    (Fetcher.h_peers h).
End peers.

(** ** The master, as the frontends ask it *)

Section mount.
Context `{X509} {ops : DatabaseOps} `{MapRange} `{Server.OS}.
Context (vault : MasterVault) (sgn : signing) (netw : Master.Network) (conn_of : Master.Conn)
  (dial_err : nat -> option error).

(** [fs.master.GetDir] and [fs.master.GetOwners], in the world as it is. *)
Definition master_GetDir (w : World) (c : master_client) (dn : string) : error + GetDirReply :=
  match Rpc.GetDir (rpc_Call vault sgn netw) (tls_Dial conn_of dial_err) 2 w c dn with
  | Done (_, _, (Some r, None)) => inr r
  | Done (_, _, (_, Some err)) => inl err
  | _ => inl ErrShutdown
  end.

Definition master_GetOwners (w : World) (c : master_client) (hash : string) : error + list string :=
  match Rpc.GetOwners (rpc_Call vault sgn netw) (tls_Dial conn_of dial_err) 2 w c hash with
  | Done (_, _, (Some os, None)) => inr os
  | Done (_, _, (_, Some err)) => inl err
  | _ => inl ErrShutdown
  end.

(** The file servers of the peers, by identity, and the network to them. *)
Context (peer_shares : string -> gmap string string) (peer_index : string -> Server.index).
Context (peer_netw : Fetcher.PeerNetwork) (prefetchBlocks : nat).

(** A program reads a file of the mount: [stat], [open], and reads of pieces one
after the other; [w] and [w'] are the world when the directory is asked for and
when the owners are. *)
Definition use_mount (w w' : World) (c : master_client) (allowed : option (gset Z)) (uid : Z)
    (fetcher : Fetcher.Fetcher) (f : FrontendLib) (path : string) (reqs : list (Z * Z))
    : outcome (error + attr * list (list Byte.byte * option error)) :=
  match Attr (master_GetDir w c) f path with
  | (f, inl err) => Done (inl err)
  | (f, inr a) =>
      '(_, fetcher, h) ← Open (master_GetDir w' c) (master_GetOwners w' c) peer_netw allowed uid fetcher f path;
      match h with
      | inl err => Done (inl err)
      | inr h =>
          read ← FetcherRuns.read_all prefetchBlocks
            (fetch_blocks peer_shares peer_index fetcher h) (Fetcher.start h) reqs;
          let answers : list (list Byte.byte * option error) := read.2 in
          Done (inr (a, handle_Read <$> answers))
      end
  end.

(** An FTP client fetches a file: the server looks it up with [Stat], opens it at
its start with [GetFile], and copies the stream with a buffer of [m] bytes. *)
Definition use_ftp (fuel : nat) (w w' : World) (c : master_client)
    (fetcher : Fetcher.Fetcher) (f : FrontendLib) (path : string) (m : Z)
    : outcome (error + FTPFileInfo * Z * (list Byte.byte * error)) :=
  match Stat (master_GetDir w c) f path with
  | (f, inl err) => Done (inl err)
  | (f, inr info) =>
      '(_, fetcher, r) ← GetFile (master_GetDir w' c) (master_GetOwners w' c) peer_netw fetcher f path 0;
      match r with
      | inl err => Done (inl err)
      | inr (size, h, st) =>
          data ← FetcherRuns.copy_stream fuel prefetchBlocks
            (fetch_blocks peer_shares peer_index fetcher h) (Fetcher.start h) st m [];
          Done (inr (info, size, data))
      end
  end.
End mount.

End System.
