(* ===== verification/SystemTheorems.v ===== *)
(** * A published file reaches the programs of other users

From the file server that publishes a file, through the master, to a program
that reads it from the mount of another peer, or fetches it by FTP: the bytes
are those of the file. *)

From S2P Require Import Prelude GoStrings Types Crypto DatabaseSpec Master MasterTheorems Client Rpc Session SessionTheorems.
From S2P Require Import Server ServerTheorems Fetcher FetcherBlocks FetcherProofs FetcherRuns FetcherTheorems Frontend FrontendTheorems FrontendCalls FrontendCallsTheorems.
From S2P Require Import DatabaseInmem DatabaseInmemProofs DatabaseInmemTheorems DatabaseInmemInterface CryptoTheorems System.
Import Crypto Client Session Frontend System MasterTheorems SessionTheorems FetcherBlocks FetcherRuns FrontendTheorems.

Module SystemTheorems.

(** ** New handles *)

Section handles.
Context (netw : Fetcher.PeerNetwork).

(** The loop of [NewHandle] keeps the peers it knows, and knows every peer that
it could dial. *)
Lemma add_peers_Done ps known found :
  (forall p, p ∈ ps -> exists r, Fetcher.NewPeer netw p = Done r) ->
  exists known' found', foldM (Fetcher.add_peer netw) (known, found) ps = Done (known', found') /\
    (forall p, is_Some (known !! p) -> is_Some (known' !! p)) /\
    (found = true -> found' = true) /\
    (forall p r, p ∈ ps -> Fetcher.NewPeer netw p = Done (inr r) -> found' = true /\ is_Some (known' !! p)).
Proof.
  revert known found. induction ps as [|p ps IH]; intros known found Hdial.
  { exists known, found. split_and!; try done. by intros p r ?%not_elem_of_nil. }
  assert (Hps : forall p', p' ∈ ps -> exists r, Fetcher.NewPeer netw p' = Done r).
  { intros p' Hp'. apply Hdial. by right. }
  destruct (Hdial p) as [r Hr]; [by left|].
  assert (Hone : exists known1 found1, Fetcher.add_peer netw (known, found) p = Done (known1, found1) /\
    (forall p', is_Some (known !! p') -> is_Some (known1 !! p')) /\ (found = true -> found1 = true) /\
    (forall r', r = inr r' -> found1 = true /\ is_Some (known1 !! p))).
  { unfold Fetcher.add_peer. destruct (known !! p) as [k|] eqn:Hk.
    - exists known, true. by split_and!.
    - rewrite Hr. cbn [mbind outcome_bind]. destruct r as [err|r].
      + exists known, found. split_and!; done.
      + exists (<[p := r]> known), true. split_and!; try done.
        * intros p' [k' Hk']. destruct (decide (p = p')) as [->|Hne]; [rewrite lookup_insert_eq; by eexists|].
          rewrite lookup_insert_ne by done. by eexists.
        * intros r' [= ->]. split; [done|]. rewrite lookup_insert_eq. by eexists. }
  destruct Hone as (known1 & found1 & Hadd & Hk1 & Hf1 & Hr1).
  destruct (IH known1 found1 Hps) as (known2 & found2 & Hrun & Hk2 & Hf2 & Hr2).
  exists known2, found2. cbn [foldM]. rewrite Hadd. cbn [mbind outcome_bind]. split; [done|].
  split; [by intros p' ?%Hk1%Hk2|]. split; [auto|]. intros p' r' [->|Hp']%elem_of_cons Hn.
  - rewrite Hr in Hn. injection Hn as ->. destruct (Hr1 r' eq_refl). auto.
  - by eapply Hr2.
Qed.

Lemma NewHandle_opens f hash size ps p r :
  (0 < Fetcher.blockSize f)%Z -> (0 <= size)%Z -> (size + Fetcher.blockSize f < 2 ^ 63)%Z ->
  (forall p, p ∈ ps -> exists r, Fetcher.NewPeer netw p = Done r) ->
  p ∈ ps -> Fetcher.NewPeer netw p = Done (inr r) ->
  exists f' h, Fetcher.NewHandle netw f hash size ps = Done (f', inr h) /\
    Fetcher.blockSize f' = Fetcher.blockSize f /\ p ∈ dom (Fetcher.peers f') /\
    Fetcher.h_blockSize h = Fetcher.blockSize f /\ Fetcher.h_hash h = hash /\ Fetcher.h_peers h = ps.
Proof.
  intros Hbs Hsz Hb Hdial Hp Hr. unfold Fetcher.NewHandle, Fetcher.make_nil.
  assert (0 <= i64 (Z.quot size (Fetcher.blockSize f) + 1))%Z as Hn.
  { rewrite Z.quot_div_nonneg by lia. pose proof (Z.div_pos size (Fetcher.blockSize f) Hsz Hbs).
    pose proof (Z.div_le_upper_bound size (Fetcher.blockSize f) size Hbs ltac:(nia)).
    rewrite i64_id by (unfold in_i64; lia). lia. }
  rewrite !decide_True by done. cbn [mbind outcome_bind].
  destruct (add_peers_Done ps (Fetcher.peers f) false Hdial) as (known & found & -> & _ & _ & Hk).
  cbn [mbind outcome_bind]. destruct (Hk p r Hp Hr) as [-> Hin].
  eexists _, _. split; [done|]. split_and!; try done. by apply elem_of_dom.
Qed.
End handles.

(** ** Paths and listings *)

Lemma good_plain p : good_part p -> plain_part p.
Proof. intros [Hb Hs]. split_and!; try done; by intros ->. Qed.

Lemma good_plains ps : Forall good_part ps -> Forall plain_part ps.
Proof. intros H. eapply Forall_impl; [exact H|apply good_plain]. Qed.

(** The frontend has not cached the directory [dn], or has a listing of it with
the file [fn] as it is. *)
Definition up_to_date (f : FrontendLib) (dn : list string) (fn : string) (fi : FileInfo) : Prop :=
  match cache f !! strings.Join dn "/" with Some r => Files r !! fn = Some fi | None => True end.

Section paths.
Context (ps : list string) (name : string) (Hps : Forall good_part ps) (Hname : good_part name).

Abbreviation path := (strings.Join (ps ++ [name]) "/").

Lemma path_not_empty : path <> "".
Proof.
  apply Join_parts_not_empty; [clear; by destruct ps|]. apply Forall_app. split; [by apply good_plains|].
  apply Forall_singleton. by apply good_plain.
Qed.

Lemma path_trim : strings.Trim path slash = path.
Proof.
  apply (Trim_Join slash). apply Forall_app. split; [|apply Forall_singleton; by apply good_sep_name].
  eapply Forall_impl; [exact Hps|apply good_sep_name].
Qed.

Context (master master' : string -> error + GetDirReply) (f : FrontendLib).

(** A name that is neither in the listing that is cached nor, when none is, in
that of the master, is no file. *)
Lemma Attr_of_absent :
  match cache f !! strings.Join ps "/" with
  | Some r => Files r !! name = None
  | None => match master (strings.Join ps "/") with inr r => Files r !! name = None | inl _ => True end
  end ->
  (forall size mtime, (Attr master f path).2 <> inr (FileAttr size mtime)) /\
  exists f' err, fuse_GetFileInfo master f path = (f', inl err).
Proof.
  intros Habs.
  destruct (child_path ps name (good_plains _ Hps) (good_plain _ Hname)) as (_ & dn & Hsplit & Htrim).
  unfold Attr, fuse_GetFileInfo. rewrite decide_False by apply path_not_empty. rewrite Hsplit.
  unfold fuse_GetDirCached. rewrite Htrim. destruct (cache f !! _) as [r|]; [|destruct (master _) as [err|r]].
  - rewrite Habs. split; [by case_decide|]. by eexists _, _.
  - split; [done|]. by eexists _, _.
  - rewrite Habs. split; [by case_decide|]. by eexists _, _.
Qed.

Context (r : GetDirReply) (fi : FileInfo).
Context (Hnew : up_to_date f ps name fi).
Context (Hdir : master (strings.Join ps "/") = inr r) (Hfi : Files r !! name = Some fi).

(** The cache with a listing of the directory. *)
Definition listed : FrontendLib :=
  match cache f !! strings.Join ps "/" with
  | Some _ => f
  | None => mkFrontendLib (<[strings.Join ps "/" := r]> (cache f)) (<[strings.Join ps "/" := 3%Z]> (cacheExpiry f))
  end.

Lemma listed_has : exists r', cache listed !! strings.Join ps "/" = Some r' /\ Files r' !! name = Some fi.
Proof using Hfi Hnew.
  clear Hdir. unfold listed, up_to_date in *. destruct (cache f !! strings.Join ps "/") as [r'|] eqn:Hc; [by exists r'|].
  exists r. cbn [cache]. by rewrite lookup_insert_eq.
Qed.

Lemma fuse_GetDirCached_listed dn :
  strings.Trim dn slash = strings.Join ps "/" ->
  exists r', fuse_GetDirCached master f dn = (listed, inr r') /\ Files r' !! name = Some fi.
Proof using Hfi Hdir Hnew.
  intros Htrim. unfold fuse_GetDirCached, listed, up_to_date in *. rewrite Htrim.
  destruct (cache f !! strings.Join ps "/") as [r'|]; [by exists r'|]. rewrite Hdir. by exists r.
Qed.

Lemma GetDirCached_listed dn :
  strings.Trim dn slash = strings.Join ps "/" ->
  exists r', GetDirCached master f dn = (listed, inr r') /\ Files r' !! name = Some fi.
Proof using Hfi Hdir Hnew.
  intros Htrim. unfold GetDirCached, listed, up_to_date in *. rewrite Htrim.
  destruct (cache f !! strings.Join ps "/") as [r'|]; [by exists r'|]. rewrite Hdir. by exists r.
Qed.

Lemma Attr_of_file :
  Attr master f path = (listed, inr (FileAttr (Size fi `mod` 2 ^ 64) (Mtime fi))) /\
  fuse_GetFileInfo master' listed path = (listed, inr fi).
Proof.
  destruct (child_path ps name (good_plains _ Hps) (good_plain _ Hname)) as (_ & dn & Hsplit & Htrim).
  split.
  - unfold Attr. rewrite decide_False by apply path_not_empty. rewrite Hsplit.
    destruct (fuse_GetDirCached_listed dn Htrim) as (r' & -> & Hr'). by rewrite Hr'.
  - unfold fuse_GetFileInfo. rewrite Hsplit. unfold fuse_GetDirCached. rewrite Htrim.
    destruct listed_has as (r' & -> & Hr'). by rewrite Hr'.
Qed.

Lemma Stat_of_file :
  Stat master f path = (listed, inr (mkFTPFileInfo name (Some fi) false)) /\
  GetFileInfo master' listed path = (listed, inr fi).
Proof.
  destruct (child_path ps name (good_plains _ Hps) (good_plain _ Hname)) as (_ & dn & Hsplit & Htrim).
  split.
  - unfold Stat. rewrite path_trim, decide_False by apply path_not_empty. rewrite Hsplit.
    destruct (GetDirCached_listed dn Htrim) as (r' & -> & Hr'). by rewrite Hr'.
  - unfold GetFileInfo. rewrite Hsplit. unfold GetDirCached. rewrite Htrim.
    destruct listed_has as (r' & -> & Hr'). by rewrite Hr'.
Qed.
End paths.

(** ** The system *)

Section system.
Context `{X509} {ops : DatabaseOps} {laws : DatabaseLaws ops} {full : DatabaseComplete ops laws}.
Context `{MapRange} `{Server.OS}.
Context (vault : MasterVault) (sgn : signing) (netw : Master.Network) (conn_of : Master.Conn)
  (dial_err : nat -> option error).
Context (peer_shares : string -> gmap string string) (peer_index : string -> Server.index)
  (peer_netw : Fetcher.PeerNetwork) (P : nat).
Context (owner_of : FileTable.path -> string).

Abbreviation master_GetDir := (master_GetDir vault sgn netw conn_of dial_err).
Abbreviation master_GetOwners := (master_GetOwners vault sgn netw conn_of dial_err).

(** The client [c] is signed in at the master, whose database holds [S]. *)
Definition signed_in (w : World) (c : master_client) (S : FileTable.table) : Prop :=
  exists st conn b, master w = Some st /\ client c ∈ alive w /\
    Master.peers st !! client c = Some (conn, b) /\ Master.user b <> "" /\
    db_holds owner_of (Master.database st) S.

Lemma GetDir_signed_in w c S dn fn f :
  signed_in w c S -> Forall good_part dn -> S !! (dn, fn) = Some f ->
  exists r, master_GetDir w c (strings.Join dn "/") = inr r /\ Files r !! fn = Some f.
Proof.
  intros (st & conn & b & Hst & Hal & Hp & Hu & HR) Hdn Hf.
  destruct (GetDir_of_parts owner_of b _ S dn fn f HR Hdn Hu Hf) as (d' & r & Hrun & _ & Hr & _).
  exists r. split; [|done]. unfold System.master_GetDir.
  by rewrite (GetDir_alive vault sgn netw conn_of dial_err w c st conn b), Hrun by done.
Qed.

Lemma GetOwners_signed_in w c S h :
  signed_in w c S ->
  exists os, master_GetOwners w c h = inr os /\ forall o, o ∈ os <-> FileTable.owns owner_of S h o.
Proof.
  intros (st & conn & b & Hst & Hal & Hp & Hu & HR).
  destruct (db_owners owner_of _ S h HR) as (os & Hos & Hin). exists os. split; [|done].
  unfold System.master_GetOwners. rewrite (GetOwners_alive vault sgn netw conn_of dial_err w c st conn b) by done.
  unfold Master.GetOwners. by rewrite decide_False, Hos by done.
Qed.

Lemma GetDir_absent w c S dn fn :
  signed_in w c S -> Forall good_part dn -> S !! (dn, fn) = None ->
  match master_GetDir w c (strings.Join dn "/") with inr r => Files r !! fn = None | inl _ => True end.
Proof.
  intros (st & conn & b & Hst & Hal & Hp & Hu & HR) Hdn Hf.
  unfold System.master_GetDir. rewrite (GetDir_alive vault sgn netw conn_of dial_err w c st conn b) by done.
  unfold Master.GetDir. rewrite decide_False by done.
  assert (strings.Trim (strings.Join dn "/") slash = strings.Join dn "/") as ->.
  { apply (Trim_Join slash). eapply Forall_impl; [exact Hdn|apply good_sep_name]. }
  destruct (db_listing owner_of _ S dn HR Hdn) as (d' & r & e & -> & _ & [(fs & ds & -> & -> & Hl)|(-> & He & _)]).
  - simpl. by rewrite (Hl fn).
  - by destruct e.
Qed.

(** The peers that publish a hash have names that can be dialed, and [o] answers. *)
Definition dials (S : FileTable.table) (h o : string) : Prop :=
  (forall o', FileTable.owns owner_of S h o' -> exists r, Fetcher.NewPeer peer_netw o' = Done r) /\
  exists r, Fetcher.NewPeer peer_netw o = Done (inr r).

(** Every file server lists unchanged copies of the file only, and that of [o]
can open one. *)
Definition serves_file (h : string) (F : list Byte.byte) (o : string) : Prop :=
  (forall p, ServerTheorems.sound_hash (peer_shares p) (peer_index p) h F) /\
  exists share path file, ServerTheorems.has (peer_index o) h (Server.share_key share path) /\
    strings.Contains share NUL = false /\ strings.Contains path NUL = false /\
    Server.os_Open (ServerTheorems.key_path (peer_shares o) share path) = inr file.

Lemma client_Read_serves shares m h bs o : ServerTheorems.serves shares m h bs o (client_Read shares m h bs o).
Proof.
  unfold ServerTheorems.serves, client_Read. destruct (Server.Read _ _ _) as [[data [err|]]| |]; try done; by eexists.
Qed.

(** The block answers of a handle for the file. *)
Lemma blocks_served fetcher h F o :
  (0 < Fetcher.h_blockSize h)%Z ->
  serves_file (Fetcher.h_hash h) F o -> o ∈ Fetcher.h_peers h -> o ∈ dom (Fetcher.peers fetcher) ->
  let bs := Fetcher.h_blockSize h in
  let answer o p := client_Read (peer_shares p) (peer_index p) (Fetcher.h_hash h) bs o in
  (forall b p data, answer (Z.of_nat b * bs)%Z p = inr data -> data = block bs F b) /\
  forall b, (Z.of_nat b * bs < len F)%Z ->
    exists p data, p ∈ Fetcher.h_peers h /\ p ∈ dom (Fetcher.peers fetcher) /\
      answer (Z.of_nat b * bs)%Z p = inr data.
Proof.
  intros Hbs [Hsound (share & path & file & Hhas & Hs & Hp & Hopen)] Hin Hdom bs answer. split.
  - intros b p data Hans.
    eapply ServerTheorems.serves_block; [done|apply (Hsound p)|]. rewrite <-Hans. apply client_Read_serves.
  - intros b _. exists o. unfold answer, client_Read.
    rewrite (ServerTheorems.Read_serves _ _ _ _ _ F share path file) by (done || lia). by eexists.
Qed.
(** A handle of a published file, and the blocks it is answered. *)
Lemma handle_of_file w c S f F o fetcher :
  signed_in w c S -> dials S (Hash f) o -> serves_file (Hash f) F o ->
  FileTable.owns owner_of S (Hash f) o -> Size f = len F ->
  (0 < Fetcher.blockSize fetcher)%Z ->
  (len F + Z.of_nat (P + 2) * Fetcher.blockSize fetcher < 2 ^ 63)%Z ->
  exists os fetcher' h,
    master_GetOwners w c (Hash f) = inr os /\
    Fetcher.NewHandle peer_netw fetcher (Hash f) (Size f) os = Done (fetcher', inr h) /\
    let bs := Fetcher.blockSize fetcher in
    let answer := fetch_blocks peer_shares peer_index fetcher' h in
    FetcherProofs.core bs F (Fetcher.start h) /\ FetcherProofs.healthy bs F (Fetcher.start h) /\
    forall b, (Z.of_nat b * bs < len F)%Z -> answer (Z.of_nat b * bs)%Z = inr (block bs F b).
Proof.
  intros Hw [Hall [r Hr]] Hserves Howns Hsz Hbs HP.
  destruct (GetOwners_signed_in w c S (Hash f) Hw) as (os & Hos & Hin).
  destruct (NewHandle_opens peer_netw fetcher (Hash f) (Size f) os o r) as
    (f' & h & Hnew & Hb' & Hdom & Hhb & Hhh & Hhp); try done.
  { rewrite Hsz. apply len_nonneg. } { rewrite Hsz. lia. }
  { intros p Hp%Hin. by apply Hall. } { by apply Hin. }
  exists os, f', h. split; [done|]. split; [done|]. intros bs answer.
  rewrite Hsz in Hnew.
  assert (HF : (len F < 2 ^ 63)%Z) by lia.
  destruct (NewHandle_start bs Hbs F HF _ _ _ _ _ _ eq_refl Hnew) as ([Hc _] & Hh & _).
  split; [done|]. split; [done|]. intros b Hb.
  destruct (blocks_served f' h F o) as [Hgood Hsome];
    [by rewrite Hhb|by rewrite Hhh|by rewrite Hhp; apply Hin|done|].
  rewrite Hhb in Hgood, Hsome. unfold answer, fetch_blocks. rewrite Hhb.
  apply realFetch_good; [by intros p d; apply Hgood|].
  destruct (Hsome b Hb) as (p & data & H1' & H2' & H3'). exists p. split_and!; [done|done|].
  etrans; [exact H3'|]. f_equal. by eapply Hgood.
Qed.

(** What an application reads of a file of the table through the mount. *)
Lemma mount_reads w w' c S dn fn f F o allowed uid fetcher fl reqs :
  signed_in w c S -> signed_in w' c S -> S !! (dn, fn) = Some f -> Forall good_part dn -> good_part fn ->
  dials S (Hash f) o -> serves_file (Hash f) F o -> FileTable.owns owner_of S (Hash f) o -> Size f = len F ->
  up_to_date fl dn fn f -> checkAccess allowed uid = None ->
  (0 < Fetcher.blockSize fetcher)%Z ->
  (len F + Z.of_nat (P + 2) * Fetcher.blockSize fetcher < 2 ^ 63)%Z ->
  Forall (fun r => in_file (Fetcher.blockSize fetcher) F r.1 r.2) reqs ->
  use_mount vault sgn netw conn_of dial_err peer_shares peer_index peer_netw P w w' c allowed uid
    fetcher fl (strings.Join (dn ++ [fn]) "/") reqs =
  Done (inr (FileAttr (len F) (Mtime f),
             (fun r => (take (Z.to_nat r.2) (drop (Z.to_nat r.1) F), None)) <$> reqs)).
Proof.
  intros Hw Hw' HS Hdn Hfn Hdials Hserves Howns Hsz Hnew Hacc Hbs HP Hreqs.
  destruct (GetDir_signed_in w c S dn fn f Hw Hdn HS) as (r & Hr & Hfi).
  destruct (Attr_of_file dn fn Hdn Hfn (master_GetDir w c) (master_GetDir w' c) fl r f Hnew Hr Hfi) as [Hattr Hinfo].
  destruct (handle_of_file w' c S f F o fetcher Hw' Hdials Hserves Howns Hsz Hbs HP)
    as (os & f' & h & Hos & Hnh & Hc & Hh & Hans).
  assert (HF : (len F < 2 ^ 63)%Z) by lia. pose proof (len_nonneg F) as HF0.
  unfold use_mount. rewrite Hattr. unfold Open. rewrite Hacc, Hinfo, Hos. cbn [mbind outcome_bind].
  rewrite Hnh. cbn [mbind outcome_bind].
  destruct (read_all_correct (Fetcher.blockSize fetcher) Hbs F HF P
    (fetch_blocks peer_shares peer_index f' h) (Fetcher.start h) reqs Hc Hh eq_refl Hreqs HP Hans) as [s' ->].
  cbn [mbind outcome_bind snd]. rewrite Hsz, Z.mod_small by lia.
  do 3 f_equal. rewrite <-list_fmap_compose. done.
Qed.

(** And what an FTP client fetches. *)
Lemma ftp_reads w w' c S dn fn f F o fetcher fl m fuel :
  signed_in w c S -> signed_in w' c S -> S !! (dn, fn) = Some f -> Forall good_part dn -> good_part fn ->
  dials S (Hash f) o -> serves_file (Hash f) F o -> FileTable.owns owner_of S (Hash f) o -> Size f = len F ->
  up_to_date fl dn fn f ->
  (0 < Fetcher.blockSize fetcher)%Z ->
  (len F + Z.of_nat (P + 2) * Fetcher.blockSize fetcher < 2 ^ 63)%Z ->
  (0 < m)%Z -> (m | Fetcher.blockSize fetcher)%Z -> (len F < Z.of_nat fuel * m)%Z ->
  use_ftp vault sgn netw conn_of dial_err peer_shares peer_index peer_netw P fuel w w' c
    fetcher fl (strings.Join (dn ++ [fn]) "/") m =
  Done (inr (mkFTPFileInfo fn (Some f) false, len F, (F, io_EOF))).
Proof.
  intros Hw Hw' HS Hdn Hfn Hdials Hserves Howns Hsz Hnew Hbs HP Hm Hdiv Hfuel.
  destruct (GetDir_signed_in w c S dn fn f Hw Hdn HS) as (r & Hr & Hfi).
  destruct (Stat_of_file dn fn Hdn Hfn (master_GetDir w c) (master_GetDir w' c) fl r f Hnew Hr Hfi) as [Hstat Hinfo].
  destruct (handle_of_file w' c S f F o fetcher Hw' Hdials Hserves Howns Hsz Hbs HP)
    as (os & f' & h & Hos & Hnh & Hc & Hh & Hans).
  assert (HF : (len F < 2 ^ 63)%Z) by lia. pose proof (len_nonneg F) as HF0.
  unfold use_ftp. rewrite Hstat. unfold GetFile. rewrite Hinfo, Hos. cbn [mbind outcome_bind].
  rewrite Hnh. cbn [mbind outcome_bind].
  pose proof (copy_stream_correct (Fetcher.blockSize fetcher) Hbs F HF fuel P
    (fetch_blocks peer_shares peer_index f' h) (Fetcher.start h) 0 m Hc Hh eq_refl Hm Hdiv) as Hcopy.
  change (0 * m)%Z with 0%Z in Hcopy. change (take (Z.to_nat 0) F) with (@nil Byte.byte) in Hcopy. rewrite Hcopy by (done || lia). cbn [mbind outcome_bind].
  by rewrite Hsz.
Qed.

(** ** Publishing *)

Context (a : Master.Peer) (d : db) (S : FileTable.table) (m : Server.index) (sh pt : list string)
  (f : FileInfo) (F : list Byte.byte) (file : Server.File).

(** What the file server of [a] makes of a new file: its index, and the request
that it sends to the master. *)
Definition announced : Server.index * SetFileRequest :=
  Server.SetFile m (strings.Join sh "/") (strings.Join pt "/") (Some f) None.

(** The path that the master keeps the file under. *)
Definition published_path : FileTable.path := path_of (Master.user a) (SetFile_Path announced.2).

Record publishes := {
  pub_holds : db_holds owner_of d S;
  pub_signed_in : Master.address a <> "" /\ good_part (Master.user a);
  pub_path : Forall good_part sh /\ Forall good_part pt /\ pt <> [];
  pub_owner : owner_of published_path = Master.ident a;
  pub_info : db_stored f = f /\ Size f = len F;
  pub_index : peer_index (Master.ident a) = announced.1;
  pub_sound : forall p, ServerTheorems.sound_hash (peer_shares p) (peer_index p) (Hash f) F;
  pub_opens : strings.Contains (strings.Join sh "/") NUL = false /\ strings.Contains (strings.Join pt "/") NUL = false /\
    Server.os_Open (ServerTheorems.key_path (peer_shares (Master.ident a)) (strings.Join sh "/") (strings.Join pt "/")) = inr file;
  pub_dials : dials (FileTable.set S published_path (Some f)) (Hash f) (Master.ident a);
}.

Lemma publish_reaches :
  publishes ->
  let p := published_path in
  let S' := FileTable.set S p (Some f) in
  (exists d', Master.SetFile a d announced.2 = Done (d', None) /\ db_holds owner_of d' S') /\
  p.1 ++ [p.2] = Master.user a :: sh ++ pt /\ Forall good_part p.1 /\ good_part p.2 /\
  S' !! (p.1, p.2) = Some f /\ FileTable.owns owner_of S' (Hash f) (Master.ident a) /\
  serves_file (Hash f) F (Master.ident a).
Proof.
  intros [HR [Ha Hu] (Hsh & Hpt & Hne) Ho [Hst Hsz] Hidx Hsound (Hns & Hnp & Hopen) _] p S'.
  destruct (ServerTheorems.SetFile_publishes_path m sh pt (Some f) None
    (good_plains _ Hsh) (good_plains _ Hpt) Hne) as [Hsplit Hinfo].
  fold announced in Hsplit, Hinfo.
  assert (Hex : FileTable.fnEx p = Master.user a :: sh ++ pt).
  { unfold p, published_path. by rewrite fnEx_path_of, Hsplit. }
  assert (Hgood : Forall good_part (FileTable.fnEx p)).
  { rewrite Hex. constructor; [done|]. by apply Forall_app. }
  assert (Hok : Forall db_name_ok (FileTable.fnEx p)) by (eapply Forall_impl; [exact Hgood|apply db_good_ok]).
  assert (HS' : S' !! (p.1, p.2) = Some f).
  { unfold S'. rewrite FileTable.lookup_set, decide_True; [done|by destruct p]. }
  split; [|split; [exact Hex|]].
  - destruct (db_publish owner_of d S p f HR Hok) as (d' & Hrun).
    pose proof (db_set owner_of d S p (Some f) d' None HR Hok Hrun) as HR'. simpl in HR'. rewrite Hst in HR'.
    exists d'. split; [|done]. rewrite SetFile_calls; [|done|].
    + rewrite Hinfo, <-Ho. exact Hrun.
    + constructor; [apply Hu|]. rewrite Hsplit.
      apply Forall_app. split; (eapply Forall_impl; [eassumption|by intros ? []]).
  - apply Forall_app in Hgood as [Hg1 [Hg2 _]%Forall_cons].
    split; [done|]. split; [done|]. split; [done|]. split.
    + exists (p.1, p.2), f. split; [done|]. split; [done|].
      transitivity (owner_of p); [by rewrite <-surjective_pairing|exact Ho].
    + split; [done|]. exists (strings.Join sh "/"), (strings.Join pt "/"), file. split_and!; try done.
      rewrite Hidx. unfold announced, Server.SetFile. simpl. apply ServerTheorems.has_index_insert. by right.
Qed.

(** ** Claims *)

(** a published file can be read from the mount of every other peer. When
the file server of a signed-in peer announces a new file, the master takes the
publication; and as long as the file stays published and its copies unchanged,
a program that looks the file up below the mount of any signed-in peer, as
user/share/path, finds a file of its size, can open it if its user may, and
every piece that it reads, up to the end of the last block, is exactly that
piece of the file; whichever database the master is built with, in whatever
order owners and paths are tried, and whoever else publishes the file. *)
Theorem mount_reads_published_file w w' c allowed uid fetcher fl reqs :
  publishes ->
  let S' := FileTable.set S published_path (Some f) in
  signed_in w c S' -> signed_in w' c S' ->
  up_to_date fl published_path.1 published_path.2 f -> checkAccess allowed uid = None ->
  (0 < Fetcher.blockSize fetcher)%Z ->
  (len F + Z.of_nat (P + 2) * Fetcher.blockSize fetcher < 2 ^ 63)%Z ->
  Forall (fun r => in_file (Fetcher.blockSize fetcher) F r.1 r.2) reqs ->
  (exists d', Master.SetFile a d announced.2 = Done (d', None) /\ db_holds owner_of d' S') /\
  use_mount vault sgn netw conn_of dial_err peer_shares peer_index peer_netw P w w' c allowed uid
    fetcher fl (strings.Join (Master.user a :: sh ++ pt) "/") reqs =
  Done (inr (FileAttr (len F) (Mtime f),
             (fun r => (take (Z.to_nat r.2) (drop (Z.to_nat r.1) F), None)) <$> reqs)).
Proof.
  intros Hpub S' Hw Hw' Hnew Hacc Hbs HP Hreqs.
  destruct (publish_reaches Hpub) as (Hset & Hpath & Hdn & Hfn & HS' & Howns & Hserves).
  split; [exact Hset|]. rewrite <-Hpath.
  eapply (mount_reads w w' c S'); try done; apply Hpub.
Qed.

(** C19: a published file can be fetched whole by FTP. Let a peer have published a
file as in [publishes]: under its identity in a complete database, with the copies
of the hash unchanged at every file server, its own one able to open it, and all its
owners with names that can be dialed, the publisher's with an answer. Then the FTP
server of any signed-in peer, whose frontend has not cached the listing of the
directory or has it with the file as it is, reports the file's name, info and size,
and copying the stream with a buffer that divides the block size gives exactly the
file and io.EOF; for sizes that stay within 63 bits and fuel for all its buffers. *)
Theorem ftp_fetches_published_file w w' c fetcher fl bufsize fuel :
  publishes ->
  let S' := FileTable.set S published_path (Some f) in
  signed_in w c S' -> signed_in w' c S' ->
  up_to_date fl published_path.1 published_path.2 f ->
  (0 < Fetcher.blockSize fetcher)%Z ->
  (len F + Z.of_nat (P + 2) * Fetcher.blockSize fetcher < 2 ^ 63)%Z ->
  (0 < bufsize)%Z -> (bufsize | Fetcher.blockSize fetcher)%Z -> (len F < Z.of_nat fuel * bufsize)%Z ->
  use_ftp vault sgn netw conn_of dial_err peer_shares peer_index peer_netw P fuel w w' c
    fetcher fl (strings.Join (Master.user a :: sh ++ pt) "/") bufsize =
  Done (inr (mkFTPFileInfo published_path.2 (Some f) false, len F, (F, io_EOF))).
Proof.
  intros Hpub S' Hw Hw' Hnew Hbs HP Hm Hdiv Hfuel.
  destruct (publish_reaches Hpub) as (_ & Hpath & Hdn & Hfn & HS' & Howns & Hserves).
  rewrite <-Hpath. eapply (ftp_reads w w' c S'); try done; apply Hpub.
Qed.

(** C5: a deleted file disappears. When the master answers nil to the deletion of
a file, its database holds the table without it. And if that was by tick [T] and
the file stays deleted and the reader signed in, then in every run of another
peer's mount, with any number of calls and purges in between and with replies of the old table still on
their way then, from the third tick after [T] on (and as many more as a
goroutine may take to store a reply): no call is answered with a listing that
has the file, a lookup of its path finds no file, and opening it gives an error
and no handle; whatever worlds the master goes through. *)
Theorem deleted_file_disappears on_error (worlds : nat -> World -> Prop) delay q d' T s c allowed uid fetcher :
  db_holds owner_of d S -> Master.address a <> "" -> good_part (Master.user a) ->
  SetFile_Info q = None -> Forall (fun p => bad_part p = false) (strings.Split (SetFile_Path q) "/") ->
  let p := path_of (Master.user a) (SetFile_Path q) in
  owner_of p = Master.ident a ->
  Master.SetFile a d q = Done (d', None) ->
  db_holds owner_of d' (FileTable.set S p None) /\
  let may_answer t dn r := exists w, worlds t w /\ r = master_GetDir w c dn in
  let path := strings.Join (Master.user a :: strings.Split (SetFile_Path q) "/") "/" in
  ((forall t w, T < t -> worlds t w -> exists S', signed_in w c S' /\ S' !! p = None) ->
   rtc (FrontendCalls.step on_error may_answer delay) FrontendCalls.start s ->
   T + delay + 3 <= FrontendCalls.now s ->
   (forall t r at_tick, FrontendCalls.calls s !! t = Some (FrontendCalls.Answered (strings.Join p.1 "/") (inr r) at_tick) ->
      T + delay + 3 <= at_tick -> Files r !! p.2 = None) /\
   forall w, worlds (FrontendCalls.now s) w ->
     (forall size mtime, (Attr (master_GetDir w c) (FrontendCalls.lib s) path).2 <> inr (FileAttr size mtime)) /\
     exists fl' err, Open (master_GetDir w c) (master_GetOwners w c) peer_netw allowed uid fetcher
       (FrontendCalls.lib s) path = Done (fl', fetcher, inl err)).
Proof.
  intros HR Ha Hu Hinfo Hparts p Howner Hrun.
  assert (Hgood : Forall good_part (FileTable.fnEx p)).
  { unfold p. rewrite fnEx_path_of. constructor; [done|by apply Split_good]. }
  split.
  { rewrite SetFile_calls in Hrun; [|done|by constructor; [apply Hu|]].
    rewrite Hinfo, <-Howner in Hrun. apply (db_set owner_of d S p None d' None HR) in Hrun; [done|].
    eapply Forall_impl; [exact Hgood|apply db_good_ok]. }
  intros may_answer path Hgone Hcalls Hnow.
  assert (Hpath : path = strings.Join (p.1 ++ [p.2]) "/").
  { unfold path. rewrite <-fnEx_path_of. done. }
  apply Forall_app in Hgood as [Hdn [Hfn _]%Forall_cons].
  assert (Hask : forall t w, T < t -> worlds t w ->
    match master_GetDir w c (strings.Join p.1 "/") with inr r => Files r !! p.2 = None | inl _ => True end).
  { intros t w Ht Hw. destruct (Hgone t w Ht Hw) as (S' & Hs & Habs). eapply GetDir_absent; [done|done|].
    by rewrite <-surjective_pairing. }
  assert (Hlist : forall r t, T + delay + 3 <= t ->
    FrontendCallsTheorems.given may_answer (strings.Join p.1 "/") r (delay + 3) t -> Files r !! p.2 = None).
  { intros r t Ht (tr & (w & Hw & Heq) & Hle). specialize (Hask tr w ltac:(lia) Hw). by rewrite <-Heq in Hask. }
  destruct (FrontendCallsTheorems.calls_reachable_ok on_error may_answer delay s Hcalls) as [Hentry Hcall].
  split.
  - intros t r at_tick Ht Hat. destruct (Hcall t _ Ht) as [Hg _]. by eapply Hlist.
  - intros w Hw.
    destruct (Attr_of_absent p.1 p.2 Hdn Hfn (master_GetDir w c) (FrontendCalls.lib s)) as [Hattr (f' & err & Hfi)].
    { destruct (cache (FrontendCalls.lib s) !! strings.Join p.1 "/") as [r|] eqn:Hc.
      - eapply Hlist; [exact Hnow|]. by eapply FrontendCallsTheorems.entry_hit.
      - apply (Hask (FrontendCalls.now s)); [lia|done]. }
    rewrite Hpath. split; [exact Hattr|]. unfold Open.
    destruct (checkAccess allowed uid) as [e|]; [by eexists _, _|]. rewrite Hfi. by eexists _, _.
Qed.
End system.


(** ** Witnesses: the file of the file server's examples, read by another user *)

Section demo.
#[local] Open Scope string_scope.
#[local] Open Scope list_scope.

Definition net0 : Fetcher.PeerNetwork :=
  {| Fetcher.dial := fun _ _ => None; Fetcher.ping1 := fun _ => None; Fetcher.ping2 := fun _ => None;
     Fetcher.ping_time := fun _ => 5%Z |}.
Definition shares0 (p : string) : gmap string string := ServerTheorems.demo_shares.
Definition index0 (p : string) : Server.index := ServerTheorems.demo_index.
Definition fetcher0 : Fetcher.Fetcher := Fetcher.mkFetcher ∅ 4 "/var/cache" 0.
Definition world0 (d : @db ops0) : @World ops0 :=
  mkWorld (Some (Master.mkState d {[0 := (conn_a, peer_b)]})) {[0]} 1.
Definition reader0 : @master_client ops0 := mkClient 0 [].
Definition table0 : FileTable.table :=
  FileTable.set ∅ (published_path peer_a ∅ [] ["a.txt"] ServerTheorems.demo_info) (Some ServerTheorems.demo_info).

Lemma publishes0 :
  @publishes ops0 laws0 ServerTheorems.demo_os shares0 index0 net0 owner_a peer_a db0 ∅ ∅ [] ["a.txt"]
    ServerTheorems.demo_info ServerTheorems.demo_text (ServerTheorems.demo_text, 0%Z).
Proof.
  split.
  - apply InmemProofs.represents_new.
  - split; [done|]. by apply (bool_decide_eq_true_1 (good_part _)).
  - split; [constructor|]. split; [|done]. by apply (bool_decide_eq_true_1 (Forall good_part _)).
  - done.
  - done.
  - done.
  - intros p. apply ServerTheorems.demo_sound.
  - done.
  - split.
    + intros o' (p & f & _ & _ & <-). by eexists.
    + by eexists.
Qed.

Lemma signed_in0 d : @db_holds ops0 laws0 owner_a d table0 -> @signed_in ops0 laws0 owner_a (world0 d) reader0 table0.
Proof.
  intros HR. exists (Master.mkState d {[0 := (conn_a, peer_b)]}), conn_a, peer_b.
  by split_and!.
Qed.

Lemma mount_reads_published_file_witness :
  exists d, @Master.SetFile ops0 peer_a db0 (announced ∅ [] ["a.txt"] ServerTheorems.demo_info).2 = Done (d, None) /\
    @use_mount CryptoTheorems.demo_x509 ops0 std_range ServerTheorems.demo_os vault0 sgn0 open_network conn_a
      (fun _ => None) shares0 index0 net0 0 (world0 d) (world0 d) reader0 None 1000 fetcher0 new_frontend "a/a.txt"
      [(0, 4); (8, 4)]%Z =
    Done (inr (FileAttr 10 1000, [(String.list_byte_of_string "0123", None); (String.list_byte_of_string "89", None)])).
Proof.
  destruct (@publish_reaches ops0 laws0 full0 ServerTheorems.demo_os shares0 index0 net0 owner_a peer_a db0
    ∅ ∅ [] ["a.txt"] _ _ _ publishes0) as ((d & Hd & HR) & _).
  exists d. split; [exact Hd|].
  refine (proj2 (@mount_reads_published_file CryptoTheorems.demo_x509 ops0 laws0 full0 std_range ServerTheorems.demo_os
    vault0 sgn0 open_network conn_a (fun _ => None) shares0 index0 net0 0 owner_a peer_a db0 ∅ ∅ [] ["a.txt"]
    ServerTheorems.demo_info ServerTheorems.demo_text (ServerTheorems.demo_text, 0%Z) (world0 d) (world0 d) reader0 None 1000 fetcher0 new_frontend [(0, 4); (8, 4)]%Z
    publishes0 _ _ _ _ _ _ _)); try done.
  - by apply signed_in0.
  - by apply signed_in0.
  - repeat constructor; by vm_compute.
Defined.

Lemma ftp_fetches_published_file_witness :
  exists d, @Master.SetFile ops0 peer_a db0 (announced ∅ [] ["a.txt"] ServerTheorems.demo_info).2 = Done (d, None) /\
    @use_ftp CryptoTheorems.demo_x509 ops0 std_range ServerTheorems.demo_os vault0 sgn0 open_network conn_a
      (fun _ => None) shares0 index0 net0 0 6 (world0 d) (world0 d) reader0 fetcher0 new_frontend "a/a.txt" 2 =
    Done (inr (mkFTPFileInfo "a.txt" (Some ServerTheorems.demo_info) false, 10%Z,
               (ServerTheorems.demo_text, io_EOF))).
Proof.
  destruct (@publish_reaches ops0 laws0 full0 ServerTheorems.demo_os shares0 index0 net0 owner_a peer_a db0
    ∅ ∅ [] ["a.txt"] _ _ _ publishes0) as ((d & Hd & HR) & _).
  exists d. split; [exact Hd|].
  refine (@ftp_fetches_published_file CryptoTheorems.demo_x509 ops0 laws0 full0 std_range ServerTheorems.demo_os
    vault0 sgn0 open_network conn_a (fun _ => None) shares0 index0 net0 0 owner_a peer_a db0 ∅ ∅ [] ["a.txt"]
    ServerTheorems.demo_info ServerTheorems.demo_text (ServerTheorems.demo_text, 0%Z) (world0 d) (world0 d) reader0 fetcher0 new_frontend 2 6
    publishes0 _ _ _ _ _ _ _ _); try done.
  - by apply signed_in0.
  - by apply signed_in0.
  - by exists 2%Z.
Defined.

(** *** The deletion of the file of the master's examples *)

Definition q_gone : SetFileRequest := {| SetFile_Path := "docs/readme"; SetFile_Info := None |}.
Definition db_gone : @db ops0 := match @Master.SetFile ops0 peer_a db3 q_gone with Done (d, _) => d | _ => db3 end.
Definition table3 : FileTable.table := FileTable.set ∅ (path_of "a" "docs/readme") (Some (mkFileInfo 3 "h" 0)).

(** The master deletes it in the first tick, when the mount has asked for the
directory and not stored the reply yet. *)
Definition worlds3 (t : nat) (w : @World ops0) : Prop := w = world0 (if decide (t = 0) then db3 else db_gone).
Abbreviation ask3 w := (@master_GetDir CryptoTheorems.demo_x509 ops0 vault0 sgn0 open_network conn_a (fun _ => None) w reader0).
Definition answers3 (t : nat) (dn : string) (r : error + GetDirReply) : Prop :=
  exists w, worlds3 t w /\ r = ask3 w dn.
Definition listing3 : GetDirReply :=
  match ask3 (world0 db3) "a/docs" with inr r => r | inl _ => mkGetDirReply [] ∅ end.

Definition stored3 : FrontendLib := mkFrontendLib (<["a/docs" := listing3]> ∅) (<["a/docs" := 3%Z]> ∅).
Definition purged3 : FrontendCalls.state :=
  FrontendCalls.mkState (Nat.iter 3 (@cachePurger_tick std_range) stored3) 4
    (<[0 := FrontendCalls.Answered "a/docs" (inr listing3) 1]> (<[0 := FrontendCalls.Storing "a/docs" listing3 0]>
      (<[0 := FrontendCalls.Asking "a/docs"]> ∅))).

Lemma run_purged3 : rtc (@FrontendCalls.step std_range FrontendCalls.fuse_error answers3 1) FrontendCalls.start purged3.
Proof.
  eapply rtc_l; [by apply (FrontendCalls.step_miss _ _ _ FrontendCalls.start 0 "a/docs")|].
  eapply rtc_l; [apply (FrontendCalls.step_reply _ _ _ _ 0 "a/docs" listing3); [done|]|].
  { exists (world0 db3). split; [done|]. by vm_compute. }
  eapply rtc_l; [apply FrontendCalls.step_tick|].
  eapply rtc_l; [apply (FrontendCalls.step_store _ _ _ _ 0 "a/docs" listing3 0); [done|simpl; lia]|].
  do 3 (eapply rtc_l; [apply FrontendCalls.step_tick|]). apply rtc_refl.
Qed.

Lemma deleted_file_disappears_witness :
  @Master.SetFile ops0 peer_a db3 q_gone = Done (db_gone, None) /\
  "readme" ∈ dom (Files listing3) /\
  (forall size mtime, (Attr (ask3 (world0 db_gone)) (FrontendCalls.lib purged3) "a/docs/readme").2 <> inr (FileAttr size mtime)) /\
  exists fl' err, Open (ask3 (world0 db_gone))
    (@master_GetOwners CryptoTheorems.demo_x509 ops0 vault0 sgn0 open_network conn_a (fun _ => None) (world0 db_gone) reader0)
    net0 None 1000 fetcher0 (FrontendCalls.lib purged3) "a/docs/readme" = Done (fl', fetcher0, inl err).
Proof.
  assert (HR : @db_holds ops0 laws0 owner_a db3 table3).
  { apply (@db_set ops0 laws0 owner_a db0 ∅ (path_of "a" "docs/readme") (Some (mkFileInfo 3 "h" 0)) db3 None).
    - apply InmemProofs.represents_new.
    - repeat constructor; by vm_compute.
    - reflexivity. }
  assert (Hrun : @Master.SetFile ops0 peer_a db3 q_gone = Done (db_gone, None)) by reflexivity.
  split; [exact Hrun|]. split; [apply elem_of_dom; exists (mkFileInfo 3 "h" 0); by vm_compute|].
  destruct (@deleted_file_disappears CryptoTheorems.demo_x509 ops0 laws0 std_range vault0 sgn0 open_network conn_a
    (fun _ => None) net0 owner_a peer_a db3 table3 FrontendCalls.fuse_error worlds3 1 q_gone db_gone 0 purged3
    reader0 None 1000%Z fetcher0 HR) as [HR' Hgone].
  - discriminate.
  - by apply (bool_decide_eq_true_1 (good_part _)).
  - reflexivity.
  - by apply (bool_decide_eq_true_1 (Forall (fun p => bad_part p = false) _)).
  - reflexivity.
  - exact Hrun.
  - apply Hgone; [|apply run_purged3|simpl; lia|done].
    intros t w Ht ->. rewrite decide_False by lia. exists (FileTable.set table3 (path_of "a" "docs/readme") None). split.
    + exists (Master.mkState db_gone {[0 := (conn_a, peer_b)]}), conn_a, peer_b. by split_and!.
    + rewrite FileTable.lookup_set. by rewrite decide_True.
Defined.
End demo.

End SystemTheorems.
