(* ===== verification/Sharing.v ===== *)
(** * A share on its way to the master

[Server.Setup] puts a scanner on every share, with a callback that calls
[Server.SetFile] ([server.go]): the index follows, and a request goes over the
channel to one of the goroutines of [startSetFileThreads], which calls the
master with it and only logs an error. *)

From S2P Require Import Prelude GoStrings Types Crypto DatabaseSpec Master Client Rpc Session.
From S2P Require Import Server Scanner.
Import Crypto Client Session.

Module Sharing.

(** What the scanner's calls of the callback [k] of a share, [setFile], do: the
index after them, and the requests on the channel, in order. *)
Definition setFile (share : string) (acc : Server.index * list (string * option FileInfo))
    (c : Scanner.call) : Server.index * list (string * option FileInfo) :=
  let '(m, q) := Server.SetFile acc.1 share (Scanner.c_path c) (Scanner.c_info c) (Scanner.c_old c) in
  (m, acc.2 ++ [(SetFile_Path q, SetFile_Info q)]).

Definition callbacks (share : string) (k : nat) (m : Server.index) (calls : list Scanner.call)
    : Server.index * list (string * option FileInfo) :=
  foldl (fun acc c => if decide (Scanner.c_listener c = k) then setFile share acc c else acc) (m, []) calls.

Section deliver.
Context `{X509} {ops : DatabaseOps}.
Context (vault : MasterVault) (sgn : signing) (netw : Master.Network) (conn_of : Master.Conn)
  (dial_err : nat -> option error).

(** The loop [for req := range rpc] of the goroutines of [startSetFileThreads],
in the order the master sees them: the errors that they log. *)
Definition deliver_one (acc : World * master_client * list (option error)) (r : string * option FileInfo)
    : outcome (World * master_client * list (option error)) :=
  let '(w, c, errs) := acc in
  '(w, c, err) ← publish vault sgn netw conn_of dial_err w c {| SetFile_Path := r.1; SetFile_Info := r.2 |};
  Done (w, c, errs ++ [err]).

Definition deliver (w : World) (c : master_client) (reqs : list (string * option FileInfo))
    : outcome (World * master_client * list (option error)) :=
  foldM deliver_one (w, c, []) reqs.
End deliver.

End Sharing.
