(* ===== verification/SharingTheorems.v ===== *)
(** * What is in a shared directory is what the master lists

The names that the walk of a directory gives, the delivery of requests in any
order, and that a pass of the scanner carries the directory, the cache, the
index of the file server and the table of the master from one state in which
they agree to the next. *)

From S2P Require Import Prelude GoStrings Types Crypto DatabaseSpec Master MasterTheorems Client Rpc Session SessionTheorems.
From S2P Require Import Server ServerTheorems Scanner ScannerTheorems Publisher PublisherTheorems Sharing.
From S2P Require Import Fetcher FetcherRuns Frontend System SystemTheorems.
From S2P Require Import DatabaseInmem DatabaseInmemProofs DatabaseInmemInterface CryptoTheorems.
Import Crypto Client Session Scanner ScannerTheorems MasterTheorems SessionTheorems Sharing.

Module SharingTheorems.

(** ** The names of a walk *)

Lemma entry_rect' (P : entry -> Prop) :
  (forall s, P (Plain s)) -> P Unreadable -> (forall es, Forall (fun ne => P ne.2) es -> P (Directory es)) ->
  forall e, P e.
Proof.
  intros Hp Hu Hd. fix IH 1. intros [s|es|]; [apply Hp| |exact Hu]. apply Hd.
  induction es as [|[name e] es IHes]; constructor; [apply IH|exact IHes].
Qed.

(** A directory tree as file systems have it: no name is empty, a dot or two, or
has a slash, and the names of a directory differ. *)
Fixpoint real_tree (e : entry) : Prop :=
  match e with
  | Directory es =>
      NoDup es.*1 /\ Forall (fun ne => plain_part ne.1) es /\
      (fix all (es : list (string * entry)) : Prop :=
         match es with [] => True | (_, e) :: es' => real_tree e /\ all es' end) es
  | _ => True
  end.

Lemma real_entries es :
  real_tree (Directory es) -> NoDup es.*1 /\ Forall (fun ne => plain_part ne.1 /\ real_tree ne.2) es.
Proof.
  intros (Hnd & Hnames & Hall). split; [done|]. clear Hnd.
  induction Hnames as [|[name e] es Hname _ IH]; constructor; [|apply IH]; naive_solver.
Qed.

Lemma scan_Directory rel base es :
  hidden base = false ->
  scan rel base (Directory es) = concat ((fun ne => scan (below rel ne.1) ne.1 ne.2) <$> es).
Proof.
  intros Hh. cbn [scan]. rewrite Hh. clear Hh base.
  induction es as [|[name e] es IH]; [done|]. rewrite fmap_cons. simpl. by rewrite IH.
Qed.

Lemma scan_hidden rel base e : hidden base = true -> scan rel base e = [].
Proof. intros Hh. destruct e; cbn [scan]; [by rewrite Hh|by rewrite Hh|done]. Qed.

(** The path of a directory below the root as [filepath.Rel] gives it. *)
Definition rel_of (ps : list string) : string := if decide (ps = []) then "." else strings.Join ps "/".

Lemma visible_good name : plain_part name -> hidden name = false -> good_part name.
Proof.
  intros (Hne & Hdot & Hdots & Hsl) Hh. split; [|done]. destruct name as [|c name]; [done|].
  unfold hidden in Hh. simpl. rewrite (bool_decide_eq_false_2 (_ = ".")), (bool_decide_eq_false_2 (_ = "..")) in Hh by done.
  by rewrite !andb_true_r in Hh.
Qed.

Lemma Join_not_dot ps : ps <> [] -> Forall good_part ps -> strings.Join ps "/" <> ".".
Proof.
  intros Hne Hps Heq.
  assert (Hs : strings.Split (strings.Join ps "/") "/" = ps).
  { apply (Split_Join slash); [done|]. eapply Forall_impl; [exact Hps|]. by intros p [_ ?]. }
  rewrite Heq in Hs. subst ps. apply Forall_cons in Hps as [[Hp _] _]. by vm_compute in Hp.
Qed.

Lemma below_rel ps name :
  Forall good_part ps -> below (rel_of ps) name = strings.Join (ps ++ [name]) "/".
Proof.
  intros Hps. unfold below, rel_of. destruct (decide (ps = [])) as [->|Hne]; [done|].
  rewrite decide_False by (by apply Join_not_dot). by rewrite <-(Join_app ps [name]) by done.
Qed.

Lemma rel_of_inj ps qs : Forall good_part ps -> Forall good_part qs -> rel_of ps = rel_of qs -> ps = qs.
Proof.
  intros Hps Hqs. unfold rel_of. repeat case_decide; subst; try done; intros Heq.
  - by destruct (Join_not_dot qs).
  - by destruct (Join_not_dot ps).
  - apply Join_sep_inj; [..|done]; (eapply Forall_impl; [eassumption|apply good_sep_name]).
Qed.

(** The walk of the entries of a directory, given that of each. *)
Lemma scan_entries es ps :
  NoDup es.*1 -> Forall (fun ne => plain_part ne.1 /\ real_tree ne.2) es ->
  Forall (fun ne => forall ps name, plain_part name -> real_tree ne.2 -> Forall good_part ps ->
    NoDup (scan (below (rel_of ps) name) name ne.2).*1 /\
    forall path, path ∈ (scan (below (rel_of ps) name) name ne.2).*1 ->
      exists qs, Forall good_part (name :: qs) /\ path = rel_of (ps ++ name :: qs)) es ->
  Forall good_part ps ->
  let files := concat ((fun ne => scan (below (rel_of ps) ne.1) ne.1 ne.2) <$> es) in
  NoDup files.*1 /\
  forall path, path ∈ files.*1 ->
    exists name qs, name ∈ es.*1 /\ Forall good_part (name :: qs) /\ path = rel_of (ps ++ name :: qs).
Proof.
  intros Hnd Hes IH Hps. induction es as [|[name e] es IHes]; [split; [constructor|by intros p ?%not_elem_of_nil]|].
  apply NoDup_cons in Hnd as [Hnot Hnd]. apply Forall_cons in Hes as [[Hname He] Hes].
  apply Forall_cons in IH as [IHe IH]. destruct (IHes Hnd Hes IH) as [Hnd' Hpaths].
  destruct (IHe ps name Hname He Hps) as [Hnd1 Hpaths1]. cbn [fst snd fmap list_fmap concat] in *.
  rewrite fmap_app. split.
  - apply NoDup_app. split; [exact Hnd1|]. split; [|exact Hnd'].
    intros p (qs & Hqs & ->)%Hpaths1 (name' & qs' & Hin & Hqs' & Heq)%Hpaths.
    apply rel_of_inj in Heq; [|by apply Forall_app..].
    apply app_inv_head in Heq as [= -> _]. done.
  - intros p [Hp|Hp]%elem_of_app.
    + apply Hpaths1 in Hp as (qs & Hqs & ->). exists name, qs. split; [by left|done].
    + apply Hpaths in Hp as (name' & qs & Hin & H). exists name', qs. split; [by right|exact H].
Qed.

(** The files that the walk meets at or below an entry of a directory have paths
of good parts, and no two of them the same. *)
Lemma scan_entry e : forall ps name,
  plain_part name -> real_tree e -> Forall good_part ps ->
  NoDup (scan (below (rel_of ps) name) name e).*1 /\
  forall path, path ∈ (scan (below (rel_of ps) name) name e).*1 ->
    exists qs, Forall good_part (name :: qs) /\ path = rel_of (ps ++ name :: qs).
Proof.
  induction e as [s| |es IH] using entry_rect'; intros ps name Hname Hreal Hps.
  all: destruct (decide (hidden name = true)) as [Hh|Hh%not_true_is_false];
    [rewrite scan_hidden by done; split; [constructor|by intros p ?%not_elem_of_nil]|].
  all: pose proof (visible_good name Hname Hh) as Hgood; rewrite (below_rel ps name Hps).
  - cbn [scan]. rewrite Hh. destruct (st_special s); [split; [constructor|by intros p ?%not_elem_of_nil]|].
    split; [apply NoDup_singleton|]. intros path ->%list_elem_of_singleton. exists [].
    split; [by constructor|]. unfold rel_of. by rewrite decide_False by (by destruct ps).
  - split; [constructor|by intros p ?%not_elem_of_nil].
  - apply real_entries in Hreal as [Hnd Hes]. rewrite scan_Directory by done.
    assert (Hrel : strings.Join (ps ++ [name]) "/" = rel_of (ps ++ [name])).
    { unfold rel_of. by rewrite decide_False by (by destruct ps). }
    rewrite Hrel. assert (Hps' : Forall good_part (ps ++ [name])) by (apply Forall_app; by split; [|apply Forall_cons]).
    destruct (scan_entries es (ps ++ [name])) as [H1 H2]; [done|done|exact IH|exact Hps'|].
    split; [exact H1|]. intros path (name' & qs & _ & Hqs & ->)%H2. exists (name' :: qs).
    split; [by constructor|]. by rewrite <-(assoc_L (++)).
Qed.

(** A path of good parts. *)
Definition named (path : string) : Prop :=
  exists ps, ps <> [] /\ Forall good_part ps /\ path = strings.Join ps "/".

(** The walk of a share: a real directory. *)
Lemma scan_share es :
  real_tree (Directory es) ->
  distinct_paths (Directory es) /\
  forall path, path ∈ (scanFilesystem (Directory es)).*1 -> named path.
Proof.
  intros [Hnd Hes]%real_entries. unfold distinct_paths, scanFilesystem.
  rewrite scan_Directory by done.
  destruct (scan_entries es []) as [H1 H2]; [done|done| |constructor|].
  - apply Forall_forall. intros ne _ ps name. apply scan_entry.
  - split; [exact H1|]. intros path (name & qs & _ & Hqs & ->)%H2. by exists (name :: qs).
Qed.

(** ** Delivery *)

Section delivery.
Context `{X509} {ops : DatabaseOps} {laws : DatabaseLaws ops} {full : DatabaseComplete ops laws}.
Context (vault : MasterVault) (sgn : signing) (netw : Master.Network) (conn_of : Master.Conn)
  (dial_err : nat -> option error).
Context (owner_of : FileTable.path -> string) (a : Master.Peer).
Context (Haddr : Master.address a <> "") (Huser : good_part (Master.user a)).

Abbreviation deliver := (deliver vault sgn netw conn_of dial_err).
Abbreviation file_of P := (path_of (Master.user a) P).

Lemma path_of_inj u P P' : path_of u P = path_of u P' -> P = P'.
Proof.
  intros Heq%(f_equal FileTable.fnEx). rewrite !fnEx_path_of in Heq. injection Heq as Heq.
  transitivity (strings.Join (strings.Split P "/") "/"); [symmetry; apply (Join_Split slash)|].
  rewrite Heq. apply (Join_Split slash).
Qed.

(** The client [c] is signed in as the peer [a] at a master that holds [S]. *)
Definition connected (w : World) (c : master_client) (S : FileTable.table) : Prop :=
  exists st conn, master w = Some st /\ client c ∈ alive w /\
    Master.peers st !! client c = Some (conn, a) /\ db_holds owner_of (Master.database st) S.

(** A request that the master takes: a path of good parts that [a] owns, and
deletions only below a subdirectory. *)
Definition takes (r : string * option FileInfo) : Prop :=
  Forall good_part (strings.Split r.1 "/") /\ owner_of (file_of r.1) = Master.ident a /\
  (r.2 = None -> 2 <= length (file_of r.1).1).

Lemma publish_connected w c S r :
  connected w c S -> takes r ->
  exists w', publish vault sgn netw conn_of dial_err w c {| SetFile_Path := r.1; SetFile_Info := r.2 |} =
      Done (w', c, None) /\ connected w' c (FileTable.set S (file_of r.1) (db_stored <$> r.2)).
Proof.
  intros (st & conn & Hst & Hal & Hp & HR) (Hparts & Howner & Hdeep).
  assert (Hex : Forall db_name_ok (FileTable.fnEx (file_of r.1))).
  { rewrite fnEx_path_of. apply Forall_cons. split; [by apply db_good_ok|].
    eapply Forall_impl; [exact Hparts|apply db_good_ok]. }
  assert (exists d, db_SetFile (Master.database st) (FileTable.fnEx (file_of r.1)) r.2 (owner_of (file_of r.1))
    = Done (d, None)) as [d Hd].
  { destruct r as [P [f|]]; [by eapply db_publish|]. eapply db_unpublish; [exact HR|exact Hex|by apply Hdeep]. }
  pose proof (db_set owner_of _ S _ r.2 d None HR Hex Hd) as HR'.
  exists (mkWorld (Some (Master.mkState d (Master.peers st))) (alive w) (next_conn w)). split.
  - unfold publish, Rpc.SetFile. cbn [Call].
    rewrite (rpc_Call_alive vault sgn netw w st (client c) conn a) by done. unfold Session.serve.
    rewrite SetFile_calls; [|done|].
    + cbn [SetFile_Path SetFile_Info]. by rewrite <-Howner, Hd.
    + constructor; [apply Huser|]. eapply Forall_impl; [exact Hparts|]. by intros p [].
  - exists (Master.mkState d (Master.peers st)), conn. by split_and!.
Qed.

(** Requests for different paths are all taken, in whatever order they come. *)
Lemma deliver_run w c S reqs :
  connected w c S -> NoDup reqs.*1 -> Forall takes reqs ->
  exists w' S', deliver w c reqs = Done (w', c, replicate (length reqs) None) /\ connected w' c S' /\
    (forall r, r ∈ reqs -> S' !! file_of r.1 = db_stored <$> r.2) /\
    (forall p, (forall r, r ∈ reqs -> p <> file_of r.1) -> S' !! p = S !! p).
Proof.
  intros Hw Hnd Hall. unfold Sharing.deliver.
  enough (forall errs, exists w' S', foldM (deliver_one vault sgn netw conn_of dial_err) (w, c, errs) reqs =
      Done (w', c, errs ++ replicate (length reqs) None) /\ connected w' c S' /\
    (forall r, r ∈ reqs -> S' !! file_of r.1 = db_stored <$> r.2) /\
    (forall p, (forall r, r ∈ reqs -> p <> file_of r.1) -> S' !! p = S !! p)) as Hgen by apply (Hgen []).
  revert w S Hw Hnd. induction Hall as [|r reqs Hr _ IH]; intros w S Hw Hnd errs.
  - exists w, S. simpl. rewrite app_nil_r. split_and!; try done. by intros r ?%not_elem_of_nil.
  - rewrite fmap_cons in Hnd. apply NoDup_cons in Hnd as [Hnot Hnd].
    destruct (publish_connected w c S r Hw Hr) as (w1 & Hpub & Hw1).
    destruct (IH w1 _ Hw1 Hnd (errs ++ [None])) as (w' & S' & Hrun & Hw' & Hset & Hkeep).
    exists w', S'. cbn [foldM deliver_one]. rewrite Hpub. cbn [mbind outcome_bind].
    rewrite Hrun, <-(assoc_L (++)). split; [done|]. split; [done|]. split.
    + intros r' [->|Hin]%elem_of_cons; [|by apply Hset]. rewrite Hkeep.
      * rewrite FileTable.lookup_set. by rewrite decide_True.
      * intros r' Hin Heq%path_of_inj. apply Hnot. rewrite Heq. by apply list_elem_of_fmap_2.
    + intros p Hp. rewrite Hkeep by (intros r' Hin; apply Hp; by right).
      rewrite FileTable.lookup_set, decide_False; [done|]. apply Hp. by left.
Qed.
End delivery.

(** ** A share and the master *)

Section share.
Context `{X509} {ops : DatabaseOps} {laws : DatabaseLaws ops} {full : DatabaseComplete ops laws} `{MapRange}.
Context (vault : MasterVault) (sgn : signing) (netw : Master.Network) (conn_of : Master.Conn)
  (dial_err : nat -> option error).
Context (owner_of : FileTable.path -> string) (a : Master.Peer).
Context (is_done : nat -> bool) (sh : list string) (k : nat) (others : gmap string FileInfo).

Abbreviation share := (strings.Join sh "/").
Abbreviation live := (live is_done).

(** The peer [a] may publish; the files of the share are published under its
identity; [sh] are the parts of the name of the share, none for the only one;
and [others] is what the index has of the other shares. *)
Record publisher : Prop := mkPublisher {
  pub_address : Master.address a <> "";
  pub_user : good_part (Master.user a);
  pub_share : Forall good_part sh;
  pub_owner ps fn : owner_of (Master.user a :: sh ++ ps, fn) = Master.ident a;
  pub_others : other_keys share others;
}.

(** The scanner [m] of the share, the index of the file server and the table of
the master agree; [k] is the callback of the share, whose context is not done. *)
Record agree (m : Scanner) (idx : Server.index) (w : World) (c : master_client) (S : FileTable.table) : Prop := mkAgree {
  ag_once : NoDup (callback <$> live (listeners m));
  ag_told : k ∈ callback <$> live (listeners m);
  ag_names path : is_Some (fileCache m !! path) -> named path;
  ag_index : ServerTheorems.indexes idx (share_table share (fileCache m) ∪ others);
  ag_connected : connected owner_of a w c S;
  ag_table ps fn : Forall good_part ps -> good_part fn ->
    S !! (Master.user a :: sh ++ ps, fn) = db_stored <$> fileCache m !! strings.Join (ps ++ [fn]) "/";
}.

Definition request (c : call) : string * option FileInfo := (filepath.Join [share; c_path c], c_info c).

Lemma setFile_eq idx reqs c :
  setFile share (idx, reqs) c =
    ((Server.SetFile idx share (c_path c) (c_info c) (c_old c)).1, reqs ++ [request c]).
Proof. done. Qed.

Lemma callbacks_eq idx calls :
  callbacks share k idx calls =
    (serve share k idx calls, request <$> filter (fun c => c_listener c = k) calls).
Proof.
  unfold callbacks, serve.
  enough (forall reqs, foldl (fun acc c => if decide (c_listener c = k) then setFile share acc c else acc)
      (idx, reqs) calls =
    (serve share k idx calls, reqs ++ (request <$> filter (fun c => c_listener c = k) calls))) as Hgen by apply (Hgen []).
  unfold serve. revert idx. induction calls as [|c calls IH]; intros idx reqs; [by rewrite app_nil_r|].
  cbn [foldl]. destruct (decide (c_listener c = k)) as [Hk|Hk].
  - rewrite setFile_eq, IH.
    rewrite (filter_cons_True (fun c => c_listener c = k)) by done. rewrite fmap_cons, <-(assoc_L (++)). done.
  - rewrite IH. by rewrite (filter_cons_False (fun c => c_listener c = k)) by done.
Qed.

Context (Hpub : publisher).

(** The request for a file of the share asks for the path of the file. *)
Lemma request_parts ps :
  ps <> [] -> Forall good_part ps ->
  strings.Split (filepath.Join [share; strings.Join ps "/"]) "/" = sh ++ ps.
Proof.
  intros Hne Hps. destruct Hpub as [_ _ Hsh _ _].
  assert (Hplain : forall l, Forall good_part l -> Forall plain_part l).
  { intros l Hl. eapply Forall_impl; [exact Hl|]. intros p [Hb Hs]. split_and!; try done; by intros ->. }
  rewrite filepath_Join_parts by auto. apply (Split_Join slash); [by intros [_ ?]%app_eq_nil|].
  apply Forall_app. split; (eapply Forall_impl; [eassumption|]); by intros p [].
Qed.

Lemma request_file ps fn :
  Forall good_part ps -> good_part fn ->
  path_of (Master.user a) (filepath.Join [share; strings.Join (ps ++ [fn]) "/"]) =
    (Master.user a :: sh ++ ps, fn).
Proof.
  intros Hps Hfn. unfold path_of. rewrite request_parts; [|by destruct ps|].
  - by rewrite (assoc_L (++)), removelast_last, last_last.
  - apply Forall_app. by split; [|apply Forall_cons].
Qed.

Lemma request_takes c ps :
  ps <> [] -> Forall good_part ps -> c_path c = strings.Join ps "/" ->
  (c_info c = None -> 2 <= length (sh ++ ps)) ->
  takes owner_of a (request c).
Proof.
  intros Hne Hps Hc Hdeep. unfold takes, request. cbn [fst snd]. rewrite Hc.
  rewrite request_parts by done. pose proof Hpub as [_ _ Hsh Hown _].
  split; [by apply Forall_app|]. unfold path_of. cbn [fst]. rewrite request_parts by done.
  destruct ps as [|x ps _] using rev_ind; [done|]. rewrite (assoc_L (++)), removelast_last, last_last.
  split; [apply Hown|]. intros Hnone%Hdeep. rewrite (assoc_L (++)), length_app in Hnone. simpl in *. lia.
Qed.

Lemma request_inj ps qs :
  ps <> [] -> qs <> [] -> Forall good_part ps -> Forall good_part qs ->
  filepath.Join [share; strings.Join ps "/"] = filepath.Join [share; strings.Join qs "/"] -> ps = qs.
Proof.
  intros Hp Hq Hps Hqs Heq%(f_equal (fun s => strings.Split s "/")).
  rewrite !request_parts in Heq by done. by apply app_inv_head in Heq.
Qed.

(** A cached file that is still there stays cached. *)
Lemma rescanned_kept hash m path st :
  is_Some (fileCache m !! path) -> is_Some st -> is_Some (rescanned hash m path st).
Proof.
  intros [f Hf] [s ->]. unfold rescanned. rewrite Hf. case_decide; [by eexists|].
  destruct (hash _); by eexists.
Qed.

(** *** The requests of a pass *)

Section pass.
Context (m m' : Scanner) (calls : list call) (done : list string).
Context (Hinv : pass_inv is_done m done (m', calls)).
Context (Honce : NoDup (callback <$> live (listeners m))) (Hk : k ∈ callback <$> live (listeners m)).
Context (Hnames : forall path, is_Some (fileCache m !! path) -> named path).
Context (Hnames' : forall path, is_Some (fileCache m' !! path) -> named path).

Abbreviation mine := (filter (fun c => c_listener c = k) calls).

Lemma call_named c : c ∈ calls -> named (c_path c).
Proof.
  intros Hc. destruct (pass_calls _ _ _ _ Hinv c Hc) as (_ & _ & Hinfo & _). cbn [fst snd] in Hinfo.
  destruct (c_info c) as [f|] eqn:Hf.
  - apply Hnames'. rewrite <-Hinfo. by eexists.
  - apply Hnames. by apply (pass_gone _ _ _ _ Hinv c Hc).
Qed.

Lemma requests_distinct : NoDup (request <$> mine).*1.
Proof.
  assert (Heq : (request <$> mine).*1 =
    (fun kp => filepath.Join [share; kp.2]) <$> ((fun c => (c_listener c, c_path c)) <$> mine)).
  { by rewrite <-!list_fmap_compose. }
  rewrite Heq. apply NoDup_fmap_2_strong.
  - intros x y (c & -> & [Hcl Hc]%list_elem_of_filter)%list_elem_of_fmap
      (c' & -> & [Hcl' Hc']%list_elem_of_filter)%list_elem_of_fmap. cbn [snd].
    destruct (call_named c Hc) as (ps & Hp & Hps & ->), (call_named c' Hc') as (qs & Hq & Hqs & ->).
    intros ->%request_inj; try done. by rewrite Hcl, Hcl'.
  - eapply sublist_NoDup; [by apply (pass_once _ _ _ _ Hinv)|]. apply fmap_sublist, sublist_filter.
Qed.

Lemma requests_taken :
  (sh = [] -> forall fn, good_part fn -> is_Some (fileCache m !! fn) -> is_Some (fileCache m' !! fn)) ->
  Forall (takes owner_of a) (request <$> mine).
Proof.
  intros Hdeep. apply Forall_fmap, Forall_forall. intros c [_ Hc]%list_elem_of_filter.
  destruct (call_named c Hc) as (ps & Hne & Hps & Hpath). eapply request_takes; try done.
  intros Hnone. pose proof (pass_gone _ _ _ _ Hinv c Hc Hnone) as Hwas.
  destruct (pass_calls _ _ _ _ Hinv c Hc) as (_ & _ & Hinfo & _). cbn [fst snd] in Hinfo.
  destruct ps as [|x [|y ps]]; [done| |rewrite length_app; simpl; lia].
  destruct sh as [|z sh']; [|simpl; rewrite length_app; simpl; lia].
  apply Forall_cons in Hps as [Hx _]. exfalso. rewrite Hpath in *. simpl in *.
  destruct (Hdeep eq_refl x Hx Hwas) as [f Hf]. congruence.
Qed.

(** Setting what the requests ask for brings the table from the old cache to the
new one, and touches nothing outside the share. *)
Lemma requests_table (S S' : FileTable.table) :
  (forall r, r ∈ request <$> mine -> S' !! path_of (Master.user a) r.1 = db_stored <$> r.2) ->
  (forall p, (forall r, r ∈ request <$> mine -> p <> path_of (Master.user a) r.1) -> S' !! p = S !! p) ->
  (forall ps fn, Forall good_part ps -> good_part fn ->
     S !! (Master.user a :: sh ++ ps, fn) = db_stored <$> fileCache m !! strings.Join (ps ++ [fn]) "/") ->
  (forall ps fn, Forall good_part ps -> good_part fn ->
     S' !! (Master.user a :: sh ++ ps, fn) = db_stored <$> fileCache m' !! strings.Join (ps ++ [fn]) "/") /\
  (forall p, ~ Master.user a :: sh `prefix_of` p.1 -> S' !! p = S !! p).
Proof.
  intros Hset Hkeep Htab. split.
  - intros ps fn Hps Hfn. set (path := strings.Join (ps ++ [fn]) "/").
    assert (Hgood : Forall good_part (ps ++ [fn])) by (apply Forall_app; by split; [|apply Forall_cons]).
    destruct (decide (fileCache m' !! path = fileCache m !! path)) as [Hsame|Hdiff].
    + destruct (decide (path ∈ c_path <$> mine)) as [(c & Hpc & Hc)%list_elem_of_fmap|Hnot].
      * rewrite <-(request_file ps fn Hps Hfn). fold path. rewrite Hpc.
        change (filepath.Join [share; c_path c]) with (request c).1.
        rewrite Hset by (by apply list_elem_of_fmap_2). apply list_elem_of_filter in Hc as [_ Hc].
        destruct (pass_calls _ _ _ _ Hinv c Hc) as (_ & _ & Hinfo & _). cbn [fst snd] in Hinfo.
        by rewrite <-Hinfo.
      * rewrite Hkeep; [rewrite Hsame; by apply Htab|].
        intros r (c & -> & Hc)%list_elem_of_fmap Heq.
        rewrite <-(request_file ps fn Hps Hfn) in Heq. apply path_of_inj in Heq.
        destruct (call_named c) as (qs & Hq & Hqs & Hcq); [by apply list_elem_of_filter in Hc as [_ ?]|].
        unfold request in Heq. cbn [fst] in Heq. rewrite Hcq in Heq.
        apply request_inj in Heq; [|by destruct ps|done|done|done].
        apply Hnot. apply list_elem_of_fmap. exists c. split; [|done]. unfold path. by rewrite Heq, Hcq.
    + pose proof (pass_told _ _ _ _ Hinv path k Hdiff Hk) as Htold. cbn [fst snd] in Htold.
      rewrite <-(request_file ps fn Hps Hfn). fold path.
      pose (r := request (mkCall k path (fileCache m' !! path) (Some (default zero_info (fileCache m !! path))))).
      apply (Hset r). subst r. apply list_elem_of_fmap_2, list_elem_of_filter. by split; [|exact Htold].
  - intros p Hp. apply Hkeep. intros r (c & -> & Hc)%list_elem_of_fmap ->. apply Hp.
    destruct (call_named c) as (qs & Hq & Hqs & Hcq); [by apply list_elem_of_filter in Hc as [_ ?]|].
    unfold request. cbn [fst]. rewrite Hcq. destruct qs as [|x qs _] using rev_ind; [done|].
    apply Forall_app in Hqs as [Hqs [Hx _]%Forall_cons]. rewrite request_file by done.
    by exists qs.
Qed.
End pass.

(** *** Claims *)

(** C1: a normal pass carries a share to the master. Let the cache of the scanner
of one share, the index of the file server, which may have other shares beside it,
and the table of the master agree, and let the master's database be one that takes
every publication and knows every owner (the in-memory one or SQLite, not Bolt), in
which the files of the share are published under one identity. Then a pass over the
directory returns, whatever was added, changed or deleted, and the cache is what the
directory says; and when the requests of the pass, and no others, have gone through
the goroutines, whatever their interleaving and in whatever order a master that
stays connected and that nobody else changes handles them, the master has answered
nil to each, scanner, index and table agree again, and nothing outside the share has
changed at the master. The exception is the deletion of a file at the top of an
unnamed share, which the theorem leaves out: it can panic the in-memory database. *)
Theorem share_reaches_master hash m idx w c S es :
  agree m idx w c S -> real_tree (Directory es) ->
  (sh = [] -> forall fn, good_part fn -> is_Some (fileCache m !! fn) -> is_Some (found (Directory es) fn)) ->
  exists m' calls, normalPass is_done hash (Directory es) m = Done (m', calls) /\
    (forall path, fileCache m' !! path = rescanned hash m path (found (Directory es) path)) /\
    let '(idx', reqs) := callbacks share k idx calls in
    forall s got, rtc Publisher.step (Publisher.start [Publisher.run_jobs (Publisher.set_jobs 0 reqs)]) s ->
      Publisher.finished s -> got ≡ₚ Publisher.sent s ->
      exists w' S', deliver vault sgn netw conn_of dial_err w c got = Done (w', c, replicate (length got) None) /\
        agree m' idx' w' c S' /\
        forall p, ~ Master.user a :: sh `prefix_of` p.1 -> S' !! p = S !! p.
Proof.
  intros [Honce Hk Hnames Hidx Hcon Htab] Hreal Hdeep. destruct (scan_share es Hreal) as [Hdist Hscan].
  destruct (normalPass_run is_done hash (Directory es) m Hdist) as ([m' calls] & Hrun & [done Hinv] & Hfiles).
  cbn [fst] in Hfiles.
  assert (Hnames' : forall path, is_Some (fileCache m' !! path) -> named path).
  { intros path. rewrite Hfiles. destruct (found (Directory es) path) as [st|] eqn:Hf; [|by intros []].
    intros _. apply Hscan. apply found_Some in Hf; [|done]. by apply (list_elem_of_fmap_2 fst _ (path, st)). }
  exists m', calls. split; [exact Hrun|]. split; [exact Hfiles|]. rewrite callbacks_eq.
  intros s got Hrtc Hfin Hgot. rewrite (PublisherTheorems.pass_sent _ s Hrtc Hfin) in Hgot.
  pose proof (requests_distinct m m' calls done Hinv Honce Hnames Hnames') as Hnd.
  pose proof (requests_taken m m' calls done Hinv Hnames Hnames') as Htakes.
  assert (Hkept : sh = [] -> forall fn, good_part fn -> is_Some (fileCache m !! fn) -> is_Some (fileCache m' !! fn)).
  { intros Hsh fn Hfn Hwas. rewrite Hfiles. eapply rescanned_kept; [exact Hwas|by apply Hdeep]. }
  specialize (Htakes Hkept). pose proof Hpub as [Haddr Huser _ _ Hothers].
  destruct (deliver_run vault sgn netw conn_of dial_err owner_of a Haddr Huser w c S got Hcon)
    as (w' & S' & Hdel & Hcon' & Hset & Hkeep).
  { by rewrite Hgot. } { by rewrite Hgot. }
  destruct (requests_table m m' calls done Hinv Hk Hnames Hnames' S S') as [Htab' Hout].
  { intros r Hr. apply Hset. by rewrite Hgot. }
  { intros p Hp. apply Hkeep. intros r Hr. apply Hp. by rewrite <-Hgot. } { exact Htab. }
  exists w', S'. split; [exact Hdel|]. split; [|exact Hout].
  pose proof (pass_live _ _ _ _ Hinv) as Hlive. cbn [fst] in Hlive.
  split; try done; [by rewrite Hlive|by rewrite Hlive|]. by apply (pass_index _ _ _ _ Hinv).
Qed.

(** *** What others read *)

Section readers.
Context `{Server.OS}.
Context (peer_shares : string -> gmap string string) (peer_index : string -> Server.index)
  (peer_netw : Fetcher.PeerNetwork) (P : nat).

(** The file [ps]/[fn] of the share is cached with the info [f] and has the
contents [F], also wherever else it is shared; the publisher can open it. *)
Record shared_file (m : Scanner) (idx : Server.index) (S : FileTable.table)
    (ps : list string) (fn : string) (f : FileInfo) (F : list Byte.byte) : Prop := mkSharedFile {
  sf_parts : Forall good_part ps /\ good_part fn;
  sf_cached : fileCache m !! strings.Join (ps ++ [fn]) "/" = Some f;
  sf_info : db_stored f = f /\ Size f = len F;
  sf_index : peer_index (Master.ident a) = idx;
  sf_sound p : ServerTheorems.sound_hash (peer_shares p) (peer_index p) (Hash f) F;
  sf_names : strings.Contains share NUL = false /\ strings.Contains (strings.Join (ps ++ [fn]) "/") NUL = false;
  sf_opens : exists file, Server.os_Open
    (ServerTheorems.key_path (peer_shares (Master.ident a)) share (strings.Join (ps ++ [fn]) "/")) = inr file;
  sf_dials : SystemTheorems.dials peer_netw owner_of S (Hash f) (Master.ident a);
}.

Lemma agree_serves m idx w c S ps fn f F :
  agree m idx w c S -> shared_file m idx S ps fn f F ->
  S !! (Master.user a :: sh ++ ps, fn) = Some f /\
  FileTable.owns owner_of S (Hash f) (Master.ident a) /\
  SystemTheorems.serves_file peer_shares peer_index (Hash f) F (Master.ident a).
Proof.
  intros Hagree [[Hps Hfn] Hcached [Hst _] Hidx Hsound [Hns Hnp] [file Hopen] _].
  pose proof Hpub as [_ _ _ Hown _].
  assert (HS : S !! (Master.user a :: sh ++ ps, fn) = Some f).
  { rewrite (ag_table _ _ _ _ _ Hagree) by done. rewrite Hcached. simpl. by rewrite Hst. }
  split; [exact HS|]. split; [by eexists _, f|]. split; [exact Hsound|].
  eexists share, _, file. split; [|done]. rewrite Hidx.
  apply (ag_index _ _ _ _ _ Hagree). exists f. split; [|done].
  apply lookup_union_Some_l. unfold share_table. pose proof (share_key_inj share). by rewrite lookup_kmap.
Qed.

(** C2: what agrees can be read. Let the cache of a scanner, the index of its file
server and the table of the master agree, in a database that knows every owner, and
let a cached file have contents that are those of every copy that any file server
lists under its hash, which the publisher can open, and whose owners have names
that can be dialed, the publisher's with an answer. Then a program at any signed-in
peer, whose user may use the mount and whose frontend has not cached the listing of
the file's directory or has it with the file as it is, finds at user/share/path a
file of its size and time, can open it, and every piece that it reads, within the
blocks of the file, is exactly that piece of the file; whoever else publishes it,
and in whatever order owners and paths are tried. *)
Theorem agreement_is_readable m idx w c S ps fn f F w1 w2 r allowed uid fetcher fl reqs :
  agree m idx w c S -> shared_file m idx S ps fn f F ->
  SystemTheorems.signed_in owner_of w1 r S -> SystemTheorems.signed_in owner_of w2 r S ->
  SystemTheorems.up_to_date fl (Master.user a :: sh ++ ps) fn f ->
  Frontend.checkAccess allowed uid = None ->
  (0 < Fetcher.blockSize fetcher)%Z ->
  (len F + Z.of_nat (P + 2) * Fetcher.blockSize fetcher < 2 ^ 63)%Z ->
  Forall (fun r => FetcherRuns.in_file (Fetcher.blockSize fetcher) F r.1 r.2) reqs ->
  System.use_mount vault sgn netw conn_of dial_err peer_shares peer_index peer_netw P w1 w2 r allowed uid
    fetcher fl (strings.Join (Master.user a :: sh ++ ps ++ [fn]) "/") reqs =
  Done (inr (Frontend.FileAttr (len F) (Mtime f),
             (fun r => (take (Z.to_nat r.2) (drop (Z.to_nat r.1) F), None)) <$> reqs)).
Proof.
  intros Hagree Hfile Hw1 Hw2 Hnew Hacc Hbs HP Hreqs.
  destruct (agree_serves m idx w c S ps fn f F Hagree Hfile) as (HS & Howns & Hserves).
  destruct Hfile as [[Hps Hfn] _ [_ Hsz] _ _ _ _ Hdials]. pose proof Hpub as [_ Huser Hsh _ _].
  assert (Hpath : Master.user a :: sh ++ ps ++ [fn] = (Master.user a :: sh ++ ps) ++ [fn])
    by (by rewrite <-app_comm_cons, <-(assoc_L (++))).
  rewrite Hpath. eapply (SystemTheorems.mount_reads vault sgn netw conn_of dial_err _ _ _ P owner_of w1 w2 r S); try done.
  apply Forall_cons. split; [done|]. by apply Forall_app.
Qed.
End readers.
End share.

(** ** The directory of the scanner's examples, shared by the peer of the master's *)

Section demo.
#[local] Open Scope string_scope.
#[local] Open Scope list_scope.

Definition demo_entries : list (string * entry) := match demo_root with Directory es => es | _ => [] end.

(** The peer shares the directory as [music], beside another share; the master
lists a file of it that was deleted since. *)
Definition old_info : FileInfo := mkFileInfo 1 "h0" 1.
Definition photo_info : FileInfo := mkFileInfo 5 "h5" 5.
Definition photos : gmap string FileInfo := {[Server.share_key "photos" "x.jpg" := photo_info]}.
Definition old_scanner : Scanner := mkScanner "/srv" "/var" {["old.txt" := old_info]} [mkListener 3 0].
Definition old_index : Server.index :=
  Server.index_insert (Server.index_insert ∅ "h5" (Server.share_key "photos" "x.jpg")) "h0" (Server.share_key "music" "old.txt").
Definition old_table : FileTable.table := FileTable.set ∅ (["a"; "music"], "old.txt") (Some old_info).
Definition old_db : @db ops0 :=
  match @db_SetFile ops0 db0 ["a"; "music"; "old.txt"] (Some old_info) "a@10.0.0.7:1667" with Done (d, _) => d | _ => db0 end.
Definition world_a (d : @db ops0) : @World ops0 := mkWorld (Some (Master.mkState d {[0 := (conn_a, peer_a)]})) {[0]} 1.
Definition client_a : @master_client ops0 := mkClient 0 [].

Lemma real_demo : real_tree (Directory demo_entries).
Proof.
  split; [by apply (bool_decide_eq_true_1 (NoDup _))|]. split; [repeat constructor; done|].
  split; [|split; [|split; [|split]]]; try done; split; try done;
    first [by apply (bool_decide_eq_true_1 (NoDup _))|repeat constructor; done].
Qed.

Lemma publisher_music : publisher owner_a peer_a ["music"] photos.
Proof.
  split; [done| |by apply (bool_decide_eq_true_1 (Forall good_part _))|done|].
  - by apply (bool_decide_eq_true_1 (good_part _)).
  - intros path. apply lookup_singleton_None. by intros [=].
Qed.

Lemma join_one ps fn x :
  Forall good_part ps -> good_part fn -> good_part x -> strings.Join (ps ++ [fn]) "/" = x -> ps = [] /\ fn = x.
Proof.
  intros Hps Hfn Hx Heq. change x with (strings.Join [x] "/") in Heq. apply Join_sep_inj in Heq.
  - destruct ps as [|y [|z ps]]; by injection Heq as ->.
  - apply Forall_app. split; [|by apply Forall_cons; split; [apply good_sep_name|]].
    eapply Forall_impl; [exact Hps|apply good_sep_name].
  - apply Forall_cons. split; [|done]. by apply good_sep_name.
Qed.

(** A table with one file of the share, and a cache with that file. *)
Lemma one_file_agrees sh fn0 f0 ps fn :
  good_part fn0 -> Forall good_part ps -> good_part fn ->
  FileTable.set ∅ ("a" :: sh, fn0) (Some f0) !! ("a" :: sh ++ ps, fn) =
    ({[fn0 := f0]} : cache) !! strings.Join (ps ++ [fn]) "/".
Proof.
  intros H0 Hps Hfn. rewrite FileTable.lookup_set, lookup_empty.
  destruct (decide (strings.Join (ps ++ [fn]) "/" = fn0)) as [Heq|Hne].
  - destruct (join_one ps fn fn0) as [-> ->]; [done..|]. rewrite app_nil_r, decide_True by done.
    simpl. by rewrite lookup_singleton_eq.
  - rewrite lookup_singleton_ne by congruence. rewrite decide_False; [done|].
    intros [= Heq ->]. apply Hne. rewrite <-(app_nil_r sh) in Heq at 2. by apply app_inv_head in Heq as ->.
Qed.

Lemma agree_old :
  @agree ops0 laws0 owner_a peer_a nobody_done ["music"] 3 photos old_scanner old_index (world_a old_db) client_a old_table.
Proof.
  split.
  - apply NoDup_singleton.
  - by left.
  - intros path. cbn [fileCache old_scanner]. intros [f [<- _]%lookup_singleton_Some]. exists ["old.txt"].
    split; [done|]. split; [|done]. by apply (bool_decide_eq_true_1 (Forall good_part _)).
  - unfold share_table, photos. cbn [fileCache old_scanner]. rewrite kmap_singleton.
    rewrite <-insert_union_singleton_l.
    apply (ServerTheorems.index_insert_indexes _ _ _ old_info).
    + apply (ServerTheorems.index_insert_indexes ∅ ∅ _ photo_info); [apply ServerTheorems.indexes_empty|].
      intros f. by rewrite lookup_empty.
    + intros f. by rewrite lookup_singleton_ne.
  - exists (Master.mkState old_db {[0 := (conn_a, peer_a)]}), conn_a. split_and!; try done.
    apply (@db_set ops0 laws0 owner_a db0 ∅ (["a"; "music"], "old.txt") (Some old_info) old_db None).
    + apply InmemProofs.represents_new.
    + repeat constructor; by vm_compute.
    + reflexivity.
  - intros ps fn Hps Hfn. etrans.
    + apply (one_file_agrees ["music"] "old.txt" old_info ps fn); [|done|done]. by apply (bool_decide_eq_true_1 (good_part _)).
    + symmetry. apply option_fmap_id.
Qed.

Lemma share_reaches_master_witness :
  exists m' calls s w' S', @normalPass std_range nobody_done demo_hash (Directory demo_entries) old_scanner = Done (m', calls) /\
    Publisher.finished s /\
    @deliver CryptoTheorems.demo_x509 ops0 vault0 sgn0 open_network conn_a (fun _ => None) (world_a old_db) client_a (Publisher.sent s)
      = Done (w', client_a, replicate (length (Publisher.sent s)) None) /\
    @agree ops0 laws0 owner_a peer_a nobody_done ["music"] 3 photos m' (callbacks "music" 3 old_index calls).1 w' client_a S' /\
    S' !! (["a"; "music"], "a.txt") = Some (mkFileInfo 10 "hash of /srv/a.txt" 1000) /\
    S' !! (["a"; "music"; "sub"], "b.txt") = Some (mkFileInfo 20 "hash of /srv/sub/b.txt" 2000) /\
    S' !! (["a"; "music"], "old.txt") = None.
Proof.
  destruct (@share_reaches_master CryptoTheorems.demo_x509 ops0 laws0 full0 std_range vault0 sgn0 open_network conn_a
    (fun _ => None) owner_a peer_a nobody_done ["music"] 3 photos publisher_music demo_hash old_scanner old_index
    (world_a old_db) client_a old_table demo_entries agree_old real_demo ltac:(discriminate)) as (m' & calls & Hrun & Hfiles & Hgot).
  change (strings.Join ["music"] "/") with "music" in Hgot. destruct (callbacks "music" 3 old_index calls) as [idx' reqs] eqn:Hcb.
  destruct (PublisherTheorems.can_finish (Publisher.start [Publisher.run_jobs (Publisher.set_jobs 0 reqs)])) as (s & Hs & Hfin).
  destruct (Hgot s _ Hs Hfin (reflexivity _)) as (w' & S' & Hdel & Hagree & _).
  exists m', calls, s, w', S'. split; [exact Hrun|]. split; [exact Hfin|]. split; [exact Hdel|].
  rewrite Hcb. split; [exact Hagree|].
  assert (Htab : forall ps fn, Forall good_part ps -> good_part fn ->
    S' !! ("a" :: ["music"] ++ ps, fn) =
      (fun f : FileInfo => f) <$> rescanned demo_hash old_scanner (strings.Join (ps ++ [fn]) "/")
                                    (found (Directory demo_entries) (strings.Join (ps ++ [fn]) "/"))).
  { intros ps fn Hps Hfn. rewrite <-Hfiles. by apply (ag_table _ _ _ _ _ _ _ _ _ _ _ Hagree). }
  split; [|split].
  - etrans; [apply (Htab [] "a.txt"); [by constructor|by apply (bool_decide_eq_true_1 (good_part _))]|by vm_compute].
  - etrans; [apply (Htab ["sub"] "b.txt"); [by apply (bool_decide_eq_true_1 (Forall good_part _))
      |by apply (bool_decide_eq_true_1 (good_part _))]|by vm_compute].
  - etrans; [apply (Htab [] "old.txt"); [by constructor|by apply (bool_decide_eq_true_1 (good_part _))]|by vm_compute].
Defined.

(** *** The file of the file server's examples, after its publication *)

Definition demo_info : FileInfo := ServerTheorems.demo_info.
Definition scanner1 : Scanner := mkScanner "/srv" "/var" {["a.txt" := demo_info]} [mkListener 3 0].
Definition table1 : FileTable.table := FileTable.set ∅ (["a"], "a.txt") (Some demo_info).
Definition db1 : @db ops0 :=
  match @db_SetFile ops0 db0 ["a"; "a.txt"] (Some demo_info) "a@10.0.0.7:1667" with Done (d, _) => d | _ => db0 end.
Definition world_ab : @World ops0 :=
  mkWorld (Some (Master.mkState db1 (<[1 := (conn_a, peer_b)]> {[0 := (conn_a, peer_a)]}))) {[0; 1]} 2.
Definition client_b : @master_client ops0 := mkClient 1 [].

Lemma holds1 : @db_holds ops0 laws0 owner_a db1 table1.
Proof.
  apply (@db_set ops0 laws0 owner_a db0 ∅ (["a"], "a.txt") (Some demo_info) db1 None).
  - apply InmemProofs.represents_new.
  - repeat constructor; by vm_compute.
  - reflexivity.
Qed.

Lemma publisher_a : publisher owner_a peer_a [] ∅.
Proof.
  split; [done| |by constructor|done|].
  - by apply (bool_decide_eq_true_1 (good_part _)).
  - intros path. apply lookup_empty.
Qed.

Lemma agree1 :
  @agree ops0 laws0 owner_a peer_a nobody_done [] 3 ∅ scanner1 ServerTheorems.demo_index world_ab client_a table1.
Proof.
  split.
  - apply NoDup_singleton.
  - by left.
  - intros path. cbn [fileCache scanner1]. intros [f [<- _]%lookup_singleton_Some]. exists ["a.txt"]. split; [done|]. split; [|done].
    by apply (bool_decide_eq_true_1 (Forall good_part _)).
  - unfold share_table. simpl. rewrite kmap_singleton, (right_id_L ∅ (∪)). apply ServerTheorems.demo_indexes.
  - exists (Master.mkState db1 (<[1 := (conn_a, peer_b)]> {[0 := (conn_a, peer_a)]})), conn_a.
    split_and!; try done. apply holds1.
  - intros ps fn Hps Hfn. etrans.
    + apply (one_file_agrees [] "a.txt" demo_info ps fn); [|done|done]. by apply (bool_decide_eq_true_1 (good_part _)).
    + symmetry. apply option_fmap_id.
Qed.

Lemma signed_in_b : @SystemTheorems.signed_in ops0 laws0 owner_a world_ab client_b table1.
Proof.
  exists (Master.mkState db1 (<[1 := (conn_a, peer_b)]> {[0 := (conn_a, peer_a)]})), conn_a, peer_b.
  split_and!; try done. apply holds1.
Qed.

Lemma shared1 :
  @shared_file ops0 laws0 owner_a peer_a [] ServerTheorems.demo_os SystemTheorems.shares0 SystemTheorems.index0
    SystemTheorems.net0 scanner1 ServerTheorems.demo_index table1 [] "a.txt" demo_info ServerTheorems.demo_text.
Proof.
  split; try done.
  - intros p. apply ServerTheorems.demo_sound.
  - by eexists.
  - split; [|by eexists]. intros o' (p & f & _ & _ & <-). by eexists.
Qed.

Lemma agreement_is_readable_witness :
  @System.use_mount CryptoTheorems.demo_x509 ops0 std_range ServerTheorems.demo_os vault0 sgn0 open_network conn_a
    (fun _ => None) SystemTheorems.shares0 SystemTheorems.index0 SystemTheorems.net0 0 world_ab world_ab client_b None 1000
    SystemTheorems.fetcher0 Frontend.new_frontend "a/a.txt" [(0, 4); (8, 4)]%Z =
  Done (inr (Frontend.FileAttr 10 1000,
    [(String.list_byte_of_string "0123", None); (String.list_byte_of_string "89", None)])).
Proof.
  refine (@agreement_is_readable CryptoTheorems.demo_x509 ops0 laws0 full0 std_range vault0 sgn0 open_network conn_a
    (fun _ => None) owner_a peer_a nobody_done [] 3 ∅ publisher_a ServerTheorems.demo_os SystemTheorems.shares0
    SystemTheorems.index0 SystemTheorems.net0 0 scanner1 ServerTheorems.demo_index world_ab client_a table1 [] "a.txt"
    demo_info ServerTheorems.demo_text world_ab world_ab client_b None 1000 SystemTheorems.fetcher0 Frontend.new_frontend
    [(0, 4); (8, 4)]%Z agree1 shared1 signed_in_b signed_in_b _ _ _ _ _); try done.
  repeat constructor; by vm_compute.
Defined.
End demo.
End SharingTheorems.
